(** * libultra path functions: a shallow embedding of [path_funcs.cpp]

    The file engine of libultra (directory creation, text files, deletion,
    moves, chunked copy, size accounting, pattern batches, mirror and flag
    files) is embedded as state-passing functions over an explicit model of
    the platform:

    - the directory structure is a finite tree of named entries, file
      contents live in a store indexed by the resolved path;
    - a path string is resolved by splitting on ['/'] and dropping empty
      components, so ["a//b"], ["a/b/"] and ["a/b"] name the same entry (the
      engine itself relies on this: it stats and removes regular files
      through names that carry a trailing separator); the components ["."]
      and [".."] are never entries of the tree and do not resolve. A
      platform that refuses a regular file named with a trailing separator
      differs here: what is stated about regular files is stated for names
      without one, and what is stated about whole runs of the delete loop
      is stated for trees of directories;
    - [stat] and [lstat] coincide: links and devices are [Special] entries;
    - only a regular file can be opened for reading; where a directory can
      be, it is the first read that fails, so what is stated about the
      bytes a copy reads is stated for sources that are not directories;
    - the two process-wide atomics are a field ([copyPercentage]) and a
      schedule of the values successive loads observe ([abortFileOp]);
    - transient [fopen] failures and short or failing writes come from
      schedules indexed by the number of calls made so far; so does what
      survives the closing of a file that was written: the code checks
      neither [fclose] nor the state of a stream after [close], so bytes
      a write had accepted can be lost without any sign;
    - [trace] records, newest first, the diagnostics sent to [logMessage]
      (as with [USING_LOGGING_DIRECTIVE]), every store to [copyPercentage],
      every pass of the open-retry loop and every [rmdir] issued by the
      delete engine together with the listing of the directory at that
      moment.

    Reads of regular files do not fail, and a file can be removed while it
    is open. [long long] values are integers wrapped to 64 bits,
    [int] to 32 bits. Loops over the file system take explicit fuel and
    return [None] when it runs out.

    The helpers [getParentDirFromPath], [getNameFromPath], [getFileName],
    [getFilesListByWildcards] and [getFilesListFromDirectory] and the
    constant [ROOT_PATH] are declared outside [path_funcs.cpp]; the engine is
    parameterised by them, and by whether [rename] replaces an existing
    destination. [rename] never moves a directory below itself, and a
    directory is enumerated as it was when it was opened. *)

From Stdlib Require Import String Ascii List ZArith Lia Bool Arith PeanoNat.
From Stdlib Require Import DecimalString.
Import ListNotations.

Local Open Scope string_scope.
Local Open Scope list_scope.

Infix "+++" := String.append (right associativity, at level 60).

(** ** Strings *)

Module Str.

(** [s.back()]; the C++ call is undefined on the empty string. *)
Fixpoint back (s : string) : option ascii :=
  match s with
  | EmptyString => None
  | String c s' => match s' with
                   | EmptyString => Some c
                   | String _ _ => back s'
                   end
  end.

(** [s.back() == '/'] *)
Definition ends_with_slash (s : string) : bool :=
  match back s with
  | Some c => Ascii.eqb c "/"
  | None => false
  end.

(** [s.substr(n)]: [None] stands for [std::out_of_range] ([n > s.size()]). *)
Fixpoint substr_from (n : nat) (s : string) : option string :=
  match n with
  | O => Some s
  | S n' => match s with
            | EmptyString => None
            | String _ s' => substr_from n' s'
            end
  end.

(** The pieces of [s] between separators, empty ones included. *)
Fixpoint split_slash (s : string) : list string :=
  match s with
  | EmptyString => [EmptyString]
  | String c s' =>
      if Ascii.eqb c "/" then EmptyString :: split_slash s'
      else match split_slash s' with
           | h :: t => String c h :: t
           | [] => [String c EmptyString]
           end
  end.

Definition nonempty (s : string) : bool := negb (String.eqb s EmptyString).

(** Path resolution: the non-empty components of [s]. *)
Definition resolve (s : string) : list string := filter nonempty (split_slash s).

(** A name that can be a directory entry. *)
Definition has_slash (s : string) : bool :=
  existsb (fun c => Ascii.eqb c "/") (list_ascii_of_string s).

Definition valid_name (s : string) : bool :=
  nonempty s && negb (has_slash s)
  && negb (String.eqb s ".") && negb (String.eqb s "..").

End Str.

(** ** The directory tree *)

Module FS.

#[local] Set Warnings "-register-all".

Inductive node : Type :=
| File : node
| Dir : bool -> list (string * node) -> node   (* readable?, entries *)
| Special : node.

Definition path := list string.

Fixpoint find_entry (x : string) (es : list (string * node)) : option node :=
  match es with
  | [] => None
  | (y, c) :: es' => if String.eqb x y then Some c else find_entry x es'
  end.

Fixpoint lookup (p : path) (n : node) : option node :=
  match p with
  | [] => Some n
  | x :: p' =>
      match n with
      | Dir _ es => match find_entry x es with
                    | Some c => lookup p' c
                    | None => None
                    end
      | _ => None
      end
  end.

(** Replace the entry [x], or add it after the existing ones. *)
Fixpoint put_entry (x : string) (c : node) (es : list (string * node))
  : list (string * node) :=
  match es with
  | [] => [(x, c)]
  | (y, d) :: es' =>
      if String.eqb x y then (x, c) :: es' else (y, d) :: put_entry x c es'
  end.

Definition drop_entry (x : string) (es : list (string * node))
  : list (string * node) :=
  filter (fun e => negb (String.eqb x (fst e))) es.

(** Set ([Some]) or delete ([None]) the entry at [p]; nothing happens when
    the parent of [p] is not a directory of the tree. *)
Fixpoint set_at (p : path) (v : option node) (n : node) : node :=
  match p with
  | [] => n
  | x :: p' =>
      match n with
      | Dir r es =>
          match p' with
          | [] => Dir r (match v with
                         | Some c => put_entry x c es
                         | None => drop_entry x es
                         end)
          | _ :: _ => match find_entry x es with
                      | Some c => Dir r (put_entry x (set_at p' v c) es)
                      | None => n
                      end
          end
      | _ => n
      end
  end.

Definition parent (p : path) : path := removelast p.

Definition is_dir (o : option node) : bool :=
  match o with Some (Dir _ _) => true | _ => false end.

Definition names (es : list (string * node)) : list string := map fst es.

(** Number of entries of a subtree, itself included. *)
Fixpoint size (n : node) : nat :=
  match n with
  | Dir _ es =>
      S ((fix sizes (l : list (string * node)) : nat :=
            match l with
            | [] => O
            | (_, c) :: l' => size c + sizes l'
            end) es)
  | _ => 1
  end.

(** Entry names are valid and pairwise distinct in every directory. *)
Fixpoint wf (n : node) : Prop :=
  match n with
  | Dir _ es =>
      NoDup (names es)
      /\ (fix all (l : list (string * node)) : Prop :=
            match l with
            | [] => True
            | (x, c) :: l' => Str.valid_name x = true /\ wf c /\ all l'
            end) es
  | _ => True
  end.

(** Only regular files and readable directories: nothing the delete engine
    cannot stat, enumerate or remove. *)
Fixpoint clean (n : node) : Prop :=
  match n with
  | File => True
  | Dir r es =>
      r = true
      /\ (fix all (l : list (string * node)) : Prop :=
            match l with
            | [] => True
            | (_, c) :: l' => clean c /\ all l'
            end) es
  | Special => False
  end.

End FS.

Import FS.

(** ** The process and its platform *)

Inductive event : Type :=
| EvLog (msg : string)                            (* logMessage(msg) *)
| EvStore (v : Z)                                 (* copyPercentage.store(v) *)
| EvOpen (src_ok dst_ok : bool)                   (* one pass of the open loop *)
| EvRmdir (dir : string) (listing : list string). (* rmdir(dir), entries then *)

Record world : Type := mkWorld {
  root : list (string * node);   (* the entries of the root directory *)
  data : path -> list Byte.byte;
  copyPercentage : Z;            (* std::atomic<int> copyPercentage *)
  abortFileOp : nat -> bool;     (* what the n-th load of abortFileOp sees *)
  loads : nat;
  fopen_fault : nat -> bool;     (* does the n-th open fail transiently *)
  fopens : nat;
  fwrite_cap : nat -> option nat;(* bytes the n-th write accepts at most *)
  fwrites : nat;
  fclose_keep : nat -> option nat;(* bytes of the file the n-th close keeps *)
  fcloses : nat;
  COPY_BUFFER_SIZE : nat;        (* size_t COPY_BUFFER_SIZE, not const *)
  trace : list event
}.

(** The whole tree: the root is a readable directory. *)
Definition tree (w : world) : node := Dir true (root w).

Definition set_tree (t : node) (w : world) : world :=
  match t with
  | Dir _ es =>
      mkWorld es (data w) (copyPercentage w) (abortFileOp w) (loads w)
              (fopen_fault w) (fopens w) (fwrite_cap w) (fwrites w)
              (fclose_keep w) (fcloses w) (COPY_BUFFER_SIZE w) (trace w)
  | _ => w
  end.

Definition set_data (d : path -> list Byte.byte) (w : world) : world :=
  mkWorld (root w) d (copyPercentage w) (abortFileOp w) (loads w)
          (fopen_fault w) (fopens w) (fwrite_cap w) (fwrites w)
          (fclose_keep w) (fcloses w) (COPY_BUFFER_SIZE w) (trace w).

Definition set_loads (n : nat) (w : world) : world :=
  mkWorld (root w) (data w) (copyPercentage w) (abortFileOp w) n
          (fopen_fault w) (fopens w) (fwrite_cap w) (fwrites w)
          (fclose_keep w) (fcloses w) (COPY_BUFFER_SIZE w) (trace w).

Definition set_fopens (n : nat) (w : world) : world :=
  mkWorld (root w) (data w) (copyPercentage w) (abortFileOp w) (loads w)
          (fopen_fault w) n (fwrite_cap w) (fwrites w)
          (fclose_keep w) (fcloses w) (COPY_BUFFER_SIZE w) (trace w).

Definition set_fwrites (n : nat) (w : world) : world :=
  mkWorld (root w) (data w) (copyPercentage w) (abortFileOp w) (loads w)
          (fopen_fault w) (fopens w) (fwrite_cap w) n
          (fclose_keep w) (fcloses w) (COPY_BUFFER_SIZE w) (trace w).

Definition set_fcloses (n : nat) (w : world) : world :=
  mkWorld (root w) (data w) (copyPercentage w) (abortFileOp w) (loads w)
          (fopen_fault w) (fopens w) (fwrite_cap w) (fwrites w)
          (fclose_keep w) n (COPY_BUFFER_SIZE w) (trace w).

Definition emit (e : event) (w : world) : world :=
  mkWorld (root w) (data w) (copyPercentage w) (abortFileOp w) (loads w)
          (fopen_fault w) (fopens w) (fwrite_cap w) (fwrites w)
          (fclose_keep w) (fcloses w) (COPY_BUFFER_SIZE w) (e :: trace w).

(** [logMessage(msg)] *)
Definition logMessage (msg : string) (w : world) : world := emit (EvLog msg) w.

(** [copyPercentage.store(v, std::memory_order_release)] *)
Definition store_percentage (v : Z) (w : world) : world :=
  emit (EvStore v)
       (mkWorld (root w) (data w) v (abortFileOp w) (loads w)
                (fopen_fault w) (fopens w) (fwrite_cap w) (fwrites w)
                (fclose_keep w) (fcloses w) (COPY_BUFFER_SIZE w) (trace w)).

(** [abortFileOp.load(std::memory_order_acquire)] *)
Definition load_abort (w : world) : bool * world :=
  (abortFileOp w (loads w), set_loads (S (loads w)) w).

(** *** Machine integers *)

Definition wrap (bits : Z) (z : Z) : Z :=
  (z + 2 ^ (bits - 1)) mod 2 ^ bits - 2 ^ (bits - 1).

Definition LLONG_MAX : Z := 2 ^ 63 - 1.
Definition INT_MAX : Z := 2 ^ 31 - 1.

(** [a + b] on [long long] *)
Definition ll_add (a b : Z) : Z := wrap 64 (a + b).
(** [a * b] on [long long] *)
Definition ll_mul (a b : Z) : Z := wrap 64 (a * b).
(** [a / b] on [long long], rounding towards zero *)
Definition ll_div (a b : Z) : Z := wrap 64 (Z.quot a b).
(** [static_cast<int>(z)] *)
Definition to_int (z : Z) : Z := wrap 32 z.

(** [static_cast<int>(100 * copied / total)] *)
Definition percent_of (copied total : Z) : Z :=
  to_int (ll_div (ll_mul 100 copied) total).

(** *** System calls *)

Inductive kind : Type := KReg | KDir | KOther.

Definition node_at (t : node) (s : string) : option node :=
  if String.eqb s EmptyString then None else lookup (Str.resolve s) t.

Definition path_eqb (p q : path) : bool :=
  if list_eq_dec string_dec p q then true else false.

Definition store_set (d : path -> list Byte.byte) (p : path)
           (v : list Byte.byte) : path -> list Byte.byte :=
  fun q => if path_eqb p q then v else d q.

Definition file_size (w : world) (p : path) : Z :=
  Z.of_nat (List.length (data w p)).

(** [stat(s, &st) == 0], with the class of [st.st_mode] and [st.st_size]. *)
Definition stat (s : string) (w : world) : option (kind * Z) :=
  match node_at (tree w) s with
  | Some File => Some (KReg, file_size w (Str.resolve s))
  | Some (Dir _ _) => Some (KDir, 0%Z)
  | Some Special => Some (KOther, 0%Z)
  | None => None
  end.

(** Links are [Special] entries: [lstat] reports them as they are. *)
Definition lstat (s : string) (w : world) : option (kind * Z) := stat s w.

(** The names the entries of a directory are listed under. *)
Definition listing (t : node) (s : string) : list string :=
  match node_at t s with
  | Some (Dir _ es) => names es
  | _ => []
  end.

(** [opendir] followed by [readdir] until it returns null: [None] when the
    directory cannot be opened. *)
Definition readdir_all (s : string) (w : world) : option (list string) :=
  match node_at (tree w) s with
  | Some (Dir true es) => Some ("."%string :: ".."%string :: names es)
  | _ => None
  end.

Inductive errno : Type := EEXIST | ENOENT | ENOTDIR.

Definition strerror (e : errno) : string :=
  match e with
  | EEXIST => "File exists"
  | ENOENT => "No such file or directory"
  | ENOTDIR => "Not a directory"
  end.

(** [mkdir(s, 0777)]: [None] is success. *)
Definition mkdir (s : string) (w : world) : option errno * world :=
  if String.eqb s EmptyString then (Some ENOENT, w) else
  let p := Str.resolve s in
  match lookup p (tree w) with
  | Some _ => (Some EEXIST, w)
  | None =>
      match lookup (parent p) (tree w) with
      | Some (Dir _ _) => (None, set_tree (set_at p (Some (Dir true [])) (tree w)) w)
      | Some _ => (Some ENOTDIR, w)
      | None => (Some ENOENT, w)
      end
  end.

(** [remove(s) == 0]: unlinks anything but a directory. *)
Definition remove (s : string) (w : world) : bool * world :=
  match node_at (tree w) s with
  | Some File | Some Special =>
      (true, set_tree (set_at (Str.resolve s) None (tree w)) w)
  | _ => (false, w)
  end.

(** [rmdir(s) == 0]: removes an empty directory. *)
Definition rmdir (s : string) (w : world) : bool * world :=
  match node_at (tree w) s with
  | Some (Dir _ []) =>
      match Str.resolve s with
      | [] => (false, w)
      | p => (true, set_tree (set_at p None (tree w)) w)
      end
  | _ => (false, w)
  end.

Inductive open_mode : Type :=
| ReadBinary       (* "rb", std::ios::binary on an ifstream *)
| WriteBinary      (* "wb", an ofstream: created or truncated *)
| AppendText.      (* "a", std::ios::app: created, never truncated *)

(** [fopen(s, mode) != nullptr] / [stream.open(s, mode); stream.is_open()] *)
Definition fopen (s : string) (m : open_mode) (w : world) : bool * world :=
  let faulty := fopen_fault w (fopens w) in
  let w := set_fopens (S (fopens w)) w in
  if faulty then (false, w) else
  let p := Str.resolve s in
  match node_at (tree w) s with
  | Some File =>
      match m with
      | WriteBinary => (true, set_data (store_set (data w) p []) w)
      | _ => (true, w)
      end
  | Some _ => (false, w)
  | None =>
      match m with
      | ReadBinary => (false, w)
      | _ =>
          if String.eqb s EmptyString then (false, w) else
          if is_dir (lookup (parent p) (tree w)) then
            (true, set_data (store_set (data w) p [])
                            (set_tree (set_at p (Some File) (tree w)) w))
          else (false, w)
      end
  end.

(** Bytes appended to an open file; lost when it has been unlinked. *)
Definition append_bytes (s : string) (bs : list Byte.byte) (w : world) : world :=
  match node_at (tree w) s with
  | Some File =>
      let p := Str.resolve s in
      set_data (store_set (data w) p (data w p ++ bs)) w
  | _ => w
  end.

(** One [fwrite] / [ostream::write] of [bs]: the number of bytes taken. *)
Definition fwrite (s : string) (bs : list Byte.byte) (w : world) : nat * world :=
  let n := match fwrite_cap w (fwrites w) with
           | None => List.length bs
           | Some k => Nat.min k (List.length bs)
           end in
  (n, append_bytes s (firstn n bs) (set_fwrites (S (fwrites w)) w)).

(** [fclose] / [stream.close()] / the destructor of a stream that was
    written to, while its file is still there. The code never looks at the
    result: what the stream had taken but the medium does not keep is lost
    without a word, and the file is left with its first bytes only. *)
Definition fclose (s : string) (w : world) : world :=
  let keep := fclose_keep w (fcloses w) in
  let w1 := set_fcloses (S (fcloses w)) w in
  match keep with
  | None => w1
  | Some k =>
      match node_at (tree w1) s with
      | Some File =>
          let p := Str.resolve s in
          set_data (store_set (data w1) p (firstn k (data w1 p))) w1
      | _ => w1
      end
  end.

(** The successive non-empty results of reading [n] bytes at a time. *)
Fixpoint read_chunks_from (fuel n : nat) (l : list Byte.byte)
  : list (list Byte.byte) :=
  match fuel with
  | O => []
  | S fuel' =>
      match firstn n l with
      | [] => []
      | c => c :: read_chunks_from fuel' n (skipn n l)
      end
  end.

Definition read_chunks (n : nat) (l : list Byte.byte) : list (list Byte.byte) :=
  read_chunks_from (List.length l) n l.

(** [std::to_string(n)] *)
Definition to_string (n : nat) : string :=
  DecimalString.NilEmpty.string_of_uint (Nat.to_uint n).

Definition newline : string := String (ascii_of_nat 10) EmptyString.

(** Which [return] a call of [copySingleFile] took (the function itself
    returns nothing). *)
Inductive copy_status : Type :=
| CopyOpenFailed     (* "Error max retry count exceeded." *)
| CopyAborted        (* abortFileOp seen set at a chunk *)
| CopyWriteFailed    (* a write made no progress / the stream went bad *)
| CopyDone.          (* the read loop ran to the end of the source *)

(** What a call that may throw or be cut off by the fuel yields. *)
Inductive outcome (A : Type) : Type :=
| Returned (a : A)
| OutOfFuel
| OutOfRange.        (* std::out_of_range from substr *)

Arguments Returned {A} a.
Arguments OutOfFuel {A}.
Arguments OutOfRange {A}.

(** ** More of the platform: typed enumeration, renaming *)

Definition kind_of (n : node) : kind :=
  match n with
  | File => KReg
  | Dir _ _ => KDir
  | Special => KOther
  end.

(** [opendir] and the [readdir] loop again, each entry with the class its
    [d_type] stands for ([DT_DIR] is [KDir]). The enumeration is taken when
    the directory is opened: what is moved out of the directory while the
    loop runs does not change it. *)
Definition readdir_typed (s : string) (w : world) : option (list (string * kind)) :=
  match node_at (tree w) s with
  | Some (Dir true es) =>
      Some (("."%string, KDir) :: (".."%string, KDir)
            :: map (fun e => (fst e, kind_of (snd e))) es)
  | _ => None
  end.

(** What is left of [q] once the leading [p] is taken off. *)
Fixpoint strip_prefix (p q : path) : option path :=
  match p with
  | [] => Some q
  | x :: p' =>
      match q with
      | [] => None
      | y :: q' => if String.eqb x y then strip_prefix p' q' else None
      end
  end.

Definition is_prefix (p q : path) : bool :=
  match strip_prefix p q with Some _ => true | None => false end.

(** The store once what was kept under [p] is kept under [q]. *)
Definition store_move (d : path -> list Byte.byte) (p q : path)
  : path -> list Byte.byte :=
  fun r => match strip_prefix q r with
           | Some rest => d (p ++ rest)
           | None => d r
           end.

Inductive rename_errno : Type :=
| RENOENT | REEXIST | RENOTDIR | REINVAL | REISDIR | RENOTEMPTY.

Definition rename_strerror (e : rename_errno) : string :=
  match e with
  | RENOENT => "No such file or directory"
  | REEXIST => "File exists"
  | RENOTDIR => "Not a directory"
  | REINVAL => "Invalid argument"
  | REISDIR => "Is a directory"
  | RENOTEMPTY => "Directory not empty"
  end.

(** The entry [n] found at [p] is taken out and put at [q], contents
    included. *)
Definition move_entry (p q : path) (n : node) (w : world) : world :=
  set_data (store_move (data w) p q)
           (set_tree (set_at q (Some n) (set_at p None (tree w))) w).

(** [rename(from, to)]: [None] is success. [overwrites] tells whether an
    existing destination is replaced when the kinds allow it, as POSIX
    prescribes, or is an error in every case, as on the console's file
    system. A directory is never moved below itself. *)
Definition rename (overwrites : bool) (from to : string) (w : world)
  : option rename_errno * world :=
  match node_at (tree w) from with
  | None => (Some RENOENT, w)
  | Some n =>
      if String.eqb to EmptyString then (Some RENOENT, w) else
      let p := Str.resolve from in
      let q := Str.resolve to in
      match lookup q (tree w) with
      | Some d =>
          if overwrites then
            if path_eqb p q then (None, w)
            else if is_prefix p q then (Some REINVAL, w)
            else
              match n, d with
              | Dir _ _, Dir _ [] => (None, move_entry p q n w)
              | Dir _ _, Dir _ (_ :: _) => (Some RENOTEMPTY, w)
              | Dir _ _, _ => (Some RENOTDIR, w)
              | _, Dir _ _ => (Some REISDIR, w)
              | _, _ => (None, move_entry p q n w)
              end
          else (Some REEXIST, w)
      | None =>
          if is_prefix p q then (Some REINVAL, w) else
          match lookup (parent q) (tree w) with
          | Some (Dir _ _) => (None, move_entry p q n w)
          | Some _ => (Some RENOTDIR, w)
          | None => (Some RENOENT, w)
          end
      end
  end.

(** [s.substr(0, s.size() - 1)] of a non-empty [s] *)
Fixpoint without_last (s : string) : string :=
  match s with
  | EmptyString => EmptyString
  | String c s' =>
      match s' with
      | EmptyString => EmptyString
      | String _ _ => String c (without_last s')
      end
  end.

(** [(!s.empty() && s.back() == '/' ? s.substr(0, s.size() - 1) : s)] *)
Definition chop_slash (s : string) : string :=
  if Str.ends_with_slash s then without_last s else s.

(** ** Sample helpers and states

    Instances of the helpers that are declared outside the sources at hand,
    and small states, used where a statement is evaluated on a concrete
    input. *)

Module Sample.

Fixpoint upto_last_slash (s : string) : option string :=
  match s with
  | EmptyString => None
  | String c s' =>
      match upto_last_slash s' with
      | Some r => Some (String c r)
      | None => if Ascii.eqb c "/" then Some (String c EmptyString) else None
      end
  end.

(** The path up to and including its last separator. *)
Definition parentDir (s : string) : string :=
  match upto_last_slash s with Some r => r | None => s end.

(** The last component of the path. *)
Definition nameOf (s : string) : string := last (Str.resolve s) EmptyString.

Definition volume : string := "sdmc:/".

Definition bytes (n : nat) : list Byte.byte := repeat Byte.x41 n.

Definition no_abort : nat -> bool := fun _ => false.
Definition no_fault : nat -> bool := fun _ => false.
Definition no_cap : nat -> option nat := fun _ => None.
Definition no_loss : nat -> option nat := fun _ => None.

(** The tree of the specification's scenario under the volume:
    [a/b.txt] (4 bytes) and [a/c/d.txt] (4096 bytes). *)
Definition tree_a : list (string * node) :=
  [("sdmc:",
    Dir true
      [("a", Dir true [("b.txt", File);
                       ("c", Dir true [("d.txt", File)])])])].

Definition data_a : path -> list Byte.byte :=
  fun p =>
    if path_eqb p ["sdmc:"; "a"; "b.txt"] then bytes 4
    else if path_eqb p ["sdmc:"; "a"; "c"; "d.txt"] then bytes 4096
    else [].

(** An idle process over [tree_a], with the default 16 KiB buffer. *)
Definition world_a : world :=
  mkWorld tree_a data_a (-1) no_abort 0 no_fault 0 no_cap 0 no_loss 0 (4096 * 4) [].

(** The same with a buffer of 1 KiB, so that [d.txt] takes four chunks,
    under a given schedule for [abortFileOp]. *)
Definition world_chunked (abort : nat -> bool) : world :=
  mkWorld tree_a data_a (-1) abort 0 no_fault 0 no_cap 0 no_loss 0 1024 [].

(** [abortFileOp] is set between the first and the second load. *)
Definition abort_after_first : nat -> bool := fun n => Nat.leb 1 n.

(** A volume with one empty file, [in/empty.txt]. *)
Definition tree_e : list (string * node) :=
  [("sdmc:", Dir true [("in", Dir true [("empty.txt", File)])])].

Definition world_e : world :=
  mkWorld tree_e (fun _ => []) (-1) no_abort 0 no_fault 0 no_cap 0 no_loss 0 (4096 * 4) [].

(** The expansion of [sdmc:/in/*] there. *)
Definition glob_e : world -> string -> list string :=
  fun _ _ => ["sdmc:/in/empty.txt"].

(** The expansion of [sdmc:/a/*] on [tree_a]. *)
Definition glob_a : world -> string -> list string :=
  fun _ _ => ["sdmc:/a/b.txt"; "sdmc:/a/c"].

(** A directory with a file of 5 bytes, a directory that cannot be opened
    (holding 7 bytes) and a link. *)
Definition tree_u : list (string * node) :=
  [("sdmc:",
    Dir true
      [("u", Dir true [("f", File);
                       ("locked", Dir false [("g", File)]);
                       ("link", Special)])])].

Definition data_u : path -> list Byte.byte :=
  fun p =>
    if path_eqb p ["sdmc:"; "u"; "f"] then bytes 5
    else if path_eqb p ["sdmc:"; "u"; "locked"; "g"] then bytes 7
    else [].

Definition world_u : world :=
  mkWorld tree_u data_u (-1) no_abort 0 no_fault 0 no_cap 0 no_loss 0 (4096 * 4) [].

(** Directories only, three levels deep below [sdmc:/t/]: [t/u/v] and
    [t/x]. *)
Definition entries_t : list (string * node) :=
  [("u", Dir true [("v", Dir true [])]); ("x", Dir true [])].

Definition tree_t : list (string * node) :=
  [("sdmc:", Dir true [("t", Dir true entries_t)])].

Definition world_t : world :=
  mkWorld tree_t (fun _ => []) (-1) no_abort 0 no_fault 0 no_cap 0 no_loss 0
          (4096 * 4) [].

(** What a call left behind, for a run known to return. *)
Definition result_of (r : option world) : world :=
  match r with Some w' => w' | None => world_a end.

(** A pattern expansion that matches nothing. *)
Definition glob_none : world -> string -> list string := fun _ _ => [].

(** A flat listing of [sdmc:/a/]. *)
Definition list_a : world -> string -> list string :=
  fun _ _ => ["sdmc:/a/b.txt"; "sdmc:/a/c/d.txt"].

End Sample.

(** ** More sample states *)

Module Scenario.

Import Sample.

(** [world_a] on a medium that takes no byte of any write. *)
Definition world_full : world :=
  mkWorld tree_a data_a (-1) no_abort 0 no_fault 0 (fun _ => Some O) 0 no_loss 0 (4096 * 4) [].

(** The entries of [sdmc:/a/] in [tree_a]. *)
Definition entries_a : list (string * node) :=
  [("b.txt", File); ("c", Dir true [("d.txt", File)])].

(** [world_a] on a medium where the first close of a written file keeps
    one byte of it. *)
Definition keep_one : nat -> option nat :=
  fun n => match n with O => Some 1 | S _ => None end.

Definition world_lossy : world :=
  mkWorld tree_a data_a (-1) no_abort 0 no_fault 0 no_cap 0 keep_one 0 (4096 * 4) [].

(** A text with a NUL after its second character. *)
Definition text_nul : string :=
  String "a" (String "b" (String Ascii.zero "cd")).

(** What a copy left behind, for a run known to return. *)
Definition outcome_of (r : option (Z * world)) : Z * world :=
  match r with Some p => p | None => (0%Z, world_a) end.

End Scenario.

(** ** The engine *)

Section Engine.

Set Default Proof Using "Type".

(** Build-time choice between the [FILE*] and the stream code. *)
Variable NO_FSTREAM_DIRECTIVE : bool.

(** Declared in headers that are not part of the sources at hand. *)
Variable ROOT_PATH : string.
Variable getParentDirFromPath : string -> string.
Variable getNameFromPath : string -> string.
Variable getFilesListByWildcards : world -> string -> list string.
Variable getFilesListFromDirectory : world -> string -> list string.

(** [isDirectory], [isFile], [isFileOrDirectory] (path_funcs.cpp 52-81):
    one [stat] each, [false] when it fails. *)
Definition isDirectory (path : string) (w : world) : bool :=
  match stat path w with Some (KDir, _) => true | _ => false end.

Definition isFile (path : string) (w : world) : bool :=
  match stat path w with Some (KReg, _) => true | _ => false end.

Definition isFileOrDirectory (path : string) (w : world) : bool :=
  match stat path w with Some _ => true | None => false end.

(** [createSingleDirectory] (90-100): only an error other than [EEXIST] is
    reported. *)
Definition createSingleDirectory (directoryPath : string) (w : world) : world :=
  match mkdir directoryPath w with
  | (None, w') => w'
  | (Some EEXIST, w') => w'
  | (Some e, w') =>
      logMessage ("Failed to create directory: " +++ directoryPath
                  +++ " - " +++ strerror e) w'
  end.

(** The [while ((nextPos = path.find('/', pos)) != npos)] loop and the final
    level after it: [rest] is what lies beyond the scan, [seg] the characters
    from [pos] up to it. *)
Fixpoint createDirectory_walk (rest seg parentPath : string) (w : world) : world :=
  match rest with
  | EmptyString =>
      if String.eqb seg EmptyString then w
      else createSingleDirectory (parentPath +++ seg) w
  | String c rest' =>
      if Ascii.eqb c "/" then
        if String.eqb seg EmptyString then
          createDirectory_walk rest' EmptyString parentPath w
        else
          let parentPath' := parentPath +++ seg +++ "/" in
          createDirectory_walk rest' EmptyString parentPath'
                               (createSingleDirectory parentPath' w)
      else createDirectory_walk rest' (seg +++ String c EmptyString) parentPath w
  end.

(** [createDirectory] (110-136): the volume prefix is stripped when
    present and the walk starts from the volume. *)
Definition createDirectory (directoryPath : string) (w : world) : world :=
  let volume := ROOT_PATH in
  let path :=
    if String.prefix volume directoryPath then
      match Str.substr_from (String.length volume) directoryPath with
      | Some rest => rest
      | None => directoryPath
      end
    else directoryPath in
  createDirectory_walk path EmptyString volume w.

(** [writeLog] (139-161); a log handle is the path it was opened with. *)
Definition writeLog (logFile : option string) (line : string) (w : world) : world :=
  match logFile with
  | Some f => append_bytes f (list_byte_of_string (line +++ newline)) w
  | None => logMessage "Failed to write to log file." w
  end.

(** [if (logFile.is_open()) writeLog(logFile, line);] *)
Definition log_if_open (logFile : option string) (line : string) (w : world) : world :=
  match logFile with
  | Some _ => writeLog logFile line w
  | None => w
  end.

(** The block every operation opens its log with. *)
Definition open_log (logPath failure : string) (w : world) : option string * world :=
  if String.eqb logPath EmptyString then (None, w) else
  let w1 := createDirectory (getParentDirFromPath logPath) w in
  match fopen logPath AppendText w1 with
  | (true, w2) => (Some logPath, w2)
  | (false, w2) => (None, logMessage (failure +++ logPath) w2)
  end.

(** [fileName == "." || fileName == ".."] *)
Definition is_dot (fileName : string) : bool :=
  String.eqb fileName "." || String.eqb fileName "..".

(** What is pushed for an entry (306-307). *)
Definition child_path (currentPath fileName : string) : string :=
  let filePath := currentPath +++ fileName in
  filePath +++ (if Str.ends_with_slash filePath then "" else "/").

(** [while (!stack.empty())] of [deleteFileOrDirectory]; the head of the
    list is [stack.back()]. *)
Fixpoint delete_loop (fuel : nat) (logSourceFile : option string)
         (stack : list string) (w : world) : option world :=
  match stack with
  | [] => Some w
  | currentPath :: below =>
      match fuel with
      | O => None
      | S fuel' =>
          match stat currentPath w with
          | None => delete_loop fuel' logSourceFile below w
          | Some (KReg, _) =>
              match remove currentPath w with
              | (true, w1) =>
                  delete_loop fuel' logSourceFile below
                              (log_if_open logSourceFile currentPath w1)
              | (false, w1) =>
                  delete_loop fuel' logSourceFile below
                              (logMessage ("Failed to delete file: " +++ currentPath) w1)
              end
          | Some (KDir, _) =>
              match readdir_all currentPath w with
              | None =>
                  delete_loop fuel' logSourceFile below
                              (logMessage ("Failed to open directory: " +++ currentPath) w)
              | Some entries =>
                  match filter (fun n => negb (is_dot n)) entries with
                  | [] =>
                      let w0 := emit (EvRmdir currentPath
                                              (listing (tree w) currentPath)) w in
                      match rmdir currentPath w0 with
                      | (true, w1) => delete_loop fuel' logSourceFile below w1
                      | (false, w1) =>
                          delete_loop fuel' logSourceFile below
                                      (logMessage ("Failed to delete directory: "
                                                   +++ currentPath) w1)
                      end
                  | children =>
                      delete_loop fuel' logSourceFile
                                  (rev (map (child_path currentPath) children) ++ stack) w
                  end
              end
          | Some (KOther, _) =>
              delete_loop fuel' logSourceFile below
                          (logMessage ("Unknown file type: " +++ currentPath) w)
          end
      end
  end.

(** [deleteFileOrDirectory] (205-330): the log is opened first, then the
    path is taken for a file unless it ends in a separator. *)
Definition deleteFileOrDirectory (fuel : nat) (pathToDelete logSource : string)
           (w : world) : option world :=
  let pathIsFile := negb (Str.ends_with_slash pathToDelete) in
  let (logSourceFile, w0) :=
    open_log logSource "Failed to open source log file: " w in
  if pathIsFile then
    if isFile pathToDelete w0 then
      match remove pathToDelete w0 with
      | (true, w1) => Some (log_if_open logSourceFile pathToDelete w1)
      | (false, w1) =>
          Some (logMessage ("Failed to delete file: " +++ pathToDelete) w1)
      end
    else Some w0
  else delete_loop fuel logSourceFile [pathToDelete] w0.

(** [deleteFileOrDirectoryByPattern] (340-348) *)
Fixpoint delete_each (fuel : nat) (fileList : list string) (logSource : string)
         (w : world) : option world :=
  match fileList with
  | [] => Some w
  | path :: rest =>
      match deleteFileOrDirectory fuel path logSource w with
      | Some w' => delete_each fuel rest logSource w'
      | None => None
      end
  end.

Definition deleteFileOrDirectoryByPattern (fuel : nat) (pathPattern logSource : string)
           (w : world) : option world :=
  delete_each fuel (getFilesListByWildcards w pathPattern) logSource w.

(** ** Copying one file *)

(** [size_t maxRetries = 10;] (668) *)
Definition maxRetries : nat := 10.

(** The open loop of [copySingleFile]; [slack] is [maxRetries - retryCount]
    and only bounds the recursion. *)
Fixpoint open_loop (slack retryCount : nat) (fromFile toFile : string)
         (w : world) : bool * world :=
  let (src, w1) := fopen fromFile ReadBinary w in
  let (dst, w2) := fopen toFile WriteBinary w1 in
  let w3 := emit (EvOpen src dst) w2 in
  if src && dst then (true, w3) else
  let w4 := logMessage ("Error opening files for copying. Retry #"
                        +++ to_string retryCount) w3 in
  let retryCount' := S retryCount in
  if Nat.ltb maxRetries retryCount' then
    (false, logMessage "Error max retry count exceeded." w4)
  else
    match slack with
    | S slack' => open_loop slack' retryCount' fromFile toFile w4
    | O => (false, logMessage "Error max retry count exceeded." w4)
    end.

(** [while (bytesWritten < bytesRead)] of the [FILE*] code. *)
Fixpoint fwrite_all (fuel : nat) (toFile : string) (pending : list Byte.byte)
         (w : world) : bool * world :=
  match fuel with
  | O => (true, w)
  | S fuel' =>
      match pending with
      | [] => (true, w)
      | _ :: _ =>
          let (written, w1) := fwrite toFile pending w in
          if Nat.eqb written 0 then (false, w1)
          else fwrite_all fuel' toFile (skipn written pending) w1
      end
  end.

(** Writing one chunk: the inner loop, or one [destFile.write]. *)
Definition write_chunk (toFile : string) (chunk : list Byte.byte) (w : world)
  : bool * world :=
  if NO_FSTREAM_DIRECTIVE then fwrite_all (List.length chunk) toFile chunk w
  else
    let (written, w1) := fwrite toFile chunk w in
    (Nat.eqb written (List.length chunk), w1).

(** The transfer loop over the chunks read from the source. *)
Fixpoint copy_chunks (chunks : list (list Byte.byte)) (toFile : string)
         (totalBytesCopied totalSize : Z) (w : world) : copy_status * Z * world :=
  match chunks with
  | [] => (CopyDone, totalBytesCopied, w)
  | chunk :: rest =>
      let (abort, w1) := load_abort w in
      if abort then
        (CopyAborted, totalBytesCopied,
         store_percentage (-1) (snd (remove toFile w1)))
      else
        let (ok, w2) := write_chunk toFile chunk w1 in
        if ok then
          let copied := ll_add totalBytesCopied (Z.of_nat (List.length chunk)) in
          let w3 := if (0 <? totalSize)%Z
                    then store_percentage (percent_of copied totalSize) w2
                    else w2 in
          copy_chunks rest toFile copied totalSize w3
        else
          (CopyWriteFailed, totalBytesCopied,
           store_percentage (-1)
             (snd (remove toFile
                          (logMessage "Error writing to destination file." w2))))
  end.

(** The end of [copySingleFile] (771-773, 853-857): with [FILE*] the log
    lines are written and the guards then close the files; with streams
    [destFile.close()] comes first. *)
Definition finish_copy (logSourceFile logDestinationFile : option string)
           (fromFile toFile : string) (w : world) : world :=
  if NO_FSTREAM_DIRECTIVE then
    fclose toFile
           (log_if_open logDestinationFile toFile
                        (log_if_open logSourceFile fromFile w))
  else
    log_if_open logDestinationFile toFile
                (log_if_open logSourceFile fromFile (fclose toFile w)).

(** [copySingleFile] (666-859); the result carries, besides the state, which
    return was taken and what [totalBytesCopied] holds. On the two early
    returns of the transfer loop the destination is unlinked, so that what
    its closing keeps does not matter; at the end of the function it is
    closed with its file in place. *)
Definition copySingleFile (fromFile toFile : string) (totalBytesCopied totalSize : Z)
           (logSource logDestination : string) (w : world)
  : copy_status * Z * world :=
  let w0 := createDirectory (getParentDirFromPath toFile) w in
  match open_loop maxRetries 0 fromFile toFile w0 with
  | (false, w1) => (CopyOpenFailed, totalBytesCopied, w1)
  | (true, w1) =>
      let (logSourceFile, w2) :=
        open_log logSource "Failed to open source log file: " w1 in
      let (logDestinationFile, w3) :=
        open_log logDestination "Failed to open destination log file: " w2 in
      let chunks := read_chunks (COPY_BUFFER_SIZE w3)
                                (data w3 (Str.resolve fromFile)) in
      match copy_chunks chunks toFile totalBytesCopied totalSize w3 with
      | (CopyDone, copied, w4) =>
          (CopyDone, copied,
           finish_copy logSourceFile logDestinationFile fromFile toFile w4)
      | r => r
      end
  end.

(** ** Size accounting *)

(** The [readdir] loop of [getTotalSize] over one directory. *)
Fixpoint size_entries (currentPath : string) (entries : list string)
         (totalSize : Z) (directories : list string) (w : world)
  : Z * list string :=
  match entries with
  | [] => (totalSize, directories)
  | name :: rest =>
      if is_dot name then size_entries currentPath rest totalSize directories w
      else
        let newPath := currentPath +++ "/" +++ name in
        match lstat newPath w with
        | Some (KReg, st_size) =>
            size_entries currentPath rest (ll_add totalSize st_size) directories w
        | Some (KDir, _) =>
            size_entries currentPath rest totalSize (directories ++ [newPath]) w
        | _ => size_entries currentPath rest totalSize directories w
        end
  end.

(** [while (!directories.empty())]; the head of the list is the front of
    the queue. *)
Fixpoint size_loop (fuel : nat) (directories : list string) (totalSize : Z)
         (w : world) : option Z :=
  match directories with
  | [] => Some totalSize
  | currentPath :: queue =>
      match fuel with
      | O => None
      | S fuel' =>
          match readdir_all currentPath w with
          | None => size_loop fuel' queue totalSize w
          | Some entries =>
              let (t, q) := size_entries currentPath entries totalSize queue w in
              size_loop fuel' q t w
          end
      end
  end.

(** [getTotalSize] (866-915) *)
Definition getTotalSize (fuel : nat) (path : string) (w : world) : option Z :=
  match lstat path w with
  | None => Some 0%Z
  | Some (KReg, st_size) => Some st_size
  | Some (KDir, _) => size_loop fuel [path] 0%Z w
  | Some (KOther, _) => Some 0%Z
  end.

(** ** Copying files and directories *)

Definition sub_paths (currentFromPath currentToPath : string) (entries : list string)
  : list (string * string) :=
  map (fun name => (currentFromPath +++ "/" +++ name,
                    currentToPath +++ "/" +++ name))
      (filter (fun n => negb (is_dot n)) entries).

(** [while (currentDirectoryIndex < directories.size())]: the list holds the
    pairs from [currentDirectoryIndex] on; the boolean tells whether the loop
    ran to its end ([true]) or returned on an abort ([false]). *)
Fixpoint copy_loop (fuel : nat) (directories : list (string * string))
         (totalBytesCopied totalSize : Z) (logSource logDestination : string)
         (w : world) : option (bool * Z * world) :=
  match directories with
  | [] => Some (true, totalBytesCopied, w)
  | (currentFromPath, currentToPath) :: rest =>
      match fuel with
      | O => None
      | S fuel' =>
          let (abort, w1) := load_abort w in
          if abort then Some (false, totalBytesCopied, store_percentage (-1) w1)
          else
            match stat currentFromPath w1 with
            | None =>
                copy_loop fuel' rest totalBytesCopied totalSize logSource logDestination
                          (logMessage ("Failed to get stat of " +++ currentFromPath) w1)
            | Some (KReg, _) =>
                let filename := getNameFromPath currentFromPath in
                let toFilePath :=
                  getParentDirFromPath currentToPath +++ "/" +++ filename in
                let w2 := createDirectory (getParentDirFromPath toFilePath) w1 in
                let '(_, copied, w3) :=
                  copySingleFile currentFromPath toFilePath totalBytesCopied
                                 totalSize logSource logDestination w2 in
                let w4 := if (0 <? totalSize)%Z
                          then store_percentage (percent_of copied totalSize) w3
                          else w3 in
                copy_loop fuel' rest copied totalSize logSource logDestination w4
            | Some (KDir, _) =>
                match readdir_all currentFromPath w1 with
                | None =>
                    copy_loop fuel' rest totalBytesCopied totalSize
                              logSource logDestination
                              (logMessage ("Failed to open directory: "
                                           +++ currentFromPath) w1)
                | Some entries =>
                    copy_loop fuel'
                              (rest ++ sub_paths currentFromPath currentToPath entries)
                              totalBytesCopied totalSize logSource logDestination w1
                end
            | Some (KOther, _) =>
                copy_loop fuel' rest totalBytesCopied totalSize
                          logSource logDestination w1
            end
      end
  end.

(** [copyFileOrDirectory] (927-1007). [totalBytesCopied] is the pointer
    argument: [None] for [nullptr]. The result carries what the pointed-to
    accumulator holds on return. *)
Definition copyFileOrDirectory (fuel : nat) (fromPath toPath : string)
           (totalBytesCopied : option Z) (totalSize : Z)
           (logSource logDestination : string) (w : world)
  : option (Z * world) :=
  let isTopLevelCall :=
    match totalBytesCopied with None => true | Some _ => false end in
  match (if isTopLevelCall then getTotalSize fuel fromPath w else Some totalSize) with
  | None => None
  | Some totalSize =>
      let copied0 := match totalBytesCopied with None => 0%Z | Some c => c end in
      if negb (Str.ends_with_slash toPath) then
        let w1 := createDirectory (getParentDirFromPath toPath) w in
        let '(_, copied, w2) :=
          copySingleFile fromPath toPath copied0 totalSize
                         logSource logDestination w1 in
        Some (copied, w2)
      else
        let w1 := createDirectory toPath w in
        match copy_loop fuel [(fromPath, toPath)] copied0 totalSize
                        logSource logDestination w1 with
        | None => None
        | Some (false, copied, w2) => Some (copied, w2)
        | Some (true, copied, w2) =>
            Some (copied,
                  if isTopLevelCall then store_percentage 100 w2 else w2)
        end
  end.

(** [for (path : fileList) totalSize += getTotalSize(path);] *)
Fixpoint sum_sizes (fuel : nat) (fileList : list string) (totalSize : Z)
         (w : world) : option Z :=
  match fileList with
  | [] => Some totalSize
  | path :: rest =>
      match getTotalSize fuel path w with
      | Some s => sum_sizes fuel rest (ll_add totalSize s) w
      | None => None
      end
  end.

(** [for (sourcePath : fileList) copyFileOrDirectory(sourcePath, toDirectory,
    &totalBytesCopied, totalSize, ...);] *)
Fixpoint copy_each (fuel : nat) (fileList : list string) (toDirectory : string)
         (totalBytesCopied totalSize : Z) (logSource logDestination : string)
         (w : world) : option (Z * world) :=
  match fileList with
  | [] => Some (totalBytesCopied, w)
  | sourcePath :: rest =>
      match copyFileOrDirectory fuel sourcePath toDirectory
                                (Some totalBytesCopied) totalSize
                                logSource logDestination w with
      | Some (copied, w') =>
          copy_each fuel rest toDirectory copied totalSize
                    logSource logDestination w'
      | None => None
      end
  end.

(** [copyFileOrDirectoryByPattern] (1018-1031) *)
Definition copyFileOrDirectoryByPattern (fuel : nat)
           (sourcePathPattern toDirectory logSource logDestination : string)
           (w : world) : option world :=
  let fileList := getFilesListByWildcards w sourcePathPattern in
  match sum_sizes fuel fileList 0%Z w with
  | None => None
  | Some totalSize =>
      match copy_each fuel fileList toDirectory 0%Z totalSize
                      logSource logDestination w with
      | Some (_, w') => Some w'
      | None => None
      end
  end.

(** ** Mirroring *)

(** [targetPath + path.substr(sourcePath.size())] *)
Definition mirror_target (sourcePath targetPath path : string) : option string :=
  match Str.substr_from (String.length sourcePath) path with
  | Some suffix => Some (targetPath +++ suffix)
  | None => None
  end.

(** The first loop of [mirrorFiles], run when [mode == "copy"]. *)
Fixpoint mirror_sizes (fuel : nat) (sourcePath targetPath : string)
         (fileList : list string) (totalSize : Z) (w : world) : outcome Z :=
  match fileList with
  | [] => Returned totalSize
  | path :: rest =>
      match mirror_target sourcePath targetPath path with
      | None => OutOfRange
      | Some updatedPath =>
          if String.eqb path updatedPath then
            mirror_sizes fuel sourcePath targetPath rest totalSize w
          else
            match getTotalSize fuel path w with
            | Some s =>
                mirror_sizes fuel sourcePath targetPath rest (ll_add totalSize s) w
            | None => OutOfFuel
            end
      end
  end.

(** The second loop; [copies] counts the calls of [copyFileOrDirectory]. *)
Fixpoint mirror_each (fuel : nat) (sourcePath targetPath mode : string)
         (fileList : list string) (totalBytesCopied totalSize : Z)
         (copies : nat) (w : world) : outcome (nat * world) :=
  match fileList with
  | [] => Returned (copies, w)
  | path :: rest =>
      match mirror_target sourcePath targetPath path with
      | None => OutOfRange
      | Some updatedPath =>
          if String.eqb mode "delete" then
            match deleteFileOrDirectory fuel updatedPath EmptyString w with
            | Some w' =>
                mirror_each fuel sourcePath targetPath mode rest
                            totalBytesCopied totalSize copies w'
            | None => OutOfFuel
            end
          else if String.eqb mode "copy" then
            if String.eqb path updatedPath then
              mirror_each fuel sourcePath targetPath mode rest
                          totalBytesCopied totalSize copies w
            else
              match copyFileOrDirectory fuel path updatedPath
                                        (Some totalBytesCopied) totalSize
                                        EmptyString EmptyString w with
              | Some (copied, w') =>
                  mirror_each fuel sourcePath targetPath mode rest
                              copied totalSize (S copies) w'
              | None => OutOfFuel
              end
          else
            mirror_each fuel sourcePath targetPath mode rest
                        totalBytesCopied totalSize copies w
      end
  end.

(** [mirrorFiles] (1043-1070); the calls of [deleteFileOrDirectory] and
    [copyFileOrDirectory] leave the log arguments to their defaults, taken to
    be empty. The result pairs the number of copy calls made with the final
    state. *)
Definition mirrorFiles (fuel : nat) (sourcePath targetPath mode : string)
           (w : world) : outcome (nat * world) :=
  let fileList := getFilesListFromDirectory w sourcePath in
  match (if String.eqb mode "copy"
         then mirror_sizes fuel sourcePath targetPath fileList 0%Z w
         else Returned 0%Z) with
  | Returned totalSize =>
      mirror_each fuel sourcePath targetPath mode fileList 0%Z totalSize O w
  | OutOfFuel => OutOfFuel
  | OutOfRange => OutOfRange
  end.

(** ** Flag files *)

(** [createFlagFiles] (1082-1114) *)
Definition createFlagFiles (wildcardPattern outputDir : string) (w : world) : world :=
  let allMatches := getFilesListByWildcards w wildcardPattern in
  match allMatches with
  | [] => w
  | _ :: _ =>
      let w1 := createDirectory outputDir w in
      let outputPrefix :=
        if Str.nonempty outputDir && negb (Str.ends_with_slash outputDir)
        then outputDir +++ "/" else outputDir in
      fold_left
        (fun w fullPath =>
           let baseName := getNameFromPath fullPath in
           if String.eqb baseName EmptyString then w
           else snd (fopen (outputPrefix +++ baseName) WriteBinary w))
        allMatches w1
  end.

(** ** Text files *)

(** [content.c_str()] as [fputs] reads it: up to the first NUL. *)
Fixpoint c_str (s : string) : string :=
  match s with
  | EmptyString => EmptyString
  | String c s' =>
      if Ascii.eqb c Ascii.zero then EmptyString else String c (c_str s')
  end.

(** [createTextFile] (172-196): ["w"] and the default mode of an output
    stream create or truncate like ["wb"]. [fputs] writes the content up to
    its first NUL, [<<] all of it; neither the write nor the closing is
    checked. *)
Definition createTextFile (filePath content : string) (w : world) : world :=
  let w1 := createDirectory (getParentDirFromPath filePath) w in
  match fopen filePath WriteBinary w1 with
  | (true, w2) =>
      let text := if NO_FSTREAM_DIRECTIVE then c_str content else content in
      fclose filePath (append_bytes filePath (list_byte_of_string text) w2)
  | (false, w2) => logMessage ("Error: Unable to create file " +++ filePath) w2
  end.

(** ** Moving *)

(** Declared in a header that is not part of the sources at hand. *)
Variable getFileName : string -> string.

(** Platform choice: does [rename] replace an existing destination. *)
Variable RENAME_OVERWRITES : bool.

(** [if (rmdir(path) != 0) logMessage(...)] (481-485, 488-492) *)
Definition rmdir_source (path : string) (w : world) : world :=
  match rmdir path w with
  | (true, w1) => w1
  | (false, w1) => logMessage ("Failed to delete source directory: " +++ path) w1
  end.

(** The [readdir] loop of [moveDirectory] over one directory (439-476): the
    heads of [stack] and of [directoriesToRemove] are their last elements. *)
Fixpoint move_entries (currentSource currentDestination : string)
         (entries : list (string * kind))
         (logSourceFile logDestinationFile : option string)
         (stack : list (string * string)) (directoriesToRemove : list string)
         (w : world) : list (string * string) * list string * world :=
  match entries with
  | [] => (stack, directoriesToRemove, w)
  | (name, d_type) :: rest =>
      if is_dot name then
        move_entries currentSource currentDestination rest
                     logSourceFile logDestinationFile stack directoriesToRemove w
      else
        let fullPathSrc := chop_slash currentSource +++ "/" +++ name in
        let fullPathDst := chop_slash currentDestination +++ "/" +++ name in
        match d_type with
        | KDir =>
            match mkdir fullPathDst w with
            | (None, w1) | (Some EEXIST, w1) =>
                move_entries currentSource currentDestination rest
                             logSourceFile logDestinationFile
                             ((fullPathSrc, fullPathDst) :: stack)
                             (fullPathSrc :: directoriesToRemove) w1
            | (Some _, w1) =>
                move_entries currentSource currentDestination rest
                             logSourceFile logDestinationFile
                             stack directoriesToRemove
                             (logMessage ("Failed to create destination directory: "
                                          +++ fullPathDst) w1)
            end
        | _ =>
            let w1 := snd (remove fullPathDst w) in
            match rename RENAME_OVERWRITES fullPathSrc fullPathDst w1 with
            | (Some _, w2) =>
                move_entries currentSource currentDestination rest
                             logSourceFile logDestinationFile
                             stack directoriesToRemove
                             (logMessage ("Failed to move: " +++ fullPathSrc) w2)
            | (None, w2) =>
                move_entries currentSource currentDestination rest
                             logSourceFile logDestinationFile
                             stack directoriesToRemove
                             (log_if_open logDestinationFile fullPathDst
                                          (log_if_open logSourceFile fullPathSrc w2))
            end
        end
  end.

(** [while (!stack.empty())] of [moveDirectory] (424-478) *)
Fixpoint move_loop (fuel : nat) (logSourceFile logDestinationFile : option string)
         (stack : list (string * string)) (directoriesToRemove : list string)
         (w : world) : option (list string * world) :=
  match stack with
  | [] => Some (directoriesToRemove, w)
  | (currentSource, currentDestination) :: below =>
      match fuel with
      | O => None
      | S fuel' =>
          match readdir_typed currentSource w with
          | None =>
              move_loop fuel' logSourceFile logDestinationFile below
                        directoriesToRemove
                        (logMessage ("Failed to open source directory: "
                                     +++ currentSource) w)
          | Some entries =>
              let '(stack', directoriesToRemove', w') :=
                move_entries currentSource currentDestination entries
                             logSourceFile logDestinationFile
                             below directoriesToRemove w in
              move_loop fuel' logSourceFile logDestinationFile stack'
                        directoriesToRemove' w'
          end
      end
  end.

(** [moveDirectory] (350-493) *)
Definition moveDirectory (fuel : nat)
           (sourcePath destinationPath logSource logDestination : string)
           (w : world) : option world :=
  match stat sourcePath w with
  | None => Some (logMessage ("Source directory doesn't exist: " +++ sourcePath) w)
  | Some _ =>
      let made :=
        match mkdir destinationPath w with
        | (None, w1) | (Some EEXIST, w1) => (true, w1)
        | (Some _, w1) => (false, w1)
        end in
      if negb (fst made) then
        Some (logMessage ("Failed to create destination directory: "
                          +++ destinationPath) (snd made))
      else
        let (logSourceFile, w2) :=
          open_log logSource "Failed to open source log file: " (snd made) in
        let (logDestinationFile, w3) :=
          open_log logDestination "Failed to open destination log file: " w2 in
        match move_loop fuel logSourceFile logDestinationFile
                        [(sourcePath, destinationPath)] [] w3 with
        | None => None
        | Some (directoriesToRemove, w4) =>
            Some (rmdir_source sourcePath
                    (fold_left (fun w d => rmdir_source d w) directoriesToRemove w4))
        end
  end.

(** [moveFile] (495-594) *)
Definition moveFile (sourcePath destinationPath logSource logDestination : string)
           (w : world) : world :=
  if negb (isFileOrDirectory sourcePath w) then
    logMessage ("Source file doesn't exist or is not a regular file: "
                +++ sourcePath) w
  else
    let (logSourceFile, w1) :=
      open_log logSource "Failed to open source log file: " w in
    let (logDestinationFile, w2) :=
      open_log logDestination "Failed to open destination log file: " w1 in
    if Str.ends_with_slash destinationPath then
      let w3 := if isDirectory destinationPath w2 then w2
                else createDirectory destinationPath w2 in
      let destFile := destinationPath +++ getFileName sourcePath in
      let w4 := snd (remove destFile w3) in
      match rename RENAME_OVERWRITES sourcePath destFile w4 with
      | (Some _, w5) =>
          logMessage ("Failed to move file to directory: " +++ sourcePath) w5
      | (None, w5) =>
          log_if_open logDestinationFile destFile
                      (log_if_open logSourceFile sourcePath w5)
      end
    else
      let w3 := snd (remove destinationPath w2) in
      let w4 := createDirectory (getParentDirFromPath destinationPath) w3 in
      match rename RENAME_OVERWRITES sourcePath destinationPath w4 with
      | (Some e, w5) =>
          logMessage ("Error: " +++ rename_strerror e)
                     (logMessage ("Failed to move file: " +++ sourcePath
                                  +++ " -> " +++ destinationPath) w5)
      | (None, w5) =>
          log_if_open logDestinationFile destinationPath
                      (log_if_open logSourceFile sourcePath w5)
      end.

(** [moveFileOrDirectory] (605-612) *)
Definition moveFileOrDirectory (fuel : nat)
           (sourcePath destinationPath logSource logDestination : string)
           (w : world) : option world :=
  if Str.ends_with_slash sourcePath && Str.ends_with_slash destinationPath then
    moveDirectory fuel sourcePath destinationPath logSource logDestination w
  else
    Some (moveFile sourcePath destinationPath logSource logDestination w).

(** The loop of [moveFilesOrDirectoriesByPattern] (638-654) *)
Fixpoint move_each (fuel : nat) (fileList : list string)
         (destinationPath logSource logDestination : string) (w : world)
  : option world :=
  match fileList with
  | [] => Some w
  | sourceFileOrDirectory :: rest =>
      let destination :=
        if isDirectory sourceFileOrDirectory w then
          let folderName := getNameFromPath sourceFileOrDirectory in
          destinationPath +++ folderName +++ "/"
        else destinationPath in
      match moveFileOrDirectory fuel sourceFileOrDirectory destination
                                logSource logDestination w with
      | Some w' => move_each fuel rest destinationPath logSource logDestination w'
      | None => None
      end
  end.

(** [moveFilesOrDirectoriesByPattern] (624-656) *)
Definition moveFilesOrDirectoriesByPattern (fuel : nat)
           (sourcePathPattern destinationPath logSource logDestination : string)
           (w : world) : option world :=
  move_each fuel (getFilesListByWildcards w sourcePathPattern)
            destinationPath logSource logDestination w.

(** ** Vocabulary of the statements *)

(** The values stored to [copyPercentage], newest first. *)
Fixpoint stores (tr : list event) : list Z :=
  match tr with
  | [] => []
  | EvStore v :: tr' => v :: stores tr'
  | _ :: tr' => stores tr'
  end.

(** The number of passes through the open loop. *)
Fixpoint open_passes (tr : list event) : nat :=
  match tr with
  | [] => O
  | EvOpen _ _ :: tr' => S (open_passes tr')
  | _ :: tr' => open_passes tr'
  end.

(** The listings recorded with the [rmdir] calls. *)
Fixpoint rmdir_listings (tr : list event) : list (list string) :=
  match tr with
  | [] => []
  | EvRmdir _ l :: tr' => l :: rmdir_listings tr'
  | _ :: tr' => rmdir_listings tr'
  end.

(** The diagnostics, newest first. *)
Fixpoint diagnostics (tr : list event) : list string :=
  match tr with
  | [] => []
  | EvLog m :: tr' => m :: diagnostics tr'
  | _ :: tr' => diagnostics tr'
  end.

(** What the open loop leaves alone. *)
Definition calm_view (w : world) :=
  (copyPercentage w, stores (trace w), rmdir_listings (trace w),
   loads w, fwrites w,
   abortFileOp w, fopen_fault w, fwrite_cap w, COPY_BUFFER_SIZE w).

(** What the calls that only touch the file system leave alone. *)
Definition quiet_view (w : world) := (open_passes (trace w), calm_view w).

Definition file_at (s : string) (w : world) : Prop :=
  node_at (tree w) s = Some File.

Definition total_length (chunks : list (list Byte.byte)) : Z :=
  Z.of_nat (List.length (List.concat chunks)).

(** The percentages a transfer of [chunks] is to publish, oldest first:
    [floor (100 * bytesSoFar / totalSize)] after each chunk. *)
Fixpoint progress_values (copied totalSize : Z) (chunks : list (list Byte.byte))
  : list Z :=
  match chunks with
  | [] => []
  | chunk :: rest =>
      let copied' := (copied + Z.of_nat (List.length chunk))%Z in
      (100 * copied' / totalSize)%Z :: progress_values copied' totalSize rest
  end.

Fixpoint nondecreasing (l : list Z) : Prop :=
  match l with
  | [] => True
  | x :: l' => match l' with
               | [] => True
               | y :: _ => (x <= y)%Z /\ nondecreasing l'
               end
  end.

(** What writing to a file leaves alone. *)
Definition io_view (w : world) :=
  (root w, copyPercentage w, trace w, loads w, fopens w,
   abortFileOp w, fopen_fault w, fwrite_cap w, COPY_BUFFER_SIZE w).

(** What the transfer loop leaves alone. *)
Definition sched_view (w : world) :=
  (open_passes (trace w), rmdir_listings (trace w),
   abortFileOp w, fopen_fault w, fwrite_cap w, COPY_BUFFER_SIZE w).

(** Between [w] and [w'] every content was kept or emptied. *)
Definition kept_or_emptied (w w' : world) : Prop :=
  forall p, data w' p = data w p \/ data w' p = [].

(** Every file of the store is at most [B] bytes long. *)
Definition bounded (B : Z) (w : world) : Prop :=
  forall p, (Z.of_nat (List.length (data w p)) <= B)%Z.

(** The paths [createDirectory] hands to [createSingleDirectory], in
    order; same scan as [createDirectory_walk]. *)
Fixpoint createDirectory_levels (rest seg parentPath : string) : list string :=
  match rest with
  | EmptyString =>
      if String.eqb seg EmptyString then [] else [parentPath +++ seg]
  | String c rest' =>
      if Ascii.eqb c "/" then
        if String.eqb seg EmptyString then
          createDirectory_levels rest' EmptyString parentPath
        else
          let parentPath' := parentPath +++ seg +++ "/" in
          parentPath' :: createDirectory_levels rest' EmptyString parentPath'
      else createDirectory_levels rest' (seg +++ String c EmptyString) parentPath
  end.

(** *** Disk usage, the specification of [getTotalSize] *)

(** The sum of the sizes of the regular files that can be reached from the
    entry [n] at [p] through readable directories; [n] itself counts when it
    is a regular file. *)
Fixpoint du (d : path -> list Byte.byte) (p : path) (n : node) : Z :=
  match n with
  | File => Z.of_nat (List.length (d p))
  | Dir true es =>
      (fix sum (l : list (string * node)) : Z :=
         match l with
         | [] => 0%Z
         | (x, c) :: l' => (du d (p ++ [x]) c + sum l')%Z
         end) es
  | Dir false _ => 0%Z
  | Special => 0%Z
  end.

Definition du_entries (d : path -> list Byte.byte) (p : path)
           (es : list (string * node)) : Z :=
  fold_right (fun e acc => (du d (p ++ [fst e]) (snd e) + acc)%Z) 0%Z es.

Definition sizes (es : list (string * node)) : nat :=
  fold_right (fun e acc => size (snd e) + acc) O es.

(** The same read through a path string of a state. *)
Definition du_at (w : world) (s : string) : Z :=
  match node_at (tree w) s with
  | Some n => du (data w) (Str.resolve s) n
  | None => 0%Z
  end.

Definition size_at (w : world) (s : string) : nat :=
  match node_at (tree w) s with
  | Some n => size n
  | None => O
  end.

Definition dir_at (w : world) (s : string) : Prop :=
  exists r es, node_at (tree w) s = Some (Dir r es) /\ wf (Dir r es).

Definition sum_du (w : world) (l : list string) : Z :=
  fold_right (fun s acc => (du_at w s + acc)%Z) 0%Z l.

Definition sum_size (w : world) (l : list string) : nat :=
  fold_right (fun s acc => size_at w s + acc) O l.

(** *** The effect of the delete engine on the tree *)

(** The tree once the entries named [l] of the directory at [p] are gone. *)
Definition remove_children (p : path) (l : list string) (t : node) : node :=
  fold_left (fun t x => set_at (p ++ [x]) None t) l t.

Definition drop_entries (l : list string) (es : list (string * node))
  : list (string * node) :=
  fold_left (fun es x => drop_entry x es) l es.

(** No entry other than ["."] and [".."]. *)
Definition no_children (listing : list string) : Prop :=
  filter (fun n => negb (is_dot n)) listing = [].

(** *** Progress of a nested copy *)

(** No abort is ever requested and no write is ever cut short. *)
Definition undisturbed (w : world) : Prop :=
  (forall n, abortFileOp w n = false) /\ (forall n, fwrite_cap w n = None).

(** How a nested copy that started in [w] with [c] bytes counted may leave
    the percentage, in [w'] with [c'] bytes counted: with a positive total
    either nothing was counted or published, or the percentage is the one
    of the count; with no total nothing is published. *)
Definition nested_progress (totalSize : Z) (w : world) (c : Z)
           (w' : world) (c' : Z) : Prop :=
  abortFileOp w' = abortFileOp w /\ fwrite_cap w' = fwrite_cap w
  /\ if (0 <? totalSize)%Z then
       (c' = c /\ copyPercentage w' = copyPercentage w
        /\ stores (trace w') = stores (trace w))
       \/ copyPercentage w' = percent_of c' totalSize
     else
       copyPercentage w' = copyPercentage w
       /\ stores (trace w') = stores (trace w).

(** *** What the rest of the tree sees of an entry *)

(** The class of an entry and, for a directory, whether it can be read:
    what [stat], [opendir] and the calls that fail on an existing entry
    depend on. *)
Definition shape (n : node) : node :=
  match n with
  | Dir r _ => Dir r []
  | File => File
  | Special => Special
  end.

Definition shape_at (w : world) (p : path) : option node :=
  option_map shape (lookup p (tree w)).

(** An entry with nothing below it. *)
Definition leaf (n : node) : Prop :=
  match n with
  | Dir _ (_ :: _) => False
  | _ => True
  end.

(** Between [w] and [w'] no content changed, every entry kept its shape and
    whatever is new is an empty-looking readable directory. *)
Definition adds_dirs (w w' : world) : Prop :=
  data w' = data w
  /\ forall q, shape_at w' q = shape_at w q
               \/ (shape_at w q = None /\ shape_at w' q = Some (Dir true [])).

(** Away from [p], [w'] is [w] with, at most, directories added: every
    other content is the same, every other entry kept its shape. *)
Definition elsewhere (p : path) (w w' : world) : Prop :=
  forall q, q <> p ->
    data w' q = data w q
    /\ (shape_at w' q = shape_at w q
        \/ (shape_at w q = None /\ shape_at w' q = Some (Dir true []))).

(** An entry the delete engine can neither unlink nor enumerate: one of
    unknown type, or a directory that cannot be opened. *)
Definition undeletable (n : node) : Prop :=
  match n with
  | Special => True
  | Dir false _ => True
  | _ => False
  end.

(** The directory at [pathToDelete] can be read and, below it at
    [x :: rel], lies something that cannot be deleted. *)
Definition stuck_below (pathToDelete x : string) (rel : path) (w : world) : Prop :=
  String.eqb pathToDelete "" = false
  /\ shape_at w (Str.resolve pathToDelete) = Some (Dir true [])
  /\ exists c, lookup (Str.resolve pathToDelete ++ x :: rel) (tree w) = Some c
               /\ undeletable c.

(** *** Flag files, one match at a time *)

(** The body of the loop of [createFlagFiles]. *)
Definition flag_step (outputPrefix : string) (w : world) (fullPath : string) : world :=
  let baseName := getNameFromPath fullPath in
  if String.eqb baseName EmptyString then w
  else snd (fopen (outputPrefix +++ baseName) WriteBinary w).

(** The place of the flag [target] is free, or taken by a regular file, in
    a directory, and no open fails. *)
Definition flag_ready (target : string) (w : world) : Prop :=
  (forall n, fopen_fault w n = false)
  /\ is_dir (lookup (parent (Str.resolve target)) (tree w)) = true
  /\ (shape_at w (Str.resolve target) = None
      \/ shape_at w (Str.resolve target) = Some File).

(** The flag is there and empty. *)
Definition flag_made (target : string) (w : world) : Prop :=
  file_at target w /\ data w (Str.resolve target) = [].

(** *** Moving a directory *)

(** Put, replace or drop the entry [x] of a directory. *)
Definition upd (x : string) (o : option node) (es : list (string * node))
  : list (string * node) :=
  match o with
  | Some c => put_entry x c es
  | None => drop_entry x es
  end.

Definition is_dir_node (n : node) : bool :=
  match n with Dir _ _ => true | _ => false end.

(** What is left of a directory when everything but directories has been
    moved out of it and of the directories below it. *)
Fixpoint skeleton (n : node) : node :=
  match n with
  | Dir r es =>
      Dir r ((fix keep (l : list (string * node)) : list (string * node) :=
                match l with
                | [] => []
                | (x, c) :: l' =>
                    match c with
                    | Dir _ _ => (x, skeleton c) :: keep l'
                    | _ => keep l'
                    end
                end) es)
  | File => File
  | Special => Special
  end.

(** What [mkdir] and [rename] make of an entry at its destination before
    the directories are descended into. *)
Definition flat (n : node) : node :=
  match n with
  | Dir _ _ => Dir true []
  | File => File
  | Special => Special
  end.

(** [chop_slash(current) + "/" + name] (443-449) *)
Definition sub_path (current name : string) : string :=
  chop_slash current +++ "/" +++ name.

(** The tree [T0] with the directories at [ps] and [pd] holding the
    entries [A] and [B]. *)
Definition pair_tree (ps pd : path) (T0 : node) (A B : list (string * node)) : node :=
  set_at pd (Some (Dir true B)) (set_at ps (Some (Dir true A)) T0).

(** The entry as the enumeration reports it. *)
Definition typed (e : string * node) : string * kind := (fst e, kind_of (snd e)).

Definition dirs_of (es : list (string * node)) : list (string * node) :=
  filter (fun e => is_dir_node (snd e)) es.

Definition flat_entry (e : string * node) : string * node := (fst e, flat (snd e)).

Definition skeleton_entry (e : string * node) : string * node :=
  (fst e, skeleton (snd e)).

Definition emptied_entry (e : string * node) : string * node :=
  (fst e, Dir true []).

(** Removing the directories named in [dl], in that order, takes the
    skeleton of [c] found at [ps] down to an empty directory, and that is
    all it does. *)
Definition sweeps (dl : list string) (ps : path) (c : node) : Prop :=
  forall w0,
    lookup ps (tree w0) = Some (skeleton c) ->
    let w1 := fold_left (fun w d => rmdir_source d w) dl w0 in
    tree w1 = set_at ps (Some (Dir true [])) (tree w0)
    /\ data w1 = data w0 /\ trace w1 = trace w0.

(** The same for the directories [L] found in the directory at [ps]: each
    of them is taken from its skeleton down to an empty directory. *)
Definition sweeps_children (DL : list string) (ps : path)
           (L : list (string * node)) : Prop :=
  forall T tail w0,
    ps <> [] -> is_dir (lookup (parent ps) T) = true ->
    tree w0 = set_at ps (Some (Dir true (map skeleton_entry L ++ tail))) T ->
    let w1 := fold_left (fun w d => rmdir_source d w) DL w0 in
    tree w1 = set_at ps (Some (Dir true (map emptied_entry L ++ tail))) T
    /\ data w1 = data w0 /\ trace w1 = trace w0.

(** The pair [(s, d)] can be taken off the stack of [moveDirectory]: at
    [s] lies the directory [c], made of regular files and readable
    directories, at [d] an empty directory, neither below the other. *)
Definition item_ready (c : node) (s d : string) (w : world) : Prop :=
  String.eqb s "" = false
  /\ lookup (Str.resolve s) (tree w) = Some c
  /\ lookup (Str.resolve d) (tree w) = Some (Dir true [])
  /\ is_prefix (Str.resolve s) (Str.resolve d) = false
  /\ is_prefix (Str.resolve d) (Str.resolve s) = false
  /\ is_dir_node c = true /\ clean c /\ wf c.

(** What going through the pair and everything it pushes comes to: after
    [k] turns of the loop the state is [w'], with [c] at the destination,
    its skeleton left at the source, the contents of the files carried
    over, and [dl] added to the directories to remove. *)
Definition item_moved (c : node) (s d : string) (w : world)
           (k : nat) (w' : world) (dl : list string) : Prop :=
  tree w' = set_at (Str.resolve d) (Some c)
                   (set_at (Str.resolve s) (Some (skeleton c)) (tree w))
  /\ trace w' = trace w
  /\ (forall r, is_prefix (Str.resolve d) r = false -> data w' r = data w r)
  /\ (forall rel, lookup rel c = Some File ->
                  data w' (Str.resolve d ++ rel) = data w (Str.resolve s ++ rel))
  /\ sweeps dl (Str.resolve s) c
  /\ forall fuel below dirs,
      move_loop (k + fuel) None None ((s, d) :: below) dirs w
      = move_loop fuel None None below (dl ++ dirs) w'.

(** Where [moveDirectory] can build its copy of the tree: nothing at [d]
    yet, below an existing directory, or an empty directory at [d]. *)
Definition vacant (d : string) (w : world) : Prop :=
  (lookup (Str.resolve d) (tree w) = None
   /\ is_dir (lookup (parent (Str.resolve d)) (tree w)) = true)
  \/ lookup (Str.resolve d) (tree w) = Some (Dir true []).

(** *** Closing a written file *)

(** What the file holds once a close that keeps [keep] is through. *)
Definition kept (keep : option nat) (l : list Byte.byte) : list Byte.byte :=
  match keep with
  | None => l
  | Some k => firstn k l
  end.

(** The schedule of the closes and how far it has been read. *)
Definition close_view (w : world) := (fclose_keep w, fcloses w).

(** *** The delete loop, turn by turn *)

(** One turn of the loop of [deleteFileOrDirectory] (264-329) on the stack
    and the state, as [delete_loop] takes it; nothing is left to do on an
    empty stack. *)
Definition delete_pass (logSourceFile : option string) (st : list string * world)
  : list string * world :=
  match st with
  | ([], w) => ([], w)
  | (currentPath :: below, w) =>
      match stat currentPath w with
      | None => (below, w)
      | Some (KReg, _) =>
          match remove currentPath w with
          | (true, w1) => (below, log_if_open logSourceFile currentPath w1)
          | (false, w1) =>
              (below, logMessage ("Failed to delete file: " +++ currentPath) w1)
          end
      | Some (KDir, _) =>
          match readdir_all currentPath w with
          | None =>
              (below, logMessage ("Failed to open directory: " +++ currentPath) w)
          | Some entries =>
              match filter (fun n => negb (is_dot n)) entries with
              | [] =>
                  let w0 := emit (EvRmdir currentPath
                                          (listing (tree w) currentPath)) w in
                  match rmdir currentPath w0 with
                  | (true, w1) => (below, w1)
                  | (false, w1) =>
                      (below, logMessage ("Failed to delete directory: "
                                          +++ currentPath) w1)
                  end
              | children =>
                  (rev (map (child_path currentPath) children)
                       ++ currentPath :: below, w)
              end
          end
      | Some (KOther, _) =>
          (below, logMessage ("Unknown file type: " +++ currentPath) w)
      end
  end.

(** The stack and the state after [n] turns. *)
Definition delete_run (n : nat) (logSourceFile : option string)
           (st : list string * world) : list string * world :=
  Nat.iter n (delete_pass logSourceFile) st.

(** What a loop that has gone [n] turns returns: the state, once the stack
    is empty. *)
Definition returned (st : list string * world) : option world :=
  match fst st with
  | [] => Some (snd st)
  | _ :: _ => None
  end.

(** Readable directories only, all the way down. *)
Fixpoint directories_only (n : node) : Prop :=
  match n with
  | Dir r es =>
      r = true
      /\ (fix all (l : list (string * node)) : Prop :=
            match l with
            | [] => True
            | (_, c) :: l' => directories_only c /\ all l'
            end) es
  | _ => False
  end.

(** The number of levels of directories in a subtree. *)
Fixpoint depth (n : node) : nat :=
  match n with
  | Dir _ es =>
      S ((fix deepest (l : list (string * node)) : nat :=
            match l with
            | [] => O
            | (_, c) :: l' => Nat.max (depth c) (deepest l')
            end) es)
  | _ => O
  end.

(** *** Copying a batch into a directory *)

(** Neither of the two paths lies at or below the other. *)
Definition apart (p q : path) : Prop :=
  is_prefix p q = false /\ is_prefix q p = false.

(** The schedules and the buffer size. *)
Definition plan_view (w : world) :=
  (abortFileOp w, fopen_fault w, fwrite_cap w, COPY_BUFFER_SIZE w).

(** What a copy into the directory at [d] leaves alone on its way from [w]
    to [w']: every entry apart from [d], with all it holds, every content
    that is not at or below [d], the schedules and the buffer size; and
    the diagnostics logged are still there. *)
Definition kept_outside (d : path) (w w' : world) : Prop :=
  (forall s, apart s d -> lookup s (tree w') = lookup s (tree w))
  /\ (forall q, is_prefix d q = false -> data w' q = data w q)
  /\ plan_view w' = plan_view w
  /\ List.length (diagnostics (trace w)) <= List.length (diagnostics (trace w')).

(** What a call that works on the entry at [t] leaves alone: the entries
    that are not [t] or above it, every other content, the schedules and
    the buffer size, and the diagnostics logged before. *)
Definition touches (t : path) (w w' : world) : Prop :=
  (forall s, is_prefix s t = false -> lookup s (tree w') = lookup s (tree w))
  /\ (forall q, q <> t -> data w' q = data w q)
  /\ plan_view w' = plan_view w
  /\ List.length (diagnostics (trace w)) <= List.length (diagnostics (trace w')).

(** A pair the copy loop can find in its queue: a source apart from the
    destination directory, holding regular files and readable directories
    only, and a destination written under that directory. *)
Definition queued (toDirectory : string) (w : world) (ft : string * string) : Prop :=
  apart (Str.resolve (fst ft)) (Str.resolve toDirectory)
  /\ String.prefix toDirectory (snd ft) = true
  /\ exists n, node_at (tree w) (fst ft) = Some n /\ clean n /\ wf n.

(** A match the batch can copy: apart from the destination, not a regular
    file named with a trailing separator, holding regular files and
    readable directories only, and with fewer entries than there is
    fuel. *)
Definition copyable (fuel : nat) (d : path) (w : world) (m : string) : Prop :=
  apart (Str.resolve m) d
  /\ (isFile m w = true -> Str.ends_with_slash m = false)
  /\ (forall n, node_at (tree w) m = Some n -> clean n)
  /\ size_at w m < fuel.

(** * Properties *)

(** ** Strings *)

Lemma prefix_substr (d s : string) :
  String.prefix d s = true ->
  exists suffix, Str.substr_from (String.length d) s = Some suffix
                 /\ d +++ suffix = s.
Proof.
  revert s. induction d as [|c d IH]; intros s H.
  - exists s. split; reflexivity.
  - destruct s as [|c' s]; simpl in H; [discriminate|].
    destruct (ascii_dec c c') as [->|]; [|discriminate].
    destruct (IH s H) as (suffix & Hs & Heq).
    exists suffix. simpl. rewrite Hs, Heq. split; reflexivity.
Qed.

(** ** Flag files *)

(** C10: when the wildcard pattern expands to nothing, createFlagFiles
    returns at once: the state (directory tree, file contents, counters and
    trace) is exactly the one it was called in, so the output directory is
    not created. *)
Theorem createFlagFiles_no_match (wildcardPattern outputDir : string) (w : world) :
  getFilesListByWildcards w wildcardPattern = [] ->
  createFlagFiles wildcardPattern outputDir w = w.
Proof.
  intros H. unfold createFlagFiles. rewrite H. reflexivity.
Qed.

(** ** Mirroring *)

Lemma mirror_target_self (d path : string) :
  String.prefix d path = true -> mirror_target d d path = Some path.
Proof.
  intros H. unfold mirror_target.
  destruct (prefix_substr _ _ H) as (suffix & -> & ->). reflexivity.
Qed.

Lemma mirror_sizes_self (fuel : nat) (d : string) (w : world) (l : list string) (z : Z) :
  Forall (fun path => String.prefix d path = true) l ->
  mirror_sizes fuel d d l z w = Returned z.
Proof.
  induction 1 as [|path l Hp _ IH]; simpl; [reflexivity|].
  rewrite (mirror_target_self _ _ Hp), String.eqb_refl. exact IH.
Qed.

Lemma mirror_each_self (fuel : nat) (d : string) (w : world) (l : list string)
      (copied total : Z) (n : nat) :
  Forall (fun path => String.prefix d path = true) l ->
  mirror_each fuel d d "copy" l copied total n w = Returned (n, w).
Proof.
  induction 1 as [|path l Hp _ IH]; simpl; [reflexivity|].
  rewrite (mirror_target_self _ _ Hp), String.eqb_refl. exact IH.
Qed.

(** C8: mirroring a directory onto itself in copy mode calls
    copyFileOrDirectory zero times and leaves the state untouched, whatever
    the fuel: every listed path, which begins with the directory it was
    listed from, is its own target. *)
Theorem mirrorFiles_self_copy (fuel : nat) (d : string) (w : world) :
  Forall (fun path => String.prefix d path = true)
         (getFilesListFromDirectory w d) ->
  Forall (fun path => mirror_target d d path = Some path)
         (getFilesListFromDirectory w d)
  /\ mirrorFiles fuel d d "copy" w = Returned (O, w).
Proof.
  intros H. split.
  - revert H. apply Forall_impl. intros path. apply mirror_target_self.
  - unfold mirrorFiles. simpl. rewrite (mirror_sizes_self _ _ _ _ _ H).
    apply mirror_each_self. exact H.
Qed.

(** ** Deleting through a path that denotes a file *)

(** C9 (amended): for a path that does not end in a separator, once the
    operation log has been opened, if the path does not name a regular file
    the call returns the state left by opening the log: nothing is removed
    and nothing is reported. Without a log path that state is the initial
    one; with a log path the log's parent directories and the log file may
    have been created. *)
Theorem deleteFileOrDirectory_file_path_frame
        (fuel : nat) (pathToDelete logSource : string) (w : world) :
  Str.ends_with_slash pathToDelete = false ->
  isFile pathToDelete
         (snd (open_log logSource "Failed to open source log file: " w)) = false ->
  deleteFileOrDirectory fuel pathToDelete logSource w
  = Some (snd (open_log logSource "Failed to open source log file: " w))
  /\ (logSource = EmptyString ->
      deleteFileOrDirectory fuel pathToDelete logSource w = Some w).
Proof.
  intros Hs Hf. unfold deleteFileOrDirectory. rewrite Hs. simpl negb. cbv iota.
  destruct (open_log logSource "Failed to open source log file: " w) as [h w0] eqn:E.
  simpl in Hf. rewrite Hf. split; [reflexivity|].
  intros ->. unfold open_log in E. simpl in E. congruence.
Qed.

(** ** The directory tree *)

Ltac break_match :=
  match goal with
  | |- context [match ?x with _ => _ end] =>
      let E := fresh "E" in destruct x eqn:E
  end.

Lemma find_entry_put_same (x : string) (c : node) es :
  find_entry x (put_entry x c es) = Some c.
Proof.
  induction es as [|[y d] es IH]; simpl.
  - now rewrite String.eqb_refl.
  - destruct (String.eqb x y) eqn:E; simpl; rewrite ?String.eqb_refl, ?E; auto.
Qed.

Lemma find_entry_put_other (x y : string) (c : node) es :
  x <> y -> find_entry x (put_entry y c es) = find_entry x es.
Proof.
  intros N. apply String.eqb_neq in N.
  induction es as [|[z d] es IH]; simpl.
  - now rewrite N.
  - destruct (String.eqb y z) eqn:E; simpl.
    + apply String.eqb_eq in E. subst z. now rewrite N.
    + now rewrite IH.
Qed.

Lemma find_entry_drop_same (x : string) es : find_entry x (drop_entry x es) = None.
Proof.
  induction es as [|[y d] es IH]; simpl; [reflexivity|].
  destruct (String.eqb x y) eqn:E; simpl; rewrite ?E; auto.
Qed.

Lemma find_entry_drop_other (x y : string) es :
  x <> y -> find_entry x (drop_entry y es) = find_entry x es.
Proof.
  intros N. induction es as [|[z d] es IH]; simpl; [reflexivity|].
  destruct (String.eqb y z) eqn:E; simpl.
  - apply String.eqb_eq in E. subst z.
    apply String.eqb_neq in N. now rewrite N.
  - now rewrite IH.
Qed.

Lemma find_entry_neq (x y : string) (c : node) es :
  find_entry x es = Some c -> find_entry y es = None -> x <> y.
Proof. intros H1 H2 ->. congruence. Qed.

Lemma lookup_set_at_none (p : path) (t : node) :
  p <> [] -> lookup p (set_at p None t) = None.
Proof.
  revert t. induction p as [|x p IH]; intros t N; [congruence|].
  destruct t as [|r es|]; try reflexivity.
  destruct p as [|y p].
  - simpl. now rewrite find_entry_drop_same.
  - cbn [set_at]. destruct (find_entry x es) as [c|] eqn:E.
    + cbn [lookup]. rewrite find_entry_put_same. apply IH. discriminate.
    + cbn [lookup]. now rewrite E.
Qed.

Lemma lookup_set_at_new (p : path) (v : node) (t : node) :
  p <> [] -> is_dir (lookup (parent p) t) = true ->
  lookup p (set_at p (Some v) t) = Some v.
Proof.
  revert t. induction p as [|x p IH]; intros t N H; [congruence|].
  destruct p as [|y p].
  - simpl in H. destruct t as [|r es|]; try discriminate.
    simpl. now rewrite find_entry_put_same.
  - change (parent (x :: y :: p)) with (x :: parent (y :: p)) in H.
    destruct t as [|r es|]; try discriminate.
    cbn [lookup] in H. cbn [set_at].
    destruct (find_entry x es) as [c|] eqn:E; [|discriminate].
    cbn [lookup]. rewrite find_entry_put_same. apply IH; [discriminate|exact H].
Qed.

(** A regular file is not affected by what is set where nothing was. *)
Lemma lookup_set_at_file (p q : path) (v : option node) (t : node) :
  lookup p t = Some File -> lookup q t = None ->
  lookup p (set_at q v t) = Some File.
Proof.
  revert q t. induction p as [|x p IH]; intros q t Hp Hq.
  - simpl in Hp. injection Hp as ->. destruct q; reflexivity.
  - destruct t as [|r es|]; try discriminate.
    cbn [lookup] in Hp.
    destruct (find_entry x es) as [c|] eqn:Ex; [|discriminate].
    destruct q as [|y q]; [discriminate|].
    cbn [lookup] in Hq. cbn [set_at].
    destruct q as [|z q].
    + destruct (find_entry y es) as [d|] eqn:Ey; [discriminate|].
      pose proof (find_entry_neq _ _ _ _ Ex Ey) as N.
      cbn [lookup]. destruct v.
      * rewrite (find_entry_put_other _ _ _ _ N), Ex. exact Hp.
      * rewrite (find_entry_drop_other _ _ _ N), Ex. exact Hp.
    + destruct (find_entry y es) as [d|] eqn:Ey.
      * cbn [lookup]. destruct (string_dec x y) as [->|N].
        -- rewrite find_entry_put_same. rewrite Ex in Ey. injection Ey as ->.
           apply IH; assumption.
        -- rewrite (find_entry_put_other _ _ _ _ N), Ex. exact Hp.
      * cbn [lookup]. rewrite Ex. exact Hp.
Qed.

Lemma set_at_dir (p : path) (v : option node) (r : bool) es :
  exists es', set_at p v (Dir r es) = Dir r es'.
Proof.
  destruct p as [|x [|y p]]; simpl; eauto.
  destruct (find_entry x es); eauto.
Qed.

Lemma lookup_none_nonroot (p : path) (t : node) : lookup p t = None -> p <> [].
Proof. destruct p; simpl; congruence. Qed.

(** ** What the file-system calls leave alone *)

Lemma tree_set_tree (p : path) (v : option node) (w : world) :
  tree (set_tree (set_at p v (tree w)) w) = set_at p v (tree w).
Proof.
  unfold tree at 2 3. destruct (set_at_dir p v true (root w)) as [es' E].
  rewrite E. reflexivity.
Qed.

Lemma quiet_set_tree (t : node) (w : world) : quiet_view (set_tree t w) = quiet_view w.
Proof. destruct t; reflexivity. Qed.

Ltac frame_prim :=
  intros;
  repeat first
    [ reflexivity
    | assumption
    | rewrite quiet_set_tree
    | match goal with
      | |- context [quiet_view (set_data ?d ?x)] =>
          change (quiet_view (set_data d x)) with (quiet_view x)
      | |- context [quiet_view (set_fopens ?n ?x)] =>
          change (quiet_view (set_fopens n x)) with (quiet_view x)
      end
    | progress (cbv beta zeta; simpl)
    | match goal with
      | |- context [match ?x with _ => _ end] => destruct x
      | |- context [if ?x then _ else _] => destruct x
      end ].

Lemma quiet_logMessage m w : quiet_view (logMessage m w) = quiet_view w.
Proof. reflexivity. Qed.

Lemma quiet_mkdir s w : quiet_view (snd (mkdir s w)) = quiet_view w.
Proof. unfold mkdir. frame_prim. Qed.

Lemma quiet_createSingleDirectory s w :
  quiet_view (createSingleDirectory s w) = quiet_view w.
Proof.
  unfold createSingleDirectory.
  pose proof (quiet_mkdir s w) as H.
  destruct (mkdir s w) as [[[]|] w']; simpl in H; rewrite ?quiet_logMessage; exact H.
Qed.

Lemma quiet_createDirectory_walk rest seg parentPath w :
  quiet_view (createDirectory_walk rest seg parentPath w) = quiet_view w.
Proof.
  revert seg parentPath w. induction rest as [|c rest IH]; intros; simpl.
  - destruct (String.eqb seg ""); [reflexivity|apply quiet_createSingleDirectory].
  - destruct (Ascii.eqb c "/"); [destruct (String.eqb seg "")|];
      rewrite IH; [reflexivity|apply quiet_createSingleDirectory|reflexivity].
Qed.

Lemma quiet_createDirectory s w : quiet_view (createDirectory s w) = quiet_view w.
Proof. apply quiet_createDirectory_walk. Qed.

Lemma quiet_fopen s m w : quiet_view (snd (fopen s m w)) = quiet_view w.
Proof. unfold fopen. frame_prim. Qed.

Lemma quiet_append_bytes s bs w : quiet_view (append_bytes s bs w) = quiet_view w.
Proof. unfold append_bytes. frame_prim. Qed.

Lemma quiet_remove s w : quiet_view (snd (remove s w)) = quiet_view w.
Proof. unfold remove. frame_prim. Qed.

Lemma quiet_rmdir s w : quiet_view (snd (rmdir s w)) = quiet_view w.
Proof. unfold rmdir. frame_prim. Qed.

Lemma quiet_log_if_open h line w : quiet_view (log_if_open h line w) = quiet_view w.
Proof. destruct h; simpl; [apply quiet_append_bytes|reflexivity]. Qed.

Lemma quiet_fclose s w : quiet_view (fclose s w) = quiet_view w.
Proof. unfold fclose. repeat break_match; frame_prim. Qed.

Lemma quiet_finish_copy h1 h2 fromFile toFile w :
  quiet_view (finish_copy h1 h2 fromFile toFile w) = quiet_view w.
Proof.
  unfold finish_copy. destruct NO_FSTREAM_DIRECTIVE.
  - now rewrite quiet_fclose, !quiet_log_if_open.
  - now rewrite !quiet_log_if_open, quiet_fclose.
Qed.

Lemma quiet_open_log logPath failure w :
  quiet_view (snd (open_log logPath failure w)) = quiet_view w.
Proof.
  unfold open_log. destruct (String.eqb logPath ""); [reflexivity|].
  pose proof (quiet_fopen logPath AppendText
                          (createDirectory (getParentDirFromPath logPath) w)) as H.
  destruct (fopen _ _ _) as [[] w2]; simpl in *;
    rewrite ?quiet_logMessage, H; apply quiet_createDirectory.
Qed.

(** Reading the components off an equation between views. *)
Lemma calm_view_eq w w' :
  calm_view w' = calm_view w ->
  copyPercentage w' = copyPercentage w
  /\ stores (trace w') = stores (trace w)
  /\ rmdir_listings (trace w') = rmdir_listings (trace w)
  /\ loads w' = loads w /\ fwrites w' = fwrites w
  /\ abortFileOp w' = abortFileOp w /\ fwrite_cap w' = fwrite_cap w
  /\ COPY_BUFFER_SIZE w' = COPY_BUFFER_SIZE w.
Proof. unfold calm_view. intros H. injection H. intros. repeat split; assumption. Qed.

Lemma quiet_calm w w' : quiet_view w' = quiet_view w -> calm_view w' = calm_view w.
Proof. unfold quiet_view. congruence. Qed.

Lemma quiet_open_passes w w' :
  quiet_view w' = quiet_view w -> open_passes (trace w') = open_passes (trace w).
Proof. unfold quiet_view. congruence. Qed.

(** ** Regular files stay where they are *)

Lemma file_at_set_new s q v w :
  file_at s w -> lookup q (tree w) = None ->
  file_at s (set_tree (set_at q v (tree w)) w).
Proof.
  unfold file_at, node_at. destruct (String.eqb s ""); [discriminate|].
  intros. rewrite tree_set_tree. now apply lookup_set_at_file.
Qed.

Lemma file_at_mkdir s q w : file_at s w -> file_at s (snd (mkdir q w)).
Proof.
  intros H. unfold mkdir. destruct (String.eqb q ""); [exact H|].
  destruct (lookup (Str.resolve q) (tree w)) eqn:E; [exact H|].
  destruct (lookup (parent (Str.resolve q)) (tree w)) as [[]|]; try exact H.
  simpl. now apply file_at_set_new.
Qed.

Lemma file_at_createSingleDirectory s q w :
  file_at s w -> file_at s (createSingleDirectory q w).
Proof.
  intros H. unfold createSingleDirectory.
  pose proof (file_at_mkdir s q w H) as H'.
  destruct (mkdir q w) as [[[]|] w']; exact H'.
Qed.

Lemma file_at_createDirectory_walk s rest seg parentPath w :
  file_at s w -> file_at s (createDirectory_walk rest seg parentPath w).
Proof.
  revert seg parentPath w. induction rest as [|c rest IH]; intros seg pp w H; simpl.
  - destruct (String.eqb seg ""); [exact H|now apply file_at_createSingleDirectory].
  - destruct (Ascii.eqb c "/"); [destruct (String.eqb seg "")|]; apply IH;
      [exact H|now apply file_at_createSingleDirectory|exact H].
Qed.

Lemma file_at_createDirectory s q w : file_at s w -> file_at s (createDirectory q w).
Proof. apply file_at_createDirectory_walk. Qed.

Lemma file_at_fopen s q m w : file_at s w -> file_at s (snd (fopen q m w)).
Proof.
  intros H. unfold fopen.
  destruct (fopen_fault w (fopens w)); [exact H|].
  cbv zeta. change (tree (set_fopens (S (fopens w)) w)) with (tree w).
  unfold node_at at 1.
  destruct (String.eqb q "") eqn:Eq.
  - destruct m; exact H.
  - destruct (lookup (Str.resolve q) (tree w)) as [[]|] eqn:E;
      try (destruct m; exact H).
    destruct m; try exact H; rewrite ?Eq;
      (destruct (is_dir _); [|exact H]);
      apply (file_at_set_new s (Str.resolve q) (Some File) (set_fopens (S (fopens w)) w) H E).
Qed.

Lemma file_at_open_log s logPath failure w :
  file_at s w -> file_at s (snd (open_log logPath failure w)).
Proof.
  intros H. unfold open_log. destruct (String.eqb logPath ""); [exact H|].
  pose proof (file_at_fopen s logPath AppendText _
                            (file_at_createDirectory s (getParentDirFromPath logPath) w H)) as H'.
  destruct (fopen _ _ _) as [[] w2]; exact H'.
Qed.

Lemma tree_append_bytes s bs w : tree (append_bytes s bs w) = tree w.
Proof. unfold append_bytes. frame_prim. Qed.

Lemma tree_fwrite s bs w : tree (snd (fwrite s bs w)) = tree w.
Proof. unfold fwrite. simpl. now rewrite tree_append_bytes. Qed.

Lemma tree_fwrite_all fuel s bs w : tree (snd (fwrite_all fuel s bs w)) = tree w.
Proof.
  revert bs w. induction fuel as [|fuel IH]; intros; [reflexivity|].
  destruct bs as [|b bs]; [reflexivity|]. cbn [fwrite_all].
  pose proof (tree_fwrite s (b :: bs) w) as H.
  destruct (fwrite s (b :: bs) w) as [n w1]. cbn [snd] in H.
  destruct (Nat.eqb n 0); cbn [snd]; [exact H|]. now rewrite IH.
Qed.

Lemma tree_write_chunk s bs w : tree (snd (write_chunk s bs w)) = tree w.
Proof.
  unfold write_chunk. destruct NO_FSTREAM_DIRECTIVE; [apply tree_fwrite_all|].
  pose proof (tree_fwrite s bs w) as H. destruct (fwrite s bs w). exact H.
Qed.

Lemma fopen_write_file_at s w :
  fst (fopen s WriteBinary w) = true -> file_at s (snd (fopen s WriteBinary w)).
Proof.
  unfold fopen, file_at.
  destruct (fopen_fault w (fopens w)); [discriminate|].
  cbv zeta. change (tree (set_fopens (S (fopens w)) w)) with (tree w).
  destruct (node_at (tree w) s) as [[]|] eqn:E; simpl; try discriminate.
  - intros _. exact E.
  - unfold node_at in *. destruct (String.eqb s "") eqn:Es; [discriminate|].
    destruct (is_dir _) eqn:D; [|discriminate].
    intros _. cbn [snd].
    change (tree (set_data ?d ?x)) with (tree x).
    rewrite (tree_set_tree _ _ (set_fopens (S (fopens w)) w)).
    apply lookup_set_at_new; [now apply lookup_none_nonroot in E|exact D].
Qed.

Lemma remove_file_gone s w :
  file_at s w -> node_at (tree (snd (remove s w))) s = None.
Proof.
  unfold file_at, remove. intros H. rewrite H. cbn [snd].
  rewrite tree_set_tree.
  unfold node_at in *. destruct (String.eqb s ""); [reflexivity|].
  apply lookup_set_at_none. intros E. rewrite E in H. discriminate.
Qed.

(** ** The open loop *)

Lemma open_loop_spec (slack rc : nat) (fromFile toFile : string) (w : world) :
  slack + rc = maxRetries ->
  calm_view (snd (open_loop slack rc fromFile toFile w)) = calm_view w
  /\ open_passes (trace (snd (open_loop slack rc fromFile toFile w)))
     <= open_passes (trace w) + S slack
  /\ (fst (open_loop slack rc fromFile toFile w) = false ->
      open_passes (trace (snd (open_loop slack rc fromFile toFile w)))
      = open_passes (trace w) + S slack)
  /\ (fst (open_loop slack rc fromFile toFile w) = true ->
      file_at toFile (snd (open_loop slack rc fromFile toFile w))).
Proof.
  revert rc w. induction slack as [|slack IH]; intros rc w Hs; cbn [open_loop].
  - pose proof (quiet_fopen fromFile ReadBinary w) as Q1.
    destruct (fopen fromFile ReadBinary w) as [src w1]. cbn [snd] in Q1.
    pose proof (quiet_fopen toFile WriteBinary w1) as Q2.
    pose proof (fopen_write_file_at toFile w1) as F.
    destruct (fopen toFile WriteBinary w1) as [dst w2]. cbn [fst snd] in Q2, F.
    rewrite Q1 in Q2.
    pose proof (quiet_calm _ _ Q2) as C. pose proof (quiet_open_passes _ _ Q2) as O.
    destruct (src && dst) eqn:B.
    + cbn [fst snd]. repeat split.
      * exact C.
      * cbn. rewrite O. lia.
      * discriminate.
      * intros _. apply andb_prop in B. apply F, B.
    + assert (L : Nat.ltb maxRetries (S rc) = true).
      { apply Nat.ltb_lt. simpl in Hs. subst rc. unfold maxRetries. lia. }
      rewrite L. cbn [fst snd]. repeat split.
      * exact C.
      * cbn. rewrite O. lia.
      * intros _. cbn. rewrite O. lia.
      * discriminate.
  - pose proof (quiet_fopen fromFile ReadBinary w) as Q1.
    destruct (fopen fromFile ReadBinary w) as [src w1]. cbn [snd] in Q1.
    pose proof (quiet_fopen toFile WriteBinary w1) as Q2.
    pose proof (fopen_write_file_at toFile w1) as F.
    destruct (fopen toFile WriteBinary w1) as [dst w2]. cbn [fst snd] in Q2, F.
    rewrite Q1 in Q2.
    pose proof (quiet_calm _ _ Q2) as C. pose proof (quiet_open_passes _ _ Q2) as O.
    destruct (src && dst) eqn:B.
    + cbn [fst snd]. repeat split.
      * exact C.
      * cbn. rewrite O. lia.
      * discriminate.
      * intros _. apply andb_prop in B. apply F, B.
    + assert (L : Nat.ltb maxRetries (S rc) = false).
      { apply Nat.ltb_ge. unfold maxRetries in *. lia. }
      rewrite L.
      set (w4 := logMessage _ (emit (EvOpen src dst) w2)).
      assert (Hs' : slack + S rc = maxRetries) by lia.
      destruct (IH (S rc) w4 Hs') as (C' & Le & Eq & Fa).
      assert (C4 : calm_view w4 = calm_view w) by exact C.
      assert (O4 : open_passes (trace w4) = S (open_passes (trace w))).
      { subst w4. cbn. now rewrite O. }
      repeat split.
      * now rewrite C'.
      * rewrite O4 in Le. lia.
      * intros Hf. rewrite (Eq Hf), O4. lia.
      * exact Fa.
Qed.

Lemma open_loop_gave_up (slack rc : nat) (fromFile toFile : string) (w : world) :
  fst (open_loop slack rc fromFile toFile w) = false ->
  hd_error (trace (snd (open_loop slack rc fromFile toFile w)))
  = Some (EvLog "Error max retry count exceeded.").
Proof.
  revert rc w. induction slack as [|slack IH]; intros rc w; cbn [open_loop];
    destruct (fopen fromFile ReadBinary w) as [src w1];
    destruct (fopen toFile WriteBinary w1) as [dst w2];
    (destruct (src && dst); [discriminate|]);
    destruct (Nat.ltb maxRetries (S rc)); try (intros _; reflexivity).
  apply IH.
Qed.

(** ** Machine arithmetic within range *)

Lemma wrap64_small (z : Z) :
  (- 2 ^ 63 <= z <= LLONG_MAX)%Z -> wrap 64 z = z.
Proof.
  unfold wrap, LLONG_MAX. intros H.
  change (64 - 1)%Z with 63%Z. rewrite Z.mod_small; lia.
Qed.

Lemma wrap32_small (z : Z) :
  (- 2 ^ 31 <= z <= INT_MAX)%Z -> wrap 32 z = z.
Proof.
  unfold wrap, INT_MAX. intros H.
  change (32 - 1)%Z with 31%Z. rewrite Z.mod_small; lia.
Qed.

Lemma ll_add_exact (a b : Z) :
  (0 <= a)%Z -> (0 <= b)%Z -> (a + b <= LLONG_MAX)%Z -> ll_add a b = (a + b)%Z.
Proof. intros. unfold ll_add. apply wrap64_small. lia. Qed.

(** Within range the published value is the floor of the quotient. *)
Lemma percent_of_exact (copied total : Z) :
  (0 <= copied)%Z -> (0 < total)%Z ->
  (100 * copied <= LLONG_MAX)%Z -> (100 * copied / total <= INT_MAX)%Z ->
  percent_of copied total = (100 * copied / total)%Z.
Proof.
  intros Hc Ht Hm Hq. unfold percent_of, to_int, ll_div, ll_mul.
  rewrite (wrap64_small (100 * copied)) by lia.
  rewrite Z.quot_div_nonneg by lia.
  assert (0 <= 100 * copied / total)%Z by (apply Z.div_pos; lia).
  assert (100 * copied / total <= 100 * copied)%Z.
  { apply Z.div_le_upper_bound; nia. }
  rewrite wrap64_small by lia. apply wrap32_small. lia.
Qed.

Lemma percent_of_full (total : Z) :
  (0 < total)%Z -> (100 * total <= LLONG_MAX)%Z -> percent_of total total = 100%Z.
Proof.
  intros Ht Hm.
  assert (E : (100 * total / total = 100)%Z) by (apply Z.div_mul; lia).
  rewrite percent_of_exact; try lia. rewrite E. unfold INT_MAX. lia.
Qed.

Lemma total_length_cons (c : list Byte.byte) (r : list (list Byte.byte)) :
  total_length (c :: r) = (Z.of_nat (List.length c) + total_length r)%Z.
Proof. unfold total_length. simpl. rewrite length_app. lia. Qed.

Lemma total_length_nonneg (r : list (list Byte.byte)) : (0 <= total_length r)%Z.
Proof. unfold total_length. lia. Qed.

Lemma progress_values_lower (copied total : Z) (chunks : list (list Byte.byte)) :
  (0 < total)%Z ->
  Forall (fun v => (100 * copied / total <= v)%Z) (progress_values copied total chunks).
Proof.
  intros Ht. revert copied.
  induction chunks as [|c r IH]; intros copied; cbn [progress_values]; cbv zeta.
  - constructor.
  - assert (S : (100 * copied / total
                 <= 100 * (copied + Z.of_nat (List.length c)) / total)%Z).
    { apply Z.div_le_mono; lia. }
    constructor; [exact S|].
    eapply Forall_impl; [|apply IH]. cbv beta. intros v Hv.
    eapply Z.le_trans; eassumption.
Qed.

Lemma progress_values_nondecreasing (copied total : Z) (chunks : list (list Byte.byte)) :
  (0 < total)%Z -> nondecreasing (progress_values copied total chunks).
Proof.
  intros Ht. revert copied. induction chunks as [|c r IH]; intros copied.
  - exact I.
  - cbn [progress_values]. cbv zeta.
    pose proof (progress_values_lower (copied + Z.of_nat (List.length c)) total r Ht) as L.
    specialize (IH (copied + Z.of_nat (List.length c))%Z).
    destruct (progress_values (copied + Z.of_nat (List.length c)) total r) as [|y l] eqn:E.
    + exact I.
    + split; [now inversion L|exact IH].
Qed.

(** ** Writing chunks *)

Lemma io_append_bytes s bs w : io_view (append_bytes s bs w) = io_view w.
Proof. unfold append_bytes. frame_prim. Qed.

Lemma io_fwrite s bs w : io_view (snd (fwrite s bs w)) = io_view w.
Proof. unfold fwrite. cbn [snd]. now rewrite io_append_bytes. Qed.

Lemma io_fwrite_all fuel s bs w : io_view (snd (fwrite_all fuel s bs w)) = io_view w.
Proof.
  revert bs w. induction fuel as [|fuel IH]; intros; [reflexivity|].
  destruct bs as [|b bs]; [reflexivity|]. cbn [fwrite_all].
  pose proof (io_fwrite s (b :: bs) w) as H.
  destruct (fwrite s (b :: bs) w) as [n w1]. cbn [snd] in H.
  destruct (Nat.eqb n 0); cbn [snd]; [exact H|]. now rewrite IH.
Qed.

Lemma io_write_chunk s bs w : io_view (snd (write_chunk s bs w)) = io_view w.
Proof.
  unfold write_chunk. destruct NO_FSTREAM_DIRECTIVE; [apply io_fwrite_all|].
  pose proof (io_fwrite s bs w) as H. destruct (fwrite s bs w). exact H.
Qed.

Lemma io_view_eq w w' :
  io_view w' = io_view w ->
  tree w' = tree w /\ copyPercentage w' = copyPercentage w
  /\ trace w' = trace w /\ loads w' = loads w
  /\ abortFileOp w' = abortFileOp w /\ fwrite_cap w' = fwrite_cap w
  /\ COPY_BUFFER_SIZE w' = COPY_BUFFER_SIZE w.
Proof.
  unfold io_view, tree. intros H. injection H. intros.
  repeat split; congruence.
Qed.

Lemma io_sched w w' : io_view w' = io_view w -> sched_view w' = sched_view w.
Proof. unfold io_view, sched_view. intros H. injection H. intros. congruence. Qed.

Lemma quiet_sched w w' : quiet_view w' = quiet_view w -> sched_view w' = sched_view w.
Proof.
  unfold quiet_view, calm_view, sched_view. intros H. injection H. intros. congruence.
Qed.

Lemma calm_stores w w' : calm_view w' = calm_view w -> stores (trace w') = stores (trace w).
Proof. intros H. apply calm_view_eq in H. destruct H as (_ & H & _). exact H. Qed.

(** With no cap on the writes a chunk is always written in full. *)
Lemma fwrite_uncapped s bs w :
  fwrite_cap w (fwrites w) = None -> fst (fwrite s bs w) = List.length bs.
Proof. unfold fwrite. intros ->. reflexivity. Qed.

Lemma fwrites_fwrite s bs w : fwrites (snd (fwrite s bs w)) = S (fwrites w).
Proof. unfold fwrite, append_bytes. cbn [snd]. frame_prim. Qed.

Lemma write_chunk_uncapped s bs w :
  (forall n, fwrite_cap w n = None) -> fst (write_chunk s bs w) = true.
Proof.
  intros H. unfold write_chunk. destruct NO_FSTREAM_DIRECTIVE.
  - destruct bs as [|b bs]; [reflexivity|].
    cbn [List.length fwrite_all].
    pose proof (fwrite_uncapped s (b :: bs) w (H _)) as E.
    destruct (fwrite s (b :: bs) w) as [n w1]. cbn [fst] in E. subst n.
    rewrite skipn_all. cbn [List.length Nat.eqb].
    destruct (List.length bs); reflexivity.
  - pose proof (fwrite_uncapped s bs w (H _)) as E.
    destruct (fwrite s bs w) as [n w1]. cbn [fst] in *. subst n.
    apply Nat.eqb_refl.
Qed.

(** ** The transfer loop *)

Lemma sched_copy_chunks chunks toFile copied total w :
  sched_view (snd (copy_chunks chunks toFile copied total w)) = sched_view w.
Proof.
  revert copied w. induction chunks as [|c r IH]; intros copied w; [reflexivity|].
  cbn [copy_chunks]. unfold load_abort.
  destruct (abortFileOp w (loads w)).
  - cbn [snd].
    change (sched_view (store_percentage ?v ?x)) with (sched_view x).
    now rewrite (quiet_sched _ _ (quiet_remove _ _)).
  - pose proof (io_sched _ _ (io_write_chunk toFile c (set_loads (S (loads w)) w))) as H.
    destruct (write_chunk toFile c (set_loads (S (loads w)) w)) as [[] w2];
      cbn [snd] in H.
    + rewrite IH. destruct (0 <? total)%Z; exact H.
    + cbn [snd].
      change (sched_view (store_percentage ?v ?x)) with (sched_view x).
      rewrite (quiet_sched _ _ (quiet_remove _ _)). exact H.
Qed.

(** An abort seen by the transfer loop leaves no destination file behind
    and the percentage at [-1], the store being the last thing done. *)
Lemma copy_chunks_abort chunks toFile copied total w :
  file_at toFile w ->
  fst (fst (copy_chunks chunks toFile copied total w)) = CopyAborted ->
  node_at (tree (snd (copy_chunks chunks toFile copied total w))) toFile = None
  /\ copyPercentage (snd (copy_chunks chunks toFile copied total w)) = (-1)%Z
  /\ hd_error (trace (snd (copy_chunks chunks toFile copied total w)))
     = Some (EvStore (-1)).
Proof.
  revert copied w. induction chunks as [|c r IH]; intros copied w F; [discriminate|].
  cbn [copy_chunks]. unfold load_abort.
  destruct (abortFileOp w (loads w)).
  - intros _. cbn [fst snd]. repeat split.
    change (tree (store_percentage ?v ?x)) with (tree x).
    apply remove_file_gone. exact F.
  - pose proof (io_write_chunk toFile c (set_loads (S (loads w)) w)) as H.
    apply io_view_eq in H. destruct H as (Ht & _).
    destruct (write_chunk toFile c (set_loads (S (loads w)) w)) as [[] w2];
      cbn [snd] in Ht; [|discriminate].
    apply IH. unfold file_at in *.
    destruct (0 <? total)%Z;
      [change (tree (store_percentage ?v ?x)) with (tree x)|]; now rewrite Ht.
Qed.

(** When the flag is first seen set at the checkpoint of chunk [k], writes
    being uncapped, the transfer loop returns through its abort branch. *)
Lemma copy_chunks_abort_at k chunks toFile copied total w :
  k < List.length chunks ->
  (forall j, j < k -> abortFileOp w (loads w + j) = false) ->
  abortFileOp w (loads w + k) = true ->
  (forall n, fwrite_cap w n = None) ->
  fst (fst (copy_chunks chunks toFile copied total w)) = CopyAborted.
Proof.
  revert chunks copied w. induction k as [|k IH]; intros chunks copied w Hk Hb Ha Hf;
    (destruct chunks as [|c r]; [simpl in Hk; lia|]);
    cbn [copy_chunks]; unfold load_abort.
  - rewrite Nat.add_0_r in Ha. now rewrite Ha.
  - pose proof (Hb 0 (Nat.lt_0_succ _)) as H0. rewrite Nat.add_0_r in H0.
    rewrite H0.
    set (w1 := set_loads (S (loads w)) w).
    assert (F1 : forall n, fwrite_cap w1 n = None) by exact Hf.
    pose proof (write_chunk_uncapped toFile c w1 F1) as Ok.
    pose proof (io_write_chunk toFile c w1) as Io. apply io_view_eq in Io.
    destruct Io as (_ & _ & _ & Lo & Ab & Fw & _).
    destruct (write_chunk toFile c w1) as [ok w2]. cbn [fst snd] in *. subst ok.
    apply IH.
    + simpl in Hk. lia.
    + intros j Hj.
      destruct (0 <? total)%Z;
        [change (abortFileOp (store_percentage ?v ?x)) with (abortFileOp x);
         change (loads (store_percentage ?v ?x)) with (loads x)|];
        rewrite Ab, Lo; cbn [w1 loads set_loads abortFileOp];
        (match goal with
         | |- abortFileOp w ?n = _ => replace n with (loads w + S j) by lia
         end); apply Hb; lia.
    + destruct (0 <? total)%Z;
        [change (abortFileOp (store_percentage ?v ?x)) with (abortFileOp x);
         change (loads (store_percentage ?v ?x)) with (loads x)|];
        rewrite Ab, Lo; cbn [w1 loads set_loads abortFileOp];
        (match goal with
         | |- abortFileOp w ?n = _ => replace n with (loads w + S k) by lia
         end); exact Ha.
    + intros n.
      destruct (0 <? total)%Z;
        [change (fwrite_cap (store_percentage ?v ?x)) with (fwrite_cap x)|];
        rewrite Fw; apply Hf.
Qed.

(** A transfer that runs to the end adds each chunk's length to the
    accumulator and publishes the floor of the percentage after each. *)
Lemma copy_chunks_done chunks toFile copied total w :
  (0 <= copied)%Z -> (0 < total)%Z ->
  (100 * (copied + total_length chunks) <= LLONG_MAX)%Z ->
  (100 * (copied + total_length chunks) / total <= INT_MAX)%Z ->
  fst (fst (copy_chunks chunks toFile copied total w)) = CopyDone ->
  snd (fst (copy_chunks chunks toFile copied total w))
  = (copied + total_length chunks)%Z
  /\ stores (trace (snd (copy_chunks chunks toFile copied total w)))
     = rev (progress_values copied total chunks) ++ stores (trace w).
Proof.
  revert copied w. induction chunks as [|c r IH]; intros copied w Hc Ht Hm Hq.
  - intros _. cbn. unfold total_length. cbn. split; [lia|reflexivity].
  - cbn [copy_chunks]. unfold load_abort.
    destruct (abortFileOp w (loads w)); [discriminate|].
    pose proof (io_write_chunk toFile c (set_loads (S (loads w)) w)) as H.
    apply io_view_eq in H. destruct H as (_ & _ & Htr & _).
    destruct (write_chunk toFile c (set_loads (S (loads w)) w)) as [[] w2];
      cbn [snd] in Htr; [|discriminate].
    rewrite total_length_cons in Hm, Hq.
    pose proof (total_length_nonneg r) as Hr.
    assert (Hn : (0 <= Z.of_nat (List.length c))%Z) by lia.
    rewrite ll_add_exact by lia.
    assert (Ht' : (0 <? total)%Z = true) by (apply Z.ltb_lt; lia).
    rewrite Ht'.
    set (copied' := (copied + Z.of_nat (List.length c))%Z) in *.
    assert (Hmono : (100 * copied' / total
                     <= 100 * (copied + (Z.of_nat (List.length c) + total_length r)) / total)%Z).
    { apply Z.div_le_mono; lia. }
    rewrite percent_of_exact by lia.
    intros Hd.
    assert (Ea : (copied' + total_length r
                  = copied + (Z.of_nat (List.length c) + total_length r))%Z) by lia.
    assert (Hm' : (100 * (copied' + total_length r) <= LLONG_MAX)%Z)
      by (rewrite Ea; exact Hm).
    assert (Hq' : (100 * (copied' + total_length r) / total <= INT_MAX)%Z)
      by (rewrite Ea; exact Hq).
    assert (Hc' : (0 <= copied')%Z) by lia.
    destruct (IH copied' (store_percentage (100 * copied' / total) w2)
                 Hc' Ht Hm' Hq' Hd) as (E1 & E2).
    rewrite E1, E2, total_length_cons. split; [lia|].
    cbn [progress_values rev]. cbv zeta. fold copied'.
    rewrite <- app_assoc. cbn [stores trace store_percentage emit app].
    now rewrite Htr.
Qed.

(** ** File contents are kept, or emptied by an open *)

Lemma data_set_tree t w : data (set_tree t w) = data w.
Proof. destruct t; reflexivity. Qed.

Lemma kept_refl w : kept_or_emptied w w.
Proof. intros p. now left. Qed.

Lemma kept_trans w w1 w2 :
  kept_or_emptied w w1 -> kept_or_emptied w1 w2 -> kept_or_emptied w w2.
Proof.
  intros H1 H2 p. destruct (H2 p) as [E|E]; [|now right].
  rewrite E. apply H1.
Qed.

Lemma kept_mkdir s w : kept_or_emptied w (snd (mkdir s w)).
Proof.
  intros p. left. unfold mkdir. repeat break_match; cbn [snd]; try reflexivity.
  now rewrite data_set_tree.
Qed.

Lemma kept_createSingleDirectory s w : kept_or_emptied w (createSingleDirectory s w).
Proof.
  unfold createSingleDirectory. pose proof (kept_mkdir s w) as H.
  destruct (mkdir s w) as [[[]|] w']; exact H.
Qed.

Lemma kept_createDirectory_walk rest seg parentPath w :
  kept_or_emptied w (createDirectory_walk rest seg parentPath w).
Proof.
  revert seg parentPath w. induction rest as [|c rest IH]; intros seg pp w; simpl.
  - destruct (String.eqb seg ""); [apply kept_refl|apply kept_createSingleDirectory].
  - destruct (Ascii.eqb c "/"); [destruct (String.eqb seg "")|]; try apply IH.
    eapply kept_trans; [apply kept_createSingleDirectory|apply IH].
Qed.

Lemma kept_createDirectory s w : kept_or_emptied w (createDirectory s w).
Proof. apply kept_createDirectory_walk. Qed.

Lemma kept_fopen s m w : kept_or_emptied w (snd (fopen s m w)).
Proof.
  intros p. unfold fopen. repeat break_match; cbn [snd]; try (now left);
    cbn [data set_data]; rewrite ?data_set_tree; unfold store_set;
    (destruct (path_eqb (Str.resolve s) p); [now right|now left]).
Qed.

Lemma kept_open_loop slack rc fromFile toFile w :
  kept_or_emptied w (snd (open_loop slack rc fromFile toFile w)).
Proof.
  revert rc w. induction slack as [|slack IH]; intros rc w; cbn [open_loop];
    pose proof (kept_fopen fromFile ReadBinary w) as H1;
    destruct (fopen fromFile ReadBinary w) as [src w1]; cbn [snd] in H1;
    pose proof (kept_fopen toFile WriteBinary w1) as H2;
    destruct (fopen toFile WriteBinary w1) as [dst w2]; cbn [snd] in H2;
    pose proof (kept_trans _ _ _ H1 H2) as H;
    destruct (src && dst); try exact H;
    destruct (Nat.ltb maxRetries (S rc)); try exact H.
  eapply kept_trans; [|apply IH]. exact H.
Qed.

Lemma kept_open_log logPath failure w :
  kept_or_emptied w (snd (open_log logPath failure w)).
Proof.
  unfold open_log. destruct (String.eqb logPath ""); [apply kept_refl|].
  pose proof (kept_trans _ _ _
                (kept_createDirectory (getParentDirFromPath logPath) w)
                (kept_fopen logPath AppendText _)) as H.
  destruct (fopen _ _ _) as [[] w2]; exact H.
Qed.

Lemma bounded_kept B w w' : bounded B w -> kept_or_emptied w w' -> bounded B w'.
Proof.
  intros H K p. destruct (K p) as [E|E]; rewrite E; [apply H|].
  specialize (H p). simpl. lia.
Qed.

Lemma read_chunks_from_prefix fuel n l :
  exists rest, List.concat (read_chunks_from fuel n l) ++ rest = l.
Proof.
  revert l. induction fuel as [|fuel IH]; intros l; cbn [read_chunks_from].
  - exists l. reflexivity.
  - destruct (firstn n l) as [|b c] eqn:E.
    + exists l. reflexivity.
    + destruct (IH (skipn n l)) as [rest Hr].
      exists rest. cbn [List.concat]. rewrite <- app_assoc, Hr, <- E.
      apply firstn_skipn.
Qed.

Lemma total_length_read_chunks n l :
  (total_length (read_chunks n l) <= Z.of_nat (List.length l))%Z.
Proof.
  unfold total_length, read_chunks.
  destruct (read_chunks_from_prefix (List.length l) n l) as [rest Hr].
  rewrite <- Hr at 3. rewrite length_app. lia.
Qed.

(** ** copySingleFile *)

Lemma copy_chunks_status chunks toFile copied total w :
  fst (fst (copy_chunks chunks toFile copied total w)) <> CopyOpenFailed.
Proof.
  revert copied w. induction chunks as [|c r IH]; intros; cbn [copy_chunks];
    [discriminate|].
  destruct (load_abort w) as [[] w1]; [discriminate|].
  destruct (write_chunk toFile c w1) as [[] w2]; [apply IH|discriminate].
Qed.

Lemma copySingleFile_unfold fromFile toFile copied total logSource logDestination w :
  copySingleFile fromFile toFile copied total logSource logDestination w
  = let o := open_loop maxRetries 0 fromFile toFile
                       (createDirectory (getParentDirFromPath toFile) w) in
    if fst o then
      let l1 := open_log logSource "Failed to open source log file: " (snd o) in
      let l2 := open_log logDestination "Failed to open destination log file: "
                         (snd l1) in
      let r := copy_chunks (read_chunks (COPY_BUFFER_SIZE (snd l2))
                                        (data (snd l2) (Str.resolve fromFile)))
                           toFile copied total (snd l2) in
      match fst (fst r) with
      | CopyDone =>
          (CopyDone, snd (fst r),
           finish_copy (fst l1) (fst l2) fromFile toFile (snd r))
      | _ => r
      end
    else (CopyOpenFailed, copied, snd o).
Proof.
  unfold copySingleFile. cbv zeta.
  destruct (open_loop _ _ _ _ _) as [[] w1]; cbn [fst snd]; [|reflexivity].
  destruct (open_log logSource _ w1) as [h1 w2]. cbn [fst snd].
  destruct (open_log logDestination _ w2) as [h2 w3]. cbn [fst snd].
  destruct (copy_chunks _ _ _ _ _) as [[[] c] w4]; reflexivity.
Qed.

(** C4 (amended): copySingleFile makes at most eleven passes through its
    open loop, the first attempt and ten retries; when it gives up it has
    made exactly eleven, and it returns with the byte accumulator, the
    published percentage, the history of stores and the count of writes
    as they were, the last thing done being the diagnostic that the retry
    count is exceeded. *)
Theorem copySingleFile_open_attempts
        (fromFile toFile : string) (totalBytesCopied totalSize : Z)
        (logSource logDestination : string) (w : world) :
  let r := copySingleFile fromFile toFile totalBytesCopied totalSize
                          logSource logDestination w in
  open_passes (trace (snd r)) <= open_passes (trace w) + 11
  /\ (fst (fst r) = CopyOpenFailed ->
      open_passes (trace (snd r)) = open_passes (trace w) + 11
      /\ snd (fst r) = totalBytesCopied
      /\ copyPercentage (snd r) = copyPercentage w
      /\ stores (trace (snd r)) = stores (trace w)
      /\ fwrites (snd r) = fwrites w
      /\ hd_error (trace (snd r))
         = Some (EvLog "Error max retry count exceeded.")).
Proof.
  cbv zeta. rewrite copySingleFile_unfold. cbv zeta.
  set (w0 := createDirectory (getParentDirFromPath toFile) w).
  pose proof (open_loop_gave_up maxRetries 0 fromFile toFile w0) as G.
  pose proof (quiet_createDirectory (getParentDirFromPath toFile) w) as Q0.
  fold w0 in Q0.
  destruct (open_loop_spec maxRetries 0 fromFile toFile w0 (Nat.add_0_r _))
    as (C & Le & Eq & _).
  rewrite (quiet_open_passes _ _ Q0) in Le, Eq.
  rewrite (quiet_calm _ _ Q0) in C.
  change (S maxRetries) with 11 in Le, Eq.
  destruct (fst (open_loop maxRetries 0 fromFile toFile w0)) eqn:Eo.
  - set (o := open_loop maxRetries 0 fromFile toFile w0) in *.
    set (l1 := open_log logSource _ (snd o)).
    set (l2 := open_log logDestination _ (snd l1)).
    set (r := copy_chunks _ toFile totalBytesCopied totalSize (snd l2)).
    assert (P : open_passes (trace (snd r)) = open_passes (trace (snd o))).
    { pose proof (sched_copy_chunks
                    (read_chunks (COPY_BUFFER_SIZE (snd l2))
                                 (data (snd l2) (Str.resolve fromFile)))
                    toFile totalBytesCopied totalSize (snd l2)) as S.
      fold r in S.
      pose proof (quiet_open_passes _ _ (quiet_open_log logDestination
                    "Failed to open destination log file: " (snd l1))) as P2.
      pose proof (quiet_open_passes _ _ (quiet_open_log logSource
                    "Failed to open source log file: " (snd o))) as P1.
      fold l1 in P1. fold l2 in P2.
      unfold sched_view in S. injection S as S _. congruence. }
    pose proof (copy_chunks_status
                  (read_chunks (COPY_BUFFER_SIZE (snd l2))
                               (data (snd l2) (Str.resolve fromFile)))
                  toFile totalBytesCopied totalSize (snd l2)) as NS.
    fold r in NS.
    destruct (fst (fst r)) eqn:Er; cbn [fst snd].
    + congruence.
    + split; [rewrite P; lia|]. rewrite Er. discriminate.
    + split; [rewrite P; lia|]. rewrite Er. discriminate.
    + split; [|discriminate].
      rewrite (quiet_open_passes _ _ (quiet_finish_copy _ _ _ _ _)), P. lia.
  - cbn [fst snd]. split; [lia|]. intros _.
    specialize (Eq eq_refl). apply calm_view_eq in C.
    destruct C as (C1 & C2 & _ & _ & C3 & _).
    repeat split; try assumption. apply G. reflexivity.
Qed.

(** The state in which the transfer loop starts. *)
Lemma copy_ready_state fromFile toFile logSource logDestination w :
  let o := open_loop maxRetries 0 fromFile toFile
                     (createDirectory (getParentDirFromPath toFile) w) in
  let l1 := open_log logSource "Failed to open source log file: " (snd o) in
  let l2 := open_log logDestination "Failed to open destination log file: "
                     (snd l1) in
  calm_view (snd l2) = calm_view w
  /\ kept_or_emptied w (snd l2)
  /\ (fst o = true -> file_at toFile (snd l2)).
Proof.
  cbv zeta.
  set (w0 := createDirectory (getParentDirFromPath toFile) w).
  destruct (open_loop_spec maxRetries 0 fromFile toFile w0 (Nat.add_0_r _))
    as (C & _ & _ & F).
  repeat split.
  - rewrite (quiet_calm _ _ (quiet_open_log _ _ _)),
            (quiet_calm _ _ (quiet_open_log _ _ _)), C.
    apply quiet_calm, quiet_createDirectory.
  - eapply kept_trans; [|apply kept_open_log].
    eapply kept_trans; [|apply kept_open_log].
    eapply kept_trans; [|apply kept_open_loop].
    apply kept_createDirectory.
  - intros Ho. apply file_at_open_log, file_at_open_log, F, Ho.
Qed.

(** C2: when copySingleFile returns because it saw abortFileOp set at a
    chunk, the destination path names nothing any more, copyPercentage is
    -1, and that store is the last thing the call did: nothing is reported
    after it. *)
Theorem copySingleFile_abort_cleanup
        (fromFile toFile : string) (totalBytesCopied totalSize : Z)
        (logSource logDestination : string) (w : world) :
  let r := copySingleFile fromFile toFile totalBytesCopied totalSize
                          logSource logDestination w in
  fst (fst r) = CopyAborted ->
  isFileOrDirectory toFile (snd r) = false
  /\ copyPercentage (snd r) = (-1)%Z
  /\ hd_error (trace (snd r)) = Some (EvStore (-1)).
Proof.
  cbv zeta. rewrite copySingleFile_unfold. cbv zeta.
  destruct (copy_ready_state fromFile toFile logSource logDestination w)
    as (_ & _ & F). cbv zeta in F.
  destruct (fst (open_loop maxRetries 0 fromFile toFile _)) eqn:Eo;
    [|discriminate].
  specialize (F eq_refl).
  match goal with
  | |- context [copy_chunks ?c ?t ?a ?b ?x] =>
      pose proof (copy_chunks_abort c t a b x F) as A;
      destruct (fst (fst (copy_chunks c t a b x))) eqn:Er
  end; intros E; try (rewrite Er in E; discriminate); try discriminate.
  destruct (A eq_refl) as (A1 & A2 & A3).
  repeat split; try assumption.
  unfold isFileOrDirectory, stat. now rewrite A1.
Qed.


(** ** Directory creation *)

Lemma createDirectory_walk_levels rest seg parentPath w :
  createDirectory_walk rest seg parentPath w
  = fold_left (fun w L => createSingleDirectory L w)
              (createDirectory_levels rest seg parentPath) w.
Proof.
  revert seg parentPath w. induction rest as [|c rest IH]; intros; simpl.
  - destruct (String.eqb seg ""); reflexivity.
  - destruct (Ascii.eqb c "/"); [destruct (String.eqb seg "")|]; simpl; apply IH.
Qed.

(** What exists keeps existing when something is set where nothing was. *)
Lemma lookup_set_at_still (q p : path) (v : node) (t : node) :
  lookup q t <> None -> lookup p t = None ->
  lookup q (set_at p (Some v) t) <> None.
Proof.
  revert p t. induction q as [|x q IH]; intros p t Hq Hp.
  - discriminate.
  - destruct t as [|r es|]; try (now destruct p as [|? [|? ?]]).
    cbn [lookup] in Hq.
    destruct (find_entry x es) as [c|] eqn:Ex; [|congruence].
    destruct p as [|y p]; [discriminate|].
    cbn [lookup] in Hp. cbn [set_at].
    destruct p as [|z p].
    + destruct (find_entry y es) as [d|] eqn:Ey; [discriminate|].
      pose proof (find_entry_neq _ _ _ _ Ex Ey) as N.
      cbn [lookup]. now rewrite (find_entry_put_other _ _ _ _ N), Ex.
    + destruct (find_entry y es) as [d|] eqn:Ey.
      * cbn [lookup]. destruct (string_dec x y) as [->|N].
        -- rewrite find_entry_put_same. rewrite Ex in Ey. injection Ey as ->.
           apply IH; assumption.
        -- now rewrite (find_entry_put_other _ _ _ _ N), Ex.
      * cbn [lookup]. now rewrite Ex.
Qed.

Lemma isFileOrDirectory_spec s w :
  isFileOrDirectory s w = true
  <-> String.eqb s "" = false /\ lookup (Str.resolve s) (tree w) <> None.
Proof.
  unfold isFileOrDirectory, stat, node_at.
  destruct (String.eqb s ""); [split; [discriminate|intros []; discriminate]|].
  destruct (lookup (Str.resolve s) (tree w)) as [[]|]; split;
    try (intros _; split; [reflexivity|discriminate]);
    try reflexivity; try discriminate.
  intros [_ H]. congruence.
Qed.

Lemma mkdir_present s w :
  isFileOrDirectory s w = true -> mkdir s w = (Some EEXIST, w).
Proof.
  intros H. apply isFileOrDirectory_spec in H. destruct H as [E N].
  unfold mkdir. rewrite E.
  destruct (lookup (Str.resolve s) (tree w)); [reflexivity|congruence].
Qed.

Lemma mkdir_keeps q s w :
  isFileOrDirectory q w = true -> isFileOrDirectory q (snd (mkdir s w)) = true.
Proof.
  intros H. unfold mkdir. destruct (String.eqb s ""); [exact H|].
  destruct (lookup (Str.resolve s) (tree w)) eqn:E; [exact H|].
  destruct (lookup (parent (Str.resolve s)) (tree w)) as [[]|]; try exact H.
  cbn [snd]. apply isFileOrDirectory_spec in H. destruct H as [Eq N].
  apply isFileOrDirectory_spec. split; [exact Eq|].
  rewrite tree_set_tree. now apply lookup_set_at_still.
Qed.

Lemma mkdir_made s w :
  fst (mkdir s w) = None -> isFileOrDirectory s (snd (mkdir s w)) = true.
Proof.
  unfold mkdir. destruct (String.eqb s "") eqn:Es; [discriminate|].
  destruct (lookup (Str.resolve s) (tree w)) eqn:E; [discriminate|].
  destruct (lookup (parent (Str.resolve s)) (tree w)) as [[]|] eqn:P;
    try discriminate.
  intros _. cbn [snd]. apply isFileOrDirectory_spec. split; [exact Es|].
  rewrite tree_set_tree, lookup_set_at_new; [discriminate| |now rewrite P].
  now apply lookup_none_nonroot in E.
Qed.

Lemma mkdir_exists s w :
  fst (mkdir s w) = Some EEXIST -> isFileOrDirectory s w = true.
Proof.
  unfold mkdir. destruct (String.eqb s "") eqn:Es; [discriminate|].
  destruct (lookup (Str.resolve s) (tree w)) eqn:E.
  - intros _. apply isFileOrDirectory_spec. split; [exact Es|congruence].
  - destruct (lookup (parent (Str.resolve s)) (tree w)) as [[]|]; discriminate.
Qed.

Lemma mkdir_eexist_same s w : fst (mkdir s w) = Some EEXIST -> snd (mkdir s w) = w.
Proof. intros H. now rewrite (mkdir_present s w (mkdir_exists s w H)). Qed.

Lemma createSingleDirectory_present s w :
  isFileOrDirectory s w = true -> createSingleDirectory s w = w.
Proof. intros H. unfold createSingleDirectory. now rewrite (mkdir_present s w H). Qed.

Lemma createSingleDirectory_keeps q s w :
  isFileOrDirectory q w = true -> isFileOrDirectory q (createSingleDirectory s w) = true.
Proof.
  intros H. unfold createSingleDirectory.
  pose proof (mkdir_keeps q s w H) as H'.
  destruct (mkdir s w) as [[[]|] w']; exact H'.
Qed.

Lemma createSingleDirectory_diagnostics s w :
  (diagnostics (trace (createSingleDirectory s w)) = diagnostics (trace w)
   /\ isFileOrDirectory s (createSingleDirectory s w) = true)
  \/ List.length (diagnostics (trace (createSingleDirectory s w)))
     = S (List.length (diagnostics (trace w))).
Proof.
  unfold createSingleDirectory.
  pose proof (mkdir_made s w) as M. pose proof (mkdir_exists s w) as X.
  pose proof (mkdir_eexist_same s w) as Sm.
  pose proof (quiet_mkdir s w) as Q.
  assert (T : trace (snd (mkdir s w)) = trace w).
  { unfold mkdir. repeat break_match; try reflexivity.
    cbn [snd]. destruct (set_at _ _ _); reflexivity. }
  destruct (mkdir s w) as [[[]|] w']; cbn [fst snd] in *.
  - left. rewrite (Sm eq_refl). split; [reflexivity|]. now apply X.
  - right. cbn. now rewrite T.
  - right. cbn. now rewrite T.
  - left. split; [now rewrite T|]. now apply M.
Qed.

Lemma fold_createSingleDirectory_present levels w :
  Forall (fun L => isFileOrDirectory L w = true) levels ->
  fold_left (fun w L => createSingleDirectory L w) levels w = w.
Proof.
  induction 1 as [|L levels HL _ IH]; simpl; [reflexivity|].
  rewrite (createSingleDirectory_present L w HL). exact IH.
Qed.

Lemma fold_createSingleDirectory_diagnostics levels w :
  List.length (diagnostics (trace w))
  <= List.length (diagnostics (trace
       (fold_left (fun w L => createSingleDirectory L w) levels w))).
Proof.
  revert w. induction levels as [|L levels IH]; intros w; simpl; [lia|].
  specialize (IH (createSingleDirectory L w)).
  destruct (createSingleDirectory_diagnostics L w) as [[E _]|E]; rewrite E in IH; lia.
Qed.

Lemma fold_createSingleDirectory_keeps q levels w :
  isFileOrDirectory q w = true ->
  isFileOrDirectory q (fold_left (fun w L => createSingleDirectory L w) levels w) = true.
Proof.
  revert w. induction levels as [|L levels IH]; intros w H; simpl; [exact H|].
  apply IH. now apply createSingleDirectory_keeps.
Qed.

(** A walk that reports nothing leaves every level in place. *)
Lemma fold_createSingleDirectory_silent levels w :
  List.length (diagnostics (trace
     (fold_left (fun w L => createSingleDirectory L w) levels w)))
  = List.length (diagnostics (trace w)) ->
  Forall (fun L => isFileOrDirectory L
            (fold_left (fun w L => createSingleDirectory L w) levels w) = true)
         levels.
Proof.
  revert w. induction levels as [|L levels IH]; intros w H; simpl in *;
    [constructor|].
  pose proof (fold_createSingleDirectory_diagnostics levels
                (createSingleDirectory L w)) as Le.
  destruct (createSingleDirectory_diagnostics L w) as [[E P]|E].
  - constructor.
    + now apply fold_createSingleDirectory_keeps.
    + apply IH. rewrite H. now rewrite E.
  - rewrite E in Le. lia.
Qed.

(** C7: createDirectory is idempotent. After a first call that reported no
    failure, a second call with the same path changes nothing at all: every
    level it asks for exists, mkdir answers EEXIST, no diagnostic is sent and
    the tree, with the directory in it, is the same. *)
Theorem createDirectory_idempotent (directoryPath : string) (w : world) :
  diagnostics (trace (createDirectory directoryPath w)) = diagnostics (trace w) ->
  createDirectory directoryPath (createDirectory directoryPath w)
  = createDirectory directoryPath w.
Proof.
  unfold createDirectory. rewrite !createDirectory_walk_levels.
  intros H. apply fold_createSingleDirectory_present.
  apply fold_createSingleDirectory_silent. now rewrite H.
Qed.

(** ** Path strings *)

Lemma split_slash_nonnil s : Str.split_slash s <> [].
Proof.
  destruct s as [|c s]; simpl; [discriminate|].
  destruct (Ascii.eqb c "/"); [discriminate|].
  destruct (Str.split_slash s); discriminate.
Qed.

Lemma split_slash_app a b :
  Str.split_slash (a +++ String "/" b) = Str.split_slash a ++ Str.split_slash b.
Proof.
  induction a as [|c a IH]; simpl; [reflexivity|].
  destruct (Ascii.eqb c "/").
  - now rewrite IH.
  - rewrite IH. pose proof (split_slash_nonnil a) as N.
    destruct (Str.split_slash a); [congruence|reflexivity].
Qed.

Lemma resolve_app a b :
  Str.resolve (a +++ "/" +++ b) = Str.resolve a ++ Str.resolve b.
Proof.
  unfold Str.resolve. change ("/" +++ b) with (String "/" b).
  now rewrite split_slash_app, filter_app.
Qed.

Lemma split_slash_name x : Str.has_slash x = false -> Str.split_slash x = [x].
Proof.
  unfold Str.has_slash. induction x as [|c x IH]; simpl; [reflexivity|].
  destruct (Ascii.eqb c "/"); [discriminate|].
  intros H. now rewrite (IH H).
Qed.

Lemma valid_name_parts x :
  Str.valid_name x = true ->
  Str.nonempty x = true /\ Str.has_slash x = false
  /\ String.eqb x "." = false /\ String.eqb x ".." = false.
Proof.
  unfold Str.valid_name. intros H.
  repeat (apply andb_prop in H; destruct H as [H ?]).
  repeat split; try assumption; now apply negb_true_iff.
Qed.

Lemma resolve_name x : Str.valid_name x = true -> Str.resolve x = [x].
Proof.
  intros H. apply valid_name_parts in H. destruct H as (N & S & _).
  unfold Str.resolve. rewrite (split_slash_name x S). simpl. now rewrite N.
Qed.

Lemma resolve_child q x :
  Str.valid_name x = true -> Str.resolve (q +++ "/" +++ x) = Str.resolve q ++ [x].
Proof. intros H. now rewrite resolve_app, (resolve_name x H). Qed.

Lemma append_nonempty a b : String.eqb (a +++ "/" +++ b) "" = false.
Proof. destruct a; reflexivity. Qed.

Lemma valid_not_dot x : Str.valid_name x = true -> is_dot x = false.
Proof.
  intros H. apply valid_name_parts in H. destruct H as (_ & _ & D1 & D2).
  unfold is_dot. now rewrite D1, D2.
Qed.

(** ** Trees: lookups, sizes, well-formedness *)

Lemma lookup_app p q t :
  lookup (p ++ q) t = match lookup p t with Some n => lookup q n | None => None end.
Proof.
  revert t. induction p as [|x p IH]; intros t; simpl; [reflexivity|].
  destruct t as [|r es|]; try reflexivity.
  destruct (find_entry x es); [apply IH|reflexivity].
Qed.

Lemma wf_dir r es :
  wf (Dir r es)
  <-> NoDup (names es)
      /\ Forall (fun e => Str.valid_name (fst e) = true /\ wf (snd e)) es.
Proof.
  cbn [wf]. split; intros [N A]; (split; [exact N|]); clear N.
  - induction es as [|[x c] es IH]; constructor; destruct A as (V & W & A).
    + split; assumption.
    + apply IH. exact A.
  - induction A as [|[x c] es [V W] _ IH]; simpl; [exact I|].
    repeat split; assumption.
Qed.

Lemma size_dir r es : size (Dir r es) = S (sizes es).
Proof.
  cbn [size]. f_equal. induction es as [|[x c] es IH]; simpl; [reflexivity|].
  now rewrite IH.
Qed.

Lemma du_dir d p es : du d p (Dir true es) = du_entries d p es.
Proof.
  cbn [du]. induction es as [|[x c] es IH]; simpl; [reflexivity|].
  now rewrite IH.
Qed.

Lemma find_entry_in x c es :
  NoDup (names es) -> In (x, c) es -> find_entry x es = Some c.
Proof.
  induction es as [|[y d] es IH]; intros N I; [destruct I|].
  simpl in N. inversion N as [|? ? Hn N']; subst.
  simpl. destruct I as [E|I].
  - injection E as -> ->. now rewrite String.eqb_refl.
  - destruct (String.eqb x y) eqn:E.
    + apply String.eqb_eq in E. subst y. exfalso. apply Hn.
      unfold names. apply in_map_iff. now exists (x, c).
    + now apply IH.
Qed.

Lemma find_entry_some_in x c es : find_entry x es = Some c -> In (x, c) es.
Proof.
  induction es as [|[y d] es IH]; simpl; [discriminate|].
  destruct (String.eqb x y) eqn:E.
  - apply String.eqb_eq in E. subst y. intros H. injection H as ->. now left.
  - intros H. right. now apply IH.
Qed.

Lemma wf_lookup p t n : wf t -> lookup p t = Some n -> wf n.
Proof.
  revert t. induction p as [|x p IH]; intros t W H; simpl in H.
  - now injection H as <-.
  - destruct t as [|r es|]; try discriminate.
    destruct (find_entry x es) as [c|] eqn:E; [|discriminate].
    apply (IH c); [|exact H].
    apply wf_dir in W. destruct W as [_ A].
    rewrite Forall_forall in A.
    exact (proj2 (A _ (find_entry_some_in _ _ _ E))).
Qed.

Lemma du_nonneg d p n : (0 <= du d p n)%Z.
Proof.
  revert p. induction n as [| r es IH |] using
    (fix F (n : node) : forall P : node -> Prop,
        P File ->
        (forall r es, Forall (fun e => P (snd e)) es -> P (Dir r es)) ->
        P Special -> P n :=
       fun P HF HD HS =>
         match n with
         | File => HF
         | Dir r es =>
             HD r es
                ((fix G (l : list (string * node)) : Forall (fun e => P (snd e)) l :=
                    match l with
                    | [] => Forall_nil _
                    | e :: l' => Forall_cons e (F (snd e) P HF HD HS) (G l')
                    end) es)
         | Special => HS
         end); intros p.
  - simpl. lia.
  - destruct r; [|simpl; lia]. rewrite du_dir.
    induction IH as [|[x c] es Hc _ IHes]; simpl; [lia|].
    specialize (Hc (p ++ [x])). simpl in Hc. lia.
  - simpl. lia.
Qed.

(** ** Size accounting *)

Lemma du_entries_nonneg d p es : (0 <= du_entries d p es)%Z.
Proof.
  induction es as [|e es IH]; simpl; [lia|].
  pose proof (du_nonneg d (p ++ [fst e]) (snd e)). lia.
Qed.

Lemma sum_du_app w a b : sum_du w (a ++ b) = (sum_du w a + sum_du w b)%Z.
Proof. induction a as [|s a IH]; simpl; [reflexivity|]. rewrite IH. lia. Qed.

Lemma sum_size_app w a b : sum_size w (a ++ b) = sum_size w a + sum_size w b.
Proof. induction a as [|s a IH]; simpl; [reflexivity|]. rewrite IH. lia. Qed.

(** The entry a listed name of a directory leads to. *)
Lemma node_at_child w q r es x c :
  node_at (tree w) q = Some (Dir r es) -> wf (Dir r es) -> In (x, c) es ->
  Str.valid_name x = true
  /\ wf c
  /\ node_at (tree w) (q +++ "/" +++ x) = Some c
  /\ Str.resolve (q +++ "/" +++ x) = Str.resolve q ++ [x].
Proof.
  intros Hq W I. apply wf_dir in W. destruct W as [N A].
  rewrite Forall_forall in A. destruct (A _ I) as [V Wc]. simpl in V, Wc.
  repeat split; try assumption; [|now apply resolve_child].
  unfold node_at in *. rewrite append_nonempty.
  destruct (String.eqb q ""); [discriminate|].
  rewrite (resolve_child q x V), lookup_app, Hq. simpl.
  now rewrite (find_entry_in x c es N I).
Qed.

Lemma size_entries_spec w q r es :
  node_at (tree w) q = Some (Dir r es) -> wf (Dir r es) ->
  forall l t queue,
    incl l es -> (0 <= t)%Z ->
    (t + du_entries (data w) (Str.resolve q) l <= LLONG_MAX)%Z ->
    exists t' q',
      size_entries q (names l) t queue w = (t', queue ++ q')
      /\ (t' + sum_du w q' = t + du_entries (data w) (Str.resolve q) l)%Z
      /\ (0 <= t')%Z
      /\ Forall (dir_at w) q'
      /\ sum_size w q' <= sizes l.
Proof.
  intros Hq W. induction l as [|[x c] l IH]; intros t queue I Ht Hm.
  - exists t, []. simpl. rewrite app_nil_r. repeat split; auto; lia.
  - assert (Ic : In (x, c) es) by (apply I; now left).
    assert (Il : incl l es) by (intros e He; apply I; now right).
    destruct (node_at_child w q r es x c Hq W Ic) as (V & Wc & Hn & Hr).
    pose proof (du_entries_nonneg (data w) (Str.resolve q) l) as Hl.
    pose proof (du_nonneg (data w) (Str.resolve q ++ [x]) c) as Hc.
    cbn [names map fst size_entries]. rewrite (valid_not_dot x V).
    unfold lstat, stat. rewrite Hn, Hr.
    cbn [du_entries fold_right fst snd] in Hm |- *.
    fold (du_entries (data w) (Str.resolve q) l) in Hm |- *.
    destruct c as [|r' es'|].
    + cbn [du] in Hm, Hc |- *. unfold file_size.
      rewrite ll_add_exact by lia.
      destruct (IH (t + Z.of_nat (List.length (data w (Str.resolve q ++ [x]))))%Z
                   queue Il) as (t' & q' & E & S & P & F & Z); try lia.
      exists t', q'. fold (names l). rewrite E.
      repeat split; auto; try lia. simpl. lia.
    + destruct (IH t (queue ++ [q +++ "/" +++ x]) Il Ht)
        as (t' & q' & E & S & P & F & Z); [lia|].
      exists t', ((q +++ "/" +++ x) :: q'). fold (names l). rewrite E.
      rewrite <- app_assoc. repeat split; auto.
      * cbn [sum_du fold_right]. fold (sum_du w q').
        unfold du_at at 1. rewrite Hn, Hr. lia.
      * constructor; [|exact F]. exists r', es'. split; assumption.
      * cbn [sum_size fold_right sizes snd]. fold (sum_size w q'). fold (sizes l).
        unfold size_at at 1. rewrite Hn. lia.
    + cbn [du] in Hm |- *.
      destruct (IH t queue Il Ht) as (t' & q' & E & S & P & F & Z); [lia|].
      exists t', q'. fold (names l). rewrite E.
      repeat split; auto; try lia. simpl. lia.
Qed.

Lemma size_loop_spec w :
  forall fuel queue t,
    Forall (dir_at w) queue -> sum_size w queue <= fuel ->
    (0 <= t)%Z -> (t + sum_du w queue <= LLONG_MAX)%Z ->
    size_loop fuel queue t w = Some (t + sum_du w queue)%Z.
Proof.
  induction fuel as [|fuel IH]; intros queue t F Hf Ht Hm.
  - destruct queue as [|q queue]; [simpl; f_equal; lia|].
    exfalso. inversion F as [|? ? (r & es & Hq & W) _]; subst.
    cbn [sum_size fold_right] in Hf. unfold size_at in Hf. rewrite Hq in Hf.
    rewrite size_dir in Hf. lia.
  - destruct queue as [|q queue]; [simpl; f_equal; lia|].
    inversion F as [|? ? (r & es & Hq & W) F']; subst.
    cbn [sum_size fold_right] in Hf. fold (sum_size w queue) in Hf.
    cbn [sum_du fold_right] in Hm |- *. fold (sum_du w queue) in Hm |- *.
    unfold size_at in Hf. rewrite Hq, size_dir in Hf.
    unfold du_at in Hm |- *. rewrite Hq in Hm |- *.
    cbn [size_loop]. unfold readdir_all. rewrite Hq.
    destruct r.
    + rewrite du_dir in Hm |- *.
      change (size_entries q ("." :: ".." :: names es) t queue w)
        with (size_entries q (names es) t queue w).
      pose proof (du_entries_nonneg (data w) (Str.resolve q) es) as He.
      assert (Hs : (0 <= sum_du w queue)%Z).
      { clear. induction queue as [|s l IHl]; simpl; [lia|].
        assert (0 <= du_at w s)%Z; [|lia].
        unfold du_at. destruct (node_at (tree w) s); [apply du_nonneg|lia]. }
      destruct (size_entries_spec w q true es Hq W es t queue (incl_refl _) Ht)
        as (t' & q' & E & S & P & Fq & Z); [lia|].
      rewrite E. rewrite IH.
      * f_equal. rewrite sum_du_app. lia.
      * apply Forall_app. split; assumption.
      * rewrite sum_size_app. lia.
      * exact P.
      * rewrite sum_du_app. lia.
    + cbn [du] in Hm |- *.
      rewrite IH; [f_equal; lia|assumption|lia|assumption|lia].
Qed.

(** C6: on a well-formed tree, with fuel for the entries below the path and
    a total that fits a long long, getTotalSize returns the byte length of a
    regular file, for a directory the sum of the sizes of the regular files
    reachable through readable directories (an unreadable directory and
    anything that is neither file nor directory count for nothing), and 0 for
    a path that names neither, such as one that does not exist. *)
Theorem getTotalSize_spec (fuel : nat) (path : string) (w : world) :
  wf (tree w) -> size_at w path <= fuel -> (du_at w path <= LLONG_MAX)%Z ->
  getTotalSize fuel path w = Some (du_at w path)
  /\ (isFile path w = true -> du_at w path = file_size w (Str.resolve path))
  /\ (forall r es, node_at (tree w) path = Some (Dir r es) ->
      du_at w path = if r then du_entries (data w) (Str.resolve path) es else 0%Z)
  /\ (isFile path w = false -> isDirectory path w = false -> du_at w path = 0%Z).
Proof.
  intros W Hf Hm. unfold getTotalSize, lstat, isFile, isDirectory, stat.
  unfold du_at, size_at in *.
  destruct (node_at (tree w) path) as [[|r es|]|] eqn:E.
  - repeat split; try reflexivity; try discriminate.
  - assert (D : dir_at w path).
    { exists r, es. split; [exact E|].
      unfold node_at in E. destruct (String.eqb path ""); [discriminate|].
      exact (wf_lookup _ _ _ W E). }
    pose proof (size_loop_spec w fuel [path] 0%Z) as L.
    cbn [sum_du sum_size fold_right] in L. unfold du_at, size_at in L.
    rewrite E in L. rewrite L.
    + repeat split; try discriminate.
      * f_equal. lia.
      * intros r0 es0 H. injection H as <- <-.
        destruct r; [apply du_dir|reflexivity].
    + constructor; [exact D|constructor].
    + lia.
    + lia.
    + lia.
  - repeat split; try reflexivity; discriminate.
  - repeat split; try reflexivity; discriminate.
Qed.

(** ** More on path strings: directory-denoted paths *)

Lemma append_assoc a b c : (a +++ b) +++ c = a +++ b +++ c.
Proof. induction a as [|x a IH]; simpl; [reflexivity|]. now rewrite IH. Qed.

Lemma append_empty_r a : a +++ "" = a.
Proof. induction a as [|x a IH]; simpl; [reflexivity|]. now rewrite IH. Qed.

Lemma back_append a b : b <> "" -> Str.back (a +++ b) = Str.back b.
Proof.
  intros N. induction a as [|x a IH]; [reflexivity|].
  cbn [String.append Str.back]. destruct (a +++ b) eqn:E; [|exact IH].
  destruct a; simpl in E; [congruence|discriminate].
Qed.

Lemma ends_with_slash_split s :
  Str.ends_with_slash s = true -> exists s0, s = s0 +++ "/".
Proof.
  unfold Str.ends_with_slash. induction s as [|c s IH]; [discriminate|].
  cbn [Str.back]. destruct s as [|d s].
  - intros H. apply Ascii.eqb_eq in H. subst c. now exists "".
  - intros H. destruct (IH H) as [s0 E]. exists (String c s0). simpl. now rewrite <- E.
Qed.

Lemma back_no_slash x c :
  Str.has_slash x = false -> Str.back x = Some c -> Ascii.eqb c "/" = false.
Proof.
  unfold Str.has_slash. induction x as [|d x IH]; [discriminate|].
  cbn [list_ascii_of_string existsb Str.back]. intros H.
  apply orb_false_elim in H. destruct H as [Hd Hx].
  destruct x as [|e x]; [intros E; now injection E as <-|].
  intros E. exact (IH Hx E).
Qed.

Lemma back_none x : Str.back x = None -> x = "".
Proof.
  induction x as [|c x IH]; [reflexivity|].
  cbn [Str.back]. destruct x; [discriminate|]. intros H. discriminate (IH H).
Qed.

Lemma child_path_slash s x :
  Str.valid_name x = true -> child_path s x = s +++ x +++ "/".
Proof.
  intros V. apply valid_name_parts in V. destruct V as (N & S & _).
  unfold child_path. cbv zeta. rewrite append_assoc. f_equal.
  assert (Nx : x <> "").
  { intros ->. discriminate. }
  unfold Str.ends_with_slash. rewrite (back_append s x Nx).
  destruct (Str.back x) as [c|] eqn:B; [|now apply back_none in B].
  rewrite (back_no_slash x c S B). reflexivity.
Qed.

Lemma resolve_dir s0 : Str.resolve (s0 +++ "/") = Str.resolve s0.
Proof.
  change (s0 +++ "/") with (s0 +++ "/" +++ ""). rewrite resolve_app.
  apply app_nil_r.
Qed.

(** The child of a directory-denoted path. *)
Lemma child_path_spec s x :
  Str.ends_with_slash s = true -> Str.valid_name x = true ->
  Str.ends_with_slash (child_path s x) = true
  /\ Str.resolve (child_path s x) = Str.resolve s ++ [x]
  /\ String.eqb (child_path s x) "" = false.
Proof.
  intros E V. rewrite (child_path_slash s x V).
  destruct (ends_with_slash_split s E) as [s0 ->].
  repeat split.
  - unfold Str.ends_with_slash. rewrite <- append_assoc.
    rewrite back_append; [reflexivity|discriminate].
  - rewrite append_assoc, resolve_app, !resolve_dir.
    now rewrite (resolve_name x V).
  - rewrite append_assoc. change ("/" +++ x +++ "/") with ("/" +++ (x +++ "/")).
    apply append_nonempty.
Qed.

(** ** Removing entries from the tree *)

Lemma drop_put_same x c es : drop_entry x (put_entry x c es) = drop_entry x es.
Proof.
  unfold drop_entry. induction es as [|[y d] es IH]; simpl.
  - now rewrite String.eqb_refl.
  - destruct (String.eqb x y) eqn:E; simpl; rewrite ?String.eqb_refl, ?E; simpl.
    + reflexivity.
    + now rewrite IH.
Qed.

Lemma put_put_same x c d es : put_entry x c (put_entry x d es) = put_entry x c es.
Proof.
  induction es as [|[y e] es IH]; simpl.
  - now rewrite String.eqb_refl.
  - destruct (String.eqb x y) eqn:E; simpl; rewrite ?String.eqb_refl, ?E.
    + reflexivity.
    + now rewrite IH.
Qed.

(** Removing an entry and then one of its ancestors is removing the
    ancestor. *)
Lemma set_at_cons2 x y p v r es :
  set_at (x :: y :: p) v (Dir r es)
  = match find_entry x es with
    | Some c => Dir r (put_entry x (set_at (y :: p) v c) es)
    | None => Dir r es
    end.
Proof. reflexivity. Qed.

Lemma set_at_cons_ne x q v r es :
  q <> [] ->
  set_at (x :: q) v (Dir r es)
  = match find_entry x es with
    | Some c => Dir r (put_entry x (set_at q v c) es)
    | None => Dir r es
    end.
Proof. destruct q; [congruence|reflexivity]. Qed.

Lemma set_at_none_absorb p x q v t :
  p <> [] -> set_at p None (set_at (p ++ x :: q) v t) = set_at p None t.
Proof.
  revert t. induction p as [|y p IH]; intros t N; [congruence|].
  destruct t as [|r es|]; try reflexivity.
  destruct p as [|z p].
  - cbn [app]. rewrite set_at_cons2.
    destruct (find_entry y es) as [c|] eqn:E; [|reflexivity].
    cbn [set_at]. now rewrite drop_put_same.
  - cbn [app]. rewrite !set_at_cons2.
    destruct (find_entry y es) as [c|] eqn:E; [|rewrite set_at_cons2; now rewrite E].
    rewrite set_at_cons2, find_entry_put_same.
    change (z :: p ++ x :: q) with ((z :: p) ++ x :: q).
    rewrite IH by discriminate. now rewrite put_put_same.
Qed.

Lemma lookup_set_at_child p x t r es :
  lookup p t = Some (Dir r es) ->
  lookup p (set_at (p ++ [x]) None t) = Some (Dir r (drop_entry x es)).
Proof.
  revert t. induction p as [|y p IH]; intros t H.
  - simpl in H. injection H as ->. reflexivity.
  - destruct t as [|r0 es0|]; try discriminate.
    cbn [lookup] in H. destruct (find_entry y es0) as [c|] eqn:E; [|discriminate].
    change ((y :: p) ++ [x]) with (y :: p ++ [x]).
    rewrite set_at_cons_ne by (now destruct p).
    rewrite E. cbn [lookup]. rewrite find_entry_put_same. now apply IH.
Qed.

Lemma lookup_remove_children p l t r es :
  lookup p t = Some (Dir r es) ->
  lookup p (remove_children p l t) = Some (Dir r (drop_entries l es)).
Proof.
  revert t es. induction l as [|x l IH]; intros t es H; [exact H|].
  change (remove_children p (x :: l) t)
    with (remove_children p l (set_at (p ++ [x]) None t)).
  change (drop_entries (x :: l) es) with (drop_entries l (drop_entry x es)).
  apply IH. now apply lookup_set_at_child.
Qed.

Lemma set_at_remove_children p l t :
  p <> [] -> set_at p None (remove_children p l t) = set_at p None t.
Proof.
  intros N. revert t. induction l as [|x l IH]; intros t; [reflexivity|].
  change (remove_children p (x :: l) t)
    with (remove_children p l (set_at (p ++ [x]) None t)).
  rewrite IH. now apply set_at_none_absorb.
Qed.

Lemma drop_entries_in l es e :
  In e (drop_entries l es) -> In e es /\ ~ In (fst e) l.
Proof.
  revert es. induction l as [|x l IH]; intros es H; [now split|].
  change (drop_entries (x :: l) es) with (drop_entries l (drop_entry x es)) in H.
  apply IH in H. destruct H as [H N].
  unfold drop_entry in H. apply filter_In in H. destruct H as [H E].
  split; [exact H|]. intros [->|I]; [|now apply N].
  now rewrite String.eqb_refl in E.
Qed.

Lemma drop_entries_all l es :
  (forall e, In e es -> In (fst e) l) -> drop_entries l es = [].
Proof.
  intros H. destruct (drop_entries l es) as [|e rest] eqn:E; [reflexivity|].
  assert (I : In e (drop_entries l es)) by (rewrite E; now left).
  apply drop_entries_in in I. destruct I as [I N]. elim N. now apply H.
Qed.

Lemma clean_dir r es :
  clean (Dir r es) <-> r = true /\ Forall (fun e => clean (snd e)) es.
Proof.
  cbn [clean]. split; intros [N A]; (split; [exact N|]); clear N.
  - induction es as [|[x c] es IH]; constructor; destruct A as (C & A).
    + exact C.
    + apply IH. exact A.
  - induction A as [|[x c] es C _ IH]; simpl; [exact I|]. split; assumption.
Qed.

Lemma size_pos n : 1 <= size n.
Proof. destruct n; simpl; lia. Qed.

Lemma size_in x c es : In (x, c) es -> size c <= sizes es.
Proof.
  induction es as [|e es IH]; intros I; [destruct I|].
  simpl. destruct I as [->|I]; [simpl; lia|]. specialize (IH I). lia.
Qed.

Lemma filter_valid_names es :
  Forall (fun e : string * node => Str.valid_name (fst e) = true /\ wf (snd e)) es ->
  filter (fun n => negb (is_dot n)) (names es) = names es.
Proof.
  induction 1 as [|[x c] es [V _] _ IH]; simpl; [reflexivity|].
  simpl in V. rewrite (valid_not_dot x V). simpl. now rewrite IH.
Qed.

(** ** The delete loop, one step at a time *)

Lemma tree_log_if_open h line w : tree (log_if_open h line w) = tree w.
Proof. destruct h; simpl; [apply tree_append_bytes|reflexivity]. Qed.

Lemma delete_step_file h s below w :
  node_at (tree w) s = Some File ->
  exists w', tree w' = set_at (Str.resolve s) None (tree w)
             /\ forall fuel,
                 delete_loop (S fuel) h (s :: below) w = delete_loop fuel h below w'.
Proof.
  intros H. cbn [delete_loop]. unfold stat, remove. rewrite H.
  eexists. split; [|reflexivity].
  now rewrite tree_log_if_open, tree_set_tree.
Qed.

Lemma delete_step_empty h s below w r :
  node_at (tree w) s = Some (Dir r []) -> r = true -> Str.resolve s <> [] ->
  exists w', tree w' = set_at (Str.resolve s) None (tree w)
             /\ forall fuel,
                 delete_loop (S fuel) h (s :: below) w = delete_loop fuel h below w'.
Proof.
  intros H -> N. cbn [delete_loop]. unfold stat, readdir_all. rewrite H.
  cbn [names map filter is_dot String.eqb Ascii.eqb Bool.eqb orb negb].
  unfold rmdir.
  change (tree (emit ?e ?x)) with (tree x). rewrite H.
  destruct (Str.resolve s) as [|x p] eqn:E; [congruence|].
  eexists. split; [|reflexivity].
  apply (tree_set_tree (x :: p) None (emit _ w)).
Qed.

Lemma delete_step_push h s below w fuel es :
  node_at (tree w) s = Some (Dir true es) -> wf (Dir true es) -> es <> [] ->
  delete_loop (S fuel) h (s :: below) w
  = delete_loop fuel h (map (child_path s) (rev (names es)) ++ s :: below) w.
Proof.
  intros H W N. cbn [delete_loop]. unfold stat, readdir_all. rewrite H.
  apply wf_dir in W. destruct W as [_ A].
  change (filter (fun n => negb (is_dot n)) ("." :: ".." :: names es))
    with (filter (fun n => negb (is_dot n)) (names es)).
  rewrite (filter_valid_names es A).
  destruct es as [|[x c] es]; [congruence|].
  cbn [names map]. rewrite map_rev. reflexivity.
Qed.

(** ** The delete loop on a clean subtree *)

Section DeleteSubtree.

Variable h : option string.
Variable N : nat.

(** What the induction provides for every smaller subtree. *)
Hypothesis smaller :
  forall n s w below,
    size n <= N -> Str.ends_with_slash s = true -> Str.resolve s <> [] ->
    node_at (tree w) s = Some n -> clean n -> wf n ->
    exists k w',
      tree w' = set_at (Str.resolve s) None (tree w)
      /\ forall fuel,
          delete_loop (k + fuel) h (s :: below) w = delete_loop fuel h below w'.

Lemma delete_children s :
  Str.ends_with_slash s = true ->
  forall l es w rest r,
    NoDup l ->
    node_at (tree w) s = Some (Dir r es) ->
    (forall x, In x l ->
       exists c, find_entry x es = Some c /\ Str.valid_name x = true
                 /\ clean c /\ wf c /\ size c <= N) ->
    exists k w',
      tree w' = remove_children (Str.resolve s) l (tree w)
      /\ forall fuel,
          delete_loop (k + fuel) h (map (child_path s) l ++ rest) w
          = delete_loop fuel h rest w'.
Proof using smaller.
  intros Es. induction l as [|x l IH]; intros es w rest r ND Hs Hl.
  - exists 0, w. split; reflexivity.
  - destruct (Hl x (or_introl eq_refl)) as (c & Fx & V & C & W & Sz).
    destruct (child_path_spec s x Es V) as (Ec & Rc & Nc).
    unfold node_at in Hs. destruct (String.eqb s "") eqn:Ns; [discriminate|].
    assert (Hc : node_at (tree w) (child_path s x) = Some c).
    { unfold node_at. rewrite Nc, Rc, lookup_app, Hs. simpl. now rewrite Fx. }
    assert (Rn : Str.resolve (child_path s x) <> []).
    { rewrite Rc. now destruct (Str.resolve s). }
    destruct (smaller c (child_path s x) w (map (child_path s) l ++ rest)
                      Sz Ec Rn Hc C W) as (k1 & w1 & T1 & L1).
    rewrite Rc in T1.
    inversion ND as [|? ? Nx ND']; subst.
    assert (Hs1 : node_at (tree w1) s = Some (Dir r (drop_entry x es))).
    { unfold node_at. rewrite Ns, T1. now apply lookup_set_at_child. }
    destruct (IH (drop_entry x es) w1 rest r ND' Hs1) as (k2 & w2 & T2 & L2).
    { intros y Iy. destruct (Hl y (or_intror Iy)) as (d & Fy & Vy & Cy & Wy & Sy).
      exists d. repeat split; try assumption.
      rewrite find_entry_drop_other; [exact Fy|]. intros ->. contradiction. }
    exists (k1 + k2), w2. split.
    + rewrite T2, T1. reflexivity.
    + intros fuel. cbn [map app]. rewrite <- Nat.add_assoc, L1. apply L2.
Qed.

End DeleteSubtree.

Lemma delete_subtree h :
  forall N n s w below,
    size n <= N -> Str.ends_with_slash s = true -> Str.resolve s <> [] ->
    node_at (tree w) s = Some n -> clean n -> wf n ->
    exists k w',
      tree w' = set_at (Str.resolve s) None (tree w)
      /\ forall fuel,
          delete_loop (k + fuel) h (s :: below) w = delete_loop fuel h below w'.
Proof.
  induction N as [|N IH]; intros n s w below Sz Es Rs Hs C W.
  - pose proof (size_pos n). lia.
  - destruct n as [|r es|].
    + exists 1. destruct (delete_step_file h s below w Hs) as (w' & T & L).
      exists w'. split; [exact T|]. intros fuel. apply L.
    + pose proof C as C'. apply clean_dir in C'. destruct C' as [-> Cs].
      pose proof W as W'. apply wf_dir in W'. destruct W' as [ND A].
      rewrite size_dir in Sz.
      assert (Dec : es = [] \/ es <> [])
        by (destruct es; [left; reflexivity|right; discriminate]).
      destruct Dec as [->|Ne].
      * exists 1. destruct (delete_step_empty h s below w true Hs eq_refl Rs)
          as (w' & T & L0).
        exists w'. split; [exact T|]. intros fuel. apply L0.
      * assert (Hl : forall x, In x (rev (names es)) ->
                  exists c, find_entry x es = Some c /\ Str.valid_name x = true
                            /\ clean c /\ wf c /\ size c <= N).
        { intros x Ix. apply in_rev in Ix. unfold names in Ix.
          apply in_map_iff in Ix. destruct Ix as ([x' c] & <- & Ie).
          exists c. rewrite Forall_forall in A, Cs.
          destruct (A _ Ie) as [V Wc]. pose proof (Cs _ Ie) as Cc.
          pose proof (size_in _ _ _ Ie). simpl in *.
          repeat split; try assumption; [now apply find_entry_in|lia]. }
        destruct (delete_children h N (IH) s Es (rev (names es)) es w
                    (s :: below) true (NoDup_rev ND) Hs Hl)
          as (k & w1 & T1 & L1).
        assert (Hs1 : node_at (tree w1) s = Some (Dir true [])).
        { unfold node_at in *. destruct (String.eqb s ""); [discriminate|].
          rewrite T1, (lookup_remove_children _ _ _ _ _ Hs).
          rewrite drop_entries_all; [reflexivity|].
          intros e Ie. apply in_rev with (l := rev (names es)).
          rewrite rev_involutive. unfold names. now apply in_map. }
        destruct (delete_step_empty h s below w1 true Hs1 eq_refl Rs)
          as (w2 & T2 & L2).
        exists (1 + (k + 1)), w2. split.
        -- rewrite T2, T1. now apply set_at_remove_children.
        -- intros fuel.
           change (1 + (k + 1) + fuel) with (S (k + 1 + fuel)).
           rewrite (delete_step_push h s below w (k + 1 + fuel) es Hs W Ne).
           rewrite <- Nat.add_assoc, L1. apply L2.
    + destruct C.
Qed.

(** ** Every rmdir comes after an empty enumeration *)

Lemma quiet_rmdir_listings w w' :
  quiet_view w' = quiet_view w ->
  rmdir_listings (trace w') = rmdir_listings (trace w).
Proof.
  intros H. apply quiet_calm, calm_view_eq in H.
  destruct H as (_ & _ & H & _). exact H.
Qed.

Lemma delete_loop_rmdirs h :
  forall fuel stack w w',
    Forall no_children (rmdir_listings (trace w)) ->
    delete_loop fuel h stack w = Some w' ->
    Forall no_children (rmdir_listings (trace w')).
Proof.
  induction fuel as [|fuel IH]; intros stack w w' Hw.
  - destruct stack; simpl; [|discriminate]. intros E. now injection E as <-.
  - destruct stack as [|s below]; [simpl; intros E; now injection E as <-|].
    cbn [delete_loop].
    destruct (stat s w) as [[[] sz]|]; try (apply IH; exact Hw).
    + pose proof (quiet_rmdir_listings _ _ (quiet_remove s w)) as Q.
      destruct (remove s w) as [[] w1]; cbn [snd] in Q; apply IH.
      * now rewrite (quiet_rmdir_listings _ _ (quiet_log_if_open _ _ _)), Q.
      * cbn. now rewrite Q.
    + unfold readdir_all.
      destruct (node_at (tree w) s) as [[|[] es|]|] eqn:Hs; try (apply IH; exact Hw).
      change (filter (fun n => negb (is_dot n)) ("." :: ".." :: names es))
        with (filter (fun n => negb (is_dot n)) (names es)).
      destruct (filter (fun n => negb (is_dot n)) (names es)) as [|c cs] eqn:F;
        [|apply IH; exact Hw].
      set (w0 := emit (EvRmdir s (listing (tree w) s)) w).
      assert (H0 : Forall no_children (rmdir_listings (trace w0))).
      { subst w0. cbn. constructor; [|exact Hw].
        unfold listing. rewrite Hs. exact F. }
      pose proof (quiet_rmdir_listings _ _ (quiet_rmdir s w0)) as Q.
      destruct (rmdir s w0) as [[] w1]; cbn [snd] in Q; apply IH.
      * now rewrite Q.
      * cbn. now rewrite Q.
Qed.


(** ** Progress of nested copies *)

Lemma nested_progress_refl total w c : nested_progress total w c w c.
Proof.
  unfold nested_progress. repeat split.
  destruct (0 <? total)%Z; [left|]; repeat split.
Qed.

Lemma nested_progress_trans total w c w1 c1 w2 c2 :
  nested_progress total w c w1 c1 -> nested_progress total w1 c1 w2 c2 ->
  nested_progress total w c w2 c2.
Proof.
  unfold nested_progress. intros (A1 & F1 & P1) (A2 & F2 & P2).
  split; [congruence|]. split; [congruence|].
  destruct (0 <? total)%Z.
  - destruct P2 as [(E & C & S)|R]; [|now right].
    destruct P1 as [(E' & C' & S')|R'].
    + left. repeat split; congruence.
    + right. congruence.
  - destruct P1 as (C' & S'), P2 as (C & S). split; congruence.
Qed.

Lemma nested_progress_calm total w c w' :
  calm_view w' = calm_view w -> nested_progress total w c w' c.
Proof.
  intros H. apply calm_view_eq in H.
  destruct H as (C & S & _ & _ & _ & A & F & _).
  unfold nested_progress. repeat split; try assumption.
  destruct (0 <? total)%Z; [left|]; repeat split; assumption.
Qed.

Lemma undisturbed_progress total w c w' c' :
  undisturbed w -> nested_progress total w c w' c' -> undisturbed w'.
Proof.
  intros [A F] (A' & F' & _). split; intros n; [rewrite A'|rewrite F']; auto.
Qed.

Lemma copy_chunks_undisturbed chunks toFile copied total w :
  undisturbed w ->
  fst (fst (copy_chunks chunks toFile copied total w)) = CopyDone
  /\ nested_progress total w copied
                     (snd (copy_chunks chunks toFile copied total w))
                     (snd (fst (copy_chunks chunks toFile copied total w))).
Proof.
  revert copied w. induction chunks as [|c r IH]; intros copied w U.
  - split; [reflexivity|apply nested_progress_refl].
  - cbn [copy_chunks]. unfold load_abort.
    destruct U as [A F]. rewrite (A (loads w)).
    set (w1 := set_loads (S (loads w)) w).
    assert (F1 : forall n, fwrite_cap w1 n = None) by exact F.
    pose proof (write_chunk_uncapped toFile c w1 F1) as Ok.
    pose proof (io_write_chunk toFile c w1) as Io. apply io_view_eq in Io.
    destruct Io as (_ & Cp & Tr & _ & Ab & Fw & _).
    destruct (write_chunk toFile c w1) as [ok w2]. cbn [fst snd] in *. subst ok.
    set (copied' := ll_add copied (Z.of_nat (List.length c))).
    set (w3 := if (0 <? total)%Z
               then store_percentage (percent_of copied' total) w2 else w2).
    assert (P3 : nested_progress total w copied w3 copied').
    { unfold nested_progress, w3. destruct (0 <? total)%Z eqn:T.
      - repeat split; [exact Ab|exact Fw|]. right. reflexivity.
      - repeat split; [exact Ab|exact Fw|exact Cp|now rewrite Tr]. }
    assert (U3 : undisturbed w3).
    { apply (undisturbed_progress total w copied w3 copied'); [split; assumption|exact P3]. }
    destruct (IH copied' w3 U3) as (St & P).
    split; [exact St|]. eapply nested_progress_trans; eassumption.
Qed.

Lemma nested_progress_same total w c w' :
  abortFileOp w' = abortFileOp w -> fwrite_cap w' = fwrite_cap w ->
  copyPercentage w' = copyPercentage w ->
  stores (trace w') = stores (trace w) ->
  nested_progress total w c w' c.
Proof.
  intros A F C S. unfold nested_progress. repeat split; try assumption.
  destruct (0 <? total)%Z; [left|]; repeat split; assumption.
Qed.

Lemma nested_progress_store total w c :
  nested_progress total w c
    (if (0 <? total)%Z then store_percentage (percent_of c total) w else w) c.
Proof.
  unfold nested_progress. destruct (0 <? total)%Z; repeat split. now right.
Qed.

Lemma copySingleFile_nested fromFile toFile c total logSource logDestination w :
  undisturbed w ->
  nested_progress total w c
    (snd (copySingleFile fromFile toFile c total logSource logDestination w))
    (snd (fst (copySingleFile fromFile toFile c total logSource logDestination w))).
Proof.
  intros U. rewrite copySingleFile_unfold. cbv zeta.
  destruct (copy_ready_state fromFile toFile logSource logDestination w)
    as (C & _ & _). cbv zeta in C.
  set (w0 := createDirectory (getParentDirFromPath toFile) w) in *.
  destruct (open_loop_spec maxRetries 0 fromFile toFile w0 (Nat.add_0_r _))
    as (Co & _ & _ & _).
  destruct (fst (open_loop maxRetries 0 fromFile toFile w0)).
  - set (l1 := open_log logSource _ _) in *.
    set (l2 := open_log logDestination _ _) in *.
    pose proof (nested_progress_calm total w c (snd l2) C) as P2.
    pose proof (undisturbed_progress _ _ _ _ _ U P2) as U2.
    destruct (copy_chunks_undisturbed
                (read_chunks (COPY_BUFFER_SIZE (snd l2))
                             (data (snd l2) (Str.resolve fromFile)))
                toFile c total (snd l2) U2) as (St & P).
    rewrite St. cbn [fst snd].
    eapply nested_progress_trans; [exact P2|].
    eapply nested_progress_trans; [exact P|].
    apply nested_progress_calm.
    apply quiet_calm, quiet_finish_copy.
  - cbn [fst snd]. apply nested_progress_calm. rewrite Co.
    apply quiet_calm, quiet_createDirectory.
Qed.

Lemma copy_loop_nested total logSource logDestination :
  forall fuel directories c w b c' w',
    undisturbed w ->
    copy_loop fuel directories c total logSource logDestination w = Some (b, c', w') ->
    b = true /\ nested_progress total w c w' c'.
Proof.
  induction fuel as [|fuel IH]; intros directories c w b c' w' U.
  - destruct directories as [|[f t] rest]; simpl; [|discriminate].
    intros E. injection E as <- <- <-. split; [reflexivity|apply nested_progress_refl].
  - destruct directories as [|[f t] rest];
      [simpl; intros E; injection E as <- <- <-;
       split; [reflexivity|apply nested_progress_refl]|].
    cbn [copy_loop]. unfold load_abort. rewrite (proj1 U (loads w)).
    set (w1 := set_loads (S (loads w)) w).
    assert (P1 : nested_progress total w c w1 c)
      by (apply nested_progress_same; reflexivity).
    pose proof (undisturbed_progress _ _ _ _ _ U P1) as U1.
    change (stat f (set_loads (S (loads w)) w)) with (stat f w1).
    destruct (stat f w1) as [[[] sz]|].
    + (* a regular file *)
      set (toFilePath := getParentDirFromPath t +++ "/" +++ getNameFromPath f).
      set (w2 := createDirectory (getParentDirFromPath toFilePath) w1).
      assert (P2 : nested_progress total w1 c w2 c)
        by (apply nested_progress_calm, quiet_calm, quiet_createDirectory).
      pose proof (undisturbed_progress _ _ _ _ _ U1 P2) as U2.
      pose proof (copySingleFile_nested f toFilePath c total
                                        logSource logDestination w2 U2) as P3.
      destruct (copySingleFile f toFilePath c total logSource logDestination w2)
        as [[st copied] w3]. cbn [fst snd] in P3.
      pose proof (nested_progress_store total w3 copied) as P4.
      set (w4 := if (0 <? total)%Z
                 then store_percentage (percent_of copied total) w3 else w3) in *.
      assert (P : nested_progress total w c w4 copied).
      { eapply nested_progress_trans; [exact P1|].
        eapply nested_progress_trans; [exact P2|].
        eapply nested_progress_trans; [exact P3|exact P4]. }
      intros E. destruct (IH _ _ _ _ _ _ (undisturbed_progress _ _ _ _ _ U P) E)
        as (Eb & Pr).
      split; [exact Eb|]. eapply nested_progress_trans; [exact P|exact Pr].
    + (* a directory *)
      destruct (readdir_all f w1) as [entries|].
      * intros E. destruct (IH _ _ _ _ _ _ U1 E) as (Eb & Pr).
        split; [exact Eb|]. eapply nested_progress_trans; [exact P1|exact Pr].
      * set (w2 := logMessage _ w1).
        assert (P2 : nested_progress total w1 c w2 c)
          by (apply nested_progress_same; reflexivity).
        intros E.
        destruct (IH _ _ _ _ _ _ (undisturbed_progress _ _ _ _ _ U1 P2) E)
          as (Eb & Pr).
        split; [exact Eb|].
        eapply nested_progress_trans; [exact P1|].
        eapply nested_progress_trans; [exact P2|exact Pr].
    + intros E. destruct (IH _ _ _ _ _ _ U1 E) as (Eb & Pr).
      split; [exact Eb|]. eapply nested_progress_trans; [exact P1|exact Pr].
    + set (w2 := logMessage _ w1).
      assert (P2 : nested_progress total w1 c w2 c)
        by (apply nested_progress_same; reflexivity).
      intros E.
      destruct (IH _ _ _ _ _ _ (undisturbed_progress _ _ _ _ _ U1 P2) E)
        as (Eb & Pr).
      split; [exact Eb|].
      eapply nested_progress_trans; [exact P1|].
      eapply nested_progress_trans; [exact P2|exact Pr].
Qed.

(** A nested call, one that is handed an accumulator, never stores 100 of
    its own. *)
Lemma copyFileOrDirectory_nested fuel fromPath toPath c total
      logSource logDestination w c' w' :
  undisturbed w ->
  copyFileOrDirectory fuel fromPath toPath (Some c) total
                      logSource logDestination w = Some (c', w') ->
  nested_progress total w c w' c'.
Proof.
  intros U. unfold copyFileOrDirectory. cbv zeta.
  destruct (negb (Str.ends_with_slash toPath)).
  - set (w1 := createDirectory (getParentDirFromPath toPath) w).
    assert (P1 : nested_progress total w c w1 c)
      by (apply nested_progress_calm, quiet_calm, quiet_createDirectory).
    pose proof (copySingleFile_nested fromPath toPath c total
                  logSource logDestination w1
                  (undisturbed_progress _ _ _ _ _ U P1)) as P2.
    destruct (copySingleFile fromPath toPath c total logSource logDestination w1)
      as [[st copied] w2]. cbn [fst snd] in P2.
    intros E. injection E as <- <-. eapply nested_progress_trans; eassumption.
  - set (w1 := createDirectory toPath w).
    assert (P1 : nested_progress total w c w1 c)
      by (apply nested_progress_calm, quiet_calm, quiet_createDirectory).
    pose proof (copy_loop_nested total logSource logDestination fuel
                  [(fromPath, toPath)] c w1) as L.
    destruct (copy_loop fuel [(fromPath, toPath)] c total logSource logDestination w1)
      as [[[b copied] w2]|]; [|discriminate].
    destruct (L b copied w2 (undisturbed_progress _ _ _ _ _ U P1) eq_refl)
      as (-> & P2).
    intros E. injection E as <- <-. eapply nested_progress_trans; eassumption.
Qed.

Lemma copy_each_nested fuel toDirectory total logSource logDestination :
  forall fileList c w c' w',
    undisturbed w ->
    copy_each fuel fileList toDirectory c total logSource logDestination w
    = Some (c', w') ->
    nested_progress total w c w' c'.
Proof.
  induction fileList as [|sourcePath rest IH]; intros c w c' w' U.
  - simpl. intros E. injection E as <- <-. apply nested_progress_refl.
  - cbn [copy_each].
    pose proof (copyFileOrDirectory_nested fuel sourcePath toDirectory c total
                  logSource logDestination w) as P.
    destruct (copyFileOrDirectory fuel sourcePath toDirectory (Some c) total
                                  logSource logDestination w)
      as [[copied w1]|]; [|discriminate].
    specialize (P copied w1 U eq_refl). intros E.
    eapply nested_progress_trans; [exact P|].
    apply (IH copied w1 c' w' (undisturbed_progress _ _ _ _ _ U P) E).
Qed.


(** * Further properties *)

(** ** Paths and prefixes *)

Lemma strip_prefix_app (p r : path) : strip_prefix p (p ++ r) = Some r.
Proof.
  induction p as [|x p IH]; simpl; [reflexivity|].
  now rewrite String.eqb_refl.
Qed.

Lemma strip_prefix_some (p q r : path) : strip_prefix p q = Some r -> q = p ++ r.
Proof.
  revert q. induction p as [|x p IH]; intros q; simpl.
  - intros E. now injection E as ->.
  - destruct q as [|y q]; [discriminate|].
    destruct (String.eqb x y) eqn:E; [|discriminate].
    apply String.eqb_eq in E. subst y. intros H. now rewrite (IH q H).
Qed.

Lemma is_prefix_app (p r : path) : is_prefix p (p ++ r) = true.
Proof. unfold is_prefix. now rewrite strip_prefix_app. Qed.

Lemma is_prefix_true (p q : path) : is_prefix p q = true -> exists r, q = p ++ r.
Proof.
  unfold is_prefix. destruct (strip_prefix p q) as [r|] eqn:E; [|discriminate].
  intros _. exists r. now apply strip_prefix_some.
Qed.

Lemma is_prefix_false (p r : path) : is_prefix p (p ++ r) = false -> False.
Proof. rewrite is_prefix_app. discriminate. Qed.

Lemma path_eqb_refl (p : path) : path_eqb p p = true.
Proof. unfold path_eqb. destruct (list_eq_dec string_dec p p); congruence. Qed.

Lemma path_eqb_eq (p q : path) : path_eqb p q = true <-> p = q.
Proof. unfold path_eqb. destruct (list_eq_dec string_dec p q); split; congruence. Qed.

Lemma path_eqb_neq (p q : path) : p <> q -> path_eqb p q = false.
Proof. unfold path_eqb. destruct (list_eq_dec string_dec p q); congruence. Qed.

(** ** The tree outside of what is set *)

Lemma shape_set_at (a : path) (v : option node) (t : node) :
  a <> [] -> shape (set_at a v t) = shape t.
Proof.
  intros N. destruct t as [|r es|]; try (destruct a as [|? [|? ?]]; reflexivity).
  destruct a as [|x a]; [congruence|].
  destruct (set_at_dir (x :: a) v r es) as [es' E]. now rewrite E.
Qed.

(** An entry that does not lie at or below [a] keeps its shape whatever is
    set or deleted at [a]. *)
Lemma lookup_set_at_outside (q a : path) (v : option node) (t : node) :
  is_prefix a q = false ->
  option_map shape (lookup q (set_at a v t)) = option_map shape (lookup q t).
Proof.
  revert a t. induction q as [|x q IH]; intros a t H.
  - destruct a as [|y a]; [discriminate|].
    cbn [lookup option_map]. f_equal. apply shape_set_at. discriminate.
  - destruct a as [|y a]; [discriminate|].
    destruct t as [|r es|]; try (destruct a; reflexivity).
    unfold is_prefix in H. cbn [strip_prefix] in H.
    destruct (String.eqb y x) eqn:E.
    + apply String.eqb_eq in E. subst y.
      destruct a as [|z a].
      * discriminate.
      * rewrite set_at_cons2.
        destruct (find_entry x es) as [c|] eqn:F; [|reflexivity].
        cbn [lookup]. rewrite find_entry_put_same, F.
        apply IH. exact H.
    + assert (N : x <> y) by (intros ->; now rewrite String.eqb_refl in E).
      destruct a as [|z a].
      * cbn [set_at lookup]. destruct v.
        -- now rewrite (find_entry_put_other _ _ _ _ N).
        -- now rewrite (find_entry_drop_other _ _ _ N).
      * rewrite set_at_cons2.
        destruct (find_entry y es) as [c|] eqn:F; [|reflexivity].
        cbn [lookup]. now rewrite (find_entry_put_other _ _ _ _ N).
Qed.

(** An entry that lies neither below nor above [a] is the same entry. *)
Lemma lookup_set_at_apart (q a : path) (v : option node) (t : node) :
  is_prefix a q = false -> is_prefix q a = false ->
  lookup q (set_at a v t) = lookup q t.
Proof.
  revert a t. induction q as [|x q IH]; intros a t H H'.
  - discriminate.
  - destruct a as [|y a]; [discriminate|].
    destruct t as [|r es|]; try (destruct a; reflexivity).
    unfold is_prefix in H, H'. cbn [strip_prefix] in H, H'.
    destruct (String.eqb y x) eqn:E.
    + apply String.eqb_eq in E. subst y. rewrite String.eqb_refl in H'.
      destruct a as [|z a].
      * discriminate.
      * rewrite set_at_cons2.
        destruct (find_entry x es) as [c|] eqn:F; [|reflexivity].
        cbn [lookup]. rewrite find_entry_put_same, F.
        apply IH; assumption.
    + assert (N : x <> y) by (intros ->; now rewrite String.eqb_refl in E).
      destruct a as [|z a].
      * cbn [set_at lookup]. destruct v.
        -- now rewrite (find_entry_put_other _ _ _ _ N).
        -- now rewrite (find_entry_drop_other _ _ _ N).
      * rewrite set_at_cons2.
        destruct (find_entry y es) as [c|] eqn:F; [|reflexivity].
        cbn [lookup]. now rewrite (find_entry_put_other _ _ _ _ N).
Qed.

(** Nothing is left at or below what is deleted. *)
Lemma lookup_set_at_under_none (a r : path) (t : node) :
  a <> [] -> lookup (a ++ r) (set_at a None t) = None.
Proof. intros N. now rewrite lookup_app, (lookup_set_at_none a t N). Qed.

(** What is set is found where it was set. *)
Lemma lookup_set_at_under_some (a r : path) (v : node) (t : node) :
  a <> [] -> is_dir (lookup (parent a) t) = true ->
  lookup (a ++ r) (set_at a (Some v) t) = lookup r v.
Proof. intros N D. now rewrite lookup_app, (lookup_set_at_new a v t N D). Qed.

Lemma lookup_leaf (n : node) (x : string) (r : path) :
  leaf n -> lookup (x :: r) n = None.
Proof. destruct n as [|b [|e es]|]; simpl; intros H; try reflexivity. destruct H. Qed.

(** Taking a leaf out changes the shape of no other entry. *)
Lemma lookup_set_at_none_leaf (q a : path) (t n : node) :
  lookup a t = Some n -> leaf n -> q <> a ->
  option_map shape (lookup q (set_at a None t)) = option_map shape (lookup q t).
Proof.
  intros Ha L N. destruct (is_prefix a q) eqn:P.
  - apply is_prefix_true in P. destruct P as [r ->].
    destruct r as [|x r]; [now rewrite app_nil_r in N|].
    destruct a as [|y a]; [reflexivity|].
    assert (Na : y :: a <> []) by discriminate.
    rewrite (lookup_set_at_under_none (y :: a) (x :: r) t Na).
    rewrite lookup_app, Ha, (lookup_leaf n x r L). reflexivity.
  - now apply lookup_set_at_outside.
Qed.

(** Putting a leaf where nothing was changes the shape of no other entry. *)
Lemma lookup_set_at_some_leaf (q a : path) (t v : node) :
  lookup a t = None -> leaf v -> q <> a ->
  option_map shape (lookup q (set_at a (Some v) t)) = option_map shape (lookup q t).
Proof.
  intros Ha L N. destruct (is_prefix a q) eqn:P.
  - apply is_prefix_true in P. destruct P as [r ->].
    destruct r as [|x r]; [now rewrite app_nil_r in N|].
    assert (Na : a <> []) by (now apply lookup_none_nonroot in Ha).
    rewrite (lookup_app a (x :: r) t), Ha.
    destruct (is_dir (lookup (parent a) t)) eqn:D.
    + rewrite (lookup_set_at_under_some a (x :: r) v t Na D).
      now rewrite (lookup_leaf v x r L).
    + rewrite lookup_app.
      destruct (lookup a (set_at a (Some v) t)) as [m|] eqn:E; [|reflexivity].
      exfalso. revert Ha D E. clear. revert t.
      induction a as [|y a IH]; intros t Ha D E; [discriminate|].
      destruct t as [|b es|]; try (destruct a; discriminate).
      destruct a as [|z a]; [discriminate|].
      rewrite set_at_cons2 in E. cbn [lookup] in Ha.
      change (parent (y :: z :: a)) with (y :: parent (z :: a)) in D.
      cbn [lookup] in D.
      destruct (find_entry y es) as [c|] eqn:F.
      * cbn [lookup] in E. rewrite find_entry_put_same in E.
        exact (IH c Ha D E).
      * cbn [lookup] in E. rewrite F in E. discriminate.
  - now apply lookup_set_at_outside.
Qed.

(** ** What [stat] sees *)

Lemma shape_at_set_tree (a : path) (v : option node) (w : world) (q : path) :
  shape_at (set_tree (set_at a v (tree w)) w) q
  = option_map shape (lookup q (set_at a v (tree w))).
Proof. unfold shape_at. now rewrite tree_set_tree. Qed.

Lemma stat_shape (s : string) (w w' : world) :
  shape_at w' (Str.resolve s) = shape_at w (Str.resolve s) ->
  data w' (Str.resolve s) = data w (Str.resolve s) ->
  stat s w' = stat s w.
Proof.
  unfold shape_at, stat, node_at, file_size. intros H D.
  destruct (String.eqb s ""); [reflexivity|].
  destruct (lookup (Str.resolve s) (tree w')) as [[]|],
           (lookup (Str.resolve s) (tree w)) as [[]|];
    simpl in H; try discriminate; try reflexivity.
  now rewrite D.
Qed.

Lemma isFile_shape (s : string) (w : world) :
  isFile s w = true
  <-> String.eqb s "" = false /\ shape_at w (Str.resolve s) = Some File.
Proof.
  unfold isFile, stat, node_at, shape_at.
  destruct (String.eqb s ""); [split; [discriminate|intros []; discriminate]|].
  destruct (lookup (Str.resolve s) (tree w)) as [[]|]; simpl; split;
    try discriminate; try (intros []; discriminate); auto.
Qed.

Lemma isDirectory_shape (s : string) (w : world) :
  isDirectory s w = true
  <-> String.eqb s "" = false
      /\ exists r, shape_at w (Str.resolve s) = Some (Dir r []).
Proof.
  unfold isDirectory, stat, node_at, shape_at.
  destruct (String.eqb s "");
    [split; [discriminate|intros []; discriminate]|].
  destruct (lookup (Str.resolve s) (tree w)) as [[]|]; simpl; split;
    try discriminate; try (intros [_ [r H]]; discriminate); eauto.
Qed.

Lemma isFileOrDirectory_shape (s : string) (w : world) :
  isFileOrDirectory s w = true
  <-> String.eqb s "" = false /\ shape_at w (Str.resolve s) <> None.
Proof.
  rewrite isFileOrDirectory_spec. unfold shape_at.
  destruct (lookup (Str.resolve s) (tree w)); simpl; split; intros [E N];
    (split; [exact E|]); congruence.
Qed.

(** ** Directory creation only adds directories *)

Lemma adds_dirs_refl (w : world) : adds_dirs w w.
Proof. split; [reflexivity|]. intros q. now left. Qed.

Lemma adds_dirs_trans (w w1 w2 : world) :
  adds_dirs w w1 -> adds_dirs w1 w2 -> adds_dirs w w2.
Proof.
  intros [D1 S1] [D2 S2]. split; [congruence|]. intros q.
  destruct (S1 q) as [E1|[N1 M1]], (S2 q) as [E2|[N2 M2]].
  - left. congruence.
  - right. split; congruence.
  - right. split; congruence.
  - congruence.
Qed.

Lemma adds_dirs_logMessage (m : string) (w : world) : adds_dirs w (logMessage m w).
Proof. split; [reflexivity|]. intros q. now left. Qed.

Lemma mkdir_adds_dirs (s : string) (w : world) : adds_dirs w (snd (mkdir s w)).
Proof.
  unfold mkdir. destruct (String.eqb s ""); [apply adds_dirs_refl|].
  destruct (lookup (Str.resolve s) (tree w)) eqn:E; [apply adds_dirs_refl|].
  destruct (lookup (parent (Str.resolve s)) (tree w)) as [[]|] eqn:P;
    try apply adds_dirs_refl.
  cbn [snd]. split; [apply data_set_tree|]. intros q.
  rewrite shape_at_set_tree. unfold shape_at at 1 2.
  destruct (list_eq_dec string_dec q (Str.resolve s)) as [->|N].
  - right. rewrite E. split; [reflexivity|].
    rewrite lookup_set_at_new; [reflexivity| |now rewrite P].
    now apply lookup_none_nonroot in E.
  - left. now apply lookup_set_at_some_leaf.
Qed.

Lemma createSingleDirectory_adds_dirs (s : string) (w : world) :
  adds_dirs w (createSingleDirectory s w).
Proof.
  unfold createSingleDirectory. pose proof (mkdir_adds_dirs s w) as H.
  destruct (mkdir s w) as [[[]|] w']; exact H.
Qed.

Lemma createDirectory_walk_adds_dirs (rest seg parentPath : string) (w : world) :
  adds_dirs w (createDirectory_walk rest seg parentPath w).
Proof.
  revert seg parentPath w. induction rest as [|c rest IH]; intros seg pp w; simpl.
  - destruct (String.eqb seg "");
      [apply adds_dirs_refl|apply createSingleDirectory_adds_dirs].
  - destruct (Ascii.eqb c "/"); [destruct (String.eqb seg "")|]; try apply IH.
    eapply adds_dirs_trans; [apply createSingleDirectory_adds_dirs|apply IH].
Qed.

Lemma createDirectory_adds_dirs (d : string) (w : world) :
  adds_dirs w (createDirectory d w).
Proof. apply createDirectory_walk_adds_dirs. Qed.

Lemma adds_dirs_stat (s : string) (w w' : world) :
  adds_dirs w w' -> isFileOrDirectory s w = true -> stat s w' = stat s w.
Proof.
  intros [D S] H. apply isFileOrDirectory_shape in H. destruct H as [_ N].
  apply stat_shape; [|now rewrite D].
  destruct (S (Str.resolve s)) as [E|[E _]]; [exact E|contradiction].
Qed.

Lemma adds_dirs_new (s : string) (w w' : world) :
  adds_dirs w w' -> isFileOrDirectory s w = false ->
  isFileOrDirectory s w' = true -> isDirectory s w' = true.
Proof.
  intros [D S] H H'. apply isFileOrDirectory_shape in H'. destruct H' as [E N].
  apply isDirectory_shape. split; [exact E|].
  destruct (S (Str.resolve s)) as [Q|[_ Q]]; [|eauto].
  apply not_true_iff_false in H. elim H.
  apply isFileOrDirectory_shape. split; [exact E|]. now rewrite <- Q.
Qed.

(** X1: createDirectory only ever adds directories. Whatever exists keeps
    the answer stat gives for it (class and size), no content changes, and
    a path that names something only after the call names a directory. *)
Theorem createDirectory_only_adds_directories (directoryPath : string) (w : world) :
  data (createDirectory directoryPath w) = data w
  /\ forall s,
      (isFileOrDirectory s w = true ->
       stat s (createDirectory directoryPath w) = stat s w)
      /\ (isFileOrDirectory s w = false ->
          isFileOrDirectory s (createDirectory directoryPath w) = true ->
          isDirectory s (createDirectory directoryPath w) = true).
Proof.
  pose proof (createDirectory_adds_dirs directoryPath w) as A.
  split; [exact (proj1 A)|]. intros s. split.
  - now apply adds_dirs_stat.
  - now apply adds_dirs_new.
Qed.

(** ** The directory a walk ends at *)

Lemma resolve_app_slash (pp x : string) :
  Str.ends_with_slash pp = true ->
  Str.resolve (pp +++ x) = Str.resolve pp ++ Str.resolve x.
Proof.
  intros E. destruct (ends_with_slash_split pp E) as [p0 ->].
  now rewrite append_assoc, resolve_app, resolve_dir.
Qed.

Lemma resolve_slash_first (x : string) : Str.resolve ("/" +++ x) = Str.resolve x.
Proof. exact (resolve_app "" x). Qed.

Lemma createDirectory_levels_last (rest : string) :
  forall seg pp,
    (forall x, Str.resolve (pp +++ x) = Str.resolve pp ++ Str.resolve x) ->
    match createDirectory_levels rest seg pp with
    | [] => Str.resolve (seg +++ rest) = []
    | L :: l => Str.resolve (last (L :: l) "")
                = Str.resolve pp ++ Str.resolve (seg +++ rest)
    end.
Proof.
  induction rest as [|c rest IH]; intros seg pp H.
  - cbn [createDirectory_levels]. rewrite append_empty_r.
    destruct (String.eqb seg "") eqn:E.
    + apply String.eqb_eq in E. now subst seg.
    + apply H.
  - cbn [createDirectory_levels]. destruct (Ascii.eqb c "/") eqn:C.
    + apply Ascii.eqb_eq in C. subst c.
      change (seg +++ String "/" rest) with (seg +++ "/" +++ rest).
      destruct (String.eqb seg "") eqn:E.
      * apply String.eqb_eq in E. subst seg.
        specialize (IH "" pp H). cbn [String.append] in IH.
        change ("" +++ "/" +++ rest) with ("/" +++ rest).
        rewrite resolve_slash_first. exact IH.
      * set (pp' := pp +++ seg +++ "/").
        assert (R' : Str.resolve pp' = Str.resolve pp ++ Str.resolve seg).
        { unfold pp'. rewrite H. now rewrite resolve_dir. }
        assert (H' : forall x,
                   Str.resolve (pp' +++ x) = Str.resolve pp' ++ Str.resolve x).
        { intros x. unfold pp' at 1.
          rewrite !append_assoc, H, resolve_app, R'. now rewrite app_assoc. }
        specialize (IH "" pp' H'). cbn [String.append] in IH.
        rewrite resolve_app.
        destruct (createDirectory_levels rest "" pp') as [|L l].
        -- cbn [last]. rewrite R', IH. now rewrite app_nil_r.
        -- change (last (pp' :: L :: l) "") with (last (L :: l) "").
           rewrite IH, R'. now rewrite app_assoc.
    + specialize (IH (seg +++ String c "") pp H).
      rewrite append_assoc in IH. exact IH.
Qed.

Lemma Forall_last {A : Type} (P : A -> Prop) (x : A) (l : list A) (d : A) :
  Forall P (x :: l) -> P (last (x :: l) d).
Proof.
  revert x. induction l as [|y l IH]; intros x H.
  - now inversion H.
  - inversion H; subst. change (last (x :: y :: l) d) with (last (y :: l) d).
    now apply IH.
Qed.

(** X2: on the volume, createDirectory makes the directory: for a path that
    starts with the volume prefix and named nothing before, a call that
    reports no failure leaves a directory at that path. *)
Theorem createDirectory_creates (directoryPath : string) (w : world) :
  Str.ends_with_slash ROOT_PATH = true ->
  isFileOrDirectory ROOT_PATH w = true ->
  String.prefix ROOT_PATH directoryPath = true ->
  isFileOrDirectory directoryPath w = false ->
  diagnostics (trace (createDirectory directoryPath w)) = diagnostics (trace w) ->
  isDirectory directoryPath (createDirectory directoryPath w) = true.
Proof.
  intros Er Hr Hp Hn Hs.
  apply (adds_dirs_new directoryPath w _ (createDirectory_adds_dirs _ w) Hn).
  unfold createDirectory in *. cbv zeta in *. rewrite Hp in *.
  destruct (prefix_substr _ _ Hp) as (rest & Hrest & Hd).
  rewrite Hrest in *. rewrite createDirectory_walk_levels in *.
  pose proof (createDirectory_levels_last rest "" ROOT_PATH
                (fun x => resolve_app_slash ROOT_PATH x Er)) as Hl.
  cbn [String.append] in Hl.
  assert (Nd : String.eqb directoryPath "" = false).
  { rewrite <- Hd. destruct ROOT_PATH; [discriminate|reflexivity]. }
  assert (Rd : Str.resolve directoryPath = Str.resolve ROOT_PATH ++ Str.resolve rest).
  { rewrite <- Hd. now apply resolve_app_slash. }
  pose proof (fold_createSingleDirectory_silent
                (createDirectory_levels rest "" ROOT_PATH) w) as Hall.
  destruct (createDirectory_levels rest "" ROOT_PATH) as [|L l].
  - exfalso. apply not_true_iff_false in Hn. apply Hn.
    apply isFileOrDirectory_spec in Hr. destruct Hr as [_ Hr].
    apply isFileOrDirectory_spec. split; [exact Nd|].
    now rewrite Rd, Hl, app_nil_r.
  - specialize (Hall ltac:(now rewrite Hs)).
    apply (Forall_last _ L l "") in Hall.
    apply isFileOrDirectory_spec in Hall. destruct Hall as [_ Hall].
    apply isFileOrDirectory_spec. split; [exact Nd|].
    now rewrite Rd, <- Hl.
Qed.

(** ** What a call leaves alone away from the path it works on *)

Lemma elsewhere_refl (p : path) (w : world) : elsewhere p w w.
Proof. intros q _. split; [reflexivity|now left]. Qed.

Lemma elsewhere_trans (p : path) (w w1 w2 : world) :
  elsewhere p w w1 -> elsewhere p w1 w2 -> elsewhere p w w2.
Proof.
  intros H1 H2 q N. destruct (H1 q N) as [D1 S1], (H2 q N) as [D2 S2].
  split; [congruence|].
  destruct S1 as [E1|[N1 M1]], S2 as [E2|[N2 M2]].
  - left. congruence.
  - right. split; congruence.
  - right. split; congruence.
  - congruence.
Qed.

Lemma adds_dirs_elsewhere (p : path) (w w' : world) :
  adds_dirs w w' -> elsewhere p w w'.
Proof. intros [D S] q _. split; [now rewrite D|apply S]. Qed.

(** Same tree and same contents. *)
Lemma elsewhere_same (p : path) (w w' : world) :
  tree w' = tree w -> data w' = data w -> elsewhere p w w'.
Proof.
  intros T D q _. unfold shape_at. rewrite T, D. split; [reflexivity|now left].
Qed.

Lemma elsewhere_stat (p : path) (s : string) (w w' : world) :
  elsewhere p w w' -> Str.resolve s <> p ->
  isFileOrDirectory s w = true -> stat s w' = stat s w.
Proof.
  intros H N E. apply isFileOrDirectory_shape in E. destruct E as [_ E].
  destruct (H _ N) as [D [S|[S _]]]; [|contradiction].
  now apply stat_shape.
Qed.

Lemma elsewhere_isFile (p : path) (s : string) (w w' : world) :
  elsewhere p w w' -> Str.resolve s <> p -> isFile s w' = isFile s w.
Proof.
  intros H N. destruct (H _ N) as [_ S].
  destruct (isFile s w) eqn:E.
  - apply isFile_shape in E. destruct E as [E F]. apply isFile_shape.
    split; [exact E|]. destruct S as [S|[S _]]; congruence.
  - apply not_true_iff_false. intros E'. apply not_true_iff_false in E. apply E.
    apply isFile_shape in E'. destruct E' as [E' F]. apply isFile_shape.
    split; [exact E'|]. destruct S as [S|[_ S]]; congruence.
Qed.

Lemma tree_set_tree_at (p : path) (v : option node) (w w0 : world) :
  tree (set_tree (set_at p v (tree w)) w0) = set_at p v (tree w).
Proof.
  unfold tree at 2 3. destruct (set_at_dir p v true (root w)) as [es' E].
  rewrite E. reflexivity.
Qed.

Lemma trace_set_tree (t : node) (w : world) : trace (set_tree t w) = trace w.
Proof. destruct t; reflexivity. Qed.

Lemma fopens_set_tree (t : node) (w : world) : fopens (set_tree t w) = fopens w.
Proof. destruct t; reflexivity. Qed.

Lemma trace_mkdir (s : string) (w : world) : trace (snd (mkdir s w)) = trace w.
Proof. unfold mkdir. repeat break_match; cbn [snd]; rewrite ?trace_set_tree; reflexivity. Qed.

Lemma fopens_mkdir (s : string) (w : world) : fopens (snd (mkdir s w)) = fopens w.
Proof. unfold mkdir. repeat break_match; cbn [snd]; rewrite ?fopens_set_tree; reflexivity. Qed.

Lemma fopens_createSingleDirectory (s : string) (w : world) :
  fopens (createSingleDirectory s w) = fopens w.
Proof.
  unfold createSingleDirectory. pose proof (fopens_mkdir s w) as H.
  destruct (mkdir s w) as [[[]|] w']; exact H.
Qed.

Lemma fopens_createDirectory (d : string) (w : world) :
  fopens (createDirectory d w) = fopens w.
Proof.
  unfold createDirectory. cbv zeta.
  generalize (if String.prefix ROOT_PATH d
              then match Str.substr_from (String.length ROOT_PATH) d with
                   | Some rest => rest
                   | None => d
                   end
              else d).
  intros rest. generalize "" at 1. generalize ROOT_PATH. revert w.
  induction rest as [|c rest IH]; intros w pp seg; simpl.
  - destruct (String.eqb seg ""); [reflexivity|apply fopens_createSingleDirectory].
  - destruct (Ascii.eqb c "/"); [destruct (String.eqb seg "")|]; rewrite IH;
      [reflexivity|apply fopens_createSingleDirectory|reflexivity].
Qed.

Lemma trace_remove (s : string) (w : world) : trace (snd (remove s w)) = trace w.
Proof. unfold remove. repeat break_match; cbn [snd]; rewrite ?trace_set_tree; reflexivity. Qed.

Lemma trace_fopen (s : string) (m : open_mode) (w : world) :
  trace (snd (fopen s m w)) = trace w.
Proof.
  unfold fopen. repeat break_match; cbn [snd]; cbn [trace set_data];
    rewrite ?trace_set_tree; reflexivity.
Qed.

Lemma fopens_fopen (s : string) (m : open_mode) (w : world) :
  fopens (snd (fopen s m w)) = S (fopens w).
Proof.
  unfold fopen. repeat break_match; cbn [snd]; cbn [fopens set_data];
    rewrite ?fopens_set_tree; reflexivity.
Qed.

Lemma trace_append_bytes (s : string) (bs : list Byte.byte) (w : world) :
  trace (append_bytes s bs w) = trace w.
Proof. unfold append_bytes. repeat break_match; reflexivity. Qed.

Lemma diagnostics_createDirectory (d : string) (w : world) :
  List.length (diagnostics (trace w))
  <= List.length (diagnostics (trace (createDirectory d w))).
Proof.
  unfold createDirectory. rewrite createDirectory_walk_levels.
  apply fold_createSingleDirectory_diagnostics.
Qed.

(** *** Removing *)

Lemma remove_elsewhere (s : string) (w : world) :
  elsewhere (Str.resolve s) w (snd (remove s w)).
Proof.
  unfold remove, node_at. destruct (String.eqb s ""); [apply elsewhere_refl|].
  destruct (lookup (Str.resolve s) (tree w)) as [[]|] eqn:E;
    try apply elsewhere_refl; cbn [snd]; intros q N;
    (split; [now rewrite data_set_tree|]); left;
    rewrite shape_at_set_tree; unfold shape_at;
    (eapply lookup_set_at_none_leaf; [exact E|exact I|exact N]).
Qed.

Lemma data_remove (s : string) (w : world) : data (snd (remove s w)) = data w.
Proof. unfold remove. repeat break_match; cbn [snd]; rewrite ?data_set_tree; reflexivity. Qed.

(** After [remove] the path names a directory or nothing. *)
Lemma remove_not_file (s : string) (w : world) :
  isFile s (snd (remove s w)) = false.
Proof.
  unfold remove. destruct (node_at (tree w) s) as [[]|] eqn:E; cbn [snd];
    unfold isFile, stat; rewrite ?E; try reflexivity;
    match goal with
    | |- context [set_at] =>
        rewrite tree_set_tree; unfold node_at in *;
        destruct (String.eqb s ""); [reflexivity|];
        rewrite lookup_set_at_none; [reflexivity|];
        intros R; rewrite R in E; discriminate
    end.
Qed.

(** *** Opening *)

Lemma fopen_elsewhere (s : string) (m : open_mode) (w : world) :
  elsewhere (Str.resolve s) w (snd (fopen s m w)).
Proof.
  unfold fopen. destruct (fopen_fault w (fopens w));
    [apply elsewhere_same; reflexivity|].
  cbv zeta. change (tree (set_fopens (S (fopens w)) w)) with (tree w).
  change (data (set_fopens (S (fopens w)) w)) with (data w).
  unfold node_at.
  destruct (String.eqb s "") eqn:Es.
  { destruct m; apply elsewhere_same; reflexivity. }
  destruct (lookup (Str.resolve s) (tree w)) as [[]|] eqn:E;
    try (destruct m; apply elsewhere_same; reflexivity).
  - destruct m; try (apply elsewhere_same; reflexivity).
    intros q N. cbn [snd data set_data]. unfold store_set.
    rewrite (path_eqb_neq _ _ (not_eq_sym N)). split; [reflexivity|now left].
  - destruct m; try (apply elsewhere_same; reflexivity);
      (destruct (is_dir _); [|apply elsewhere_same; reflexivity]);
      intros q N; cbn [snd data set_data]; unfold store_set;
      rewrite (path_eqb_neq _ _ (not_eq_sym N));
      (split; [reflexivity|]); left;
      unfold shape_at; change (tree (set_data ?d ?x)) with (tree x);
      rewrite (tree_set_tree_at _ _ w (set_fopens (S (fopens w)) w));
      (apply lookup_set_at_some_leaf; [exact E|exact I|exact N]).
Qed.

Lemma fopen_write_data (s : string) (w : world) :
  fst (fopen s WriteBinary w) = true ->
  data (snd (fopen s WriteBinary w)) (Str.resolve s) = [].
Proof.
  unfold fopen. destruct (fopen_fault w (fopens w)); [discriminate|].
  cbv zeta. destruct (node_at _ s) as [[]|]; try discriminate.
  - intros _. cbn [snd data set_data]. unfold store_set. now rewrite path_eqb_refl.
  - destruct (String.eqb s ""); [discriminate|].
    destruct (is_dir _); [|discriminate].
    intros _. cbn [snd data set_data]. unfold store_set. now rewrite path_eqb_refl.
Qed.

Lemma fopen_read_same (s : string) (w : world) :
  tree (snd (fopen s ReadBinary w)) = tree w
  /\ data (snd (fopen s ReadBinary w)) = data w.
Proof. unfold fopen. repeat break_match; split; reflexivity. Qed.

Lemma fopen_read_fails (s : string) (w : world) :
  isFile s w = false -> fst (fopen s ReadBinary w) = false.
Proof.
  unfold isFile, stat, fopen. destruct (fopen_fault w (fopens w)); [reflexivity|].
  cbv zeta. change (tree (set_fopens (S (fopens w)) w)) with (tree w).
  destruct (node_at (tree w) s) as [[]|]; try reflexivity. discriminate.
Qed.

Lemma fopen_ok (s : string) (m : open_mode) (w : world) :
  isFile s w = true -> fopen_fault w (fopens w) = false ->
  fst (fopen s m w) = true.
Proof.
  unfold isFile, stat, fopen. intros H ->.
  cbv zeta. change (tree (set_fopens (S (fopens w)) w)) with (tree w).
  destruct (node_at (tree w) s) as [[]|]; try discriminate.
  destruct m; reflexivity.
Qed.

Lemma file_at_isFile (s : string) (w : world) : file_at s w <-> isFile s w = true.
Proof.
  unfold file_at, isFile, stat.
  destruct (node_at (tree w) s) as [[]|]; split; congruence.
Qed.

Lemma append_bytes_elsewhere (s : string) (bs : list Byte.byte) (w : world) :
  elsewhere (Str.resolve s) w (append_bytes s bs w).
Proof.
  unfold append_bytes. destruct (node_at (tree w) s) as [[]|];
    try apply elsewhere_refl.
  intros q N. cbn [data set_data]. unfold store_set.
  rewrite (path_eqb_neq _ _ (not_eq_sym N)). split; [reflexivity|now left].
Qed.

Lemma append_bytes_file (s : string) (bs : list Byte.byte) (w : world) :
  file_at s w ->
  data (append_bytes s bs w) (Str.resolve s) = data w (Str.resolve s) ++ bs.
Proof.
  unfold file_at, append_bytes. intros ->. cbn [data set_data]. unfold store_set.
  now rewrite path_eqb_refl.
Qed.

(** *** Closing *)

Lemma tree_fclose (s : string) (w : world) : tree (fclose s w) = tree w.
Proof. unfold fclose. repeat break_match; reflexivity. Qed.

Lemma trace_fclose (s : string) (w : world) : trace (fclose s w) = trace w.
Proof. unfold fclose. repeat break_match; reflexivity. Qed.

Lemma fclose_elsewhere (s : string) (w : world) :
  elsewhere (Str.resolve s) w (fclose s w).
Proof.
  unfold fclose. cbv zeta.
  destruct (fclose_keep w (fcloses w)); [|apply elsewhere_same; reflexivity].
  destruct (node_at _ s) as [[]|]; try (apply elsewhere_same; reflexivity).
  intros q N. cbn [data set_data]. unfold store_set.
  rewrite (path_eqb_neq _ _ (not_eq_sym N)). split; [reflexivity|now left].
Qed.

Lemma fclose_data (s : string) (w : world) :
  file_at s w ->
  data (fclose s w) (Str.resolve s)
  = kept (fclose_keep w (fcloses w)) (data w (Str.resolve s)).
Proof.
  unfold file_at, fclose. intros F. cbv zeta.
  destruct (fclose_keep w (fcloses w)); [|reflexivity].
  change (tree (set_fcloses (S (fcloses w)) w)) with (tree w). rewrite F.
  cbn [data set_data kept]. unfold store_set. now rewrite path_eqb_refl.
Qed.

Lemma fclose_data_other (s : string) (q : path) (w : world) :
  q <> Str.resolve s -> data (fclose s w) q = data w q.
Proof. intros N. now destruct (fclose_elsewhere s w q N). Qed.

Lemma close_set_tree (t : node) (w : world) : close_view (set_tree t w) = close_view w.
Proof. destruct t; reflexivity. Qed.

Lemma close_mkdir (s : string) (w : world) : close_view (snd (mkdir s w)) = close_view w.
Proof. unfold mkdir. repeat break_match; cbn [snd]; rewrite ?close_set_tree; reflexivity. Qed.

Lemma close_createSingleDirectory (s : string) (w : world) :
  close_view (createSingleDirectory s w) = close_view w.
Proof.
  unfold createSingleDirectory. pose proof (close_mkdir s w) as H.
  destruct (mkdir s w) as [[[]|] w']; exact H.
Qed.

Lemma close_createDirectory (d : string) (w : world) :
  close_view (createDirectory d w) = close_view w.
Proof.
  unfold createDirectory. rewrite createDirectory_walk_levels.
  generalize (createDirectory_levels
                (if String.prefix ROOT_PATH d
                 then match Str.substr_from (String.length ROOT_PATH) d with
                      | Some rest => rest
                      | None => d
                      end
                 else d) "" ROOT_PATH).
  intros l. revert w. induction l as [|x l IH]; intros w; [reflexivity|].
  cbn [fold_left]. rewrite IH. apply close_createSingleDirectory.
Qed.

Lemma close_fopen (s : string) (m : open_mode) (w : world) :
  close_view (snd (fopen s m w)) = close_view w.
Proof.
  unfold fopen. repeat break_match; cbn [snd];
    repeat (change (close_view (set_data ?d ?x)) with (close_view x));
    rewrite ?close_set_tree; reflexivity.
Qed.

Lemma close_append_bytes (s : string) (bs : list Byte.byte) (w : world) :
  close_view (append_bytes s bs w) = close_view w.
Proof. unfold append_bytes. repeat break_match; reflexivity. Qed.

Lemma close_view_eq (w w' : world) :
  close_view w' = close_view w ->
  fclose_keep w' (fcloses w') = fclose_keep w (fcloses w).
Proof. unfold close_view. intros H. injection H as -> ->. reflexivity. Qed.

(** ** Text files *)

(** X3: createTextFile writes the text and nothing else. For a file path,
    unless the call reports a failure, the path then names a regular file
    that holds the text, whatever it held before: the content up to its
    first NUL with FILE*, all of it with streams; or only the first bytes
    of that when the close does not keep everything, which the call does
    not report either. Every other existing path keeps the answer stat
    gives for it. *)
Theorem createTextFile_round_trip (filePath content : string) (w : world) :
  let w' := createTextFile filePath content w in
  let text := if NO_FSTREAM_DIRECTIVE then c_str content else content in
  Str.ends_with_slash filePath = false ->
  diagnostics (trace w') = diagnostics (trace w) ->
  isFile filePath w' = true
  /\ data w' (Str.resolve filePath)
     = kept (fclose_keep w (fcloses w)) (list_byte_of_string text)
  /\ forall s, Str.resolve s <> Str.resolve filePath ->
               isFileOrDirectory s w = true -> stat s w' = stat s w.
Proof.
  cbv zeta. intros _. unfold createTextFile. cbv zeta.
  set (text := if NO_FSTREAM_DIRECTIVE then c_str content else content).
  set (w1 := createDirectory (getParentDirFromPath filePath) w).
  pose proof (diagnostics_createDirectory (getParentDirFromPath filePath) w) as Le.
  pose proof (adds_dirs_elsewhere (Str.resolve filePath) w w1
                (createDirectory_adds_dirs _ w)) as E1.
  pose proof (close_createDirectory (getParentDirFromPath filePath) w) as C1.
  fold w1 in Le, C1.
  pose proof (trace_fopen filePath WriteBinary w1) as T.
  pose proof (fopen_write_file_at filePath w1) as F.
  pose proof (fopen_write_data filePath w1) as D.
  pose proof (fopen_elsewhere filePath WriteBinary w1) as E2.
  pose proof (close_fopen filePath WriteBinary w1) as C2.
  destruct (fopen filePath WriteBinary w1) as [[] w2]; cbn [fst snd] in *.
  - intros _. specialize (F eq_refl). specialize (D eq_refl).
    set (w3 := append_bytes filePath (list_byte_of_string text) w2).
    assert (F3 : file_at filePath w3).
    { unfold file_at, w3. now rewrite tree_append_bytes. }
    assert (D3 : data w3 (Str.resolve filePath) = list_byte_of_string text).
    { unfold w3. now rewrite (append_bytes_file _ _ _ F), D. }
    assert (C3 : close_view w3 = close_view w).
    { unfold w3. rewrite close_append_bytes. congruence. }
    repeat split.
    + apply file_at_isFile. unfold file_at. now rewrite tree_fclose.
    + now rewrite (fclose_data _ _ F3), D3, (close_view_eq _ _ C3).
    + intros s N Hs.
      apply (elsewhere_stat (Str.resolve filePath) s w _); [|exact N|exact Hs].
      eapply elsewhere_trans; [exact E1|].
      eapply elsewhere_trans; [exact E2|].
      eapply elsewhere_trans; [apply append_bytes_elsewhere|apply fclose_elsewhere].
  - cbn [logMessage emit trace diagnostics]. rewrite T. intros H.
    apply (f_equal (@List.length string)) in H. cbn [List.length] in H. lia.
Qed.

(** ** More on copying one file *)

Lemma read_chunks_from_all (n : nat) :
  0 < n ->
  forall fuel l, List.length l <= fuel ->
                 List.concat (read_chunks_from fuel n l) = l.
Proof.
  intros Hn. induction fuel as [|fuel IH]; intros l Hl.
  - destruct l; [reflexivity|simpl in Hl; lia].
  - cbn [read_chunks_from]. destruct (firstn n l) as [|b c] eqn:E.
    + destruct l as [|x l]; [reflexivity|].
      destruct n; [lia|discriminate].
    + cbn [List.concat]. rewrite IH.
      * rewrite <- E. apply firstn_skipn.
      * rewrite length_skipn. destruct l as [|x l]; [destruct n; discriminate|].
        cbn [List.length] in Hl |- *. lia.
Qed.

Lemma concat_read_chunks (n : nat) (l : list Byte.byte) :
  0 < n -> List.concat (read_chunks n l) = l.
Proof. intros Hn. apply read_chunks_from_all; [exact Hn|apply le_n]. Qed.

Lemma read_chunks_nil (n : nat) : read_chunks n [] = [].
Proof. reflexivity. Qed.

Lemma fwrite_data (s : string) (bs : list Byte.byte) (w : world) :
  file_at s w ->
  data (snd (fwrite s bs w)) (Str.resolve s)
  = data w (Str.resolve s) ++ firstn (fst (fwrite s bs w)) bs
  /\ fst (fwrite s bs w) <= List.length bs.
Proof.
  intros F. unfold fwrite. cbn [fst snd]. split.
  - now rewrite append_bytes_file.
  - destruct (fwrite_cap w (fwrites w)); lia.
Qed.

Lemma file_at_tree (s : string) (w w' : world) :
  tree w' = tree w -> file_at s w -> file_at s w'.
Proof. unfold file_at. now intros ->. Qed.

Lemma fwrite_all_appends (s : string) :
  forall fuel pending w,
    List.length pending <= fuel -> file_at s w ->
    fst (fwrite_all fuel s pending w) = true ->
    data (snd (fwrite_all fuel s pending w)) (Str.resolve s)
    = data w (Str.resolve s) ++ pending.
Proof.
  induction fuel as [|fuel IH]; intros pending w Hl F.
  - destruct pending; [|simpl in Hl; lia]. intros _. cbn. now rewrite app_nil_r.
  - destruct pending as [|b pending]; [intros _; cbn; now rewrite app_nil_r|].
    cbn [fwrite_all].
    destruct (fwrite_data s (b :: pending) w F) as [D Le].
    pose proof (tree_fwrite s (b :: pending) w) as T.
    destruct (fwrite s (b :: pending) w) as [n w1]. cbn [fst snd] in *.
    destruct (Nat.eqb n 0) eqn:E; [discriminate|].
    apply Nat.eqb_neq in E. intros Ok.
    rewrite IH; [| |now apply (file_at_tree s w)|exact Ok].
    + rewrite D, <- app_assoc. f_equal. apply firstn_skipn.
    + rewrite length_skipn. cbn [List.length] in Hl, Le |- *. lia.
Qed.

Lemma write_chunk_appends (s : string) (chunk : list Byte.byte) (w : world) :
  file_at s w -> fst (write_chunk s chunk w) = true ->
  data (snd (write_chunk s chunk w)) (Str.resolve s)
  = data w (Str.resolve s) ++ chunk.
Proof.
  intros F. unfold write_chunk. destruct NO_FSTREAM_DIRECTIVE.
  - apply fwrite_all_appends; [apply le_n|exact F].
  - destruct (fwrite_data s chunk w F) as [D _].
    destruct (fwrite s chunk w) as [n w1]. cbn [fst snd] in *.
    intros E. apply Nat.eqb_eq in E. subst n. now rewrite D, firstn_all.
Qed.

(** A transfer that runs to the end has appended every chunk. *)
Lemma copy_chunks_appends (toFile : string) (total : Z) :
  forall chunks copied w,
    file_at toFile w ->
    fst (fst (copy_chunks chunks toFile copied total w)) = CopyDone ->
    data (snd (copy_chunks chunks toFile copied total w)) (Str.resolve toFile)
    = data w (Str.resolve toFile) ++ List.concat chunks
    /\ tree (snd (copy_chunks chunks toFile copied total w)) = tree w.
Proof.
  induction chunks as [|c r IH]; intros copied w F.
  - intros _. cbn. now rewrite app_nil_r.
  - cbn [copy_chunks]. unfold load_abort.
    destruct (abortFileOp w (loads w)); [discriminate|].
    set (w1 := set_loads (S (loads w)) w).
    assert (F1 : file_at toFile w1) by exact F.
    pose proof (write_chunk_appends toFile c w1 F1) as A.
    pose proof (tree_write_chunk toFile c w1) as T.
    destruct (write_chunk toFile c w1) as [[] w2]; cbn [fst snd] in *;
      [|discriminate].
    specialize (A eq_refl).
    set (w3 := if (0 <? total)%Z
               then store_percentage
                      (percent_of (ll_add copied (Z.of_nat (List.length c))) total) w2
               else w2).
    assert (T3 : tree w3 = tree w) by (unfold w3; destruct (0 <? total)%Z; exact T).
    assert (D3 : data w3 = data w2) by (unfold w3; destruct (0 <? total)%Z; reflexivity).
    intros E. destruct (IH _ w3 (file_at_tree _ _ _ T3 F) E) as [D' T'].
    split; [|now rewrite T'].
    rewrite D', D3, A. cbn [List.concat]. now rewrite <- app_assoc.
Qed.

Lemma open_loop_elsewhere (slack rc : nat) (fromFile toFile : string) (w : world) :
  elsewhere (Str.resolve toFile) w (snd (open_loop slack rc fromFile toFile w)).
Proof.
  revert rc w. induction slack as [|slack IH]; intros rc w; cbn [open_loop];
    destruct (fopen_read_same fromFile w) as [T1 D1];
    destruct (fopen fromFile ReadBinary w) as [src w1]; cbn [snd] in T1, D1;
    pose proof (elsewhere_same (Str.resolve toFile) w w1 T1 D1) as H1;
    pose proof (fopen_elsewhere toFile WriteBinary w1) as H2;
    destruct (fopen toFile WriteBinary w1) as [dst w2]; cbn [snd] in H2;
    pose proof (elsewhere_trans _ _ _ _ H1 H2) as H;
    destruct (src && dst); try exact H;
    destruct (Nat.ltb maxRetries (S rc)); try exact H.
  eapply elsewhere_trans; [|apply IH]. exact H.
Qed.

Lemma open_loop_truncates (slack rc : nat) (fromFile toFile : string) (w : world) :
  fst (open_loop slack rc fromFile toFile w) = true ->
  data (snd (open_loop slack rc fromFile toFile w)) (Str.resolve toFile) = [].
Proof.
  revert rc w. induction slack as [|slack IH]; intros rc w; cbn [open_loop];
    destruct (fopen fromFile ReadBinary w) as [src w1];
    pose proof (fopen_write_data toFile w1) as D;
    destruct (fopen toFile WriteBinary w1) as [dst w2]; cbn [fst snd] in D;
    destruct (src && dst) eqn:B;
    try (intros _; apply andb_prop in B; apply D, B);
    destruct (Nat.ltb maxRetries (S rc)); try discriminate.
  apply IH.
Qed.

Lemma close_remove (s : string) (w : world) :
  close_view (snd (remove s w)) = close_view w.
Proof. unfold remove. repeat break_match; cbn [snd]; rewrite ?close_set_tree; reflexivity. Qed.

Lemma close_fwrite (s : string) (bs : list Byte.byte) (w : world) :
  close_view (snd (fwrite s bs w)) = close_view w.
Proof. unfold fwrite. cbn [snd]. now rewrite close_append_bytes. Qed.

Lemma close_fwrite_all (fuel : nat) (s : string) (bs : list Byte.byte) (w : world) :
  close_view (snd (fwrite_all fuel s bs w)) = close_view w.
Proof.
  revert bs w. induction fuel as [|fuel IH]; intros bs w; [reflexivity|].
  cbn [fwrite_all]. destruct bs as [|b bs]; [reflexivity|].
  pose proof (close_fwrite s (b :: bs) w) as H.
  destruct (fwrite s (b :: bs) w) as [n w1]. cbn [snd] in H.
  destruct (Nat.eqb n 0); [exact H|]. now rewrite IH.
Qed.

Lemma close_write_chunk (s : string) (bs : list Byte.byte) (w : world) :
  close_view (snd (write_chunk s bs w)) = close_view w.
Proof.
  unfold write_chunk. destruct NO_FSTREAM_DIRECTIVE; [apply close_fwrite_all|].
  pose proof (close_fwrite s bs w) as H.
  destruct (fwrite s bs w) as [n w1]. exact H.
Qed.

Lemma close_copy_chunks chunks toFile copied total w :
  close_view (snd (copy_chunks chunks toFile copied total w)) = close_view w.
Proof.
  revert copied w. induction chunks as [|c r IH]; intros copied w; [reflexivity|].
  cbn [copy_chunks]. unfold load_abort.
  destruct (abortFileOp w (loads w)).
  - cbn [snd]. change (close_view (store_percentage ?v ?x)) with (close_view x).
    now rewrite close_remove.
  - pose proof (close_write_chunk toFile c (set_loads (S (loads w)) w)) as H.
    destruct (write_chunk toFile c (set_loads (S (loads w)) w)) as [[] w2];
      cbn [snd] in H.
    + rewrite IH. destruct (0 <? total)%Z; exact H.
    + cbn [snd]. change (close_view (store_percentage ?v ?x)) with (close_view x).
      rewrite close_remove. exact H.
Qed.

Lemma close_open_loop (slack rc : nat) (fromFile toFile : string) (w : world) :
  close_view (snd (open_loop slack rc fromFile toFile w)) = close_view w.
Proof.
  revert rc w. induction slack as [|slack IH]; intros rc w; cbn [open_loop];
    pose proof (close_fopen fromFile ReadBinary w) as C1;
    destruct (fopen fromFile ReadBinary w) as [src w1]; cbn [snd] in C1;
    pose proof (close_fopen toFile WriteBinary w1) as C2;
    destruct (fopen toFile WriteBinary w1) as [dst w2]; cbn [snd] in C2;
    rewrite C1 in C2;
    destruct (src && dst); try exact C2;
    destruct (Nat.ltb maxRetries (S rc)); try exact C2.
  rewrite IH. exact C2.
Qed.

Lemma finish_copy_plain (fromFile toFile : string) (w : world) :
  finish_copy None None fromFile toFile w = fclose toFile w.
Proof. unfold finish_copy. destruct NO_FSTREAM_DIRECTIVE; reflexivity. Qed.


(** X5: copying a file onto itself empties it. If the two file paths
    resolve to the same entry and the open loop gets through, the call,
    with a positive buffer size, ends with its success status, counts no
    byte, and leaves the file empty: the destination was truncated before
    the first read. *)
Theorem copySingleFile_onto_itself
        (fromFile toFile : string) (totalBytesCopied totalSize : Z) (w : world) :
  let r := copySingleFile fromFile toFile totalBytesCopied totalSize "" "" w in
  Str.ends_with_slash fromFile = false -> Str.ends_with_slash toFile = false ->
  Str.resolve fromFile = Str.resolve toFile ->
  0 < COPY_BUFFER_SIZE w ->
  fst (fst r) <> CopyOpenFailed ->
  fst (fst r) = CopyDone
  /\ snd (fst r) = totalBytesCopied
  /\ isFile toFile (snd r) = true
  /\ data (snd r) (Str.resolve toFile) = [].
Proof.
  cbv zeta. intros _ _ Eq _. rewrite copySingleFile_unfold. cbv zeta.
  set (w0 := createDirectory (getParentDirFromPath toFile) w).
  pose proof (open_loop_truncates maxRetries 0 fromFile toFile w0) as Tr.
  destruct (open_loop_spec maxRetries 0 fromFile toFile w0 (Nat.add_0_r _))
    as (_ & _ & _ & F).
  destruct (fst (open_loop maxRetries 0 fromFile toFile w0));
    [|intros H; elim H; reflexivity].
  specialize (F eq_refl). specialize (Tr eq_refl).
  cbn [open_log String.eqb fst snd]. rewrite Eq, Tr, read_chunks_nil.
  cbn [copy_chunks fst snd]. intros _. rewrite finish_copy_plain.
  cbn [fst snd].
  repeat split.
  - apply file_at_isFile. unfold file_at. now rewrite tree_fclose.
  - rewrite (fclose_data _ _ F), Tr. now destruct (fclose_keep _ _) as [[|k]|].
Qed.

Lemma file_at_open_loop (s : string) (slack rc : nat) (fromFile toFile : string)
      (w : world) :
  file_at s w -> file_at s (snd (open_loop slack rc fromFile toFile w)).
Proof.
  revert rc w. induction slack as [|slack IH]; intros rc w F; cbn [open_loop];
    pose proof (file_at_fopen s fromFile ReadBinary w F) as F1;
    destruct (fopen fromFile ReadBinary w) as [src w1]; cbn [snd] in F1;
    pose proof (file_at_fopen s toFile WriteBinary w1 F1) as F2;
    destruct (fopen toFile WriteBinary w1) as [dst w2]; cbn [snd] in F2;
    destruct (src && dst); try exact F2;
    destruct (Nat.ltb maxRetries (S rc)); try exact F2.
  apply IH. exact F2.
Qed.

Lemma open_loop_no_source (slack rc : nat) (fromFile toFile : string) (w : world) :
  isFile fromFile w = false -> Str.resolve fromFile <> Str.resolve toFile ->
  fst (open_loop slack rc fromFile toFile w) = false.
Proof.
  intros Hf N. revert rc w Hf.
  induction slack as [|slack IH]; intros rc w Hf; cbn [open_loop];
    pose proof (fopen_read_fails fromFile w Hf) as R;
    destruct (fopen_read_same fromFile w) as [T1 D1];
    destruct (fopen fromFile ReadBinary w) as [src w1]; cbn [fst snd] in *;
    subst src;
    pose proof (fopen_elsewhere toFile WriteBinary w1) as H2;
    destruct (fopen toFile WriteBinary w1) as [dst w2]; cbn [snd] in H2;
    cbn [andb]; destruct (Nat.ltb maxRetries (S rc)); try reflexivity.
  apply IH.
  change (isFile fromFile w2 = false).
  rewrite (elsewhere_isFile _ fromFile w1 w2 H2 N).
  unfold isFile, stat, file_size. now rewrite T1, D1.
Qed.

(** The first pass of the open loop already truncates a destination that
    can be opened. *)
Lemma open_loop_first_pass (slack rc : nat) (fromFile toFile : string) (w : world) :
  isFile toFile w = true -> fopen_fault w (S (fopens w)) = false ->
  data (snd (open_loop slack rc fromFile toFile w)) (Str.resolve toFile) = [].
Proof.
  intros Ht Nf.
  assert (K : forall w2, data w2 (Str.resolve toFile) = [] ->
                         forall s r, data (snd (open_loop s r fromFile toFile w2))
                                          (Str.resolve toFile) = []).
  { intros w2 D s r. destruct (kept_open_loop s r fromFile toFile w2 (Str.resolve toFile))
      as [E|E]; congruence. }
  pose proof (file_at_fopen toFile fromFile ReadBinary w
                (proj2 (file_at_isFile toFile w) Ht)) as F1.
  pose proof (fopens_fopen fromFile ReadBinary w) as C1.
  pose proof (quiet_fopen fromFile ReadBinary w) as Q1.
  apply quiet_calm, calm_view_eq in Q1.
  destruct Q1 as (_ & _ & _ & _ & _ & _ & _ & _).
  assert (Ff : fopen_fault (snd (fopen fromFile ReadBinary w)) = fopen_fault w).
  { pose proof (quiet_fopen fromFile ReadBinary w) as Q.
    unfold quiet_view, calm_view in Q. now injection Q. }
  destruct slack as [|slack]; cbn [open_loop];
    destruct (fopen fromFile ReadBinary w) as [src w1]; cbn [fst snd] in *;
    pose proof (fopen_ok toFile WriteBinary w1
                  (proj1 (file_at_isFile toFile w1) F1)) as Ok;
    rewrite Ff, C1 in Ok; specialize (Ok Nf);
    pose proof (fopen_write_data toFile w1) as D;
    destruct (fopen toFile WriteBinary w1) as [dst w2]; cbn [fst snd] in *;
    subst dst; specialize (D eq_refl);
    destruct (src && true); try exact D;
    destruct (Nat.ltb maxRetries (S rc)); try exact D.
  apply K. exact D.
Qed.

(** X6: a source that is not there still costs the destination its
    content. If nothing is at the source once the parent directory of the
    destination has been made, the call gives up after the open loop with
    the count as it was; a regular file at the destination, opened without
    a fault at the first attempt, is left empty. *)
Theorem copySingleFile_source_missing
        (fromFile toFile : string) (totalBytesCopied totalSize : Z)
        (logSource logDestination : string) (w : world) :
  let r := copySingleFile fromFile toFile totalBytesCopied totalSize
                          logSource logDestination w in
  isFileOrDirectory fromFile (createDirectory (getParentDirFromPath toFile) w)
  = false ->
  Str.ends_with_slash toFile = false ->
  Str.resolve fromFile <> Str.resolve toFile ->
  fst (fst r) = CopyOpenFailed
  /\ snd (fst r) = totalBytesCopied
  /\ (isFile toFile w = true -> fopen_fault w (S (fopens w)) = false ->
      isFile toFile (snd r) = true
      /\ data (snd r) (Str.resolve toFile) = []).
Proof.
  cbv zeta. intros Hm _ N. rewrite copySingleFile_unfold. cbv zeta.
  set (w0 := createDirectory (getParentDirFromPath toFile) w) in *.
  assert (Hf0 : isFile fromFile w0 = false).
  { unfold isFile, isFileOrDirectory in *. now destruct (stat fromFile w0). }
  rewrite (open_loop_no_source maxRetries 0 fromFile toFile w0 Hf0 N).
  cbn [fst snd]. repeat split.
  - apply file_at_isFile, file_at_open_loop, file_at_createDirectory.
    now apply file_at_isFile.
  - apply open_loop_first_pass.
    + apply file_at_isFile, file_at_createDirectory. now apply file_at_isFile.
    + assert (Q : fopen_fault w0 = fopen_fault w).
      { pose proof (quiet_createDirectory (getParentDirFromPath toFile) w) as Q.
        unfold quiet_view, calm_view in Q. now injection Q. }
      fold w0 in Q. unfold w0 at 2. now rewrite Q, fopens_createDirectory.
Qed.

(** A write that fails leaves no destination file behind, the percentage at
    [-1] and a diagnostic just before that store. *)
Lemma copy_chunks_write_failed chunks toFile copied total w :
  file_at toFile w ->
  fst (fst (copy_chunks chunks toFile copied total w)) = CopyWriteFailed ->
  node_at (tree (snd (copy_chunks chunks toFile copied total w))) toFile = None
  /\ copyPercentage (snd (copy_chunks chunks toFile copied total w)) = (-1)%Z
  /\ exists tr,
      trace (snd (copy_chunks chunks toFile copied total w))
      = EvStore (-1) :: EvLog "Error writing to destination file." :: tr.
Proof.
  revert copied w. induction chunks as [|c r IH]; intros copied w F; [discriminate|].
  cbn [copy_chunks]. unfold load_abort.
  destruct (abortFileOp w (loads w)); [discriminate|].
  pose proof (tree_write_chunk toFile c (set_loads (S (loads w)) w)) as Ht.
  destruct (write_chunk toFile c (set_loads (S (loads w)) w)) as [[] w2];
    cbn [snd] in Ht.
  - apply IH. unfold file_at in *.
    destruct (0 <? total)%Z;
      [change (tree (store_percentage ?v ?x)) with (tree x)|]; now rewrite Ht.
  - intros _. cbn [fst snd]. repeat split.
    + change (tree (store_percentage ?v ?x)) with (tree x).
      apply remove_file_gone. unfold file_at in *.
      change (tree (logMessage ?m ?x)) with (tree x). now rewrite Ht.
    + eexists. cbn [store_percentage emit trace]. rewrite trace_remove. reflexivity.
Qed.

(** X7: a write that fails is cleaned up like an abort. When the call ends
    with the write-failure status, nothing is left at the destination,
    copyPercentage is -1, and the last two events are the diagnostic and
    the store of -1. *)
Theorem copySingleFile_write_failure_cleanup
        (fromFile toFile : string) (totalBytesCopied totalSize : Z)
        (logSource logDestination : string) (w : world) :
  let r := copySingleFile fromFile toFile totalBytesCopied totalSize
                          logSource logDestination w in
  fst (fst r) = CopyWriteFailed ->
  isFileOrDirectory toFile (snd r) = false
  /\ copyPercentage (snd r) = (-1)%Z
  /\ exists tr,
      trace (snd r)
      = EvStore (-1) :: EvLog "Error writing to destination file." :: tr.
Proof.
  cbv zeta. rewrite copySingleFile_unfold. cbv zeta.
  destruct (copy_ready_state fromFile toFile logSource logDestination w)
    as (_ & _ & F). cbv zeta in F.
  destruct (fst (open_loop maxRetries 0 fromFile toFile _)) eqn:Eo;
    [|discriminate].
  specialize (F eq_refl).
  match goal with
  | |- context [copy_chunks ?c ?t ?a ?b ?x] =>
      pose proof (copy_chunks_write_failed c t a b x F) as A;
      destruct (fst (fst (copy_chunks c t a b x))) eqn:Er
  end; intros E; try (rewrite Er in E; discriminate); try discriminate.
  destruct (A eq_refl) as (A1 & A2 & A3).
  repeat split; try assumption.
  unfold isFileOrDirectory, stat. now rewrite A1.
Qed.

(** ** More on copying files and directories *)

Lemma abort_copySingleFile fromFile toFile c total logSource logDestination w :
  abortFileOp (snd (copySingleFile fromFile toFile c total logSource logDestination w))
  = abortFileOp w.
Proof.
  rewrite copySingleFile_unfold. cbv zeta.
  destruct (copy_ready_state fromFile toFile logSource logDestination w)
    as (C & _ & _). cbv zeta in C.
  set (w0 := createDirectory (getParentDirFromPath toFile) w) in *.
  destruct (open_loop_spec maxRetries 0 fromFile toFile w0 (Nat.add_0_r _))
    as (Co & _ & _ & _).
  destruct (fst (open_loop maxRetries 0 fromFile toFile w0)).
  - set (l1 := open_log logSource _ _) in *.
    set (l2 := open_log logDestination _ _) in *.
    apply calm_view_eq in C. destruct C as (_ & _ & _ & _ & _ & A & _).
    pose proof (sched_copy_chunks
                  (read_chunks (COPY_BUFFER_SIZE (snd l2))
                               (data (snd l2) (Str.resolve fromFile)))
                  toFile c total (snd l2)) as S.
    assert (A' : abortFileOp (snd (copy_chunks
                  (read_chunks (COPY_BUFFER_SIZE (snd l2))
                               (data (snd l2) (Str.resolve fromFile)))
                  toFile c total (snd l2))) = abortFileOp w).
    { unfold sched_view in S. injection S. intros. congruence. }
    destruct (copy_chunks _ _ _ _ _) as [[[] c'] w4]; cbn [fst snd] in *;
      try exact A'.
    pose proof (quiet_calm _ _ (quiet_finish_copy (fst l1) (fst l2)
                                                  fromFile toFile w4)) as Q1.
    apply calm_view_eq in Q1.
    destruct Q1 as (_ & _ & _ & _ & _ & A1 & _). congruence.
  - cbn [snd].
    pose proof (quiet_calm _ _ (quiet_createDirectory (getParentDirFromPath toFile) w)) as Q.
    fold w0 in Q. apply calm_view_eq in Co. apply calm_view_eq in Q.
    destruct Co as (_ & _ & _ & _ & _ & A & _).
    destruct Q as (_ & _ & _ & _ & _ & A0 & _). congruence.
Qed.

Lemma abort_createDirectory d w : abortFileOp (createDirectory d w) = abortFileOp w.
Proof.
  pose proof (quiet_calm _ _ (quiet_createDirectory d w)) as Q.
  apply calm_view_eq in Q. now destruct Q as (_ & _ & _ & _ & _ & A & _).
Qed.

(** How the directory loop of a copy ends. *)
Lemma copy_loop_end total logSource logDestination :
  forall fuel directories c w b c' w',
    copy_loop fuel directories c total logSource logDestination w = Some (b, c', w') ->
    abortFileOp w' = abortFileOp w
    /\ (b = false ->
        copyPercentage w' = (-1)%Z /\ hd_error (trace w') = Some (EvStore (-1)))
    /\ ((forall n, abortFileOp w n = false) -> b = true).
Proof.
  induction fuel as [|fuel IH]; intros directories c w b c' w'.
  - destruct directories as [|[f t] rest]; simpl; [|discriminate].
    intros E. injection E as <- <- <-. repeat split; discriminate.
  - destruct directories as [|[f t] rest];
      [simpl; intros E; injection E as <- <- <-; repeat split; discriminate|].
    cbn [copy_loop]. unfold load_abort.
    destruct (abortFileOp w (loads w)) eqn:Ab.
    + intros E. injection E as <- <- <-. repeat split.
      intros H. rewrite H in Ab. discriminate.
    + set (w1 := set_loads (S (loads w)) w).
      change (stat f (set_loads (S (loads w)) w)) with (stat f w1).
      assert (A1 : abortFileOp w1 = abortFileOp w) by reflexivity.
      assert (K : forall w2 dirs cc,
                 abortFileOp w2 = abortFileOp w ->
                 copy_loop fuel dirs cc total logSource logDestination w2
                 = Some (b, c', w') ->
                 abortFileOp w' = abortFileOp w
                 /\ (b = false ->
                     copyPercentage w' = (-1)%Z
                     /\ hd_error (trace w') = Some (EvStore (-1)))
                 /\ ((forall n, abortFileOp w n = false) -> b = true)).
      { intros w2 dirs cc A2 E. destruct (IH _ _ _ _ _ _ E) as (Aw & Hf & Ht).
        split; [congruence|]. split; [exact Hf|].
        intros H. apply Ht. intros n. rewrite A2. apply H. }
      destruct (stat f w1) as [[[] sz]|].
      * set (toFilePath := getParentDirFromPath t +++ "/" +++ getNameFromPath f).
        set (w2 := createDirectory (getParentDirFromPath toFilePath) w1).
        pose proof (abort_copySingleFile f toFilePath c total
                      logSource logDestination w2) as A3.
        destruct (copySingleFile f toFilePath c total logSource logDestination w2)
          as [[st copied] w3]. cbn [snd] in A3.
        apply K. destruct (0 <? total)%Z;
          [change (abortFileOp (store_percentage ?v ?x)) with (abortFileOp x)|];
          rewrite A3; unfold w2; now rewrite abort_createDirectory.
      * destruct (readdir_all f w1) as [entries|]; apply K; exact A1.
      * apply K. exact A1.
      * apply K. exact A1.
Qed.

(** X8: how a directory copy called on its own ends. With a destination
    that ends with a separator and no running total passed in, a call that
    returns has stored 100 or -1 to copyPercentage as its last event; it is
    100 whenever no abort is ever requested, even if nothing was copied. *)
Theorem copyFileOrDirectory_top_level_end
        (fuel : nat) (fromPath toPath : string) (totalSize : Z)
        (logSource logDestination : string) (w : world) (copied : Z) (w' : world) :
  Str.ends_with_slash toPath = true ->
  copyFileOrDirectory fuel fromPath toPath None totalSize
                      logSource logDestination w = Some (copied, w') ->
  ((copyPercentage w' = 100%Z /\ hd_error (trace w') = Some (EvStore 100))
   \/ (copyPercentage w' = (-1)%Z /\ hd_error (trace w') = Some (EvStore (-1))))
  /\ ((forall n, abortFileOp w n = false) -> copyPercentage w' = 100%Z).
Proof.
  intros Es. unfold copyFileOrDirectory. cbv zeta. rewrite Es. cbn [negb].
  destruct (getTotalSize fuel fromPath w) as [total|]; [|discriminate].
  set (w1 := createDirectory toPath w).
  pose proof (copy_loop_end total logSource logDestination fuel
                [(fromPath, toPath)] 0%Z w1) as L.
  destruct (copy_loop fuel [(fromPath, toPath)] 0%Z total logSource logDestination w1)
    as [[[b c] w2]|]; [|discriminate].
  destruct (L b c w2 eq_refl) as (A & Hf & Ht).
  destruct b; intros E; injection E as <- <-.
  - split; [left; split; reflexivity|reflexivity].
  - split; [right; now apply Hf|].
    intros H. assert (B : false = true); [|discriminate].
    apply Ht. intros n. unfold w1. rewrite abort_createDirectory. apply H.
Qed.

(** X9: called on its own with a destination that is a file path, a copy
    of an empty source publishes no progress at all. *)
Theorem copyFileOrDirectory_file_path_empty
        (fuel : nat) (fromPath toPath : string) (totalSize : Z)
        (logSource logDestination : string) (w : world) (copied : Z) (w' : world) :
  Str.ends_with_slash toPath = false ->
  data w (Str.resolve fromPath) = [] ->
  copyFileOrDirectory fuel fromPath toPath None totalSize
                      logSource logDestination w = Some (copied, w') ->
  copied = 0%Z
  /\ copyPercentage w' = copyPercentage w
  /\ stores (trace w') = stores (trace w).
Proof.
  intros Es Hd. unfold copyFileOrDirectory. cbv zeta. rewrite Es. cbn [negb].
  destruct (getTotalSize fuel fromPath w) as [total|]; [|discriminate].
  set (w1 := createDirectory (getParentDirFromPath toPath) w).
  pose proof (quiet_calm _ _ (quiet_createDirectory (getParentDirFromPath toPath) w))
    as Q1. fold w1 in Q1.
  assert (Hd1 : data w1 (Str.resolve fromPath) = []).
  { destruct (kept_createDirectory (getParentDirFromPath toPath) w
                (Str.resolve fromPath)) as [E|E]; fold w1 in E; congruence. }
  rewrite copySingleFile_unfold. cbv zeta.
  destruct (copy_ready_state fromPath toPath logSource logDestination w1)
    as (C & K & _). cbv zeta in C, K.
  set (w0 := createDirectory (getParentDirFromPath toPath) w1) in *.
  destruct (open_loop_spec maxRetries 0 fromPath toPath w0 (Nat.add_0_r _))
    as (Co & _ & _ & _).
  destruct (fst (open_loop maxRetries 0 fromPath toPath w0)).
  - set (l1 := open_log logSource _ _) in *.
    set (l2 := open_log logDestination _ _) in *.
    assert (Hd2 : data (snd l2) (Str.resolve fromPath) = []).
    { destruct (K (Str.resolve fromPath)) as [E|E]; congruence. }
    rewrite Hd2, read_chunks_nil. cbn [copy_chunks fst snd].
    intros E. injection E as <- <-.
    pose proof (quiet_calm _ _ (quiet_finish_copy (fst l1) (fst l2)
                                                  fromPath toPath (snd l2))) as Q3.
    assert (Q : calm_view (finish_copy (fst l1) (fst l2) fromPath toPath (snd l2))
                = calm_view w) by congruence.
    apply calm_view_eq in Q. destruct Q as (P & S & _). now repeat split.
  - cbn [fst snd]. intros E. injection E as <- <-.
    assert (Q : calm_view (snd (open_loop maxRetries 0 fromPath toPath w0))
                = calm_view w).
    { rewrite Co. unfold w0.
      rewrite (quiet_calm _ _ (quiet_createDirectory _ w1)). exact Q1. }
    apply calm_view_eq in Q. destruct Q as (P & S & _). now repeat split.
Qed.

(** ** More on deleting *)

Lemma remove_shape (s : string) (w : world) (q : path) :
  q <> Str.resolve s -> shape_at (snd (remove s w)) q = shape_at w q.
Proof.
  intros N. unfold remove, node_at. destruct (String.eqb s ""); [reflexivity|].
  destruct (lookup (Str.resolve s) (tree w)) as [[]|] eqn:E; try reflexivity;
    cbn [snd]; rewrite shape_at_set_tree; unfold shape_at;
    (eapply lookup_set_at_none_leaf; [exact E|exact I|exact N]).
Qed.

(** X10: deleting a regular file through its path removes that file and
    touches nothing else. *)
Theorem deleteFileOrDirectory_removes_file (fuel : nat) (pathToDelete : string)
        (w : world) :
  Str.ends_with_slash pathToDelete = false ->
  isFile pathToDelete w = true ->
  exists w',
    deleteFileOrDirectory fuel pathToDelete "" w = Some w'
    /\ isFileOrDirectory pathToDelete w' = false
    /\ trace w' = trace w
    /\ forall s, Str.resolve s <> Str.resolve pathToDelete -> stat s w' = stat s w.
Proof.
  intros Es Hf. unfold deleteFileOrDirectory. rewrite Es.
  cbn [negb open_log String.eqb]. rewrite Hf.
  pose proof (proj2 (file_at_isFile _ _) Hf) as F.
  pose proof (remove_file_gone pathToDelete w F) as G.
  pose proof (trace_remove pathToDelete w) as T.
  pose proof (data_remove pathToDelete w) as D.
  pose proof (remove_shape pathToDelete w) as S.
  assert (R : fst (remove pathToDelete w) = true).
  { unfold remove. unfold file_at in F. now rewrite F. }
  destruct (remove pathToDelete w) as [[] w1]; [|discriminate].
  cbn [fst snd log_if_open] in *. exists w1. repeat split.
  - unfold isFileOrDirectory, stat. now rewrite G.
  - exact T.
  - intros s N. apply stat_shape; [now apply S|now rewrite D].
Qed.

Lemma data_rmdir (s : string) (w : world) : data (snd (rmdir s w)) = data w.
Proof. unfold rmdir. repeat break_match; cbn [snd]; rewrite ?data_set_tree; reflexivity. Qed.

(** Without a log the delete loop changes no content. *)
Lemma delete_loop_data :
  forall fuel stack w w',
    delete_loop fuel None stack w = Some w' -> data w' = data w.
Proof.
  induction fuel as [|fuel IH]; intros stack w w'.
  - destruct stack; simpl; [|discriminate]. intros E. now injection E as <-.
  - destruct stack as [|s below]; [simpl; intros E; now injection E as <-|].
    cbn [delete_loop].
    destruct (stat s w) as [[[] sz]|]; try (apply IH).
    + pose proof (data_remove s w) as D.
      destruct (remove s w) as [[] w1]; cbn [snd log_if_open] in *;
        intros E; rewrite (IH _ _ _ E); exact D.
    + destruct (readdir_all s w) as [entries|].
      * destruct (filter _ entries); [|apply IH].
        pose proof (data_rmdir s (emit (EvRmdir s (listing (tree w) s)) w)) as D.
        destruct (rmdir s _) as [[] w1]; cbn [snd] in D;
          intros E; rewrite (IH _ _ _ E); exact D.
      * intros E. apply IH in E. exact E.
    + intros E. apply IH in E. exact E.
Qed.

(** *** Entries the engine cannot delete *)

Lemma undeletable_shape (c c' : node) :
  shape c' = shape c -> undeletable c -> undeletable c'.
Proof. destruct c as [|[] ?|], c' as [|[] ?|]; simpl; intros H U; congruence || exact U. Qed.

Section Stuck.

Variable h : option string.
Variable pathToDelete : string.
Variable x : string.
Variable rel : path.

Lemma stuck_same (w w' : world) :
  tree w' = tree w ->
  stuck_below pathToDelete x rel w -> stuck_below pathToDelete x rel w'.
Proof. unfold stuck_below, shape_at. now intros ->. Qed.

(** Taking out a regular file or an empty directory that can be read
    leaves the directory stuck. *)
Lemma stuck_set_at (a : path) (n : node) (w : world) :
  lookup a (tree w) = Some n -> leaf n -> ~ undeletable n ->
  stuck_below pathToDelete x rel w ->
  stuck_below pathToDelete x rel (set_tree (set_at a None (tree w)) w).
Proof.
  intros Ha L U (Ne & Hp & c & Hc & Uc). unfold stuck_below.
  split; [exact Ne|].
  assert (N1 : Str.resolve pathToDelete <> a).
  { intros <-. rewrite lookup_app in Hc. rewrite Ha in Hc.
    now rewrite (lookup_leaf n x rel L) in Hc. }
  assert (N2 : Str.resolve pathToDelete ++ x :: rel <> a).
  { intros <-. rewrite Ha in Hc. injection Hc as ->. contradiction. }
  split.
  - rewrite shape_at_set_tree, <- Hp. unfold shape_at.
    now apply (lookup_set_at_none_leaf _ a (tree w) n).
  - pose proof (lookup_set_at_none_leaf _ a (tree w) n Ha L N2) as S.
    rewrite tree_set_tree. rewrite Hc in S.
    destruct (lookup _ (set_at a None (tree w))) as [c'|]; [|discriminate].
    exists c'. split; [reflexivity|].
    apply (undeletable_shape c c'); [|exact Uc]. simpl in S. congruence.
Qed.

Hypothesis x_listed : is_dot x = false.

Lemma stuck_listing (w : world) :
  stuck_below pathToDelete x rel w ->
  stat pathToDelete w = Some (KDir, 0%Z)
  /\ exists es, readdir_all pathToDelete w = Some ("." :: ".." :: names es)
                /\ filter (fun n => negb (is_dot n)) (names es) <> [].
Proof using x_listed.
  intros (Ne & Hp & c & Hc & Uc). unfold stat, readdir_all, node_at, shape_at in *.
  rewrite Ne. rewrite lookup_app in Hc.
  destruct (lookup (Str.resolve pathToDelete) (tree w)) as [[|r es|]|];
    try discriminate.
  simpl in Hp. injection Hp as ->. split; [reflexivity|].
  exists es. split; [reflexivity|].
  cbn [lookup] in Hc. destruct (find_entry x es) as [d|] eqn:F; [|discriminate].
  apply find_entry_some_in in F.
  assert (I : In x (filter (fun n => negb (is_dot n)) (names es))).
  { apply filter_In. split; [|now rewrite x_listed].
    unfold names. apply in_map_iff. now exists (x, d). }
  intros E. now rewrite E in I.
Qed.

(** The path at the bottom of the stack is never taken off it. *)
Lemma delete_loop_stuck :
  forall fuel above w,
    stuck_below pathToDelete x rel w ->
    delete_loop fuel h (above ++ [pathToDelete]) w = None.
Proof using x_listed.
  induction fuel as [|fuel IH]; intros above w St.
  - destruct above; reflexivity.
  - destruct above as [|s above].
    + cbn [app delete_loop].
      destruct (stuck_listing w St) as (Hs & es & Hr & Hf).
      rewrite Hs, Hr.
      change (filter (fun n => negb (is_dot n)) ("." :: ".." :: names es))
        with (filter (fun n => negb (is_dot n)) (names es)).
      destruct (filter (fun n => negb (is_dot n)) (names es)) as [|y l] eqn:E;
        [congruence|].
      apply (IH (rev (map (child_path pathToDelete) (y :: l))) w St).
    + change ((s :: above) ++ [pathToDelete]) with (s :: (above ++ [pathToDelete])).
      cbn [delete_loop].
      destruct (stat s w) as [[[] sz]|] eqn:Hs.
      * (* a regular file *)
        unfold stat in Hs. unfold remove.
        destruct (node_at (tree w) s) as [[]|] eqn:Hn; try discriminate.
        apply IH. apply (stuck_same (set_tree (set_at (Str.resolve s) None (tree w)) w));
          [apply tree_log_if_open|].
        unfold node_at in Hn. destruct (String.eqb s ""); [discriminate|].
        apply (stuck_set_at _ File w Hn I); [|exact St]. intros U. exact U.
      * (* a directory *)
        unfold readdir_all, rmdir.
        change (tree (emit ?e ?w0)) with (tree w0).
        destruct (node_at (tree w) s) as [[|[] es|]|] eqn:Hn;
          try (apply IH; exact St).
        change (filter (fun n => negb (is_dot n)) ("." :: ".." :: names es))
          with (filter (fun n => negb (is_dot n)) (names es)).
        destruct (filter (fun n => negb (is_dot n)) (names es)) as [|y l] eqn:E.
        -- destruct es as [|e es]; [|apply IH; exact St].
           destruct (Str.resolve s) as [|z p] eqn:R; [apply IH; exact St|].
           apply IH.
           apply (stuck_same (set_tree (set_at (z :: p) None (tree w)) w));
             [now rewrite (tree_set_tree_at (z :: p) None w
                             (emit (EvRmdir s (listing (tree w) s)) w)),
                          tree_set_tree|].
           unfold node_at in Hn. destruct (String.eqb s ""); [discriminate|].
           rewrite R in Hn.
           apply (stuck_set_at _ (Dir true []) w Hn I); [|exact St].
           intros U. exact U.
        -- rewrite app_comm_cons, app_assoc. apply IH. exact St.
      * apply IH. exact St.
      * apply IH. exact St.
Qed.

End Stuck.

(** X12: an entry that cannot be deleted keeps the delete engine busy for
    ever. If the directory to delete can be enumerated and somewhere below
    it lies an entry of unknown type or a directory that cannot be opened,
    the call does not return, whatever the fuel: the loop never gives up
    on a directory that does not get empty. *)
Theorem deleteFileOrDirectory_never_returns
        (pathToDelete logSource : string) (x : string) (rel : path) (c : node)
        (w : world) :
  let w0 := snd (open_log logSource "Failed to open source log file: " w) in
  Str.ends_with_slash pathToDelete = true ->
  readdir_all pathToDelete w0 <> None ->
  lookup (Str.resolve pathToDelete ++ x :: rel) (tree w0) = Some c ->
  undeletable c -> is_dot x = false ->
  forall fuel, deleteFileOrDirectory fuel pathToDelete logSource w = None.
Proof.
  cbv zeta. intros Es Hr Hc U Hx fuel.
  unfold deleteFileOrDirectory. rewrite Es. cbn [negb].
  destruct (open_log logSource "Failed to open source log file: " w) as [h w0].
  cbn [snd] in *.
  apply (delete_loop_stuck h pathToDelete x rel Hx fuel [] w0).
  unfold stuck_below. unfold readdir_all, node_at, shape_at in *.
  destruct (String.eqb pathToDelete ""); [now elim Hr|].
  split; [reflexivity|].
  destruct (lookup (Str.resolve pathToDelete) (tree w0)) as [[|[] es|]|];
    try discriminate; try congruence.
  split; [reflexivity|]. exists c. now split.
Qed.

(** ** Batches of deletions *)

(** Removing never makes a regular file appear. *)
Lemma remove_no_new_file (s t : string) (w : world) :
  isFile t w = false -> isFile t (snd (remove s w)) = false.
Proof.
  intros H. destruct (list_eq_dec string_dec (Str.resolve t) (Str.resolve s)) as [E|N].
  - apply not_true_iff_false. intros H'.
    apply isFile_shape in H'. destruct H' as [Nt S].
    destruct (String.eqb s "") eqn:Es.
    + apply String.eqb_eq in Es. subst s. unfold remove, node_at in S. simpl in S.
      apply not_true_iff_false in H. apply H. apply isFile_shape. now split.
    + pose proof (remove_not_file s w) as R.
      apply not_true_iff_false in R. apply R. apply isFile_shape.
      split; [exact Es|]. now rewrite <- E.
  - apply not_true_iff_false. intros H'. apply not_true_iff_false in H. apply H.
    apply isFile_shape in H'. destruct H' as [Nt S]. apply isFile_shape.
    split; [exact Nt|]. now rewrite <- (remove_shape s w _ N).
Qed.

(** One deletion through a path that denotes a file, without a log. *)
Lemma delete_file_path (fuel : nat) (p : string) (w : world) :
  Str.ends_with_slash p = false ->
  exists w',
    deleteFileOrDirectory fuel p "" w = Some w'
    /\ isFile p w' = false
    /\ (forall t, isFile t w = false -> isFile t w' = false)
    /\ (forall s, Str.resolve s <> Str.resolve p -> stat s w' = stat s w).
Proof.
  intros Es. unfold deleteFileOrDirectory. rewrite Es.
  cbn [negb open_log String.eqb].
  destruct (isFile p w) eqn:Hf.
  - pose proof (remove_not_file p w) as R.
    pose proof (fun t => remove_no_new_file p t w) as K.
    pose proof (remove_shape p w) as S. pose proof (data_remove p w) as D.
    assert (St : forall s, Str.resolve s <> Str.resolve p ->
                           stat s (snd (remove p w)) = stat s w).
    { intros s N. apply stat_shape; [now apply S|now rewrite D]. }
    destruct (remove p w) as [[] w1]; cbn [snd log_if_open] in *;
      eexists; (split; [reflexivity|]); repeat split; assumption.
  - exists w. repeat split; auto.
Qed.

Lemma delete_each_files (fuel : nat) :
  forall fileList w,
    Forall (fun p => Str.ends_with_slash p = false) fileList ->
    exists w',
      delete_each fuel fileList "" w = Some w'
      /\ Forall (fun p => isFile p w' = false) fileList
      /\ (forall t, isFile t w = false -> isFile t w' = false)
      /\ (forall s, (forall p, In p fileList -> Str.resolve s <> Str.resolve p) ->
                    stat s w' = stat s w).
Proof.
  induction fileList as [|p l IH]; intros w Hl.
  - exists w. repeat split; auto.
  - inversion Hl as [|? ? Hp Hl']; subst. cbn [delete_each].
    destruct (delete_file_path fuel p w Hp) as (w1 & E & G & K & S).
    rewrite E. destruct (IH w1 Hl') as (w2 & E2 & G2 & K2 & S2).
    exists w2. repeat split.
    + exact E2.
    + constructor; [now apply K2|exact G2].
    + intros t Ht. now apply K2, K.
    + intros s Hs. rewrite S2.
      * apply S. apply Hs. now left.
      * intros q Hq. apply Hs. now right.
Qed.

(** X13: a batch deletion of file paths leaves none of them a regular file
    and nothing else changed. *)
Theorem deleteFileOrDirectoryByPattern_files (fuel : nat) (pathPattern : string)
        (w : world) :
  Forall (fun p => Str.ends_with_slash p = false)
         (getFilesListByWildcards w pathPattern) ->
  exists w',
    deleteFileOrDirectoryByPattern fuel pathPattern "" w = Some w'
    /\ Forall (fun p => isFile p w' = false) (getFilesListByWildcards w pathPattern)
    /\ (forall s,
          (forall p, In p (getFilesListByWildcards w pathPattern) ->
                     Str.resolve s <> Str.resolve p) ->
          stat s w' = stat s w).
Proof.
  intros H. unfold deleteFileOrDirectoryByPattern.
  destruct (delete_each_files fuel _ w H) as (w' & E & G & _ & S).
  exists w'. repeat split; assumption.
Qed.

(** ** More on mirroring *)

Lemma substr_from_length (n : nat) (s : string) :
  match Str.substr_from n s with
  | Some _ => n <= String.length s
  | None => String.length s < n
  end.
Proof.
  revert s. induction n as [|n IH]; intros s; simpl; [lia|].
  destruct s as [|c s]; simpl; [lia|].
  specialize (IH s). destruct (Str.substr_from n s); lia.
Qed.

Lemma mirror_each_other_mode (fuel : nat) (sourcePath targetPath mode : string)
      (copied total : Z) (n : nat) (w : world) :
  String.eqb mode "copy" = false -> String.eqb mode "delete" = false ->
  forall fileList,
    mirror_each fuel sourcePath targetPath mode fileList copied total n w
    = if forallb (fun p => Nat.leb (String.length sourcePath) (String.length p))
                 fileList
      then Returned (n, w) else OutOfRange.
Proof.
  intros Hc Hd. induction fileList as [|p l IH]; [reflexivity|].
  cbn [mirror_each forallb]. unfold mirror_target.
  pose proof (substr_from_length (String.length sourcePath) p) as L.
  destruct (Str.substr_from (String.length sourcePath) p).
  - apply Nat.leb_le in L. rewrite L, Hd, Hc. exact IH.
  - apply Nat.leb_gt in L. now rewrite L.
Qed.

(** X14: a mode that is neither copy nor delete is ignored, but
    not before the target of every listed path is computed. *)
Theorem mirrorFiles_other_mode (fuel : nat) (sourcePath targetPath mode : string)
        (w : world) :
  String.eqb mode "copy" = false -> String.eqb mode "delete" = false ->
  mirrorFiles fuel sourcePath targetPath mode w
  = if forallb (fun p => Nat.leb (String.length sourcePath) (String.length p))
               (getFilesListFromDirectory w sourcePath)
    then Returned (O, w) else OutOfRange.
Proof.
  intros Hc Hd. unfold mirrorFiles. cbv zeta. rewrite Hc.
  now apply mirror_each_other_mode.
Qed.

Lemma ends_with_slash_append (a b : string) :
  b <> "" -> Str.ends_with_slash (a +++ b) = Str.ends_with_slash b.
Proof. intros N. unfold Str.ends_with_slash. now rewrite back_append. Qed.

(** A listed file and its mirror image. *)
Lemma mirror_target_file (sourcePath targetPath p : string) :
  String.prefix sourcePath p = true -> p <> sourcePath ->
  Str.ends_with_slash p = false ->
  exists u, mirror_target sourcePath targetPath p = Some u
            /\ Str.ends_with_slash u = false.
Proof.
  intros Hp N Es. unfold mirror_target.
  destruct (prefix_substr _ _ Hp) as (suffix & -> & E).
  exists (targetPath +++ suffix). split; [reflexivity|].
  assert (Ns : suffix <> "").
  { intros ->. rewrite append_empty_r in E. congruence. }
  rewrite ends_with_slash_append by exact Ns.
  rewrite <- E, ends_with_slash_append in Es by exact Ns. exact Es.
Qed.

Lemma mirror_each_delete (fuel : nat) (sourcePath targetPath : string)
      (copied total : Z) (n : nat) :
  forall fileList w,
    Forall (fun p => String.prefix sourcePath p = true /\ p <> sourcePath
                     /\ Str.ends_with_slash p = false) fileList ->
    exists w',
      mirror_each fuel sourcePath targetPath "delete" fileList copied total n w
      = Returned (n, w')
      /\ Forall (fun p => exists u, mirror_target sourcePath targetPath p = Some u
                                    /\ isFile u w' = false) fileList
      /\ (forall t, isFile t w = false -> isFile t w' = false)
      /\ (forall s,
            (forall p u, In p fileList ->
                         mirror_target sourcePath targetPath p = Some u ->
                         Str.resolve s <> Str.resolve u) ->
            stat s w' = stat s w).
Proof.
  induction fileList as [|p l IH]; intros w Hl.
  - exists w. repeat split; auto.
  - inversion Hl as [|? ? (Hp & Np & Es) Hl']; subst. cbn [mirror_each].
    destruct (mirror_target_file sourcePath targetPath p Hp Np Es) as (u & Hu & Eu).
    rewrite Hu. cbn [String.eqb Ascii.eqb Bool.eqb].
    destruct (delete_file_path fuel u w Eu) as (w1 & E & G & K & S).
    rewrite E. destruct (IH w1 Hl') as (w2 & E2 & G2 & K2 & S2).
    exists w2. repeat split.
    + exact E2.
    + constructor; [|exact G2]. exists u. split; [exact Hu|now apply K2].
    + intros t Ht. now apply K2, K.
    + intros s Hs. rewrite S2.
      * apply S. apply (Hs p u); [now left|exact Hu].
      * intros q v Hq Hv. apply (Hs q v); [now right|exact Hv].
Qed.

(** X15: in delete mode the mirror image of every listed file is deleted and
    nothing else is touched. *)
Theorem mirrorFiles_delete (fuel : nat) (sourcePath targetPath : string) (w : world) :
  Forall (fun p => String.prefix sourcePath p = true /\ p <> sourcePath
                   /\ Str.ends_with_slash p = false)
         (getFilesListFromDirectory w sourcePath) ->
  exists w',
    mirrorFiles fuel sourcePath targetPath "delete" w = Returned (O, w')
    /\ Forall (fun p => exists u, mirror_target sourcePath targetPath p = Some u
                                  /\ isFile u w' = false)
              (getFilesListFromDirectory w sourcePath)
    /\ (forall s,
          (forall p u, In p (getFilesListFromDirectory w sourcePath) ->
                       mirror_target sourcePath targetPath p = Some u ->
                       Str.resolve s <> Str.resolve u) ->
          stat s w' = stat s w).
Proof.
  intros H. unfold mirrorFiles. cbv zeta. cbn [String.eqb Ascii.eqb Bool.eqb].
  destruct (mirror_each_delete fuel sourcePath targetPath 0%Z 0%Z O _ w H)
    as (w' & E & G & _ & S).
  exists w'. repeat split; assumption.
Qed.

(** ** More on flag files *)

(** An open changes the tree at most by a new regular file at its path. *)
Lemma fopen_tree (s : string) (m : open_mode) (w : world) :
  tree (snd (fopen s m w)) = tree w
  \/ (lookup (Str.resolve s) (tree w) = None
      /\ is_dir (lookup (parent (Str.resolve s)) (tree w)) = true
      /\ tree (snd (fopen s m w)) = set_at (Str.resolve s) (Some File) (tree w)).
Proof.
  unfold fopen. destruct (fopen_fault w (fopens w)); [now left|].
  cbv zeta. change (tree (set_fopens (S (fopens w)) w)) with (tree w).
  unfold node_at. destruct (String.eqb s "") eqn:Es; [destruct m; now left|].
  destruct (lookup (Str.resolve s) (tree w)) as [[]|] eqn:E;
    try (destruct m; now left).
  destruct m; try (now left);
    (destruct (is_dir _) eqn:D; [|now left]); right;
    (split; [reflexivity|]); (split; [reflexivity|]); cbn [snd];
    change (tree (set_data ?d ?x)) with (tree x);
    apply (tree_set_tree_at _ _ w (set_fopens (S (fopens w)) w)).
Qed.

Lemma fopen_grows (s : string) (m : open_mode) (w : world) (q : path) :
  shape_at (snd (fopen s m w)) q = shape_at w q
  \/ (q = Str.resolve s /\ shape_at w q = None
      /\ shape_at (snd (fopen s m w)) q = Some File).
Proof.
  unfold shape_at. destruct (fopen_tree s m w) as [->|(E & D & ->)]; [now left|].
  destruct (list_eq_dec string_dec q (Str.resolve s)) as [->|N].
  - right. split; [reflexivity|]. rewrite E. split; [reflexivity|].
    rewrite lookup_set_at_new; [reflexivity| |exact D].
    now apply lookup_none_nonroot in E.
  - left. now apply lookup_set_at_some_leaf.
Qed.

Lemma fopen_fault_fopen (s : string) (m : open_mode) (w : world) :
  fopen_fault (snd (fopen s m w)) = fopen_fault w.
Proof.
  pose proof (quiet_fopen s m w) as Q. unfold quiet_view, calm_view in Q.
  now injection Q.
Qed.

Lemma fopen_write_succeeds (s : string) (w : world) :
  fopen_fault w (fopens w) = false ->
  String.eqb s "" = false ->
  is_dir (lookup (parent (Str.resolve s)) (tree w)) = true ->
  shape_at w (Str.resolve s) = None \/ shape_at w (Str.resolve s) = Some File ->
  fst (fopen s WriteBinary w) = true.
Proof.
  intros Nf Ns D H. unfold fopen. rewrite Nf. cbv zeta.
  change (tree (set_fopens (S (fopens w)) w)) with (tree w).
  unfold node_at, shape_at in *. rewrite Ns.
  destruct (lookup (Str.resolve s) (tree w)) as [[]|]; simpl in H;
    try reflexivity; try (destruct H; discriminate).
  now rewrite D.
Qed.

Section FlagFiles.

Variable outputPrefix : string.
Variable target : string.

Lemma flag_step_ready (w : world) (fullPath : string) :
  flag_ready target w -> flag_ready target (flag_step outputPrefix w fullPath).
Proof.
  unfold flag_ready, flag_step. intros (Nf & D & H). cbv zeta.
  destruct (String.eqb (getNameFromPath fullPath) ""); [now repeat split|].
  set (s := outputPrefix +++ getNameFromPath fullPath).
  repeat split.
  - intros n. now rewrite fopen_fault_fopen.
  - destruct (fopen_grows s WriteBinary w (parent (Str.resolve target)))
      as [E|(_ & E & _)]; unfold shape_at in E.
    + destruct (lookup (parent (Str.resolve target)) (tree w)) as [[]|];
        try discriminate.
      destruct (lookup _ (tree (snd (fopen s WriteBinary w)))) as [[]|];
        try discriminate. reflexivity.
    + destruct (lookup (parent (Str.resolve target)) (tree w)); discriminate.
  - destruct (fopen_grows s WriteBinary w (Str.resolve target))
      as [E|(_ & _ & E)]; [rewrite E; exact H|now right].
Qed.

Lemma flag_step_made (w : world) (fullPath : string) :
  flag_made target w -> flag_made target (flag_step outputPrefix w fullPath).
Proof.
  unfold flag_made, flag_step. intros (F & D). cbv zeta.
  destruct (String.eqb (getNameFromPath fullPath) ""); [now split|].
  split; [now apply file_at_fopen|].
  destruct (kept_fopen (outputPrefix +++ getNameFromPath fullPath) WriteBinary w
                       (Str.resolve target)) as [E|E]; congruence.
Qed.

Lemma flag_fold_ready (l : list string) (w : world) :
  flag_ready target w -> flag_ready target (fold_left (flag_step outputPrefix) l w).
Proof.
  revert w. induction l as [|p l IH]; intros w H; [exact H|].
  apply IH. now apply flag_step_ready.
Qed.

Lemma flag_fold_made (l : list string) (w : world) :
  flag_made target w -> flag_made target (fold_left (flag_step outputPrefix) l w).
Proof.
  revert w. induction l as [|p l IH]; intros w H; [exact H|].
  apply IH. now apply flag_step_made.
Qed.

Lemma flag_fold (l : list string) (fullPath : string) (w : world) :
  In fullPath l ->
  String.eqb (getNameFromPath fullPath) "" = false ->
  target = outputPrefix +++ getNameFromPath fullPath ->
  String.eqb target "" = false ->
  flag_ready target w -> flag_made target (fold_left (flag_step outputPrefix) l w).
Proof.
  intros I Nb Et Nt R. apply in_split in I. destruct I as (l1 & l2 & ->).
  rewrite fold_left_app. cbn [fold_left]. apply flag_fold_made.
  pose proof (flag_fold_ready l1 w R) as (Nf & D & H).
  set (w1 := fold_left (flag_step outputPrefix) l1 w) in *.
  unfold flag_step. cbv zeta. rewrite Nb, <- Et.
  pose proof (fopen_write_succeeds target w1 (Nf _) Nt D H) as Ok.
  split; [now apply fopen_write_file_at|now apply fopen_write_data].
Qed.

End FlagFiles.

(** X16: every match gets its flag. If the output directory is there once
    createDirectory has run, no open fails and the place of the flag is
    free or holds a regular file, then after the call the output directory
    holds, under the name of the match (without any extension added), a
    regular file that is empty. *)
Theorem createFlagFiles_creates
        (wildcardPattern outputDir fullPath : string) (w : world) :
  let w1 := createDirectory outputDir w in
  let outFile :=
    (if Str.nonempty outputDir && negb (Str.ends_with_slash outputDir)
     then outputDir +++ "/" else outputDir) +++ getNameFromPath fullPath in
  In fullPath (getFilesListByWildcards w wildcardPattern) ->
  Str.valid_name (getNameFromPath fullPath) = true ->
  (forall n, fopen_fault w n = false) ->
  isDirectory outputDir w1 = true ->
  stat outFile w1 = None \/ isFile outFile w1 = true ->
  isFile outFile (createFlagFiles wildcardPattern outputDir w) = true
  /\ data (createFlagFiles wildcardPattern outputDir w) (Str.resolve outFile) = [].
Proof.
  cbv zeta. intros I V Nf Hd Hs.
  set (outputPrefix := if Str.nonempty outputDir && negb (Str.ends_with_slash outputDir)
                       then outputDir +++ "/" else outputDir) in *.
  set (b := getNameFromPath fullPath) in *.
  set (w1 := createDirectory outputDir w) in *.
  assert (Nb : String.eqb b "" = false).
  { apply valid_name_parts in V. destruct V as (V & _).
    unfold Str.nonempty in V. now apply negb_true_iff in V. }
  apply isDirectory_shape in Hd. destruct Hd as (Nd & r & Sd).
  assert (Ep : Str.ends_with_slash outputPrefix = true
               /\ Str.resolve outputPrefix = Str.resolve outputDir).
  { unfold outputPrefix, Str.nonempty. rewrite Nd. cbn [negb andb].
    destruct (Str.ends_with_slash outputDir) eqn:E; cbn [negb].
    - now split.
    - split; [|apply resolve_dir]. unfold Str.ends_with_slash.
      rewrite back_append; [reflexivity|discriminate]. }
  destruct Ep as (Ep & Rp).
  assert (Rt : Str.resolve (outputPrefix +++ b) = Str.resolve outputDir ++ [b]).
  { rewrite (resolve_app_slash _ _ Ep), Rp. now rewrite (resolve_name b V). }
  assert (Nt : String.eqb (outputPrefix +++ b) "" = false).
  { destruct outputPrefix; [discriminate|reflexivity]. }
  assert (M : file_at (outputPrefix +++ b) (createFlagFiles wildcardPattern outputDir w)
              /\ data (createFlagFiles wildcardPattern outputDir w)
                      (Str.resolve (outputPrefix +++ b)) = []).
  { unfold createFlagFiles. cbv zeta.
    destruct (getFilesListByWildcards w wildcardPattern) as [|m0 ms] eqn:El;
      [destruct I|].
    fold w1. fold outputPrefix.
    apply (flag_fold outputPrefix (outputPrefix +++ b) (m0 :: ms) fullPath w1 I Nb
                     eq_refl Nt).
    repeat split.
    - intros n.
      pose proof (quiet_createDirectory outputDir w) as Q.
      unfold quiet_view, calm_view in Q. fold w1 in Q.
      assert (E : fopen_fault w1 = fopen_fault w) by (now injection Q).
      rewrite E. apply Nf.
    - rewrite Rt. unfold parent. rewrite removelast_last.
      unfold shape_at in Sd.
      destruct (lookup (Str.resolve outputDir) (tree w1)) as [[]|];
        try discriminate. reflexivity.
    - destruct Hs as [Hs|Hs].
      + left. unfold stat, node_at, shape_at in *. rewrite Nt in Hs.
        destruct (lookup (Str.resolve (outputPrefix +++ b)) (tree w1)) as [[]|];
          try discriminate. reflexivity.
      + right. apply isFile_shape in Hs. apply Hs. }
  destruct M as (F & D). split; [now apply file_at_isFile|exact D].
Qed.

(** ** Setting where something may already be *)

Lemma put_entry_same (x : string) (c : node) es :
  find_entry x es = Some c -> put_entry x c es = es.
Proof.
  induction es as [|[y d] es IH]; simpl; [discriminate|].
  destruct (String.eqb x y) eqn:E.
  - apply String.eqb_eq in E. subst y. intros H. now injection H as ->.
  - intros H. now rewrite (IH H).
Qed.

(** Either the parent of [a] is a directory, or setting at [a] does
    nothing. *)
Lemma set_at_effect (a : path) (v : option node) (t : node) :
  a <> [] -> is_dir (lookup (parent a) t) = true \/ set_at a v t = t.
Proof.
  revert t. induction a as [|x a IH]; intros t N; [congruence|].
  destruct t as [|r es|]; try (right; now destruct a).
  destruct a as [|y a]; [now left|].
  rewrite set_at_cons2. change (parent (x :: y :: a)) with (x :: parent (y :: a)).
  cbn [lookup]. destruct (find_entry x es) as [c|] eqn:F; [|now right].
  destruct (IH c ltac:(discriminate)) as [D|E]; [now left|].
  right. rewrite E. now rewrite (put_entry_same x c es F).
Qed.

Lemma lookup_parent_is_dir (q : path) (t d : node) :
  q <> [] -> lookup q t = Some d -> is_dir (lookup (parent q) t) = true.
Proof.
  revert t. induction q as [|x q IH]; intros t N H; [congruence|].
  destruct t as [|r es|]; try discriminate.
  destruct q as [|y q]; [reflexivity|].
  change (parent (x :: y :: q)) with (x :: parent (y :: q)).
  cbn [lookup] in *. destruct (find_entry x es) as [c|]; [|discriminate].
  apply (IH c); [discriminate|exact H].
Qed.

(** Putting a leaf where there is nothing below changes the shape of no
    other entry. *)
Lemma lookup_set_at_leaf (q a : path) (t v : node) :
  (forall x r, lookup (a ++ x :: r) t = None) -> leaf v -> q <> a ->
  option_map shape (lookup q (set_at a (Some v) t)) = option_map shape (lookup q t).
Proof.
  intros Hb L N. destruct (is_prefix a q) eqn:P.
  - apply is_prefix_true in P. destruct P as [r ->].
    destruct r as [|x r]; [now rewrite app_nil_r in N|].
    rewrite (Hb x r).
    destruct a as [|y a]; [exact (f_equal (option_map shape) (Hb x r))|].
    destruct (set_at_effect (y :: a) (Some v) t ltac:(discriminate)) as [D|E].
    + rewrite lookup_set_at_under_some; [|discriminate|exact D].
      now rewrite (lookup_leaf v x r L).
    + rewrite E. now rewrite (Hb x r).
  - now apply lookup_set_at_outside.
Qed.

(** ** Renaming a regular file *)

Lemma trace_rename (ov : bool) (from to : string) (w : world) :
  trace (snd (rename ov from to w)) = trace w.
Proof.
  unfold rename, move_entry. repeat break_match; cbn [snd]; cbn [trace set_data];
    rewrite ?trace_set_tree; reflexivity.
Qed.

(** When the renaming of a regular file succeeds. *)
Lemma rename_file_success (ov : bool) (from to : string) (w w' : world) :
  file_at from w -> Str.resolve from <> Str.resolve to ->
  rename ov from to w = (None, w') ->
  String.eqb to "" = false
  /\ is_prefix (Str.resolve from) (Str.resolve to) = false
  /\ is_dir (lookup (parent (Str.resolve to)) (tree w)) = true
  /\ (forall x r, lookup (Str.resolve to ++ x :: r) (tree w) = None)
  /\ w' = move_entry (Str.resolve from) (Str.resolve to) File w.
Proof.
  unfold file_at, rename. intros F N. rewrite F.
  destruct (String.eqb to "") eqn:Et; [discriminate|].
  cbv zeta. rewrite (path_eqb_neq _ _ N).
  destruct (lookup (Str.resolve to) (tree w)) as [d|] eqn:Eq.
  - destruct ov; [|discriminate].
    destruct (is_prefix (Str.resolve from) (Str.resolve to)) eqn:P; [discriminate|].
    destruct d as [|r es|]; try discriminate; intros H; injection H as <-;
      (assert (Nq : Str.resolve to <> [])
        by (intros E; rewrite E in Eq; unfold tree in Eq; discriminate));
      (repeat split;
       [now apply (lookup_parent_is_dir _ _ _ Nq Eq)
       |intros x r; now rewrite lookup_app, Eq]).
  - destruct (is_prefix (Str.resolve from) (Str.resolve to)) eqn:P; [discriminate|].
    destruct (lookup (parent (Str.resolve to)) (tree w)) as [[]|] eqn:D;
      try discriminate.
    intros H. injection H as <-. repeat split.
    intros x r. now rewrite lookup_app, Eq.
Qed.

Lemma strip_prefix_self (q : path) : strip_prefix q q = Some [].
Proof. rewrite <- (app_nil_r q) at 2. apply strip_prefix_app. Qed.

Lemma is_prefix_parent (p q : path) :
  is_prefix p (parent q) = true -> is_prefix p q = true.
Proof.
  intros H. apply is_prefix_true in H. destruct H as [r H].
  destruct q as [|x q] using rev_ind.
  - simpl in H. destruct p; [reflexivity|discriminate].
  - unfold parent in H. rewrite removelast_last in H. subst q.
    rewrite <- app_assoc. apply is_prefix_app.
Qed.

Lemma tree_move_entry (p q : path) (n : node) (w : world) :
  tree (move_entry p q n w) = set_at q (Some n) (set_at p None (tree w)).
Proof.
  unfold move_entry. change (tree (set_data ?d ?x)) with (tree x).
  destruct (set_at_dir p None true (root w)) as [es1 E1].
  destruct (set_at_dir q (Some n) true es1) as [es2 E2].
  change (tree w) with (Dir true (root w)). rewrite E1, E2. reflexivity.
Qed.

Lemma data_move_entry (p q : path) (n : node) (w : world) :
  data (move_entry p q n w) = store_move (data w) p q.
Proof. reflexivity. Qed.

(** What a regular file moved from [p] to [q] leaves behind. *)
Lemma move_entry_file (p q : path) (w : world) :
  lookup p (tree w) = Some File -> p <> q ->
  is_prefix p q = false ->
  is_dir (lookup (parent q) (tree w)) = true ->
  (forall x r, lookup (q ++ x :: r) (tree w) = None) ->
  let w' := move_entry p q File w in
  lookup q (tree w') = Some File
  /\ data w' q = data w p
  /\ lookup p (tree w') = None
  /\ (forall s, Str.resolve s <> p -> Str.resolve s <> q -> stat s w' = stat s w).
Proof.
  intros Hp N P D Hb. cbv zeta. rewrite tree_move_entry, data_move_entry.
  assert (Np : p <> []) by (intros ->; discriminate).
  assert (Nq : q <> []).
  { intros ->. destruct p as [|x r]; [congruence|].
    pose proof (Hb x r) as Hx. cbn [app] in Hx. congruence. }
  set (t1 := set_at p None (tree w)).
  assert (D1 : is_dir (lookup (parent q) t1) = true).
  { pose proof (lookup_set_at_outside (parent q) p None (tree w)) as S.
    destruct (is_prefix p (parent q)) eqn:Pq;
      [apply is_prefix_parent in Pq; congruence|].
    specialize (S eq_refl). fold t1 in S.
    destruct (lookup (parent q) (tree w)) as [[]|]; try discriminate.
    destruct (lookup (parent q) t1) as [[]|]; try discriminate. reflexivity. }
  assert (Hb1 : forall x r, lookup (q ++ x :: r) t1 = None).
  { intros x r.
    pose proof (lookup_set_at_none_leaf (q ++ x :: r) p (tree w) File Hp I) as S.
    fold t1 in S. rewrite (Hb x r) in S.
    destruct (lookup (q ++ x :: r) t1); [|reflexivity].
    assert (Ne : q ++ x :: r <> p).
    { intros E. rewrite <- E, (Hb x r) in Hp. discriminate. }
    specialize (S Ne). discriminate. }
  repeat split.
  - now apply lookup_set_at_new.
  - unfold store_move. rewrite strip_prefix_self. now rewrite app_nil_r.
  - pose proof (lookup_set_at_leaf p q t1 File Hb1 I N) as S.
    unfold t1 in S at 2. rewrite (lookup_set_at_none p (tree w) Np) in S.
    destruct (lookup p (set_at q (Some File) t1)); [discriminate|reflexivity].
  - intros s Ns1 Ns2.
    assert (Sh : option_map shape (lookup (Str.resolve s) (set_at q (Some File) t1))
                 = option_map shape (lookup (Str.resolve s) (tree w))).
    { rewrite (lookup_set_at_leaf _ q t1 File Hb1 I Ns2).
      apply (lookup_set_at_none_leaf _ p (tree w) File Hp I Ns1). }
    unfold stat, node_at, file_size.
    rewrite tree_move_entry, data_move_entry. fold t1.
    destruct (String.eqb s ""); [reflexivity|].
    revert Sh.
    destruct (lookup (Str.resolve s) (set_at q (Some File) t1)) as [[]|] eqn:E1;
      destruct (lookup (Str.resolve s) (tree w)) as [[]|] eqn:E2;
      simpl; try discriminate; try reflexivity.
    intros _. f_equal. f_equal. unfold store_move.
    destruct (strip_prefix q (Str.resolve s)) as [rest|] eqn:Sp; [|reflexivity].
    apply strip_prefix_some in Sp. destruct rest as [|x r].
    + rewrite app_nil_r in Sp. congruence.
    + rewrite Sp, (Hb x r) in E2. discriminate.
Qed.

(** ** Moving a file *)

(** The renaming at the heart of [moveFile], once the ground is prepared. *)
Lemma moveFile_core (source target : string) (w w4 w5 : world) :
  isFile source w4 = true ->
  data w4 (Str.resolve source) = data w (Str.resolve source) ->
  (forall s, Str.resolve s <> Str.resolve target ->
             isFileOrDirectory s w = true -> stat s w4 = stat s w) ->
  Str.resolve target <> Str.resolve source ->
  rename RENAME_OVERWRITES source target w4 = (None, w5) ->
  isFile target w5 = true
  /\ data w5 (Str.resolve target) = data w (Str.resolve source)
  /\ isFileOrDirectory source w5 = false
  /\ forall s, Str.resolve s <> Str.resolve source ->
               Str.resolve s <> Str.resolve target ->
               isFileOrDirectory s w = true -> stat s w5 = stat s w.
Proof.
  intros Hf Hd Fr N R.
  pose proof (proj2 (file_at_isFile _ _) Hf) as F.
  destruct (rename_file_success _ _ _ _ _ F (not_eq_sym N) R)
    as (Nt & P & D & Hb & ->).
  assert (Hp : lookup (Str.resolve source) (tree w4) = Some File).
  { unfold file_at, node_at in F. destruct (String.eqb source ""); [discriminate|].
    exact F. }
  destruct (move_entry_file _ _ w4 Hp (not_eq_sym N) P D Hb) as (A & B & C & E).
  repeat split.
  - unfold isFile, stat, node_at. now rewrite Nt, A.
  - now rewrite B.
  - unfold isFileOrDirectory, stat, node_at.
    destruct (String.eqb source ""); [reflexivity|]. now rewrite C.
  - intros s N1 N2 Hs. rewrite (E s N1 N2). now apply Fr.
Qed.

Lemma isFile_remove_other (s t : string) (w : world) :
  Str.resolve s <> Str.resolve t -> isFile s (snd (remove t w)) = isFile s w.
Proof. intros N. apply (elsewhere_isFile _ s w _ (remove_elsewhere t w) N). Qed.

Lemma stat_remove_other (s t : string) (w : world) :
  Str.resolve s <> Str.resolve t -> stat s (snd (remove t w)) = stat s w.
Proof.
  intros N. apply stat_shape; [now apply remove_shape|now rewrite data_remove].
Qed.

Lemma stat_exists (s : string) (w w' : world) :
  stat s w' = stat s w -> isFileOrDirectory s w = true ->
  isFileOrDirectory s w' = true.
Proof. unfold isFileOrDirectory. now intros ->. Qed.

Lemma isFile_adds_dirs (s : string) (w w' : world) :
  adds_dirs w w' -> isFile s w = true -> isFile s w' = true.
Proof.
  intros A H. unfold isFile in *.
  rewrite (adds_dirs_stat s w w' A); [exact H|].
  unfold isFileOrDirectory. destruct (stat s w); [reflexivity|discriminate].
Qed.

(** X17: a move that reports nothing has moved the file. For a regular
    file moved without logs to a different entry (into the directory, under
    the name getFileName gives, when the destination ends with a
    separator), if no diagnostic is added then the target is a regular
    file with the content the source had, nothing is left at the source,
    and every other path that existed keeps the answer stat gives. *)
Theorem moveFile_moves (sourcePath destinationPath : string) (w : world) :
  let target := if Str.ends_with_slash destinationPath
                then destinationPath +++ getFileName sourcePath
                else destinationPath in
  let w' := moveFile sourcePath destinationPath "" "" w in
  isFile sourcePath w = true ->
  Str.resolve target <> Str.resolve sourcePath ->
  diagnostics (trace w') = diagnostics (trace w) ->
  isFile target w' = true
  /\ data w' (Str.resolve target) = data w (Str.resolve sourcePath)
  /\ isFileOrDirectory sourcePath w' = false
  /\ forall s, Str.resolve s <> Str.resolve sourcePath ->
               Str.resolve s <> Str.resolve target ->
               isFileOrDirectory s w = true -> stat s w' = stat s w.
Proof.
  cbv zeta. intros Hf N. unfold moveFile.
  assert (He : isFileOrDirectory sourcePath w = true).
  { unfold isFile, isFileOrDirectory in *.
    destruct (stat sourcePath w); [reflexivity|discriminate]. }
  rewrite He. cbn [negb open_log String.eqb log_if_open].
  destruct (Str.ends_with_slash destinationPath).
  - set (target := destinationPath +++ getFileName sourcePath) in *.
    set (w3 := if isDirectory destinationPath w then w
               else createDirectory destinationPath w).
    assert (A3 : adds_dirs w w3).
    { unfold w3. destruct (isDirectory destinationPath w);
        [apply adds_dirs_refl|apply createDirectory_adds_dirs]. }
    assert (L3 : List.length (diagnostics (trace w))
                 <= List.length (diagnostics (trace w3))).
    { unfold w3. destruct (isDirectory destinationPath w);
        [apply le_n|apply diagnostics_createDirectory]. }
    set (w4 := snd (remove target w3)).
    assert (T4 : trace w4 = trace w3) by apply trace_remove.
    assert (H4 : isFile sourcePath w4 = true).
    { unfold w4. rewrite (isFile_remove_other _ _ _ (not_eq_sym N)).
      now apply (isFile_adds_dirs _ w). }
    assert (D4 : data w4 (Str.resolve sourcePath) = data w (Str.resolve sourcePath)).
    { unfold w4. rewrite data_remove. now rewrite (proj1 A3). }
    assert (F4 : forall s, Str.resolve s <> Str.resolve target ->
                           isFileOrDirectory s w = true -> stat s w4 = stat s w).
    { intros s Ns Hs. unfold w4. rewrite (stat_remove_other _ _ _ Ns).
      now apply adds_dirs_stat. }
    pose proof (trace_rename RENAME_OVERWRITES sourcePath target w4) as T5.
    pose proof (moveFile_core sourcePath target w w4) as C.
    destruct (rename RENAME_OVERWRITES sourcePath target w4) as [[e|] w5];
      cbn [snd] in T5.
    + cbn [logMessage emit trace diagnostics]. rewrite T5, T4. intros H.
      apply (f_equal (@List.length string)) in H. cbn [List.length] in H. lia.
    + intros _. apply (C w5 H4 D4 F4 N eq_refl).
  - set (target := destinationPath) in *.
    set (w3 := snd (remove target w)).
    assert (T3 : trace w3 = trace w) by apply trace_remove.
    set (w4 := createDirectory (getParentDirFromPath target) w3).
    assert (A4 : adds_dirs w3 w4) by apply createDirectory_adds_dirs.
    assert (L4 : List.length (diagnostics (trace w3))
                 <= List.length (diagnostics (trace w4)))
      by apply diagnostics_createDirectory.
    assert (H4 : isFile sourcePath w4 = true).
    { apply (isFile_adds_dirs _ w3 w4 A4). unfold w3.
      now rewrite (isFile_remove_other _ _ _ (not_eq_sym N)). }
    assert (D4 : data w4 (Str.resolve sourcePath) = data w (Str.resolve sourcePath)).
    { rewrite (proj1 A4). unfold w3. now rewrite data_remove. }
    assert (F4 : forall s, Str.resolve s <> Str.resolve target ->
                           isFileOrDirectory s w = true -> stat s w4 = stat s w).
    { intros s Ns Hs.
      pose proof (stat_remove_other s target w Ns) as S3. fold w3 in S3.
      rewrite <- S3. apply adds_dirs_stat; [exact A4|].
      now apply (stat_exists s w w3 S3). }
    pose proof (trace_rename RENAME_OVERWRITES sourcePath target w4) as T5.
    pose proof (moveFile_core sourcePath target w w4) as C.
    destruct (rename RENAME_OVERWRITES sourcePath target w4) as [[e|] w5];
      cbn [snd] in T5.
    + cbn [logMessage emit trace diagnostics]. rewrite T5. intros H.
      apply (f_equal (@List.length string)) in H. cbn [List.length] in H.
      rewrite T3 in L4. lia.
    + intros _. apply (C w5 H4 D4 F4 N eq_refl).
Qed.

(** A renaming onto the same entry changes nothing. *)
Lemma rename_same (ov : bool) (from to : string) (w : world) :
  Str.resolve from = Str.resolve to ->
  tree (snd (rename ov from to w)) = tree w
  /\ data (snd (rename ov from to w)) = data w.
Proof.
  intros E. unfold rename. rewrite E.
  destruct (node_at (tree w) from) as [n|] eqn:F; [|now split].
  destruct (String.eqb to ""); [now split|]. cbv zeta. rewrite path_eqb_refl.
  unfold node_at in F. destruct (String.eqb from ""); [discriminate|].
  rewrite E in F. rewrite F. destruct ov; now split.
Qed.

Lemma isFile_tree (s : string) (w w' : world) :
  tree w' = tree w -> isFile s w' = false -> isFile s w = false.
Proof.
  intros T H. apply not_true_iff_false. intros H'.
  apply not_true_iff_false in H. apply H.
  apply file_at_isFile. apply (file_at_tree s w w' T). now apply file_at_isFile.
Qed.

Lemma not_file_adds_dirs (s : string) (w w' : world) :
  adds_dirs w w' -> isFile s w = false -> isFile s w' = false.
Proof.
  intros [_ S] H. apply not_true_iff_false. intros H'.
  apply not_true_iff_false in H. apply H.
  apply isFile_shape in H'. destruct H' as [E F]. apply isFile_shape.
  split; [exact E|]. destruct (S (Str.resolve s)) as [Q|[_ Q]]; congruence.
Qed.

(** X18: moving a file onto itself destroys it. When the destination is a
    file path that resolves to the source, the destination is removed
    before the rename, so that afterwards neither name is a regular
    file. *)
Theorem moveFile_onto_itself
        (sourcePath destinationPath logSource logDestination : string) (w : world) :
  isFile sourcePath w = true ->
  Str.ends_with_slash destinationPath = false ->
  Str.resolve sourcePath = Str.resolve destinationPath ->
  isFile sourcePath (moveFile sourcePath destinationPath logSource logDestination w)
  = false
  /\ isFile destinationPath
            (moveFile sourcePath destinationPath logSource logDestination w)
     = false.
Proof.
  intros Hf Es Eq. unfold moveFile.
  assert (He : isFileOrDirectory sourcePath w = true).
  { unfold isFile, isFileOrDirectory in *.
    destruct (stat sourcePath w); [reflexivity|discriminate]. }
  rewrite He, Es. cbn [negb].
  destruct (open_log logSource _ w) as [h1 w1].
  destruct (open_log logDestination _ w1) as [h2 w2].
  set (w3 := snd (remove destinationPath w2)).
  assert (G3 : isFile destinationPath w3 = false) by apply remove_not_file.
  set (w4 := createDirectory (getParentDirFromPath destinationPath) w3).
  assert (G4 : isFile destinationPath w4 = false).
  { apply (not_file_adds_dirs _ w3); [apply createDirectory_adds_dirs|exact G3]. }
  destruct (rename_same RENAME_OVERWRITES sourcePath destinationPath w4 Eq)
    as [T5 _].
  assert (G : forall w6, tree w6 = tree w4 ->
                         isFile sourcePath w6 = false
                         /\ isFile destinationPath w6 = false).
  { intros w6 T6.
    assert (Gd : isFile destinationPath w6 = false).
    { apply not_true_iff_false. intros H. apply not_true_iff_false in G4. apply G4.
      apply file_at_isFile. apply (file_at_tree _ w6 w4 (eq_sym T6)).
      now apply file_at_isFile. }
    split; [|exact Gd].
    apply not_true_iff_false. intros H. apply not_true_iff_false in Gd. apply Gd.
    apply isFile_shape in H. destruct H as [_ H].
    apply isFile_shape. rewrite <- Eq. split; [|exact H].
    destruct destinationPath; [|reflexivity].
    simpl in Eq. unfold shape_at in H. rewrite Eq in H. discriminate. }
  destruct (rename RENAME_OVERWRITES sourcePath destinationPath w4) as [[e|] w5];
    cbn [snd] in T5; apply G.
  - exact T5.
  - now rewrite !tree_log_if_open.
Qed.

(** ** The algebra of setting entries *)

Lemma set_at_nil (v : option node) (t : node) : set_at [] v t = t.
Proof. reflexivity. Qed.

Lemma set_at_not_dir (a : path) (v : option node) (t : node) :
  is_dir_node t = false -> set_at a v t = t.
Proof. destruct t; try discriminate; destruct a as [|? [|? ?]]; reflexivity. Qed.

Lemma set_at_one (x : string) (v : option node) (r : bool) es :
  set_at [x] v (Dir r es) = Dir r (upd x v es).
Proof. destruct v; reflexivity. Qed.

(** Setting what is already there changes nothing. *)
Lemma set_at_same (a : path) (n t : node) :
  a <> [] -> lookup a t = Some n -> set_at a (Some n) t = t.
Proof.
  revert t. induction a as [|x a IH]; intros t N H; [congruence|].
  destruct t as [|r es|]; try discriminate.
  cbn [lookup] in H. destruct (find_entry x es) as [c|] eqn:F; [|discriminate].
  destruct a as [|y a].
  - simpl in H. injection H as ->. cbn [set_at]. now rewrite (put_entry_same x n es F).
  - rewrite set_at_cons2, F. rewrite (IH c ltac:(discriminate) H).
    now rewrite (put_entry_same x c es F).
Qed.

(** Setting twice at the same place. *)
Lemma set_at_twice (a : path) (n m : node) (v : option node) (t : node) :
  lookup a t = Some m ->
  set_at a v (set_at a (Some n) t) = set_at a v t.
Proof.
  revert t. induction a as [|x a IH]; intros t H; [reflexivity|].
  destruct t as [|r es|]; try discriminate.
  cbn [lookup] in H. destruct (find_entry x es) as [c|] eqn:F; [|discriminate].
  destruct a as [|y a].
  - cbn [set_at]. destruct v.
    + now rewrite put_put_same.
    + now rewrite drop_put_same.
  - rewrite !set_at_cons2, F. rewrite set_at_cons2, find_entry_put_same.
    rewrite (IH c H). now rewrite put_put_same.
Qed.

(** A change just below a directory that has been set is a change of what
    was set. *)
Lemma set_at_absorb (a : path) (x : string) (v : option node) (r : bool) es
      (t : node) :
  a <> [] ->
  set_at (a ++ [x]) v (set_at a (Some (Dir r es)) t)
  = set_at a (Some (Dir r (upd x v es))) t.
Proof.
  revert t. induction a as [|y a IH]; intros t N; [congruence|].
  destruct t as [|r0 es0|];
    try (rewrite !set_at_not_dir by reflexivity; reflexivity).
  destruct a as [|z a].
  - cbn [app]. rewrite !(set_at_one y). cbn [upd]. rewrite set_at_cons2.
    rewrite find_entry_put_same, put_put_same. now rewrite set_at_one.
  - change ((y :: z :: a) ++ [x]) with (y :: (z :: a) ++ [x]).
    rewrite !(set_at_cons2 y z a).
    destruct (find_entry y es0) as [c|] eqn:F.
    + rewrite (set_at_cons_ne y ((z :: a) ++ [x])) by discriminate.
      rewrite find_entry_put_same, put_put_same.
      now rewrite (IH c ltac:(discriminate)).
    + rewrite (set_at_cons_ne y ((z :: a) ++ [x])) by discriminate. now rewrite F.
Qed.

Lemma put_entry_comm (x y : string) (c d : node) es :
  x <> y -> find_entry y es <> None ->
  put_entry x c (put_entry y d es) = put_entry y d (put_entry x c es).
Proof.
  intros N. induction es as [|[z e] es IH]; intros H; [now elim H|].
  cbn [find_entry] in H. cbn [put_entry].
  destruct (String.eqb y z) eqn:Ey, (String.eqb x z) eqn:Ex.
  - apply String.eqb_eq in Ey, Ex. congruence.
  - apply String.eqb_eq in Ey. subst z. cbn [put_entry].
    assert (Exy : String.eqb x y = false) by (now apply String.eqb_neq).
    now rewrite Exy, String.eqb_refl.
  - apply String.eqb_eq in Ex. subst z. cbn [put_entry].
    assert (Eyx : String.eqb y x = false)
      by (apply String.eqb_neq; congruence).
    now rewrite String.eqb_refl, Eyx.
  - cbn [put_entry]. rewrite Ex, Ey. now rewrite (IH H).
Qed.

Lemma put_drop_comm (x y : string) (c : node) es :
  x <> y -> put_entry x c (drop_entry y es) = drop_entry y (put_entry x c es).
Proof.
  intros N. unfold drop_entry.
  assert (Eyx : String.eqb y x = false) by (apply String.eqb_neq; congruence).
  induction es as [|[z e] es IH]; cbn [put_entry filter fst].
  - now rewrite Eyx.
  - destruct (String.eqb y z) eqn:Ey; cbn [negb].
    + apply String.eqb_eq in Ey. subst z.
      assert (Exy : String.eqb x y = false) by (now apply String.eqb_neq).
      rewrite Exy. cbn [filter fst]. now rewrite String.eqb_refl.
    + cbn [put_entry]. destruct (String.eqb x z) eqn:Ex; cbn [filter fst].
      * now rewrite Eyx.
      * now rewrite Ey, IH.
Qed.

Lemma drop_drop_comm (x y : string) es :
  drop_entry x (drop_entry y es) = drop_entry y (drop_entry x es).
Proof.
  unfold drop_entry. induction es as [|[z e] es IH]; [reflexivity|].
  cbn [filter fst].
  destruct (String.eqb y z) eqn:Ey, (String.eqb x z) eqn:Ex; cbn [negb filter fst];
    rewrite ?Ex, ?Ey; cbn [negb]; now rewrite ?IH.
Qed.

(** Changes of two different entries commute unless both add an entry. *)
Lemma upd_comm (x y : string) (u v : option node) es :
  x <> y -> find_entry y es <> None \/ v = None ->
  upd x u (upd y v es) = upd y v (upd x u es).
Proof.
  intros N H. destruct u as [c|], v as [d|]; cbn [upd].
  - destruct H as [H|H]; [now apply put_entry_comm|discriminate].
  - now apply put_drop_comm.
  - symmetry. apply put_drop_comm. congruence.
  - apply drop_drop_comm.
Qed.

Lemma find_entry_upd_other (x y : string) (v : option node) es :
  x <> y -> find_entry x (upd y v es) = find_entry x es.
Proof.
  intros N. destruct v; cbn [upd];
    [now apply find_entry_put_other|now apply find_entry_drop_other].
Qed.

(** Changes at two places, neither below the other, commute unless both
    add an entry. *)
Lemma set_at_comm (a b : path) (u v : option node) (t : node) :
  is_prefix a b = false -> is_prefix b a = false ->
  lookup b t <> None \/ v = None ->
  set_at a u (set_at b v t) = set_at b v (set_at a u t).
Proof.
  revert b t. induction a as [|x a IH]; intros b t Pa Pb H; [discriminate|].
  destruct b as [|y b]; [discriminate|].
  destruct t as [|r es|];
    try (rewrite !set_at_not_dir by reflexivity; reflexivity).
  unfold is_prefix in Pa, Pb. cbn [strip_prefix] in Pa, Pb.
  destruct (String.eqb x y) eqn:Exy.
  - apply String.eqb_eq in Exy. subst y. rewrite String.eqb_refl in Pb.
    destruct a as [|x' a]; [discriminate|]. destruct b as [|y' b]; [discriminate|].
    rewrite !set_at_cons2. cbn [lookup] in H.
    destruct (find_entry x es) as [c|] eqn:F.
    + rewrite !set_at_cons2, !find_entry_put_same, !put_put_same.
      f_equal. f_equal. apply IH; assumption.
    + rewrite !set_at_cons2, F. reflexivity.
  - assert (N : x <> y) by (intros ->; now rewrite String.eqb_refl in Exy).
    clear Pa Pb IH.
    destruct a as [|x' a], b as [|y' b].
    + rewrite !set_at_one. f_equal. apply upd_comm; [exact N|].
      cbn [lookup] in H. destruct H as [H|H]; [left|now right].
      destruct (find_entry y es); [discriminate|exact H].
    + rewrite set_at_cons2, set_at_one.
      rewrite <- (set_at_one x u r). 
      destruct (find_entry y es) as [c|] eqn:F.
      * rewrite !set_at_one, set_at_cons2.
        rewrite (find_entry_upd_other y x u es) by congruence. rewrite F.
        f_equal. destruct u as [d|]; cbn [upd].
        -- apply put_entry_comm; [exact N|congruence].
        -- symmetry. apply put_drop_comm. congruence.
      * rewrite !set_at_one, set_at_cons2.
        rewrite (find_entry_upd_other y x u es) by congruence. now rewrite F.
    + rewrite set_at_one, !set_at_cons2.
      rewrite (find_entry_upd_other x y v es) by exact N.
      destruct (find_entry x es) as [c|] eqn:F.
      * rewrite set_at_one. f_equal. destruct v as [d|]; cbn [upd].
        -- symmetry. apply put_entry_comm; [congruence|congruence].
        -- apply put_drop_comm. exact N.
      * reflexivity.
    + rewrite !set_at_cons2.
      destruct (find_entry y es) as [d|] eqn:Fy, (find_entry x es) as [c|] eqn:Fx;
        rewrite ?set_at_cons2, ?Fx, ?Fy;
        rewrite ?(find_entry_put_other x y _ es N),
                ?(find_entry_put_other y x _ es (not_eq_sym N)), ?Fx, ?Fy;
        try reflexivity.
      f_equal. apply put_entry_comm; [exact N|congruence].
Qed.

(** ** Paths built by the move engine *)

Lemma without_last_slash (s : string) :
  Str.ends_with_slash s = true -> s = without_last s +++ "/".
Proof.
  unfold Str.ends_with_slash. induction s as [|c s IH]; [discriminate|].
  cbn [Str.back without_last]. destruct s as [|d s].
  - intros H. apply Ascii.eqb_eq in H. now subst c.
  - intros H. cbn [String.append]. f_equal. exact (IH H).
Qed.

Lemma resolve_chop (s : string) : Str.resolve (chop_slash s) = Str.resolve s.
Proof.
  unfold chop_slash. destruct (Str.ends_with_slash s) eqn:E; [|reflexivity].
  rewrite (without_last_slash s E) at 2. now rewrite resolve_dir.
Qed.

Lemma ends_with_slash_name (a x : string) :
  Str.valid_name x = true -> Str.ends_with_slash (a +++ "/" +++ x) = false.
Proof.
  intros V. apply valid_name_parts in V. destruct V as (N & S & _).
  assert (Nx : x <> "") by (intros ->; discriminate).
  rewrite <- append_assoc, ends_with_slash_append by exact Nx.
  unfold Str.ends_with_slash.
  destruct (Str.back x) as [c|] eqn:B; [|reflexivity].
  exact (back_no_slash x c S B).
Qed.

Lemma sub_path_spec (s x : string) :
  Str.valid_name x = true ->
  Str.resolve (sub_path s x) = Str.resolve s ++ [x]
  /\ String.eqb (sub_path s x) "" = false
  /\ chop_slash (sub_path s x) = sub_path s x.
Proof.
  intros V. unfold sub_path. repeat split.
  - now rewrite (resolve_child _ x V), resolve_chop.
  - apply append_nonempty.
  - unfold chop_slash at 1. now rewrite (ends_with_slash_name _ x V).
Qed.

Lemma is_prefix_app_l (a b r : path) :
  is_prefix (a ++ r) b = true -> is_prefix a b = true.
Proof.
  intros H. apply is_prefix_true in H. destruct H as [r' ->].
  rewrite <- app_assoc. apply is_prefix_app.
Qed.

Lemma is_prefix_snoc (b a : path) (x : string) :
  is_prefix b (a ++ [x]) = true -> is_prefix b a = true \/ b = a ++ [x].
Proof.
  intros H. apply is_prefix_true in H. destruct H as [r H].
  destruct r as [|y r] using rev_ind.
  - right. now rewrite app_nil_r in H.
  - left. rewrite app_assoc in H. apply app_inj_tail in H. destruct H as [-> _].
    apply is_prefix_app.
Qed.

Lemma is_prefix_refl (a : path) : is_prefix a a = true.
Proof. rewrite <- (app_nil_r a) at 2. apply is_prefix_app. Qed.

Lemma is_prefix_trans (a b c : path) :
  is_prefix a b = true -> is_prefix b c = true -> is_prefix a c = true.
Proof.
  intros H1 H2. apply is_prefix_true in H1, H2.
  destruct H1 as [r1 ->], H2 as [r2 ->]. rewrite <- app_assoc. apply is_prefix_app.
Qed.

(** ** Two directories of a tree, neither below the other *)

Section Pair.

Variables ps pd : path.
Variable T0 : node.

Hypothesis src_there : lookup ps T0 <> None.
Hypothesis dst_there : lookup pd T0 <> None.
Hypothesis src_not_above : is_prefix ps pd = false.
Hypothesis dst_not_above : is_prefix pd ps = false.

Lemma pair_src_nonroot : ps <> [].
Proof using src_not_above. intros E. now rewrite E in src_not_above. Qed.

Lemma pair_dst_nonroot : pd <> [].
Proof using dst_not_above. intros E. now rewrite E in dst_not_above. Qed.

Lemma pair_child_apart (x y : string) :
  is_prefix (ps ++ [x]) pd = false /\ is_prefix pd (ps ++ [x]) = false
  /\ is_prefix (pd ++ [y]) ps = false /\ is_prefix ps (pd ++ [y]) = false
  /\ is_prefix (ps ++ [x]) (pd ++ [y]) = false
  /\ is_prefix (pd ++ [y]) (ps ++ [x]) = false.
Proof using src_not_above dst_not_above.
  assert (A1 : is_prefix (ps ++ [x]) pd = false).
  { destruct (is_prefix (ps ++ [x]) pd) eqn:E; [|reflexivity].
    apply is_prefix_app_l in E. congruence. }
  assert (A2 : is_prefix pd (ps ++ [x]) = false).
  { destruct (is_prefix pd (ps ++ [x])) eqn:E; [|reflexivity].
    apply is_prefix_snoc in E. destruct E as [E|E]; [congruence|].
    rewrite E, is_prefix_app in src_not_above. discriminate. }
  assert (A3 : is_prefix (pd ++ [y]) ps = false).
  { destruct (is_prefix (pd ++ [y]) ps) eqn:E; [|reflexivity].
    apply is_prefix_app_l in E. congruence. }
  assert (A4 : is_prefix ps (pd ++ [y]) = false).
  { destruct (is_prefix ps (pd ++ [y])) eqn:E; [|reflexivity].
    apply is_prefix_snoc in E. destruct E as [E|E]; [congruence|].
    rewrite E, is_prefix_app in dst_not_above. discriminate. }
  repeat split; try assumption.
  - destruct (is_prefix (ps ++ [x]) (pd ++ [y])) eqn:E; [|reflexivity].
    apply is_prefix_app_l in E. congruence.
  - destruct (is_prefix (pd ++ [y]) (ps ++ [x])) eqn:E; [|reflexivity].
    apply is_prefix_app_l in E. congruence.
Qed.

Lemma pair_lookup_src (A B : list (string * node)) :
  lookup ps (pair_tree ps pd T0 A B) = Some (Dir true A).
Proof using src_there src_not_above dst_not_above.
  unfold pair_tree.
  rewrite (lookup_set_at_apart ps pd _ _ dst_not_above src_not_above).
  apply lookup_set_at_new; [apply pair_src_nonroot|].
  destruct (lookup ps T0) as [n|] eqn:E; [|congruence].
  apply (lookup_parent_is_dir ps T0 n pair_src_nonroot E).
Qed.

Lemma pair_parent_dst (A : list (string * node)) :
  is_dir (lookup (parent pd) (set_at ps (Some (Dir true A)) T0)) = true.
Proof using dst_there src_not_above dst_not_above.
  destruct (lookup pd T0) as [n|] eqn:E; [|congruence].
  pose proof pair_dst_nonroot as N.
  pose proof (lookup_parent_is_dir pd T0 n N E) as D.
  pose proof (lookup_set_at_outside (parent pd) ps (Some (Dir true A)) T0) as S.
  destruct (is_prefix ps (parent pd)) eqn:P;
    [apply is_prefix_parent in P; congruence|].
  specialize (S eq_refl).
  destruct (lookup (parent pd) T0) as [[]|]; try discriminate.
  destruct (lookup (parent pd) (set_at ps (Some (Dir true A)) T0)) as [[]|];
    try discriminate. reflexivity.
Qed.

Lemma pair_lookup_dst (A B : list (string * node)) :
  lookup pd (pair_tree ps pd T0 A B) = Some (Dir true B).
Proof using dst_there src_not_above dst_not_above.
  unfold pair_tree. apply lookup_set_at_new; [apply pair_dst_nonroot|].
  apply pair_parent_dst.
Qed.

Lemma pair_step_dst (A B : list (string * node)) (x : string) (u : option node) :
  set_at (pd ++ [x]) u (pair_tree ps pd T0 A B)
  = pair_tree ps pd T0 A (upd x u B).
Proof using dst_not_above.
  unfold pair_tree. apply set_at_absorb. apply pair_dst_nonroot.
Qed.

Lemma pair_step_src (A B : list (string * node)) (x : string) (v : option node) :
  set_at (ps ++ [x]) v (pair_tree ps pd T0 A B)
  = pair_tree ps pd T0 (upd x v A) B.
Proof using src_there dst_there src_not_above dst_not_above.
  unfold pair_tree.
  destruct (pair_child_apart x x) as (A1 & A2 & _).
  rewrite set_at_comm; [|exact A1|exact A2|].
  - f_equal. apply set_at_absorb. apply pair_src_nonroot.
  - left. rewrite (lookup_set_at_apart pd ps _ _ src_not_above dst_not_above).
    exact dst_there.
Qed.

Lemma pair_step (A B : list (string * node)) (x : string) (u v : option node) :
  set_at (pd ++ [x]) u (set_at (ps ++ [x]) v (pair_tree ps pd T0 A B))
  = pair_tree ps pd T0 (upd x v A) (upd x u B).
Proof using src_there dst_there src_not_above dst_not_above.
  now rewrite pair_step_src, pair_step_dst.
Qed.

Lemma pair_outside (A B : list (string * node)) (r : path) :
  is_prefix ps r = false -> is_prefix pd r = false ->
  option_map shape (lookup r (pair_tree ps pd T0 A B))
  = option_map shape (lookup r T0).
Proof.
  intros P1 P2. unfold pair_tree.
  now rewrite (lookup_set_at_outside r pd _ _ P2), (lookup_set_at_outside r ps _ _ P1).
Qed.

Lemma pair_init (A B : list (string * node)) :
  lookup ps T0 = Some (Dir true A) -> lookup pd T0 = Some (Dir true B) ->
  pair_tree ps pd T0 A B = T0.
Proof using src_not_above dst_not_above.
  intros Hs Hd. unfold pair_tree.
  rewrite (set_at_same ps (Dir true A) T0 pair_src_nonroot Hs).
  apply (set_at_same pd (Dir true B) T0 pair_dst_nonroot Hd).
Qed.

End Pair.

(** ** Entries with distinct names *)

Lemma find_entry_absent (x : string) es : ~ In x (names es) -> find_entry x es = None.
Proof.
  induction es as [|[y c] es IH]; intros N; [reflexivity|].
  cbn [find_entry]. destruct (String.eqb x y) eqn:E.
  - apply String.eqb_eq in E. subst y. elim N. now left.
  - apply IH. intros I. apply N. now right.
Qed.

Lemma find_entry_mid (x : string) (d : node) l1 l2 :
  ~ In x (names l1) -> find_entry x (l1 ++ (x, d) :: l2) = Some d.
Proof.
  induction l1 as [|[y c] l1 IH]; intros N; cbn [app find_entry].
  - now rewrite String.eqb_refl.
  - destruct (String.eqb x y) eqn:E.
    + apply String.eqb_eq in E. subst y. elim N. now left.
    + apply IH. intros I. apply N. now right.
Qed.

Lemma put_entry_absent (x : string) (c : node) es :
  ~ In x (names es) -> put_entry x c es = es ++ [(x, c)].
Proof.
  induction es as [|[y d] es IH]; intros N; [reflexivity|].
  cbn [put_entry app]. destruct (String.eqb x y) eqn:E.
  - apply String.eqb_eq in E. subst y. elim N. now left.
  - rewrite IH; [reflexivity|]. intros I. apply N. now right.
Qed.

Lemma put_entry_mid (x : string) (c d : node) l1 l2 :
  ~ In x (names l1) ->
  put_entry x c (l1 ++ (x, d) :: l2) = l1 ++ (x, c) :: l2.
Proof.
  induction l1 as [|[y e] l1 IH]; intros N; cbn [app put_entry].
  - now rewrite String.eqb_refl.
  - destruct (String.eqb x y) eqn:E.
    + apply String.eqb_eq in E. subst y. elim N. now left.
    + rewrite IH; [reflexivity|]. intros I. apply N. now right.
Qed.

Lemma drop_entry_absent (x : string) es : ~ In x (names es) -> drop_entry x es = es.
Proof.
  unfold drop_entry. induction es as [|[y d] es IH]; intros N; [reflexivity|].
  cbn [filter fst]. destruct (String.eqb x y) eqn:E.
  - apply String.eqb_eq in E. subst y. elim N. now left.
  - cbn [negb]. rewrite IH; [reflexivity|]. intros I. apply N. now right.
Qed.

Lemma drop_entry_mid (x : string) (d : node) l1 l2 :
  ~ In x (names l1) -> ~ In x (names l2) ->
  drop_entry x (l1 ++ (x, d) :: l2) = l1 ++ l2.
Proof.
  intros N1 N2. unfold drop_entry. rewrite filter_app. cbn [filter fst].
  rewrite String.eqb_refl. cbn [negb].
  fold (drop_entry x l1). fold (drop_entry x l2).
  now rewrite (drop_entry_absent x l1 N1), (drop_entry_absent x l2 N2).
Qed.

Lemma names_app (l1 l2 : list (string * node)) : names (l1 ++ l2) = names l1 ++ names l2.
Proof. apply map_app. Qed.

Lemma names_dirs_of (x : string) es : In x (names (dirs_of es)) -> In x (names es).
Proof.
  unfold names, dirs_of. intros I. apply in_map_iff in I.
  destruct I as (e & <- & I). apply filter_In in I. apply in_map. apply I.
Qed.

Lemma names_map_fst (f : string * node -> string * node) es :
  (forall e, fst (f e) = fst e) -> names (map f es) = names es.
Proof.
  intros H. unfold names. rewrite map_map. apply map_ext. exact H.
Qed.

Lemma dirs_of_app (l1 l2 : list (string * node)) :
  dirs_of (l1 ++ l2) = dirs_of l1 ++ dirs_of l2.
Proof. apply filter_app. Qed.

Lemma skeleton_dir (r : bool) es :
  skeleton (Dir r es) = Dir r (map skeleton_entry (dirs_of es)).
Proof.
  cbn [skeleton]. f_equal. induction es as [|[x c] es IH]; [reflexivity|].
  unfold dirs_of in *. cbn [filter snd]. destruct c; cbn [is_dir_node]; rewrite IH;
    reflexivity.
Qed.

Lemma NoDup_app_l {A : Type} (l1 l2 : list A) : NoDup (l1 ++ l2) -> NoDup l1.
Proof.
  induction l1 as [|a l1 IH]; intros H; [constructor|].
  inversion H; subst. constructor; [|now apply IH].
  intros I. apply H2. apply in_or_app. now left.
Qed.

Lemma NoDup_mid {A : Type} (l1 l2 : list A) (a : A) :
  NoDup (l1 ++ a :: l2) -> ~ In a l1 /\ ~ In a l2.
Proof.
  intros H. apply NoDup_remove_2 in H. split; intros I; apply H, in_or_app; auto.
Qed.

(** ** Moving a directory, one step at a time *)

Section MoveItem.

Variables s d : string.
Variable T0 : node.

Hypothesis src_there : lookup (Str.resolve s) T0 <> None.
Hypothesis dst_there : lookup (Str.resolve d) T0 <> None.
Hypothesis src_not_above : is_prefix (Str.resolve s) (Str.resolve d) = false.
Hypothesis dst_not_above : is_prefix (Str.resolve d) (Str.resolve s) = false.

(** A directory entry: its counterpart is made at the destination. *)
Lemma move_step_dir (A B : list (string * node)) (x : string) (w : world) :
  tree w = pair_tree (Str.resolve s) (Str.resolve d) T0 A B ->
  find_entry x B = None -> Str.valid_name x = true ->
  exists w1,
    mkdir (sub_path d x) w = (None, w1)
    /\ tree w1 = pair_tree (Str.resolve s) (Str.resolve d) T0 A (put_entry x (Dir true []) B)
    /\ data w1 = data w /\ trace w1 = trace w.
Proof using src_there dst_there src_not_above dst_not_above.
  intros T F V. destruct (sub_path_spec d x V) as (R & N & _).
  unfold mkdir. rewrite N, R.
  pose proof (pair_lookup_dst (Str.resolve s) (Str.resolve d) T0 dst_there src_not_above dst_not_above A B) as Ld.
  rewrite <- T in Ld.
  rewrite lookup_app, Ld. cbn [lookup]. rewrite F.
  unfold parent. rewrite removelast_last, Ld.
  eexists. split; [reflexivity|]. repeat split.
  - rewrite tree_set_tree, T.
    apply (pair_step_dst (Str.resolve s) (Str.resolve d) T0 dst_not_above A B x (Some (Dir true []))).
  - apply data_set_tree.
  - apply trace_set_tree.
Qed.

(** A regular file: it is renamed to its place at the destination. *)
Lemma move_step_file (A B : list (string * node)) (x : string) (w : world) :
  tree w = pair_tree (Str.resolve s) (Str.resolve d) T0 A B ->
  find_entry x A = Some File -> find_entry x B = None ->
  Str.valid_name x = true ->
  exists w1,
    snd (remove (sub_path d x) w) = w
    /\ rename RENAME_OVERWRITES (sub_path s x) (sub_path d x) w = (None, w1)
    /\ tree w1 = pair_tree (Str.resolve s) (Str.resolve d) T0 (drop_entry x A) (put_entry x File B)
    /\ data w1 = store_move (data w) ((Str.resolve s) ++ [x]) ((Str.resolve d) ++ [x])
    /\ trace w1 = trace w.
Proof using src_there dst_there src_not_above dst_not_above.
  intros T Fa Fb V.
  destruct (sub_path_spec d x V) as (Rd & Nd & _).
  destruct (sub_path_spec s x V) as (Rs & Ns & _).
  pose proof (pair_lookup_dst (Str.resolve s) (Str.resolve d) T0 dst_there src_not_above dst_not_above A B) as Ld.
  pose proof (pair_lookup_src (Str.resolve s) (Str.resolve d) T0 src_there src_not_above dst_not_above A B) as Ls.
  rewrite <- T in Ld, Ls.
  assert (Hd : lookup ((Str.resolve d) ++ [x]) (tree w) = None).
  { rewrite lookup_app, Ld. cbn [lookup]. now rewrite Fb. }
  assert (Hs : lookup ((Str.resolve s) ++ [x]) (tree w) = Some File).
  { rewrite lookup_app, Ls. cbn [lookup]. now rewrite Fa. }
  exists (move_entry ((Str.resolve s) ++ [x]) ((Str.resolve d) ++ [x]) File w). split.
  { unfold remove, node_at. now rewrite Nd, Rd, Hd. }
  split.
  { unfold rename, node_at. rewrite Ns, Rs, Hs, Nd, Rd, Hd. cbv zeta.
    destruct (pair_child_apart (Str.resolve s) (Str.resolve d) src_not_above dst_not_above x x)
      as (_ & _ & _ & _ & P & _).
    rewrite P. unfold parent. rewrite removelast_last, Ld. reflexivity. }
  split.
  { rewrite tree_move_entry, T.
    apply (pair_step (Str.resolve s) (Str.resolve d) T0 src_there dst_there src_not_above dst_not_above
                     A B x (Some File) None). }
  split; [reflexivity|].
  unfold move_entry. cbn [trace set_data]. apply trace_set_tree.
Qed.

Lemma store_move_outside (dt : path -> list Byte.byte) (p q r : path) :
  is_prefix q r = false -> store_move dt p q r = dt r.
Proof.
  unfold store_move, is_prefix. destruct (strip_prefix q r); [discriminate|reflexivity].
Qed.

Lemma store_move_at (dt : path -> list Byte.byte) (p q : path) :
  store_move dt p q q = dt p.
Proof. unfold store_move. rewrite strip_prefix_self. now rewrite app_nil_r. Qed.

Lemma is_prefix_siblings (a : path) (x y : string) :
  x <> y -> is_prefix (a ++ [x]) (a ++ [y]) = false.
Proof.
  intros N. destruct (is_prefix (a ++ [x]) (a ++ [y])) eqn:E; [|reflexivity].
  apply is_prefix_true in E. destruct E as [r E].
  rewrite <- app_assoc in E. apply app_inv_head in E.
  cbn [app] in E. injection E as E _. congruence.
Qed.

(** The loop over the entries of one directory. *)
Lemma move_entries_spec :
  forall todo done w,
    NoDup (names (done ++ todo)) ->
    Forall (fun e => Str.valid_name (fst e) = true
                     /\ (snd e = File \/ is_dir_node (snd e) = true)) todo ->
    tree w = pair_tree (Str.resolve s) (Str.resolve d) T0 (dirs_of done ++ todo) (map flat_entry done) ->
    exists w',
      tree w' = pair_tree (Str.resolve s) (Str.resolve d) T0 (dirs_of (done ++ todo))
                          (map flat_entry (done ++ todo))
      /\ trace w' = trace w
      /\ (forall r, (forall x, In (x, File) todo ->
                               is_prefix ((Str.resolve d) ++ [x]) r = false) ->
                    data w' r = data w r)
      /\ (forall x, In (x, File) todo -> data w' ((Str.resolve d) ++ [x]) = data w ((Str.resolve s) ++ [x]))
      /\ forall stack dirs,
          move_entries s d (map typed todo) None None stack dirs w
          = (rev (map (fun e => (sub_path s (fst e), sub_path d (fst e)))
                      (dirs_of todo)) ++ stack,
             rev (map (fun e => sub_path s (fst e)) (dirs_of todo)) ++ dirs,
             w').
Proof using src_there dst_there src_not_above dst_not_above.
  induction todo as [|[x c] todo IH]; intros done w ND Hv T.
  - exists w. rewrite !app_nil_r in *.
    split; [exact T|]. split; [reflexivity|]. split; [reflexivity|].
    split; [intros x []|]. intros stack dirs. reflexivity.
  - inversion Hv as [|? ? [V Hc] Hv']; subst. cbn [fst snd] in V, Hc.
    pose proof ND as ND0. rewrite names_app in ND. cbn [names map fst] in ND.
    destruct (NoDup_mid _ _ _ ND) as [Nd Nt].
    assert (Fb : find_entry x (map flat_entry done) = None).
    { apply find_entry_absent.
      rewrite (names_map_fst flat_entry done); [exact Nd|reflexivity]. }
    assert (Ndd : ~ In x (names (dirs_of done))).
    { intros I. apply Nd. now apply names_dirs_of. }
    assert (ND' : NoDup (names ((done ++ [(x, c)]) ++ todo))).
    { now rewrite <- app_assoc. }
    assert (Dx : is_dot x = false) by (now apply valid_not_dot).
    destruct Hc as [->|Hc].
    + (* a regular file *)
      destruct (move_step_file _ _ x w T (find_entry_mid x File _ _ Ndd) Fb V)
        as (w1 & Rm & Rn & T1 & D1 & Tr1).
      rewrite (drop_entry_mid x File _ _ Ndd Nt) in T1.
      rewrite (put_entry_absent x File (map flat_entry done)) in T1
        by (rewrite (names_map_fst flat_entry done); [exact Nd|reflexivity]).
      assert (T1' : tree w1 = pair_tree (Str.resolve s) (Str.resolve d) T0 (dirs_of (done ++ [(x, File)]) ++ todo)
                                        (map flat_entry (done ++ [(x, File)]))).
      { rewrite dirs_of_app, map_app. cbn [dirs_of filter snd is_dir_node map].
        now rewrite app_nil_r. }
      destruct (IH (done ++ [(x, File)]) w1 ND' Hv' T1')
        as (w' & T' & Tr' & Dg & Df & L).
      exists w'. rewrite <- !app_assoc in T'. cbn [app] in T'.
      split; [exact T'|]. split; [congruence|].
      assert (Xs : forall y, In (y, File) todo -> x <> y).
      { intros y I ->. apply Nt. unfold names. apply in_map_iff.
        now exists (y, File). }
      split; [|split].
      * intros r Hr. rewrite Dg.
        -- rewrite D1. apply store_move_outside. apply Hr. now left.
        -- intros y I. apply Hr. now right.
      * intros y [E|I].
        -- injection E as <-. rewrite Dg.
           ++ rewrite D1. apply store_move_at.
           ++ intros z I. apply is_prefix_siblings. intros ->. now apply (Xs x I).
        -- rewrite (Df y I), D1. apply store_move_outside.
           destruct (pair_child_apart (Str.resolve s) (Str.resolve d) src_not_above dst_not_above y x)
             as (_ & _ & _ & _ & _ & P). exact P.
      * intros stack dirs. cbn [map typed fst snd kind_of move_entries].
        rewrite Dx. cbv zeta.
        change (chop_slash s +++ "/" +++ x) with (sub_path s x).
        change (chop_slash d +++ "/" +++ x) with (sub_path d x).
        rewrite Rm, Rn. cbn [log_if_open].
        rewrite L. reflexivity.
    + (* a directory *)
      destruct c as [|r es|]; try discriminate.
      destruct (move_step_dir (dirs_of done ++ (x, Dir r es) :: todo)
                              (map flat_entry done) x w T Fb V)
        as (w1 & Mk & T1 & D1 & Tr1).
      rewrite (put_entry_absent x (Dir true []) (map flat_entry done)) in T1
        by (rewrite (names_map_fst flat_entry done); [exact Nd|reflexivity]).
      assert (T1' : tree w1
                    = pair_tree (Str.resolve s) (Str.resolve d) T0 (dirs_of (done ++ [(x, Dir r es)]) ++ todo)
                                (map flat_entry (done ++ [(x, Dir r es)]))).
      { rewrite dirs_of_app, map_app. cbn [dirs_of filter snd is_dir_node map].
        now rewrite <- app_assoc. }
      destruct (IH (done ++ [(x, Dir r es)]) w1 ND' Hv' T1')
        as (w' & T' & Tr' & Dg & Df & L).
      exists w'. rewrite <- !app_assoc in T'. cbn [app] in T'.
      split; [exact T'|]. split; [congruence|].
      split; [|split].
      * intros r0 Hr. rewrite Dg; [now rewrite D1|].
        intros y I. apply Hr. now right.
      * intros y [E|I]; [discriminate|]. now rewrite (Df y I), D1.
      * intros stack dirs. cbn [map typed fst snd kind_of move_entries].
        rewrite Dx. cbv zeta.
        change (chop_slash s +++ "/" +++ x) with (sub_path s x).
        change (chop_slash d +++ "/" +++ x) with (sub_path d x).
        rewrite Mk, L.
        cbn [dirs_of filter snd is_dir_node map rev fst].
        now rewrite <- !app_assoc.
Qed.

End MoveItem.

(** ** Removing the directories the move has emptied *)

Lemma rmdir_source_empty (s : string) (r : bool) (w : world) :
  String.eqb s "" = false -> Str.resolve s <> [] ->
  lookup (Str.resolve s) (tree w) = Some (Dir r []) ->
  tree (rmdir_source s w) = set_at (Str.resolve s) None (tree w)
  /\ data (rmdir_source s w) = data w
  /\ trace (rmdir_source s w) = trace w.
Proof.
  intros N R H. unfold rmdir_source, rmdir, node_at. rewrite N, H.
  destruct (Str.resolve s) as [|x p] eqn:E; [congruence|].
  repeat split.
  - apply tree_set_tree.
  - apply data_set_tree.
  - apply trace_set_tree.
Qed.

Lemma lookup_set_at_here (a : path) (n : node) (T : node) :
  a <> [] -> is_dir (lookup (parent a) T) = true ->
  lookup a (set_at a (Some n) T) = Some n.
Proof. intros N D. now apply lookup_set_at_new. Qed.

Lemma map_emptied_app (l1 l2 : list (string * node)) :
  map emptied_entry (l1 ++ l2) = map emptied_entry l1 ++ map emptied_entry l2.
Proof. apply map_app. Qed.

(** The directories found in one directory, once each is empty. *)
Lemma sweep_own (s : string) (T : node) :
  Str.resolve s <> [] -> is_dir (lookup (parent (Str.resolve s)) T) = true ->
  forall L w,
    NoDup (names L) -> Forall (fun e => Str.valid_name (fst e) = true) L ->
    tree w = set_at (Str.resolve s) (Some (Dir true (map emptied_entry L))) T ->
    let w1 := fold_left (fun w d => rmdir_source d w)
                        (rev (map (fun e => sub_path s (fst e)) L)) w in
    tree w1 = set_at (Str.resolve s) (Some (Dir true [])) T
    /\ data w1 = data w /\ trace w1 = trace w.
Proof.
  intros Ns Dp. induction L as [|[x c] L IH] using rev_ind; intros w ND Hv Tw.
  - cbn. now repeat split.
  - rewrite map_app, rev_app_distr. cbn [map rev app fst fold_left].
    rewrite names_app in ND. cbn [names map fst] in ND.
    destruct (NoDup_mid _ _ _ ND) as [Nx _].
    apply NoDup_app_l in ND.
    apply Forall_app in Hv. destruct Hv as [Hv Hx].
    inversion Hx as [|? ? V _]; subst. cbn [fst] in V.
    destruct (sub_path_spec s x V) as (R & Ne & _).
    assert (Ne' : ~ In x (names (map emptied_entry L))).
    { rewrite (names_map_fst emptied_entry L); [exact Nx|reflexivity]. }
    assert (Hl : lookup (Str.resolve (sub_path s x)) (tree w) = Some (Dir true [])).
    { rewrite R, lookup_app, Tw, (lookup_set_at_here _ _ T Ns Dp).
      cbn [lookup]. rewrite map_emptied_app. cbn [map].
      change (emptied_entry (x, c)) with (x, Dir true []).
      now rewrite (find_entry_mid x (Dir true []) _ [] Ne'). }
    assert (Nr : Str.resolve (sub_path s x) <> []).
    { rewrite R. now destruct (Str.resolve s). }
    destruct (rmdir_source_empty (sub_path s x) true w Ne Nr Hl) as (T1 & D1 & Tr1).
    set (w1 := rmdir_source (sub_path s x) w) in *.
    assert (Tw1 : tree w1 = set_at (Str.resolve s)
                                   (Some (Dir true (map emptied_entry L))) T).
    { rewrite T1, R, Tw, (set_at_absorb _ x None true _ T Ns). cbn [upd].
      rewrite map_emptied_app. cbn [map].
      change (emptied_entry (x, c)) with (x, Dir true []).
      rewrite (drop_entry_mid x (Dir true []) _ [] Ne'); [|intros []].
      now rewrite app_nil_r. }
    destruct (IH w1 ND Hv Tw1) as (T2 & D2 & Tr2).
    repeat split; [exact T2|congruence|congruence].
Qed.

Lemma sweeps_children_nil (ps : path) : sweeps_children [] ps [].
Proof. intros T tail w0 N D Tw. cbn. now repeat split. Qed.

Lemma sweeps_children_snoc (DL dl : list string) (ps : path)
      (L : list (string * node)) (x : string) (c : node) :
  ~ In x (names L) ->
  sweeps_children DL ps L -> sweeps dl (ps ++ [x]) c ->
  sweeps_children (DL ++ dl) ps (L ++ [(x, c)]).
Proof.
  intros Nx HL Hc T tail w0 Np Dp Tw. cbv zeta. rewrite fold_left_app.
  rewrite map_app, <- app_assoc in Tw. cbn [map app] in Tw.
  change (skeleton_entry (x, c)) with (x, skeleton c) in Tw.
  pose proof (HL T ((x, skeleton c) :: tail) w0 Np Dp Tw) as K. cbv zeta in K.
  destruct K as (T1 & D1 & Tr1).
  set (w1 := fold_left (fun w d => rmdir_source d w) DL w0) in *.
  assert (Ne : ~ In x (names (map emptied_entry L))).
  { rewrite (names_map_fst emptied_entry L); [exact Nx|reflexivity]. }
  assert (Hl : lookup (ps ++ [x]) (tree w1) = Some (skeleton c)).
  { rewrite lookup_app, T1, (lookup_set_at_here _ _ T Np Dp). cbn [lookup].
    now rewrite (find_entry_mid x (skeleton c) _ tail Ne). }
  pose proof (Hc w1 Hl) as K. cbv zeta in K. destruct K as (T2 & D2 & Tr2).
  split; [|split; congruence].
  rewrite T2, T1, (set_at_absorb _ x (Some (Dir true [])) true _ T Np). cbn [upd].
  rewrite (put_entry_mid x (Dir true []) (skeleton c) _ tail Ne).
  rewrite map_emptied_app, <- app_assoc. reflexivity.
Qed.

Lemma is_prefix_cousins (a : path) (x y : string) (rel : path) :
  x <> y -> is_prefix (a ++ [x]) (a ++ y :: rel) = false.
Proof.
  intros N. destruct (is_prefix (a ++ [x]) (a ++ y :: rel)) eqn:E; [|reflexivity].
  apply is_prefix_true in E. destruct E as [r E].
  rewrite <- app_assoc in E. apply app_inv_head in E.
  cbn [app] in E. injection E as E _. congruence.
Qed.

Lemma is_prefix_below (a b : path) (x : string) (rel : path) :
  is_prefix a b = false -> is_prefix b a = false ->
  is_prefix (a ++ [x]) (b ++ rel) = false.
Proof.
  intros H1 H2. destruct (is_prefix (a ++ [x]) (b ++ rel)) eqn:E; [|reflexivity].
  apply is_prefix_true in E. destruct E as [r E].
  rewrite <- app_assoc in E.
  assert (K : forall (a b : path) u v, a ++ u = b ++ v ->
                                        is_prefix a b = true \/ is_prefix b a = true).
  { clear. induction a as [|h a IH]; intros b u v E.
    - left. reflexivity.
    - destruct b as [|k b]; [right; reflexivity|].
      cbn [app] in E. injection E as -> E.
      destruct (IH b u v E) as [P|P]; [left|right];
        unfold is_prefix in *; cbn [strip_prefix]; rewrite String.eqb_refl; exact P. }
  destruct (K _ _ _ _ E); congruence.
Qed.

(** ** The directories below one directory, one after the other *)

Section MoveChildren.

Variables s d : string.
Variable T0 : node.

Hypothesis src_there : lookup (Str.resolve s) T0 <> None.
Hypothesis dst_there : lookup (Str.resolve d) T0 <> None.
Hypothesis src_not_above : is_prefix (Str.resolve s) (Str.resolve d) = false.
Hypothesis dst_not_above : is_prefix (Str.resolve d) (Str.resolve s) = false.

Variable N : nat.

(** What the induction provides for every smaller directory. *)
Hypothesis smaller :
  forall c s' d' w,
    size c <= N -> item_ready c s' d' w ->
    exists k w' dl, item_moved c s' d' w k w' dl.

Lemma move_children_spec :
  forall pre post tail w,
    NoDup (names pre) ->
    Forall (fun e => Str.valid_name (fst e) = true /\ wf (snd e)
                     /\ clean (snd e) /\ size (snd e) <= N) pre ->
    tree w = pair_tree (Str.resolve s) (Str.resolve d) T0
                       (dirs_of pre ++ tail) (map flat_entry pre ++ post) ->
    exists k w' DL,
      tree w' = pair_tree (Str.resolve s) (Str.resolve d) T0
                          (map skeleton_entry (dirs_of pre) ++ tail) (pre ++ post)
      /\ trace w' = trace w
      /\ (forall r, (forall x c, In (x, c) (dirs_of pre) ->
                                 is_prefix (Str.resolve d ++ [x]) r = false) ->
                    data w' r = data w r)
      /\ (forall x c rel, In (x, c) (dirs_of pre) -> lookup rel c = Some File ->
                          data w' (Str.resolve d ++ x :: rel)
                          = data w (Str.resolve s ++ x :: rel))
      /\ sweeps_children DL (Str.resolve s) (dirs_of pre)
      /\ forall fuel below dirs,
          move_loop (k + fuel) None None
                    (rev (map (fun e => (sub_path s (fst e), sub_path d (fst e)))
                              (dirs_of pre)) ++ below) dirs w
          = move_loop fuel None None below (DL ++ dirs) w'.
Proof using src_there dst_there src_not_above dst_not_above smaller.
  induction pre as [|[x c] pre IH] using rev_ind; intros post tail w ND Hv T.
  - exists 0, w, []. cbn [dirs_of filter map app rev] in *.
    split; [exact T|]. split; [reflexivity|]. split; [reflexivity|].
    split; [intros x c rel []|]. split; [apply sweeps_children_nil|].
    intros fuel below dirs. reflexivity.
  - rewrite names_app in ND. cbn [names map fst] in ND.
    destruct (NoDup_mid _ _ _ ND) as [Nx _]. apply NoDup_app_l in ND.
    apply Forall_app in Hv. destruct Hv as [Hv Hx].
    inversion Hx as [|? ? (V & W & C & Sz) _]; subst. cbn [fst snd] in V, W, C, Sz.
    assert (Nxd : ~ In x (names (dirs_of pre))).
    { intros I. apply Nx. now apply names_dirs_of. }
    assert (Nxf : ~ In x (names (map flat_entry pre))).
    { rewrite (names_map_fst flat_entry pre); [exact Nx|reflexivity]. }
    rewrite dirs_of_app, map_app, <- !app_assoc in T.
    destruct c as [|r es|]; [| |destruct C].
    + (* a regular file, moved already *)
      cbn [dirs_of filter snd is_dir_node map app] in T.
      change (flat_entry (x, File)) with (x, File) in T.
      destruct (IH ((x, File) :: post) tail w ND Hv T)
        as (k & w' & DL & T' & Tr' & Dg & Df & Sw & L).
      exists k, w', DL. rewrite dirs_of_app.
      cbn [dirs_of filter snd is_dir_node]. rewrite !app_nil_r, <- app_assoc.
      split; [exact T'|]. split; [exact Tr'|]. split; [exact Dg|].
      split; [exact Df|]. split; [exact Sw|]. exact L.
    + (* a directory *)
      pose proof C as C0. apply clean_dir in C0. destruct C0 as [-> _].
      cbn [dirs_of filter snd is_dir_node map app] in T.
      change (flat_entry (x, Dir true es)) with (x, Dir true []) in T.
      destruct (sub_path_spec s x V) as (Rs & Ns & _).
      destruct (sub_path_spec d x V) as (Rd & _ & _).
      destruct (pair_child_apart (Str.resolve s) (Str.resolve d)
                                 src_not_above dst_not_above x x)
        as (_ & _ & _ & _ & P1 & P2).
      pose proof (pair_lookup_src (Str.resolve s) (Str.resolve d) T0 src_there
                                  src_not_above dst_not_above
                                  (dirs_of pre ++ (x, Dir true es) :: tail)
                                  (map flat_entry pre ++ (x, Dir true []) :: post)) as Ls.
      pose proof (pair_lookup_dst (Str.resolve s) (Str.resolve d) T0 dst_there
                                  src_not_above dst_not_above
                                  (dirs_of pre ++ (x, Dir true es) :: tail)
                                  (map flat_entry pre ++ (x, Dir true []) :: post)) as Ld.
      rewrite <- T in Ls, Ld.
      assert (Rdy : item_ready (Dir true es) (sub_path s x) (sub_path d x) w).
      { unfold item_ready. rewrite Rs, Rd.
        split; [exact Ns|]. split.
        { rewrite lookup_app, Ls. cbn [lookup].
          now rewrite (find_entry_mid x (Dir true es) _ tail Nxd). }
        split.
        { rewrite lookup_app, Ld. cbn [lookup].
          now rewrite (find_entry_mid x (Dir true []) _ post Nxf). }
        split; [exact P1|]. split; [exact P2|]. split; [reflexivity|].
        split; [exact C|exact W]. }
      destruct (smaller (Dir true es) (sub_path s x) (sub_path d x) w Sz Rdy)
        as (k1 & w1 & dl1 & T1 & Tr1 & Dg1 & Df1 & Sw1 & L1).
      rewrite Rs, Rd in *.
      rewrite T in T1.
      rewrite (pair_step (Str.resolve s) (Str.resolve d) T0 src_there dst_there
                         src_not_above dst_not_above) in T1.
      cbn [upd] in T1.
      rewrite (put_entry_mid x _ (Dir true es) _ tail Nxd) in T1.
      rewrite (put_entry_mid x _ (Dir true []) _ post Nxf) in T1.
      destruct (IH ((x, Dir true es) :: post) ((x, skeleton (Dir true es)) :: tail)
                   w1 ND Hv T1)
        as (k2 & w2 & DL2 & T2 & Tr2 & Dg2 & Df2 & Sw2 & L2).
      exists (k1 + k2), w2, (DL2 ++ dl1). rewrite dirs_of_app.
      cbn [dirs_of filter snd is_dir_node].
      split.
      { rewrite T2, map_app, <- !app_assoc. reflexivity. }
      split; [congruence|]. split; [|split; [|split]].
      * intros r Hr. rewrite Dg2.
        -- apply Dg1. apply (Hr x (Dir true es)). apply in_or_app. right. now left.
        -- intros y c I. apply (Hr y c). apply in_or_app. now left.
      * intros y c rel I Hf. apply in_app_or in I. destruct I as [I|[E|[]]].
        -- rewrite (Df2 y c rel I Hf). apply Dg1.
           change (y :: rel) with ([y] ++ rel).
           apply is_prefix_below; assumption.
        -- injection E as <- <-. rewrite Dg2.
           ++ specialize (Df1 rel Hf). rewrite <- !app_assoc in Df1. exact Df1.
           ++ intros z c' I. apply is_prefix_cousins. intros ->.
              apply Nxd. unfold names. apply in_map_iff. now exists (x, c').
      * apply sweeps_children_snoc; assumption.
      * intros fuel below dirs. rewrite map_app, rev_app_distr.
        cbn [map rev app fst]. rewrite <- Nat.add_assoc, L1, L2.
        now rewrite <- app_assoc.
Qed.

End MoveChildren.

Lemma NoDup_names_dirs_of es : NoDup (names es) -> NoDup (names (dirs_of es)).
Proof.
  induction es as [|[x c] es IH]; intros H; [constructor|].
  inversion H as [|? ? Nx ND]; subst.
  cbn [dirs_of filter snd]. fold (dirs_of es).
  destruct (is_dir_node c); [|now apply IH].
  cbn [names map fst]. constructor; [|now apply IH].
  intros I. apply Nx. now apply names_dirs_of.
Qed.

Lemma in_dirs_of (x : string) (c : node) es :
  In (x, c) (dirs_of es) <-> In (x, c) es /\ is_dir_node c = true.
Proof. unfold dirs_of. now rewrite filter_In. Qed.

Lemma move_entries_dots (s d : string) (l : list (string * kind))
      (a b : option string) (st : list (string * string)) (dr : list string)
      (w : world) :
  move_entries s d ((".", KDir) :: ("..", KDir) :: l) a b st dr w
  = move_entries s d l a b st dr w.
Proof. reflexivity. Qed.

Lemma readdir_typed_dir (s : string) (es : list (string * node)) (w : world) :
  String.eqb s "" = false -> lookup (Str.resolve s) (tree w) = Some (Dir true es) ->
  readdir_typed s w = Some ((".", KDir) :: ("..", KDir) :: map typed es).
Proof. intros N L. unfold readdir_typed, node_at. now rewrite N, L. Qed.

(** ** One pair of the stack and everything it pushes *)

Lemma move_item :
  forall N c s d w,
    size c <= N -> item_ready c s d w ->
    exists k w' dl, item_moved c s d w k w' dl.
Proof.
  induction N as [|N IHN]; intros c s d w Sz Rdy.
  { pose proof (size_pos c). lia. }
  destruct Rdy as (Ns & Ls & Ld & P1 & P2 & Dc & C & W).
  destruct c as [|r es|]; try discriminate.
  pose proof C as C0. apply clean_dir in C0. destruct C0 as [-> Cs].
  pose proof W as W0. apply wf_dir in W0. destruct W0 as [ND Ws].
  rewrite size_dir in Sz.
  assert (St : lookup (Str.resolve s) (tree w) <> None) by (rewrite Ls; discriminate).
  assert (Dt : lookup (Str.resolve d) (tree w) <> None) by (rewrite Ld; discriminate).
  pose proof (pair_src_nonroot _ _ P1) as Nps.
  assert (Hv : Forall (fun e => Str.valid_name (fst e) = true
                                /\ (snd e = File \/ is_dir_node (snd e) = true)) es).
  { apply Forall_forall. intros [x c] I.
    rewrite Forall_forall in Cs, Ws.
    destruct (Ws _ I) as [V _]. specialize (Cs _ I). cbn [fst snd] in *.
    split; [exact V|]. destruct c; [now left|now right|destruct Cs]. }
  assert (Hv' : Forall (fun e => Str.valid_name (fst e) = true /\ wf (snd e)
                                 /\ clean (snd e) /\ size (snd e) <= N) es).
  { apply Forall_forall. intros [x c] I.
    rewrite Forall_forall in Cs, Ws.
    destruct (Ws _ I) as [V Wc]. specialize (Cs _ I). cbn [fst snd] in *.
    pose proof (size_in x c es I). repeat split; try assumption. lia. }
  destruct (move_entries_spec s d (tree w) St Dt P1 P2 es [] w ND Hv)
    as (w1 & T1 & Tr1 & Dg1 & Df1 & L1).
  { symmetry. now apply pair_init. }
  cbn [app] in T1.
  destruct (move_children_spec s d (tree w) St Dt P1 P2 N IHN es [] [] w1 ND Hv')
    as (k2 & w2 & DL & T2 & Tr2 & Dg2 & Df2 & Sw2 & L2).
  { now rewrite !app_nil_r. }
  rewrite !app_nil_r in T2.
  exists (S k2), w2, (DL ++ rev (map (fun e => sub_path s (fst e)) (dirs_of es))).
  split; [|split; [|split; [|split; [|split]]]].
  - rewrite skeleton_dir. exact T2.
  - congruence.
  - intros r Hr.
    assert (K : forall x, is_prefix (Str.resolve d ++ [x]) r = false).
    { intros x. destruct (is_prefix (Str.resolve d ++ [x]) r) eqn:E; [|reflexivity].
      apply is_prefix_app_l in E. congruence. }
    rewrite Dg2 by (intros x c _; apply K). apply Dg1. intros x _. apply K.
  - intros rel Hf. destruct rel as [|x rel]; [discriminate|].
    cbn [lookup] in Hf. destruct (find_entry x es) as [c|] eqn:F; [|discriminate].
    pose proof (find_entry_some_in _ _ _ F) as I.
    destruct c as [|r' es'|].
    + destruct rel as [|y rel]; [|discriminate].
      rewrite Dg2; [now apply Df1|].
      intros z c' Iz. apply is_prefix_siblings. intros ->.
      apply in_dirs_of in Iz. destruct Iz as [Iz Dz].
      rewrite (find_entry_in _ _ _ ND Iz) in F. injection F as ->. discriminate.
    + rewrite (Df2 x (Dir r' es') rel); [|now apply in_dirs_of|exact Hf].
      apply Dg1. intros z _. change (x :: rel) with ([x] ++ rel).
      now apply is_prefix_below.
    + destruct rel; discriminate.
  - intros w0 Hl. cbv zeta. rewrite skeleton_dir in Hl. rewrite fold_left_app.
    pose proof (lookup_parent_is_dir _ _ _ Nps Hl) as Dp.
    assert (Tw : tree w0 = set_at (Str.resolve s)
                                  (Some (Dir true (map skeleton_entry (dirs_of es) ++ [])))
                                  (tree w0)).
    { rewrite app_nil_r. symmetry. now apply set_at_same. }
    pose proof (Sw2 (tree w0) [] w0 Nps Dp Tw) as K. cbv zeta in K.
    destruct K as (Ta & Da & Tra). rewrite app_nil_r in Ta.
    assert (Hn : Forall (fun e : string * node => Str.valid_name (fst e) = true)
                        (dirs_of es)).
    { apply Forall_forall. intros [x c] I. apply in_dirs_of in I.
      rewrite Forall_forall in Ws. now destruct (Ws _ (proj1 I)). }
    pose proof (sweep_own s (tree w0) Nps Dp (dirs_of es) _
                          (NoDup_names_dirs_of es ND) Hn Ta) as K.
    cbv zeta in K. destruct K as (Tb & Db & Trb).
    split; [exact Tb|]. split; congruence.
  - intros fuel below dirs. cbn [Nat.add move_loop].
    rewrite (readdir_typed_dir s es w Ns Ls), move_entries_dots, L1.
    rewrite L2. now rewrite <- app_assoc.
Qed.

(** ** The whole move *)

Lemma mkdir_vacant (d : string) (w : world) :
  String.eqb d "" = false -> Str.resolve d <> [] -> vacant d w ->
  exists e w1,
    mkdir d w = (e, w1) /\ (e = None \/ e = Some EEXIST)
    /\ tree w1 = set_at (Str.resolve d) (Some (Dir true [])) (tree w)
    /\ lookup (Str.resolve d) (tree w1) = Some (Dir true [])
    /\ data w1 = data w /\ trace w1 = trace w.
Proof.
  intros N R [[Hn Hp]|He]; unfold mkdir; rewrite N.
  - rewrite Hn. destruct (lookup (parent (Str.resolve d)) (tree w)) as [[|r es|]|] eqn:P;
      try discriminate.
    eexists _, _. split; [reflexivity|]. split; [now left|].
    rewrite tree_set_tree. split; [reflexivity|]. split.
    + apply lookup_set_at_new; [exact R|now rewrite P].
    + split; [apply data_set_tree|apply trace_set_tree].
  - rewrite He. exists (Some EEXIST), w. split; [reflexivity|]. split; [now right|].
    split; [symmetry; now apply set_at_same|]. now repeat split.
Qed.

Lemma vacant_not_above (s d : string) (c : node) (w : world) :
  lookup (Str.resolve s) (tree w) = Some c -> vacant d w ->
  is_prefix (Str.resolve s) (Str.resolve d) = false ->
  is_prefix (Str.resolve d) (Str.resolve s) = false.
Proof.
  intros Ls V P. destruct (is_prefix (Str.resolve d) (Str.resolve s)) eqn:E;
    [|reflexivity].
  apply is_prefix_true in E. destruct E as [r E]. rewrite E in Ls, P.
  rewrite lookup_app in Ls. destruct V as [[Hn _]|He].
  - now rewrite Hn in Ls.
  - rewrite He in Ls. destruct r as [|x r]; [|discriminate].
    rewrite app_nil_r, is_prefix_refl in P. discriminate.
Qed.

(** X19: a directory of regular files and readable directories, moved to a
    place that is free or holds an empty directory and does not lie below
    the source, arrives there whole: with enough fuel the call returns,
    the same tree is found at the destination with the contents of its
    files, nothing is left at the source, nothing is reported, and every
    path outside the two keeps its [stat]. *)
Theorem moveDirectory_moves (sourcePath destinationPath : string)
        (es : list (string * node)) (w : world) :
  node_at (tree w) sourcePath = Some (Dir true es) ->
  clean (Dir true es) -> wf (Dir true es) ->
  String.eqb destinationPath "" = false ->
  is_prefix (Str.resolve sourcePath) (Str.resolve destinationPath) = false ->
  vacant destinationPath w ->
  exists k w',
    (forall fuel, k <= fuel ->
       moveDirectory fuel sourcePath destinationPath "" "" w = Some w')
    /\ lookup (Str.resolve destinationPath) (tree w') = Some (Dir true es)
    /\ (forall rel, lookup rel (Dir true es) = Some File ->
          data w' (Str.resolve destinationPath ++ rel)
          = data w (Str.resolve sourcePath ++ rel))
    /\ isFileOrDirectory sourcePath w' = false
    /\ trace w' = trace w
    /\ forall q, is_prefix (Str.resolve sourcePath) (Str.resolve q) = false ->
                 is_prefix (Str.resolve destinationPath) (Str.resolve q) = false ->
                 stat q w' = stat q w.
Proof.
  intros Hs C W Nd P1 V.
  unfold node_at in Hs. destruct (String.eqb sourcePath "") eqn:Ns; [discriminate|].
  pose proof (vacant_not_above _ _ _ _ Hs V P1) as P2.
  pose proof (pair_src_nonroot _ _ P1) as Rs.
  pose proof (pair_dst_nonroot _ _ P2) as Rd.
  destruct (mkdir_vacant destinationPath w Nd Rd V)
    as (e & w1 & Mk & He & T1 & Ld1 & D1 & Tr1).
  assert (Ls1 : lookup (Str.resolve sourcePath) (tree w1) = Some (Dir true es)).
  { now rewrite T1, (lookup_set_at_apart _ _ _ _ P2 P1). }
  assert (Rdy : item_ready (Dir true es) sourcePath destinationPath w1).
  { unfold item_ready. split; [exact Ns|]. split; [exact Ls1|].
    split; [exact Ld1|]. split; [exact P1|]. split; [exact P2|].
    split; [reflexivity|]. split; [exact C|exact W]. }
  destruct (move_item (size (Dir true es)) _ _ _ w1 (le_n _) Rdy)
    as (k & w2 & dl & T2 & Tr2 & Dg2 & Df2 & Sw & L).
  assert (St : lookup (Str.resolve sourcePath) (tree w1) <> None)
    by (rewrite Ls1; discriminate).
  assert (Dt : lookup (Str.resolve destinationPath) (tree w1) <> None)
    by (rewrite Ld1; discriminate).
  rewrite skeleton_dir in T2.
  fold (pair_tree (Str.resolve sourcePath) (Str.resolve destinationPath) (tree w1)
                  (map skeleton_entry (dirs_of es)) es) in T2.
  assert (Ls2 : lookup (Str.resolve sourcePath) (tree w2)
                = Some (skeleton (Dir true es))).
  { rewrite T2, skeleton_dir. now apply pair_lookup_src. }
  pose proof (Sw w2 Ls2) as K. cbv zeta in K.
  set (w3 := fold_left (fun w d => rmdir_source d w) dl w2) in *.
  destruct K as (T3 & D3 & Tr3).
  assert (Ls3 : lookup (Str.resolve sourcePath) (tree w3) = Some (Dir true [])).
  { rewrite T3. apply lookup_set_at_new; [exact Rs|].
    apply (lookup_parent_is_dir _ _ _ Rs Ls2). }
  destruct (rmdir_source_empty sourcePath true w3 Ns Rs Ls3) as (T4 & D4 & Tr4).
  set (w4 := rmdir_source sourcePath w3) in *.
  exists (S k), w4. split; [|split; [|split; [|split; [|split]]]].
  - intros fuel Hk. unfold moveDirectory.
    assert (Hst : stat sourcePath w <> None).
    { unfold stat, node_at. rewrite Ns, Hs. discriminate. }
    destruct (stat sourcePath w) as [st|]; [|congruence].
    rewrite Mk.
    assert (E : (match e with
                 | None | Some EEXIST => (true, w1)
                 | Some _ => (false, w1)
                 end) = (true, w1)) by (destruct He as [->| ->]; reflexivity).
    rewrite E. cbn [fst snd negb open_log String.eqb].
    replace fuel with (S k + (fuel - S k)) by lia.
    rewrite Nat.add_succ_comm, L.
    cbn [move_loop]. rewrite app_nil_r. reflexivity.
  - rewrite T4, (lookup_set_at_apart _ _ _ _ P1 P2).
    rewrite T3, (lookup_set_at_apart _ _ _ _ P1 P2), T2.
    now apply pair_lookup_dst.
  - intros rel Hf. rewrite D4, D3, (Df2 rel Hf), D1. reflexivity.
  - unfold isFileOrDirectory, stat, node_at. rewrite Ns, T4.
    now rewrite (lookup_set_at_none _ _ Rs).
  - congruence.
  - intros q Q1 Q2. apply stat_shape.
    + unfold shape_at. rewrite T4, (lookup_set_at_outside _ _ _ _ Q1).
      rewrite T3, (lookup_set_at_outside _ _ _ _ Q1), T2.
      rewrite (pair_outside _ _ _ _ _ _ Q1 Q2).
      now rewrite T1, (lookup_set_at_outside _ _ _ _ Q2).
    + rewrite D4, D3, (Dg2 _ Q2), D1. reflexivity.
Qed.

(** * The accounting of a copy *)

Lemma open_loop_source (slack rc : nat) (fromFile toFile : string) (w : world) :
  fst (open_loop slack rc fromFile toFile w) = true ->
  file_at fromFile (snd (open_loop slack rc fromFile toFile w)).
Proof.
  assert (K : forall w0, fst (fopen fromFile ReadBinary w0) = true ->
                         file_at fromFile (snd (fopen fromFile ReadBinary w0))).
  { intros w0. unfold fopen, file_at.
    destruct (fopen_fault w0 (fopens w0)); [discriminate|]. cbv zeta.
    change (tree (set_fopens (S (fopens w0)) w0)) with (tree w0).
    destruct (node_at (tree w0) fromFile) as [[]|] eqn:E; try discriminate.
    intros _. cbn [snd]. exact E. }
  revert rc w. induction slack as [|slack IH]; intros rc w; cbn [open_loop];
    pose proof (K w) as F1;
    destruct (fopen fromFile ReadBinary w) as [src w1]; cbn [fst snd] in F1;
    pose proof (fun F => file_at_fopen fromFile toFile WriteBinary w1 F) as F2;
    destruct (fopen toFile WriteBinary w1) as [dst w2]; cbn [fst snd] in F2;
    destruct (src && dst) eqn:B; cbn [fst snd];
    try (intros _; apply andb_prop in B; destruct B as [-> _]; apply F2, F1;
         reflexivity);
    destruct (Nat.ltb maxRetries (S rc)); try discriminate.
  apply IH.
Qed.

(** Opening a file to append does not touch the content of a file. *)
Lemma fopen_append_data (s q : string) (w : world) :
  file_at s w ->
  data (snd (fopen q AppendText w)) (Str.resolve s) = data w (Str.resolve s).
Proof.
  unfold file_at, fopen. intros F.
  destruct (fopen_fault w (fopens w)); [reflexivity|]. cbv zeta.
  change (tree (set_fopens (S (fopens w)) w)) with (tree w).
  destruct (node_at (tree w) q) as [[]|] eqn:E; try reflexivity.
  destruct (String.eqb q "") eqn:Q; [reflexivity|].
  destruct (is_dir _); [|reflexivity].
  cbn [snd data set_data]. unfold store_set.
  destruct (path_eqb (Str.resolve q) (Str.resolve s)) eqn:P; [|reflexivity].
  apply path_eqb_eq in P. unfold node_at in F, E. rewrite Q in E.
  destruct (String.eqb s ""); [discriminate|]. rewrite <- P in F. congruence.
Qed.

Lemma data_createDirectory (d : string) (w : world) :
  data (createDirectory d w) = data w.
Proof. apply (createDirectory_adds_dirs d w). Qed.

Lemma open_log_data (s logPath failure : string) (w : world) :
  file_at s w ->
  data (snd (open_log logPath failure w)) (Str.resolve s) = data w (Str.resolve s).
Proof.
  intros F. unfold open_log. destruct (String.eqb logPath ""); [reflexivity|].
  cbv zeta.
  pose proof (fopen_append_data s logPath
                (createDirectory (getParentDirFromPath logPath) w)
                (file_at_createDirectory _ _ _ F)) as D.
  destruct (fopen logPath AppendText _) as [[] w2]; cbn [snd] in *;
    [|change (data (logMessage ?m ?x)) with (data x)];
    now rewrite D, data_createDirectory.
Qed.

(** What the transfer loop reads: the content of the source as it was,
    unless the destination is the same entry, which the opening emptied. *)
Lemma copy_source_content fromFile toFile logSource logDestination w :
  let o := open_loop maxRetries 0 fromFile toFile
                     (createDirectory (getParentDirFromPath toFile) w) in
  let l1 := open_log logSource "Failed to open source log file: " (snd o) in
  let l2 := open_log logDestination "Failed to open destination log file: "
                     (snd l1) in
  fst o = true ->
  data (snd l2) (Str.resolve fromFile)
  = if path_eqb (Str.resolve fromFile) (Str.resolve toFile) then []
    else data w (Str.resolve fromFile).
Proof.
  cbv zeta. intros Ho.
  set (w0 := createDirectory (getParentDirFromPath toFile) w) in Ho |- *.
  pose proof (open_loop_source maxRetries 0 fromFile toFile w0 Ho) as Fs.
  pose proof (open_loop_truncates maxRetries 0 fromFile toFile w0 Ho) as Tr.
  pose proof (open_loop_elsewhere maxRetries 0 fromFile toFile w0) as E1.
  set (w1 := snd (open_loop maxRetries 0 fromFile toFile w0)) in Fs, Tr, E1 |- *.
  rewrite (open_log_data fromFile logDestination _ _
             (file_at_open_log _ logSource _ _ Fs)).
  rewrite (open_log_data fromFile logSource _ _ Fs).
  destruct (path_eqb (Str.resolve fromFile) (Str.resolve toFile)) eqn:P.
  - apply path_eqb_eq in P. now rewrite P.
  - assert (N : Str.resolve fromFile <> Str.resolve toFile).
    { intros E. rewrite E, path_eqb_refl in P. discriminate. }
    destruct (E1 _ N) as [D1 _]. rewrite D1. unfold w0.
    now rewrite data_createDirectory.
Qed.

(** The transfer loop, however it ends: [k] chunks are written in full,
    each is counted and followed by the store of its percentage, and an
    early return adds the store of [-1]. *)
Lemma copy_chunks_account chunks toFile copied total w :
  (0 <= copied)%Z -> (0 < total)%Z ->
  (100 * (copied + total_length chunks) <= LLONG_MAX)%Z ->
  (100 * (copied + total_length chunks) / total <= INT_MAX)%Z ->
  exists k,
    k <= List.length chunks
    /\ (fst (fst (copy_chunks chunks toFile copied total w)) = CopyDone
        <-> k = List.length chunks)
    /\ snd (fst (copy_chunks chunks toFile copied total w))
       = (copied + total_length (firstn k chunks))%Z
    /\ stores (trace (snd (copy_chunks chunks toFile copied total w)))
       = (if Nat.eqb k (List.length chunks) then [] else [(-1)%Z])
           ++ rev (progress_values copied total (firstn k chunks))
           ++ stores (trace w)
    /\ ((forall n, fwrite_cap w n = None) ->
        forall j, j < List.length chunks ->
                  (j < k <-> forall i, i <= j -> abortFileOp w (loads w + i) = false)).
Proof.
  revert copied w. induction chunks as [|c r IH]; intros copied w Hc Ht Hm Hq.
  - exists 0. cbn. unfold total_length. cbn.
    split; [lia|]. split; [split; reflexivity|]. split; [lia|].
    split; [reflexivity|]. intros _ j Hj. lia.
  - cbn [copy_chunks]. unfold load_abort.
    destruct (abortFileOp w (loads w)) eqn:Ab.
    { exists 0. cbn [fst snd firstn List.length Nat.eqb progress_values rev app].
      unfold total_length. cbn [List.concat List.length].
      split; [lia|]. split; [split; [discriminate|lia]|]. split; [lia|].
      split; [cbn [store_percentage emit trace stores]; now rewrite trace_remove|].
      intros _ j _. split; [lia|]. intros A. specialize (A 0 (Nat.le_0_l j)).
      rewrite Nat.add_0_r, Ab in A. discriminate. }
    pose proof (io_write_chunk toFile c (set_loads (S (loads w)) w)) as H.
    apply io_view_eq in H. destruct H as (_ & _ & Htr & Hlo & Hab & Hcap & _).
    pose proof (write_chunk_uncapped toFile c (set_loads (S (loads w)) w)) as Ok.
    destruct (write_chunk toFile c (set_loads (S (loads w)) w)) as [[] w2];
      cbn [fst snd] in Htr, Hlo, Hab, Hcap, Ok.
    + rewrite total_length_cons in Hm, Hq.
      pose proof (total_length_nonneg r) as Hr.
      assert (Hn : (0 <= Z.of_nat (List.length c))%Z) by lia.
      rewrite ll_add_exact by lia.
      assert (Ht' : (0 <? total)%Z = true) by (apply Z.ltb_lt; lia).
      rewrite Ht'.
      set (copied' := (copied + Z.of_nat (List.length c))%Z).
      assert (Hmono : (100 * copied' / total
                       <= 100 * (copied + (Z.of_nat (List.length c) + total_length r))
                          / total)%Z).
      { apply Z.div_le_mono; lia. }
      rewrite percent_of_exact by lia.
      assert (Ea : (copied' + total_length r
                    = copied + (Z.of_nat (List.length c) + total_length r))%Z) by lia.
      assert (Hm' : (100 * (copied' + total_length r) <= LLONG_MAX)%Z)
        by (rewrite Ea; exact Hm).
      assert (Hq' : (100 * (copied' + total_length r) / total <= INT_MAX)%Z)
        by (rewrite Ea; exact Hq).
      assert (Hc' : (0 <= copied')%Z) by lia.
      destruct (IH copied' (store_percentage (100 * copied' / total) w2)
                   Hc' Ht Hm' Hq') as (k & Hk & Hd & E1 & E2 & E3).
      exists (S k). cbn [List.length firstn Nat.eqb].
      split; [lia|]. split; [rewrite Hd; lia|].
      rewrite E1, E2, total_length_cons. split; [lia|].
      split.
      { cbn [progress_values rev]. cbv zeta. fold copied'.
        rewrite <- !app_assoc. cbn [stores trace store_percentage emit app].
        now rewrite Htr. }
      intros Cap j Hj.
      assert (Cap' : forall n,
                 fwrite_cap (store_percentage (100 * copied' / total) w2) n = None).
      { intros n. change (fwrite_cap w2 n = None). rewrite Hcap. apply Cap. }
      specialize (E3 Cap').
      change (abortFileOp (store_percentage (100 * copied' / total) w2))
        with (abortFileOp w2) in E3.
      change (loads (store_percentage (100 * copied' / total) w2))
        with (loads w2) in E3.
      rewrite Hab, Hlo in E3.
      change (abortFileOp (set_loads (S (loads w)) w)) with (abortFileOp w) in E3.
      change (loads (set_loads (S (loads w)) w)) with (S (loads w)) in E3.
      destruct j as [|j].
      * split; [|lia]. intros _ i Hi. assert (i = 0) as -> by lia.
        now rewrite Nat.add_0_r.
      * assert (Hj' : j < List.length r) by lia.
        destruct (E3 j Hj') as [F1 F2]. split.
        -- intros Lt i Hi. destruct i as [|i]; [now rewrite Nat.add_0_r|].
           rewrite <- Nat.add_succ_comm. apply F1; lia.
        -- intros A. apply -> Nat.succ_lt_mono. apply F2. intros i Hi.
           rewrite Nat.add_succ_comm. apply A. lia.
    + exists 0. cbn [fst snd firstn List.length Nat.eqb progress_values rev app].
      unfold total_length. cbn [List.concat List.length].
      split; [lia|]. split; [split; [discriminate|lia]|]. split; [lia|].
      split.
      { cbn [store_percentage emit trace stores]. rewrite trace_remove.
        cbn [logMessage emit trace stores]. now rewrite Htr. }
      intros Cap. specialize (Ok Cap). discriminate.
Qed.

(** With both files in place and no fault at the two openings, the open
    loop gets through at its first pass. *)
Lemma open_loop_gets_through (slack rc : nat) (fromFile toFile : string) (w : world) :
  file_at fromFile w -> file_at toFile w ->
  fopen_fault w (fopens w) = false -> fopen_fault w (S (fopens w)) = false ->
  fst (open_loop slack rc fromFile toFile w) = true.
Proof.
  intros Ff Ft F1 F2.
  assert (E1 : fopen fromFile ReadBinary w = (true, set_fopens (S (fopens w)) w)).
  { unfold fopen. rewrite F1. cbv zeta.
    change (tree (set_fopens (S (fopens w)) w)) with (tree w).
    unfold file_at in Ff. now rewrite Ff. }
  assert (E2 : fst (fopen toFile WriteBinary (set_fopens (S (fopens w)) w)) = true).
  { unfold fopen.
    change (fopen_fault (set_fopens (S (fopens w)) w)) with (fopen_fault w).
    change (fopens (set_fopens (S (fopens w)) w)) with (S (fopens w)).
    rewrite F2. cbv zeta.
    change (tree (set_fopens _ (set_fopens (S (fopens w)) w))) with (tree w).
    unfold file_at in Ft. now rewrite Ft. }
  destruct slack; cbn [open_loop]; rewrite E1;
    destruct (fopen toFile WriteBinary _) as [dst w2]; cbn [fst] in E2; subst dst;
    reflexivity.
Qed.

Lemma quiet_fopen_fault (w w' : world) :
  quiet_view w' = quiet_view w -> fopen_fault w' = fopen_fault w.
Proof. unfold quiet_view, calm_view. intros H. now injection H. Qed.


(** * The delete loop, turn by turn *)

Lemma delete_run_done (h : option string) (n : nat) (w : world) :
  delete_run n h ([], w) = ([], w).
Proof.
  unfold delete_run. induction n as [|n IH]; [reflexivity|].
  rewrite Nat.iter_succ_r. exact IH.
Qed.

Lemma delete_run_succ (h : option string) (n : nat) (st : list string * world) :
  delete_run (S n) h st = delete_run n h (delete_pass h st).
Proof. unfold delete_run. apply Nat.iter_succ_r. Qed.

Lemma delete_run_next (h : option string) (n : nat) (st : list string * world) :
  delete_run (S n) h st = delete_pass h (delete_run n h st).
Proof. reflexivity. Qed.

(** [delete_loop] is the iteration of [delete_pass]. *)
Lemma delete_loop_run (h : option string) :
  forall fuel stack w,
    delete_loop fuel h stack w = returned (delete_run fuel h (stack, w)).
Proof.
  induction fuel as [|fuel IH]; intros stack w.
  - destruct stack; reflexivity.
  - destruct stack as [|s below].
    + now rewrite delete_run_done.
    + rewrite delete_run_succ. cbn [delete_loop delete_pass].
      destruct (stat s w) as [[[] sz]|]; try apply IH.
      * destruct (remove s w) as [[] w1]; apply IH.
      * destruct (readdir_all s w) as [entries|]; [|apply IH].
        destruct (filter (fun n => negb (is_dot n)) entries); [|apply IH].
        destruct (rmdir s _) as [[] w1]; apply IH.
Qed.

(** A turn changes the tree by removing the entry on top of the stack, a
    regular file or a directory with no entry, or not at all. *)
Lemma delete_pass_leaf (h : option string) (stack : list string) (w : world) :
  tree (snd (delete_pass h (stack, w))) = tree w
  \/ exists currentPath below n,
      stack = currentPath :: below
      /\ fst (delete_pass h (stack, w)) = below
      /\ node_at (tree w) currentPath = Some n /\ leaf n
      /\ tree (snd (delete_pass h (stack, w)))
         = set_at (Str.resolve currentPath) None (tree w).
Proof.
  destruct stack as [|s below]; [left; reflexivity|].
  cbn [delete_pass]. unfold stat, readdir_all.
  destruct (node_at (tree w) s) as [[|r es|]|] eqn:Hs; try (left; reflexivity).
  - right. exists s, below, File. unfold remove. rewrite Hs. cbn [fst snd].
    split; [reflexivity|]. split; [reflexivity|]. split; [reflexivity|].
    split; [exact I|]. now rewrite tree_log_if_open, tree_set_tree.
  - destruct r; [|left; reflexivity].
    destruct (filter _ _) eqn:F; [|left; reflexivity].
    unfold rmdir. change (tree (emit ?e ?x)) with (tree x). rewrite Hs.
    destruct es as [|e es]; [|left; reflexivity].
    destruct (Str.resolve s) as [|x p] eqn:E; [left; reflexivity|].
    right. exists s, below, (Dir true []). cbn [fst snd].
    split; [reflexivity|]. split; [reflexivity|]. split; [exact Hs|].
    split; [exact I|]. rewrite E.
    apply (tree_set_tree (x :: p) None (emit (EvRmdir s (listing (tree w) s)) w)).
Qed.

(** A directory in which a turn finds an entry stays, and its entries go
    on the stack above it. *)
Lemma delete_pass_push (h : option string) (s : string) (below : list string)
      (w : world) (es : list (string * node)) :
  node_at (tree w) s = Some (Dir true es) -> wf (Dir true es) -> es <> [] ->
  delete_pass h (s :: below, w)
  = (map (child_path s) (rev (names es)) ++ s :: below, w).
Proof.
  intros H W N. cbn [delete_pass]. unfold stat, readdir_all. rewrite H.
  apply wf_dir in W. destruct W as [_ A].
  change (filter (fun n => negb (is_dot n)) ("." :: ".." :: names es))
    with (filter (fun n => negb (is_dot n)) (names es)).
  rewrite (filter_valid_names es A).
  destruct es as [|[x c] es]; [congruence|].
  cbn [names map]. rewrite map_rev. reflexivity.
Qed.

Lemma delete_pass_rmdirs (h : option string) (st : list string * world) :
  Forall no_children (rmdir_listings (trace (snd st))) ->
  Forall no_children (rmdir_listings (trace (snd (delete_pass h st)))).
Proof.
  destruct st as [[|s below] w]; intros Hw; [exact Hw|].
  cbn [snd] in Hw. cbn [delete_pass].
  destruct (stat s w) as [[[] sz]|]; try exact Hw.
  - pose proof (quiet_rmdir_listings _ _ (quiet_remove s w)) as Q.
    destruct (remove s w) as [[] w1]; cbn [snd] in Q |- *.
    + now rewrite (quiet_rmdir_listings _ _ (quiet_log_if_open _ _ _)), Q.
    + cbn. now rewrite Q.
  - unfold readdir_all.
    destruct (node_at (tree w) s) as [[|[] es|]|] eqn:Hs; try exact Hw.
    change (filter (fun n => negb (is_dot n)) ("." :: ".." :: names es))
      with (filter (fun n => negb (is_dot n)) (names es)).
    destruct (filter (fun n => negb (is_dot n)) (names es)) as [|c cs] eqn:F;
      [|exact Hw].
    set (w0 := emit (EvRmdir s (listing (tree w) s)) w).
    assert (H0 : Forall no_children (rmdir_listings (trace w0))).
    { subst w0. cbn. constructor; [|exact Hw].
      unfold listing. rewrite Hs. exact F. }
    pose proof (quiet_rmdir_listings _ _ (quiet_rmdir s w0)) as Q.
    destruct (rmdir s w0) as [[] w1]; cbn [snd] in Q |- *.
    + now rewrite Q.
    + cbn. now rewrite Q.
Qed.

Lemma delete_run_rmdirs (h : option string) (n : nat) (st : list string * world) :
  Forall no_children (rmdir_listings (trace (snd st))) ->
  Forall no_children (rmdir_listings (trace (snd (delete_run n h st)))).
Proof.
  intros H. induction n as [|n IH]; [exact H|].
  rewrite delete_run_next. now apply delete_pass_rmdirs.
Qed.

Lemma directories_only_clean : forall n, directories_only n -> clean n.
Proof.
  fix IH 1. intros [|r es|]; cbn [directories_only clean];
    [intros []| |intros []].
  intros [-> A]. split; [reflexivity|].
  induction es as [|[x c] es IHes]; [exact I|].
  destruct A as [C A]. split; [apply IH, C|apply IHes, A].
Qed.


(** X11: deleting a directory that holds readable directories only, to
    any depth, removes its subtree and touches nothing else. *)
Theorem deleteFileOrDirectory_removes_subtree (pathToDelete : string) (w : world)
        (n : node) :
  Str.ends_with_slash pathToDelete = true ->
  Str.resolve pathToDelete <> [] ->
  node_at (tree w) pathToDelete = Some n -> directories_only n -> wf n ->
  exists k w',
    (forall fuel, k <= fuel ->
                  deleteFileOrDirectory fuel pathToDelete "" w = Some w')
    /\ tree w' = set_at (Str.resolve pathToDelete) None (tree w)
    /\ data w' = data w
    /\ forall s,
        if is_prefix (Str.resolve pathToDelete) (Str.resolve s)
        then isFileOrDirectory s w' = false
        else stat s w' = stat s w.
Proof.
  intros Es Rs Hn Dn W. pose proof (directories_only_clean n Dn) as C.
  destruct (delete_subtree None (size n) n pathToDelete w [] (le_n _) Es Rs Hn C W)
    as (k & w' & T & L).
  assert (R : forall fuel, k <= fuel ->
                deleteFileOrDirectory fuel pathToDelete "" w = Some w').
  { intros fuel Hk. unfold deleteFileOrDirectory. rewrite Es.
    cbn [negb open_log String.eqb].
    replace fuel with (k + (fuel - k)) by lia.
    rewrite L. destruct (fuel - k); reflexivity. }
  assert (D : data w' = data w).
  { apply (delete_loop_data (k + 0) [pathToDelete]). rewrite L. reflexivity. }
  exists k, w'. repeat split; try assumption.
  intros s. destruct (is_prefix (Str.resolve pathToDelete) (Str.resolve s)) eqn:P.
  - apply is_prefix_true in P. destruct P as [r P].
    unfold isFileOrDirectory, stat, node_at.
    destruct (String.eqb s ""); [reflexivity|].
    now rewrite T, P, lookup_set_at_under_none.
  - apply stat_shape; [|now rewrite D].
    unfold shape_at. rewrite T. now apply lookup_set_at_outside.
Qed.

(** * Copying a batch into a directory *)

(** ** Paths at, below and apart from a path *)

Lemma is_prefix_comparable (a b t : path) :
  is_prefix a t = true -> is_prefix b t = true ->
  is_prefix a b = true \/ is_prefix b a = true.
Proof.
  revert b t. induction a as [|x a IH]; intros b t Ha Hb; [now left|].
  destruct b as [|y b]; [now right|].
  destruct t as [|z t]; [discriminate|].
  unfold is_prefix in *. cbn [strip_prefix] in *.
  destruct (String.eqb x z) eqn:Exz; [|discriminate].
  destruct (String.eqb y z) eqn:Eyz; [|discriminate].
  apply String.eqb_eq in Exz, Eyz. subst x y. rewrite String.eqb_refl.
  exact (IH b t Ha Hb).
Qed.

Lemma apart_not_above (s d t : path) :
  apart s d -> is_prefix d t = true -> is_prefix s t = false.
Proof.
  intros [A1 A2] Hd. destruct (is_prefix s t) eqn:Hs; [|reflexivity].
  destruct (is_prefix_comparable s d t Hs Hd) as [H|H]; congruence.
Qed.

Lemma apart_not_below (s d t : path) :
  apart s d -> is_prefix d t = true -> is_prefix t s = false.
Proof.
  intros [A1 A2] Hd. destruct (is_prefix t s) eqn:Hs; [|reflexivity].
  rewrite (is_prefix_trans d t s Hd Hs) in A2. discriminate.
Qed.

Lemma apart_child (s d : path) (x : string) : apart s d -> apart (s ++ [x]) d.
Proof.
  intros [A1 A2]. split.
  - destruct (is_prefix (s ++ [x]) d) eqn:H; [|reflexivity].
    rewrite (is_prefix_trans s (s ++ [x]) d (is_prefix_app s [x]) H) in A1.
    discriminate.
  - destruct (is_prefix d (s ++ [x])) eqn:H; [|reflexivity].
    apply is_prefix_true in H. destruct H as [r H].
    destruct (exists_last (l := r)) as (r' & y & ->).
    + intros ->. rewrite app_nil_r in H. subst d.
      rewrite is_prefix_app in A1. discriminate.
    + rewrite app_assoc in H. apply app_inj_tail in H. destruct H as [-> _].
      rewrite is_prefix_app in A2. discriminate.
Qed.

Lemma apart_below (s d r : path) :
  apart s d -> is_prefix d (s ++ r) = false.
Proof.
  intros A. induction r as [|x r IH] using rev_ind.
  - rewrite app_nil_r. apply A.
  - rewrite app_assoc.
    assert (A' : apart (s ++ r) d).
    { clear IH. induction r as [|y r IHr] using rev_ind.
      - now rewrite app_nil_r.
      - rewrite app_assoc. now apply apart_child. }
    apply (apart_child _ _ x A').
Qed.

(** ** String prefixes *)

Lemma prefix_refl (d : string) : String.prefix d d = true.
Proof.
  induction d as [|c d IH]; [reflexivity|]. simpl.
  destruct (ascii_dec c c); [exact IH|congruence].
Qed.

Lemma prefix_append (d t x : string) :
  String.prefix d t = true -> String.prefix d (t +++ x) = true.
Proof.
  revert t. induction d as [|c d IH]; intros t H;
    [destruct (t +++ x); reflexivity|].
  destruct t as [|c' t]; [discriminate|]. simpl in *.
  destruct (ascii_dec c c'); [now apply IH|discriminate].
Qed.

Lemma prefix_trans (a b c : string) :
  String.prefix a b = true -> String.prefix b c = true -> String.prefix a c = true.
Proof.
  intros H1 H2. destruct (prefix_substr _ _ H2) as (r & _ & <-).
  now apply prefix_append.
Qed.

Lemma prefix_resolve (d t : string) :
  Str.ends_with_slash d = true -> String.prefix d t = true ->
  is_prefix (Str.resolve d) (Str.resolve t) = true.
Proof.
  intros E H. destruct (prefix_substr _ _ H) as (r & _ & <-).
  rewrite (resolve_app_slash d r E). apply is_prefix_app.
Qed.

(** ** What is set at a path and the entries that are not above it *)

Lemma lookup_set_at_fresh (s a : path) (t v : node) :
  lookup a t = None -> leaf v -> is_prefix s a = false ->
  lookup s (set_at a (Some v) t) = lookup s t.
Proof.
  intros Ha L Hs. destruct (is_prefix a s) eqn:P.
  - assert (N : s <> a) by (intros ->; rewrite is_prefix_refl in Hs; discriminate).
    pose proof (lookup_set_at_some_leaf s a t v Ha L N) as H.
    apply is_prefix_true in P. destruct P as [r ->].
    rewrite (lookup_app a r t), Ha in H. rewrite (lookup_app a r t), Ha.
    destruct (lookup (a ++ r) (set_at a (Some v) t)); [discriminate|reflexivity].
  - now apply lookup_set_at_apart.
Qed.

Lemma lookup_set_at_gone (s a : path) (t n : node) :
  lookup a t = Some n -> leaf n -> is_prefix s a = false ->
  lookup s (set_at a None t) = lookup s t.
Proof.
  intros Ha L Hs. destruct (is_prefix a s) eqn:P.
  - assert (N : s <> a) by (intros ->; rewrite is_prefix_refl in Hs; discriminate).
    pose proof (lookup_set_at_none_leaf s a t n Ha L N) as H.
    apply is_prefix_true in P. destruct P as [r ->].
    destruct r as [|x r]; [now rewrite app_nil_r in N|].
    rewrite (lookup_app a (x :: r) t), Ha, (lookup_leaf n x r L) in H.
    rewrite (lookup_app a (x :: r) t), Ha, (lookup_leaf n x r L).
    destruct (lookup (a ++ x :: r) (set_at a None t)); [discriminate|reflexivity].
  - now apply lookup_set_at_apart.
Qed.

(** ** Calls that work on one entry *)

Lemma quiet_plan (w w' : world) :
  quiet_view w' = quiet_view w -> plan_view w' = plan_view w.
Proof.
  unfold quiet_view, calm_view, plan_view. intros H. injection H. intros.
  congruence.
Qed.

Lemma plan_view_eq (w w' : world) :
  plan_view w' = plan_view w ->
  abortFileOp w' = abortFileOp w /\ fopen_fault w' = fopen_fault w
  /\ fwrite_cap w' = fwrite_cap w /\ COPY_BUFFER_SIZE w' = COPY_BUFFER_SIZE w.
Proof. unfold plan_view. intros H. injection H. intros. repeat split; assumption. Qed.

Lemma touches_same (t : path) (w w' : world) :
  tree w' = tree w -> data w' = data w -> plan_view w' = plan_view w ->
  List.length (diagnostics (trace w)) <= List.length (diagnostics (trace w')) ->
  touches t w w'.
Proof. intros T D P L. repeat split; intros; congruence || assumption. Qed.

Lemma touches_refl (t : path) (w : world) : touches t w w.
Proof. apply touches_same; reflexivity || apply le_n. Qed.

Lemma touches_trans (t : path) (w w1 w2 : world) :
  touches t w w1 -> touches t w1 w2 -> touches t w w2.
Proof.
  intros (T1 & D1 & P1 & L1) (T2 & D2 & P2 & L2). repeat split.
  - intros s H. now rewrite T2, T1.
  - intros q H. now rewrite D2, D1.
  - congruence.
  - lia.
Qed.

(** A call that changes no content may as well have worked further down. *)
Lemma touches_up (t t' : path) (w w' : world) :
  touches t w w' -> data w' = data w -> is_prefix t t' = true -> touches t' w w'.
Proof.
  intros (T & _ & P & L) D Ht. repeat split; try assumption.
  - intros s H. apply T. destruct (is_prefix s t) eqn:E; [|reflexivity].
    now rewrite (is_prefix_trans s t t' E Ht) in H.
  - intros q _. now rewrite D.
Qed.

Lemma kept_outside_refl (d : path) (w : world) : kept_outside d w w.
Proof. repeat split; reflexivity || apply le_n. Qed.

Lemma kept_outside_trans (d : path) (w w1 w2 : world) :
  kept_outside d w w1 -> kept_outside d w1 w2 -> kept_outside d w w2.
Proof.
  intros (T1 & D1 & P1 & L1) (T2 & D2 & P2 & L2). repeat split.
  - intros s H. now rewrite T2, T1.
  - intros q H. now rewrite D2, D1.
  - congruence.
  - lia.
Qed.

Lemma touches_outside (d t : path) (w w' : world) :
  touches t w w' -> is_prefix d t = true -> kept_outside d w w'.
Proof.
  intros (T & D & P & L) Hd. repeat split; try assumption.
  - intros s A. apply T. exact (apart_not_above s d t A Hd).
  - intros q H. apply D. intros ->. congruence.
Qed.

Lemma touches_mkdir (s : string) (w : world) :
  touches (Str.resolve s) w (snd (mkdir s w)).
Proof.
  pose proof (quiet_plan _ _ (quiet_mkdir s w)) as P.
  pose proof (trace_mkdir s w) as Tr.
  unfold mkdir in *. destruct (String.eqb s ""); [apply touches_refl|].
  cbv zeta in *.
  destruct (lookup (Str.resolve s) (tree w)) eqn:E; [apply touches_refl|].
  destruct (lookup (parent (Str.resolve s)) (tree w)) as [[]|];
    try apply touches_refl.
  cbn [snd] in *. repeat split.
  - intros q H. rewrite tree_set_tree. now apply lookup_set_at_fresh.
  - intros q _. now rewrite data_set_tree.
  - exact P.
  - rewrite Tr. apply le_n.
Qed.

Lemma data_mkdir (s : string) (w : world) : data (snd (mkdir s w)) = data w.
Proof.
  unfold mkdir. repeat break_match; cbn [snd]; rewrite ?data_set_tree; reflexivity.
Qed.

Lemma touches_createSingleDirectory (s : string) (w : world) :
  touches (Str.resolve s) w (createSingleDirectory s w)
  /\ data (createSingleDirectory s w) = data w.
Proof.
  unfold createSingleDirectory.
  pose proof (touches_mkdir s w) as H. pose proof (data_mkdir s w) as D.
  destruct (mkdir s w) as [[[]|] w']; cbn [snd] in H, D; split;
    try exact H; try exact D;
    (eapply touches_trans; [exact H|]);
    apply touches_same; try reflexivity; cbn; lia.
Qed.

Lemma touches_levels (t : path) (levels : list string) (w : world) :
  Forall (fun L => is_prefix (Str.resolve L) t = true) levels ->
  touches t w (fold_left (fun w L => createSingleDirectory L w) levels w)
  /\ data (fold_left (fun w L => createSingleDirectory L w) levels w) = data w.
Proof.
  revert w. induction levels as [|L levels IH]; intros w F; cbn [fold_left].
  - split; [apply touches_refl|reflexivity].
  - inversion F as [|? ? HL F']; subst.
    destruct (touches_createSingleDirectory L w) as [H D].
    destruct (IH (createSingleDirectory L w) F') as [H' D']. split.
    + eapply touches_trans; [|exact H']. exact (touches_up _ _ _ _ H D HL).
    + now rewrite D', D.
Qed.

(** Every level of a walk lies on the way to where it ends. *)
Lemma createDirectory_levels_prefix (rest : string) :
  forall seg pp,
    (forall x, Str.resolve (pp +++ x) = Str.resolve pp ++ Str.resolve x) ->
    Forall (fun L => is_prefix (Str.resolve L)
                               (Str.resolve pp ++ Str.resolve (seg +++ rest)) = true)
           (createDirectory_levels rest seg pp).
Proof.
  induction rest as [|c rest IH]; intros seg pp H.
  - cbn [createDirectory_levels]. rewrite append_empty_r.
    destruct (String.eqb seg ""); constructor; [|constructor].
    rewrite H. apply is_prefix_refl.
  - cbn [createDirectory_levels]. destruct (Ascii.eqb c "/") eqn:C.
    + apply Ascii.eqb_eq in C. subst c.
      change (seg +++ String "/" rest) with (seg +++ "/" +++ rest).
      destruct (String.eqb seg "") eqn:E.
      * apply String.eqb_eq in E. subst seg.
        specialize (IH "" pp H). cbn [String.append] in IH.
        change ("" +++ "/" +++ rest) with ("/" +++ rest).
        rewrite resolve_slash_first. exact IH.
      * set (pp' := pp +++ seg +++ "/").
        assert (R' : Str.resolve pp' = Str.resolve pp ++ Str.resolve seg).
        { unfold pp'. rewrite H. now rewrite resolve_dir. }
        assert (H' : forall x,
                   Str.resolve (pp' +++ x) = Str.resolve pp' ++ Str.resolve x).
        { intros x. unfold pp' at 1.
          rewrite !append_assoc, H, resolve_app, R'. now rewrite app_assoc. }
        specialize (IH "" pp' H'). cbn [String.append] in IH.
        rewrite resolve_app, app_assoc, <- R'. constructor; [|exact IH].
        apply is_prefix_app.
    + specialize (IH (seg +++ String c "") pp H).
      rewrite append_assoc in IH. exact IH.
Qed.

Lemma touches_createDirectory (t : string) (w : world) :
  Str.ends_with_slash ROOT_PATH = true -> String.prefix ROOT_PATH t = true ->
  touches (Str.resolve t) w (createDirectory t w)
  /\ data (createDirectory t w) = data w.
Proof.
  intros Er Hp. unfold createDirectory. cbv zeta. rewrite Hp.
  destruct (prefix_substr _ _ Hp) as (rest & Hrest & Hd).
  rewrite Hrest, createDirectory_walk_levels.
  apply touches_levels.
  pose proof (createDirectory_levels_prefix rest "" ROOT_PATH
                (fun x => resolve_app_slash ROOT_PATH x Er)) as F.
  cbn [String.append] in F.
  now rewrite <- Hd, (resolve_app_slash ROOT_PATH rest Er).
Qed.

Lemma touches_fopen (s : string) (m : open_mode) (w : world) :
  touches (Str.resolve s) w (snd (fopen s m w)).
Proof.
  pose proof (quiet_plan _ _ (quiet_fopen s m w)) as P.
  pose proof (trace_fopen s m w) as Tr.
  pose proof (fopen_elsewhere s m w) as El.
  repeat split; [|intros q N; now destruct (El q N)|exact P|rewrite Tr; apply le_n].
  clear P Tr El. intros q H. unfold fopen.
  destruct (fopen_fault w (fopens w)); [reflexivity|]. cbv zeta.
  change (tree (set_fopens (S (fopens w)) w)) with (tree w).
  unfold node_at. destruct (String.eqb s "") eqn:Es; [destruct m; reflexivity|].
  destruct (lookup (Str.resolve s) (tree w)) as [[]|] eqn:E;
    try (destruct m; reflexivity).
  destruct m; try reflexivity;
    (destruct (is_dir _); [|reflexivity]); cbn [snd];
    change (tree (set_data ?d ?x)) with (tree x);
    rewrite (tree_set_tree_at (Str.resolve s) (Some File) w);
    now apply lookup_set_at_fresh.
Qed.

Lemma touches_remove (s : string) (w : world) :
  touches (Str.resolve s) w (snd (remove s w)).
Proof.
  pose proof (quiet_plan _ _ (quiet_remove s w)) as P.
  pose proof (trace_remove s w) as Tr.
  pose proof (data_remove s w) as D.
  repeat split; [|intros q _; now rewrite D|exact P|rewrite Tr; apply le_n].
  clear P Tr D. intros q H. unfold remove, node_at.
  destruct (String.eqb s ""); [reflexivity|].
  destruct (lookup (Str.resolve s) (tree w)) as [[]|] eqn:E; try reflexivity;
    cbn [snd]; rewrite tree_set_tree;
    (eapply lookup_set_at_gone; [exact E|exact I|exact H]).
Qed.

Lemma touches_append_bytes (s : string) (bs : list Byte.byte) (w : world) :
  touches (Str.resolve s) w (append_bytes s bs w).
Proof.
  pose proof (append_bytes_elsewhere s bs w) as El.
  repeat split.
  - intros q _. now rewrite tree_append_bytes.
  - intros q N. now destruct (El q N).
  - apply quiet_plan, quiet_append_bytes.
  - rewrite trace_append_bytes. apply le_n.
Qed.

Lemma touches_fclose (s : string) (w : world) :
  touches (Str.resolve s) w (fclose s w).
Proof.
  pose proof (fclose_elsewhere s w) as El.
  repeat split.
  - intros q _. now rewrite tree_fclose.
  - intros q N. now destruct (El q N).
  - apply quiet_plan, quiet_fclose.
  - rewrite trace_fclose. apply le_n.
Qed.

Lemma touches_logMessage (t : path) (m : string) (w : world) :
  touches t w (logMessage m w).
Proof. apply touches_same; try reflexivity. cbn. lia. Qed.

Lemma touches_store_percentage (t : path) (v : Z) (w : world) :
  touches t w (store_percentage v w).
Proof. apply touches_same; reflexivity. Qed.

(** ** One file of the batch *)

Lemma touches_open_loop (slack rc : nat) (fromFile toFile : string) (w : world) :
  touches (Str.resolve toFile) w (snd (open_loop slack rc fromFile toFile w))
  /\ (fst (open_loop slack rc fromFile toFile w) = false ->
      List.length (diagnostics (trace w))
      < List.length (diagnostics (trace (snd (open_loop slack rc fromFile toFile w))))).
Proof.
  revert rc w. induction slack as [|slack IH]; intros rc w; cbn [open_loop];
    destruct (fopen_read_same fromFile w) as [T1 D1];
    pose proof (quiet_plan _ _ (quiet_fopen fromFile ReadBinary w)) as P1;
    pose proof (trace_fopen fromFile ReadBinary w) as R1;
    destruct (fopen fromFile ReadBinary w) as [src w1]; cbn [snd] in T1, D1, P1, R1;
    assert (H1 : touches (Str.resolve toFile) w w1)
      by (apply touches_same; try assumption; rewrite R1; apply le_n);
    pose proof (touches_fopen toFile WriteBinary w1) as H2;
    destruct (fopen toFile WriteBinary w1) as [dst w2]; cbn [snd] in H2;
    pose proof (touches_trans _ _ _ _ H1 H2) as H12;
    assert (H3 : touches (Str.resolve toFile) w (emit (EvOpen src dst) w2))
      by (eapply touches_trans; [exact H12|];
          apply touches_same; reflexivity || apply le_n);
    destruct (src && dst); cbn [fst snd];
    try (split; [exact H3|discriminate]);
    set (w4 := logMessage _ (emit (EvOpen src dst) w2));
    assert (L4 : List.length (diagnostics (trace w))
                 < List.length (diagnostics (trace w4)))
      by (destruct H3 as (_ & _ & _ & L3); unfold w4; cbn in L3 |- *; lia);
    assert (H4 : touches (Str.resolve toFile) w w4)
      by (eapply touches_trans; [exact H3|apply touches_logMessage]);
    destruct (Nat.ltb maxRetries (S rc)); cbn [fst snd];
    try (split; [eapply touches_trans; [exact H4|apply touches_logMessage]
                |intros _; cbn; cbn in L4; lia]).
  destruct (IH (S rc) w4) as [H5 _]. split.
  - eapply touches_trans; [exact H4|exact H5].
  - intros _. destruct H5 as (_ & _ & _ & L5). lia.
Qed.

Lemma fwrite_data_other (s : string) (bs : list Byte.byte) (w : world) (q : path) :
  q <> Str.resolve s -> data (snd (fwrite s bs w)) q = data w q.
Proof.
  intros N. unfold fwrite. cbn [snd].
  match goal with
  | |- data (append_bytes s ?l ?x) q = _ =>
      now destruct (append_bytes_elsewhere s l x q N)
  end.
Qed.

Lemma fwrite_all_data_other (s : string) (q : path) :
  q <> Str.resolve s ->
  forall fuel bs w, data (snd (fwrite_all fuel s bs w)) q = data w q.
Proof.
  intros N. induction fuel as [|fuel IH]; intros bs w; [reflexivity|].
  cbn [fwrite_all]. destruct bs as [|b bs]; [reflexivity|].
  pose proof (fwrite_data_other s (b :: bs) w q N) as H.
  destruct (fwrite s (b :: bs) w) as [n w1]. cbn [snd] in H.
  destruct (Nat.eqb n 0); cbn [snd]; [exact H|]. now rewrite IH.
Qed.

Lemma io_plan (w w' : world) : io_view w' = io_view w -> plan_view w' = plan_view w.
Proof. unfold io_view, plan_view. intros H. injection H. intros. congruence. Qed.

Lemma touches_write_chunk (toFile : string) (chunk : list Byte.byte) (w : world) :
  touches (Str.resolve toFile) w (snd (write_chunk toFile chunk w)).
Proof.
  pose proof (io_write_chunk toFile chunk w) as Io.
  pose proof (io_plan _ _ Io) as P. apply io_view_eq in Io.
  destruct Io as (T & _ & Tr & _). repeat split; try assumption.
  - intros q _. now rewrite T.
  - intros q N. unfold write_chunk. destruct NO_FSTREAM_DIRECTIVE.
    + now apply fwrite_all_data_other.
    + pose proof (fwrite_data_other toFile chunk w q N) as H.
      destruct (fwrite toFile chunk w). exact H.
  - rewrite Tr. apply le_n.
Qed.

Lemma touches_copy_chunks chunks toFile copied total w :
  touches (Str.resolve toFile) w (snd (copy_chunks chunks toFile copied total w)).
Proof.
  revert copied w. induction chunks as [|c r IH]; intros copied w;
    [apply touches_refl|].
  cbn [copy_chunks]. unfold load_abort.
  assert (H0 : touches (Str.resolve toFile) w (set_loads (S (loads w)) w))
    by (apply touches_same; reflexivity || apply le_n).
  destruct (abortFileOp w (loads w)); cbn [snd].
  - eapply touches_trans; [exact H0|].
    eapply touches_trans; [apply touches_remove|apply touches_store_percentage].
  - pose proof (touches_write_chunk toFile c (set_loads (S (loads w)) w)) as H1.
    destruct (write_chunk toFile c (set_loads (S (loads w)) w)) as [[] w2];
      cbn [snd] in H1 |- *.
    + eapply touches_trans; [exact H0|]. eapply touches_trans; [exact H1|].
      destruct (0 <? total)%Z; [|apply IH].
      eapply touches_trans; [apply touches_store_percentage|apply IH].
    + eapply touches_trans; [exact H0|]. eapply touches_trans; [exact H1|].
      eapply touches_trans; [apply touches_logMessage|].
      eapply touches_trans; [apply touches_remove|apply touches_store_percentage].
Qed.

(** A copy without logs leaves alone what is apart from the directory its
    destination lies in. *)
Lemma copySingleFile_outside (d : path) fromFile toFile c total w :
  Str.ends_with_slash ROOT_PATH = true ->
  String.prefix ROOT_PATH (getParentDirFromPath toFile) = true ->
  is_prefix d (Str.resolve (getParentDirFromPath toFile)) = true ->
  is_prefix d (Str.resolve toFile) = true ->
  kept_outside d w (snd (copySingleFile fromFile toFile c total "" "" w)).
Proof.
  intros Er Hp Hd Ht. rewrite copySingleFile_unfold. cbv zeta.
  cbn [open_log String.eqb fst snd].
  destruct (touches_createDirectory (getParentDirFromPath toFile) w Er Hp) as [H0 _].
  apply (fun H => touches_outside d _ _ _ H Hd) in H0.
  set (w0 := createDirectory (getParentDirFromPath toFile) w) in *.
  destruct (touches_open_loop maxRetries 0 fromFile toFile w0) as [H1 _].
  apply (fun H => touches_outside d _ _ _ H Ht) in H1.
  pose proof (kept_outside_trans _ _ _ _ H0 H1) as H01.
  destruct (fst (open_loop maxRetries 0 fromFile toFile w0)); [|exact H01].
  set (w1 := snd (open_loop maxRetries 0 fromFile toFile w0)) in *.
  pose proof (touches_copy_chunks
                (read_chunks (COPY_BUFFER_SIZE w1) (data w1 (Str.resolve fromFile)))
                toFile c total w1) as H2.
  apply (fun H => touches_outside d _ _ _ H Ht) in H2.
  pose proof (kept_outside_trans _ _ _ _ H01 H2) as H012.
  destruct (fst (fst (copy_chunks _ toFile c total w1))) eqn:Er'; try exact H012.
  cbn [snd]. rewrite finish_copy_plain.
  eapply kept_outside_trans; [exact H012|].
  exact (touches_outside d _ _ _ (touches_fclose toFile _) Ht).
Qed.

(** Without aborts and short writes every chunk is counted. *)
Lemma copy_chunks_count chunks toFile copied total w :
  undisturbed w -> (0 <= copied)%Z ->
  (copied + total_length chunks <= LLONG_MAX)%Z ->
  snd (fst (copy_chunks chunks toFile copied total w))
  = (copied + total_length chunks)%Z.
Proof.
  revert copied w. induction chunks as [|c r IH]; intros copied w U Hc Hm.
  - cbn. unfold total_length. cbn. lia.
  - cbn [copy_chunks]. unfold load_abort.
    destruct U as [A F]. rewrite (A (loads w)).
    set (w1 := set_loads (S (loads w)) w).
    assert (F1 : forall n, fwrite_cap w1 n = None) by exact F.
    pose proof (write_chunk_uncapped toFile c w1 F1) as Ok.
    pose proof (io_write_chunk toFile c w1) as Io. apply io_view_eq in Io.
    destruct Io as (_ & _ & _ & _ & Ab & Fw & _).
    destruct (write_chunk toFile c w1) as [ok w2]. cbn [fst snd] in Ok, Ab, Fw.
    subst ok. rewrite total_length_cons in Hm |- *.
    pose proof (total_length_nonneg r) as Hr.
    rewrite ll_add_exact by lia.
    rewrite IH; [lia| |lia|lia].
    split; intros n; destruct (0 <? total)%Z;
      [change (abortFileOp w2 n = false)|change (abortFileOp w2 n = false)
      |change (fwrite_cap w2 n = None)|change (fwrite_cap w2 n = None)];
      rewrite ?Ab, ?Fw; [apply A|apply A|apply F|apply F].
Qed.

Lemma total_length_read_all (n : nat) (l : list Byte.byte) :
  0 < n -> total_length (read_chunks n l) = Z.of_nat (List.length l).
Proof. intros H. unfold total_length. now rewrite concat_read_chunks. Qed.

(** The copy of a regular file of the batch counts its bytes, unless the
    opening fails, which is logged. *)
Lemma copySingleFile_counts fromFile toFile c total w :
  file_at fromFile w -> Str.resolve fromFile <> Str.resolve toFile ->
  undisturbed w -> 0 < COPY_BUFFER_SIZE w -> (0 <= c)%Z ->
  (c + Z.of_nat (List.length (data w (Str.resolve fromFile))) <= LLONG_MAX)%Z ->
  let r := copySingleFile fromFile toFile c total "" "" w in
  snd (fst r) = (c + Z.of_nat (List.length (data w (Str.resolve fromFile))))%Z
  \/ (snd (fst r) = c
      /\ List.length (diagnostics (trace w))
         < List.length (diagnostics (trace (snd r)))).
Proof.
  intros Ff Ne U Hb Hc Hm. cbv zeta.
  pose proof (copy_ready_state fromFile toFile "" "" w) as R.
  pose proof (copy_source_content fromFile toFile "" "" w) as Sc.
  rewrite copySingleFile_unfold. cbv zeta in R, Sc |- *.
  cbn [open_log String.eqb fst snd] in R, Sc |- *.
  destruct R as (C & _ & _).
  pose proof (diagnostics_createDirectory (getParentDirFromPath toFile) w) as L0.
  set (w0 := createDirectory (getParentDirFromPath toFile) w) in *.
  destruct (touches_open_loop maxRetries 0 fromFile toFile w0) as [_ L1].
  destruct (fst (open_loop maxRetries 0 fromFile toFile w0)) eqn:Eo.
  - left. specialize (Sc eq_refl).
    rewrite (path_eqb_neq _ _ Ne) in Sc. rewrite Sc.
    set (w1 := snd (open_loop maxRetries 0 fromFile toFile w0)) in *.
    pose proof (nested_progress_calm total w c w1 C) as P2.
    pose proof (undisturbed_progress _ _ _ _ _ U P2) as U1.
    apply calm_view_eq in C. destruct C as (_ & _ & _ & _ & _ & _ & _ & Cb).
    rewrite Cb.
    set (chunks := read_chunks (COPY_BUFFER_SIZE w) (data w (Str.resolve fromFile))).
    pose proof (total_length_read_all (COPY_BUFFER_SIZE w)
                  (data w (Str.resolve fromFile)) Hb) as Tl.
    fold chunks in Tl.
    pose proof (copy_chunks_count chunks toFile c total w1 U1 Hc) as Cn.
    rewrite Tl in Cn. specialize (Cn Hm).
    destruct (fst (fst (copy_chunks chunks toFile c total w1))); exact Cn.
  - right. split; [reflexivity|]. cbn [snd]. specialize (L1 eq_refl). lia.
Qed.

(** ** The copy loop on sources apart from the destination *)

Lemma kept_outside_same (d : path) (w w' : world) :
  tree w' = tree w -> data w' = data w -> plan_view w' = plan_view w ->
  List.length (diagnostics (trace w)) <= List.length (diagnostics (trace w')) ->
  kept_outside d w w'.
Proof. intros T D P L. repeat split; intros; congruence || assumption. Qed.

Lemma sum_du_nonneg (w : world) (l : list string) : (0 <= sum_du w l)%Z.
Proof.
  induction l as [|s l IH]; simpl; [lia|].
  assert (0 <= du_at w s)%Z; [|lia].
  unfold du_at. destruct (node_at (tree w) s); [apply du_nonneg|lia].
Qed.

Lemma sum_du_cons (w : world) (s : string) (l : list string) :
  sum_du w (s :: l) = (du_at w s + sum_du w l)%Z.
Proof. reflexivity. Qed.

Lemma sum_size_cons (w : world) (s : string) (l : list string) :
  sum_size w (s :: l) = size_at w s + sum_size w l.
Proof. reflexivity. Qed.

(** The entries of a directory, each under its own path, add up to what
    the directory holds. *)
Lemma children_sums (w : world) (f : string) (r : bool) (es : list (string * node)) :
  node_at (tree w) f = Some (Dir r es) -> wf (Dir r es) ->
  forall l, incl l es ->
    sum_size w (map (fun x => f +++ "/" +++ x) (names l)) = sizes l
    /\ sum_du w (map (fun x => f +++ "/" +++ x) (names l))
       = du_entries (data w) (Str.resolve f) l.
Proof.
  intros Hf W. induction l as [|[x c] l IH]; intros I; [split; reflexivity|].
  assert (Ic : In (x, c) es) by (apply I; now left).
  assert (Il : incl l es) by (intros e He; apply I; now right).
  destruct (node_at_child w f r es x c Hf W Ic) as (_ & _ & Hn & Hr).
  destruct (IH Il) as [S D].
  cbn [names map fst]. rewrite sum_size_cons, sum_du_cons.
  unfold size_at, du_at. rewrite Hn, Hr.
  cbn [sizes du_entries fold_right fst snd].
  fold (sizes l). fold (du_entries (data w) (Str.resolve f) l).
  unfold names in S, D. now rewrite S, D.
Qed.

Section Batch.

Variable toDirectory : string.
Variable W0 : world.
Variable total : Z.

Hypothesis root_slash : Str.ends_with_slash ROOT_PATH = true.
Hypothesis on_volume : String.prefix ROOT_PATH toDirectory = true.
Hypothesis dir_slash : Str.ends_with_slash toDirectory = true.
Hypothesis parent_stays :
  forall t, String.prefix toDirectory t = true ->
            String.prefix toDirectory (getParentDirFromPath t) = true.
Hypothesis calm0 : undisturbed W0.
Hypothesis buffer0 : 0 < COPY_BUFFER_SIZE W0.

Lemma under_directory (t : string) :
  String.prefix toDirectory t = true ->
  is_prefix (Str.resolve toDirectory) (Str.resolve t) = true
  /\ String.prefix ROOT_PATH t = true.
Proof using dir_slash on_volume.
  intros H. split; [now apply prefix_resolve|].
  exact (prefix_trans _ _ _ on_volume H).
Qed.

Lemma node_at_outside (w : world) (f : string) :
  kept_outside (Str.resolve toDirectory) W0 w ->
  apart (Str.resolve f) (Str.resolve toDirectory) ->
  node_at (tree w) f = node_at (tree W0) f.
Proof.
  intros (T & _) A. unfold node_at. destruct (String.eqb f ""); [reflexivity|].
  now apply T.
Qed.

Lemma undisturbed_outside (w : world) :
  kept_outside (Str.resolve toDirectory) W0 w ->
  undisturbed w /\ 0 < COPY_BUFFER_SIZE w.
Proof using calm0 buffer0.
  intros (_ & _ & P & _). apply plan_view_eq in P.
  destruct P as (A & _ & F & B). destruct calm0 as [A0 F0].
  split; [split; intros n; [rewrite A|rewrite F]; auto|]. now rewrite B.
Qed.

Lemma queued_children (f t : string) (es : list (string * node)) :
  queued toDirectory W0 (f, t) ->
  node_at (tree W0) f = Some (Dir true es) ->
  sub_paths f t ("." :: ".." :: names es)
  = map (fun x => (f +++ "/" +++ x, t +++ "/" +++ x)) (names es)
  /\ Forall (queued toDirectory W0)
            (map (fun x => (f +++ "/" +++ x, t +++ "/" +++ x)) (names es)).
Proof.
  intros (A & P & n & Hn & C & W) Hf. cbn [fst snd] in *.
  rewrite Hf in Hn. injection Hn as <-.
  pose proof W as W'. apply wf_dir in W'. destruct W' as [_ V].
  apply clean_dir in C. destruct C as [_ C].
  split.
  - unfold sub_paths.
    change (filter (fun n => negb (is_dot n)) ("." :: ".." :: names es))
      with (filter (fun n => negb (is_dot n)) (names es)).
    now rewrite (filter_valid_names es V).
  - unfold names. rewrite map_map. apply Forall_map, Forall_forall.
    intros [x c] I. cbn [fst].
    destruct (node_at_child W0 f true es x c Hf W I) as (_ & Wc & Hc & Hr).
    rewrite Forall_forall in C. pose proof (C _ I) as Cc. cbn [snd] in Cc.
    repeat split; cbn [fst snd].
    + rewrite Hr. apply apart_child, A.
    + rewrite Hr. apply apart_child, A.
    + now apply prefix_append.
    + exists c. repeat split; assumption.
Qed.

Lemma copy_loop_batch :
  forall fuel queue c w,
    kept_outside (Str.resolve toDirectory) W0 w ->
    Forall (queued toDirectory W0) queue ->
    sum_size W0 (map fst queue) <= fuel ->
    (0 <= c)%Z -> (c + sum_du W0 (map fst queue) <= LLONG_MAX)%Z ->
    exists c' w',
      copy_loop fuel queue c total "" "" w = Some (true, c', w')
      /\ kept_outside (Str.resolve toDirectory) w w'
      /\ (c <= c' <= c + sum_du W0 (map fst queue))%Z
      /\ (List.length (diagnostics (trace w'))
          = List.length (diagnostics (trace w)) ->
          c' = (c + sum_du W0 (map fst queue))%Z).
Proof using root_slash on_volume dir_slash parent_stays calm0 buffer0.
  induction fuel as [|fuel IH]; intros queue c w K Q Hf Hc Hm.
  - destruct queue as [|[f t] rest].
    + exists c, w. cbn. split; [reflexivity|].
      split; [apply kept_outside_refl|]. split; [lia|]. intros _. lia.
    + exfalso. inversion Q as [|? ? (_ & _ & n & Hn & _) _]; subst.
      cbn [map fst] in Hf, Hn. rewrite sum_size_cons in Hf.
      unfold size_at in Hf. rewrite Hn in Hf. pose proof (size_pos n). lia.
  - destruct queue as [|[f t] rest].
    + exists c, w. cbn. split; [reflexivity|].
      split; [apply kept_outside_refl|]. split; [lia|]. intros _. lia.
    + inversion Q as [|? ? Qh Q']; subst.
      pose proof Qh as (A & P & n & Hn & Cn & Wn). cbn [fst snd] in A, P, Hn.
      cbn [map fst] in Hf, Hm |- *.
      rewrite sum_size_cons in Hf. rewrite sum_du_cons in Hm |- *.
      pose proof (sum_du_nonneg W0 (map fst rest)) as Hr.
      destruct (undisturbed_outside w K) as [U Hb].
      cbn [copy_loop]. unfold load_abort. rewrite (proj1 U (loads w)).
      set (w1 := set_loads (S (loads w)) w).
      assert (K1 : kept_outside (Str.resolve toDirectory) w w1)
        by (apply kept_outside_same; reflexivity || apply le_n).
      assert (N1 : node_at (tree w1) f = Some n).
      { change (tree w1) with (tree w). now rewrite (node_at_outside w f K A). }
      unfold stat. rewrite N1. unfold size_at, du_at in Hf, Hm |- *.
      rewrite Hn in Hf, Hm |- *.
      destruct n as [|r es|].
      * set (toFilePath := getParentDirFromPath t +++ "/" +++ getNameFromPath f).
        set (w2 := createDirectory (getParentDirFromPath toFilePath) w1).
        assert (Pt : String.prefix toDirectory toFilePath = true).
        { unfold toFilePath. apply prefix_append. now apply parent_stays. }
        pose proof (parent_stays _ Pt) as Pp.
        destruct (under_directory _ Pt) as [Dt _].
        destruct (under_directory _ Pp) as [Dp Rp].
        assert (K2 : kept_outside (Str.resolve toDirectory) w1 w2).
        { destruct (touches_createDirectory _ w1 root_slash Rp) as [H _].
          exact (touches_outside _ _ _ _ H Dp). }
        pose proof (copySingleFile_outside (Str.resolve toDirectory) f toFilePath
                      c total w2 root_slash Rp Dp Dt) as K3.
        pose proof (kept_outside_trans _ _ _ _ K
                      (kept_outside_trans _ _ _ _ K1 K2)) as K02.
        assert (F2 : file_at f w2).
        { unfold file_at. now rewrite (node_at_outside w2 f K02 A). }
        assert (Ne : Str.resolve f <> Str.resolve toFilePath).
        { intros E. destruct A as [_ A2]. rewrite E in A2. congruence. }
        destruct (undisturbed_outside w2 K02) as [U2 Hb2].
        assert (D2 : data w2 (Str.resolve f) = data W0 (Str.resolve f)).
        { destruct K02 as (_ & D & _). apply D, A. }
        cbn [du] in Hm |- *.
        pose proof (copySingleFile_counts f toFilePath c total w2 F2 Ne U2 Hb2 Hc)
          as Cnt.
        rewrite D2 in Cnt. specialize (Cnt ltac:(lia)). cbv zeta in Cnt.
        destruct (copySingleFile f toFilePath c total "" "" w2) as [[st c1] w3].
        cbn [fst snd] in Cnt, K3.
        set (w4 := if (0 <? total)%Z
                   then store_percentage (percent_of c1 total) w3 else w3).
        assert (K4 : kept_outside (Str.resolve toDirectory) w3 w4).
        { unfold w4. destruct (0 <? total)%Z; [|apply kept_outside_refl].
          apply kept_outside_same; reflexivity || apply le_n. }
        pose proof (kept_outside_trans _ _ _ _ K1
                      (kept_outside_trans _ _ _ _ K2
                         (kept_outside_trans _ _ _ _ K3 K4))) as K14.
        pose proof (kept_outside_trans _ _ _ _ K K14) as K04.
        assert (R1 : (c <= c1
                      <= c + Z.of_nat (List.length (data W0 (Str.resolve f))))%Z).
        { destruct Cnt as [->|[-> _]]; lia. }
        simpl in Hf.
        destruct (IH rest c1 w4 K04 Q' ltac:(lia) ltac:(lia) ltac:(lia))
          as (c' & w' & E & K5 & R5 & E5).
        exists c', w'. split; [exact E|].
        split; [exact (kept_outside_trans _ _ _ _ K14 K5)|]. split; [lia|].
        intros EL.
        destruct K2 as (_ & _ & _ & L2), K3 as (_ & _ & _ & L3),
                 K4 as (_ & _ & _ & L4), K5 as (_ & _ & _ & L5).
        change (trace w1) with (trace w) in L2.
        destruct Cnt as [->|[_ Lt]]; [|lia].
        rewrite E5; lia.
      * pose proof Cn as Cn'. apply clean_dir in Cn'. destruct Cn' as [-> _].
        unfold readdir_all. rewrite N1.
        destruct (queued_children f t es Qh Hn) as [Es Qc]. rewrite Es.
        destruct (children_sums W0 f true es Hn Wn es (incl_refl _)) as [Sz Du].
        rewrite size_dir in Hf. rewrite du_dir in Hm |- *.
        set (kids := map (fun x => (f +++ "/" +++ x, t +++ "/" +++ x)) (names es))
          in *.
        assert (Mk : map fst kids = map (fun x => f +++ "/" +++ x) (names es)).
        { unfold kids. rewrite map_map. reflexivity. }
        assert (Sd : sum_du W0 (map fst (rest ++ kids))
                     = (du_entries (data W0) (Str.resolve f) es
                        + sum_du W0 (map fst rest))%Z).
        { rewrite map_app, sum_du_app, Mk, Du. lia. }
        assert (Ss : sum_size W0 (map fst (rest ++ kids))
                     = sum_size W0 (map fst rest) + sizes es).
        { rewrite map_app, sum_size_app, Mk, Sz. reflexivity. }
        destruct (IH (rest ++ kids) c w1
                     (kept_outside_trans _ _ _ _ K K1)
                     (proj2 (Forall_app _ _ _) (conj Q' Qc))
                     ltac:(lia) Hc ltac:(lia))
          as (c' & w' & E & K5 & R5 & E5).
        exists c', w'. split; [exact E|].
        split; [exact (kept_outside_trans _ _ _ _ K1 K5)|]. rewrite Sd in R5, E5.
        split; [exact R5|]. intros EL. apply E5. exact EL.
      * destruct Cn.
Qed.

Hypothesis wf0 : wf (tree W0).

(** One match of the batch. *)
Lemma copyFileOrDirectory_batch (fuel : nat) (m : string) (c : Z) (w : world) :
  kept_outside (Str.resolve toDirectory) W0 w ->
  copyable fuel (Str.resolve toDirectory) W0 m ->
  (0 <= c)%Z -> (c + du_at W0 m <= LLONG_MAX)%Z ->
  exists c' w',
    copyFileOrDirectory fuel m toDirectory (Some c) total "" "" w = Some (c', w')
    /\ kept_outside (Str.resolve toDirectory) w w'
    /\ (c <= c' <= c + du_at W0 m)%Z
    /\ (List.length (diagnostics (trace w')) = List.length (diagnostics (trace w)) ->
        c' = (c + du_at W0 m)%Z).
Proof using root_slash on_volume dir_slash parent_stays calm0 buffer0 wf0.
  intros K (A & _ & Cl & Sz) Hc Hm.
  unfold copyFileOrDirectory. cbv zeta. rewrite dir_slash. cbn [negb].
  set (w1 := createDirectory toDirectory w).
  assert (K1 : kept_outside (Str.resolve toDirectory) w w1).
  { destruct (touches_createDirectory toDirectory w root_slash on_volume) as [H _].
    exact (touches_outside _ _ _ _ H (is_prefix_refl _)). }
  pose proof (kept_outside_trans _ _ _ _ K K1) as K01.
  destruct (node_at (tree W0) m) as [n|] eqn:Hn.
  - assert (Q : Forall (queued toDirectory W0) [(m, toDirectory)]).
    { constructor; [|constructor]. split; [exact A|].
      split; [apply prefix_refl|]. exists n. split; [exact Hn|].
      split; [now apply Cl|]. unfold node_at in Hn.
      destruct (String.eqb m ""); [discriminate|]. exact (wf_lookup _ _ _ wf0 Hn). }
    destruct (copy_loop_batch fuel [(m, toDirectory)] c w1 K01 Q)
      as (c' & w' & E & K2 & R & Eq).
    + cbn [map fst]. rewrite sum_size_cons. cbn [sum_size fold_right]. lia.
    + exact Hc.
    + cbn [map fst]. rewrite sum_du_cons. cbn [sum_du fold_right]. lia.
    + rewrite E. cbn [map fst] in R, Eq. rewrite sum_du_cons in R, Eq.
      cbn [sum_du fold_right] in R, Eq.
      exists c', w'. split; [reflexivity|].
      split; [exact (kept_outside_trans _ _ _ _ K1 K2)|]. split; [lia|].
      intros EL. destruct K1 as (_ & _ & _ & L1), K2 as (_ & _ & _ & L2).
      rewrite Eq; lia.
  - destruct fuel as [|fuel']; [lia|].
    destruct (undisturbed_outside w1 K01) as [U _].
    cbn [copy_loop]. unfold load_abort. rewrite (proj1 U (loads w1)).
    assert (N1 : node_at (tree (set_loads (S (loads w1)) w1)) m = None).
    { change (tree (set_loads (S (loads w1)) w1)) with (tree w1).
      now rewrite (node_at_outside w1 m K01 A). }
    unfold stat. rewrite N1. destruct fuel'; cbn [copy_loop];
      (eexists; eexists; split; [reflexivity|]);
      unfold du_at; rewrite Hn;
      (split; [|split; [lia|intros _; lia]]);
      (eapply kept_outside_trans; [exact K1|]);
      apply kept_outside_same; try reflexivity; cbn; lia.
Qed.

Lemma copy_each_batch (fuel : nat) :
  forall matches c w,
    kept_outside (Str.resolve toDirectory) W0 w ->
    Forall (copyable fuel (Str.resolve toDirectory) W0) matches ->
    (0 <= c)%Z -> (c + sum_du W0 matches <= LLONG_MAX)%Z ->
    exists c' w',
      copy_each fuel matches toDirectory c total "" "" w = Some (c', w')
      /\ kept_outside (Str.resolve toDirectory) w w'
      /\ (c <= c' <= c + sum_du W0 matches)%Z
      /\ (List.length (diagnostics (trace w'))
          = List.length (diagnostics (trace w)) ->
          c' = (c + sum_du W0 matches)%Z).
Proof using root_slash on_volume dir_slash parent_stays calm0 buffer0 wf0.
  induction matches as [|m rest IH]; intros c w K F Hc Hm.
  - exists c, w. cbn. split; [reflexivity|].
    split; [apply kept_outside_refl|]. split; [lia|]. intros _. lia.
  - inversion F as [|? ? Fm F']; subst.
    rewrite sum_du_cons in Hm |- *.
    pose proof (sum_du_nonneg W0 rest) as Hr.
    destruct (copyFileOrDirectory_batch fuel m c w K Fm Hc ltac:(lia))
      as (c1 & w1 & E1 & K1 & R1 & Q1).
    cbn [copy_each]. rewrite E1.
    destruct (IH c1 w1 (kept_outside_trans _ _ _ _ K K1) F' ltac:(lia) ltac:(lia))
      as (c' & w' & E & K2 & R2 & Q2).
    exists c', w'. split; [exact E|].
    split; [exact (kept_outside_trans _ _ _ _ K1 K2)|]. split; [lia|].
    intros EL. destruct K1 as (_ & _ & _ & L1), K2 as (_ & _ & _ & L2).
    rewrite Q2, Q1; lia.
Qed.

End Batch.

(** ** The combined size of the matches *)

Lemma getTotalSize_du (fuel : nat) (path : string) (w : world) :
  wf (tree w) -> size_at w path <= fuel -> (du_at w path <= LLONG_MAX)%Z ->
  getTotalSize fuel path w = Some (du_at w path).
Proof.
  intros W Hf Hm. unfold getTotalSize, lstat, stat.
  unfold du_at, size_at in Hf, Hm |- *.
  destruct (node_at (tree w) path) as [[|r es|]|] eqn:E; try reflexivity.
  assert (D : dir_at w path).
  { exists r, es. split; [exact E|].
    unfold node_at in E. destruct (String.eqb path ""); [discriminate|].
    exact (wf_lookup _ _ _ W E). }
  pose proof (size_loop_spec w fuel [path] 0%Z) as L.
  cbn [sum_du sum_size fold_right] in L. unfold du_at, size_at in L.
  rewrite E in L. rewrite L; [f_equal; lia| |lia|lia|lia].
  constructor; [exact D|constructor].
Qed.

Lemma sum_sizes_du (fuel : nat) (w : world) :
  wf (tree w) ->
  forall l t,
    Forall (fun m => size_at w m <= fuel) l ->
    (0 <= t)%Z -> (t + sum_du w l <= LLONG_MAX)%Z ->
    sum_sizes fuel l t w = Some (t + sum_du w l)%Z.
Proof.
  intros W. induction l as [|m l IH]; intros t F Ht Hm.
  - cbn. f_equal. lia.
  - inversion F as [|? ? Fm F']; subst. rewrite sum_du_cons in Hm |- *.
    pose proof (sum_du_nonneg w l) as Hl.
    assert (Hd : (0 <= du_at w m)%Z).
    { unfold du_at. destruct (node_at (tree w) m); [apply du_nonneg|lia]. }
    cbn [sum_sizes]. rewrite (getTotalSize_du fuel m w W Fm) by lia.
    rewrite ll_add_exact by lia. rewrite IH; [f_equal; lia|exact F'|lia|lia].
Qed.


End Engine.

(** * Concrete instances *)

Import Sample.

(** C10 on the sample tree: no match, and [sdmc:/flags/] stays absent. *)
Lemma createFlagFiles_no_match_witness :
  glob_none world_a "sdmc:/a/*.nro" = []
  /\ createFlagFiles volume nameOf glob_none "sdmc:/a/*.nro" "sdmc:/flags/" world_a
     = world_a.
Proof.
  split; [reflexivity|].
  apply (createFlagFiles_no_match volume nameOf glob_none). reflexivity.
Defined.

(** C8 on the sample tree. *)
Lemma mirrorFiles_self_copy_witness :
  Forall (fun path => String.prefix "sdmc:/a/" path = true)
         (list_a world_a "sdmc:/a/")
  /\ mirrorFiles false volume parentDir nameOf list_a 0 "sdmc:/a/" "sdmc:/a/" "copy" world_a
     = Returned (O, world_a).
Proof.
  assert (H : Forall (fun path => String.prefix "sdmc:/a/" path = true)
                     (list_a world_a "sdmc:/a/")).
  { repeat constructor. }
  split; [exact H|].
  exact (proj2 (mirrorFiles_self_copy false volume parentDir nameOf list_a
                                      0 "sdmc:/a/" world_a H)).
Defined.

(** C9 as stated fails: [sdmc:/a] names a directory, yet the call with a log
    path creates [sdmc:/logs/] and [sdmc:/logs/del.txt]. *)
Lemma deleteFileOrDirectory_file_path_counterexample :
  Str.ends_with_slash "sdmc:/a" = false
  /\ isFile "sdmc:/a" world_a = false
  /\ isDirectory "sdmc:/a" world_a = true
  /\ exists w',
      deleteFileOrDirectory volume parentDir 0 "sdmc:/a" "sdmc:/logs/del.txt" world_a
      = Some w'
      /\ isFile "sdmc:/logs/del.txt" world_a = false
      /\ isFile "sdmc:/logs/del.txt" w' = true
      /\ tree w' <> tree world_a.
Proof.
  repeat split; try reflexivity.
  eexists. split; [reflexivity|]. repeat split; try reflexivity.
  discriminate.
Qed.

(** C9 (amended) on the same call. *)
Lemma deleteFileOrDirectory_file_path_frame_witness :
  Str.ends_with_slash "sdmc:/a" = false
  /\ isFile "sdmc:/a"
            (snd (open_log volume parentDir "sdmc:/logs/del.txt"
                           "Failed to open source log file: " world_a)) = false
  /\ deleteFileOrDirectory volume parentDir 5 "sdmc:/a" "sdmc:/logs/del.txt" world_a
     = Some (snd (open_log volume parentDir "sdmc:/logs/del.txt"
                           "Failed to open source log file: " world_a)).
Proof.
  split; [reflexivity|]. split; [reflexivity|].
  exact (proj1 (deleteFileOrDirectory_file_path_frame
                  volume parentDir 5 "sdmc:/a" "sdmc:/logs/del.txt" world_a
                  eq_refl eq_refl)).
Defined.

(** C4 as stated fails: with a source that does not exist the open loop is
    entered eleven times before the call gives up. *)
Lemma copySingleFile_open_attempts_counterexample :
  let r := copySingleFile false volume parentDir
                          "sdmc:/missing.bin" "sdmc:/z/out.bin" 0 0 "" "" world_a in
  isFileOrDirectory "sdmc:/missing.bin" world_a = false
  /\ fst (fst r) = CopyOpenFailed
  /\ open_passes (trace (snd r)) = 11
  /\ ~ open_passes (trace (snd r)) <= 10.
Proof.
  cbv zeta. repeat split; try (vm_compute; reflexivity).
  vm_compute. intros H. repeat (apply le_S_n in H). inversion H.
Qed.

(** C2 on a file of four chunks, the flag being set after the first. *)
Lemma copySingleFile_abort_cleanup_witness :
  let r := copySingleFile false volume parentDir
                          "sdmc:/a/c/d.txt" "sdmc:/z/d.txt" 0 4096 "" ""
                          (world_chunked abort_after_first) in
  fst (fst r) = CopyAborted
  /\ isFileOrDirectory "sdmc:/z/d.txt" (snd r) = false
  /\ copyPercentage (snd r) = (-1)%Z
  /\ hd_error (trace (snd r)) = Some (EvStore (-1)).
Proof.
  cbv zeta.
  assert (H : fst (fst (copySingleFile false volume parentDir
                          "sdmc:/a/c/d.txt" "sdmc:/z/d.txt" 0 4096 "" ""
                          (world_chunked abort_after_first))) = CopyAborted)
    by (vm_compute; reflexivity).
  split; [exact H|].
  exact (copySingleFile_abort_cleanup false volume parentDir
           "sdmc:/a/c/d.txt" "sdmc:/z/d.txt" 0 4096 "" ""
           (world_chunked abort_after_first) H).
Defined.

Lemma bounded_world_chunked (abort : nat -> bool) : bounded 4096 (world_chunked abort).
Proof.
  intros p. unfold world_chunked, data_a. cbn [data].
  destruct (path_eqb p ["sdmc:"; "a"; "b.txt"]); [vm_compute; discriminate|].
  destruct (path_eqb p ["sdmc:"; "a"; "c"; "d.txt"]); vm_compute; discriminate.
Defined.


(** The same copy with abortFileOp set between the first and the second
    load: one chunk is written and counted, 25 is stored, then -1. *)
Example copySingleFile_progress_aborted :
  let r := copySingleFile false volume parentDir
                          "sdmc:/a/c/d.txt" "sdmc:/z/d.txt" 4 4100 "" ""
                          (world_chunked abort_after_first) in
  fst (fst r) = CopyAborted /\ snd (fst r) = 1028%Z
  /\ stores (trace (snd r)) = [-1; 25]%Z.
Proof. cbv zeta. repeat split; vm_compute; reflexivity. Qed.

(** C7 on the sample tree: three new levels, then nothing more to do. *)
Lemma createDirectory_idempotent_witness :
  diagnostics (trace (createDirectory volume "sdmc:/x/y/z" world_a))
  = diagnostics (trace world_a)
  /\ isDirectory "sdmc:/x/y/z" world_a = false
  /\ isDirectory "sdmc:/x/y/z" (createDirectory volume "sdmc:/x/y/z" world_a) = true
  /\ createDirectory volume "sdmc:/x/y/z" (createDirectory volume "sdmc:/x/y/z" world_a)
     = createDirectory volume "sdmc:/x/y/z" world_a.
Proof.
  split; [reflexivity|]. split; [reflexivity|]. split; [reflexivity|].
  apply (createDirectory_idempotent volume "sdmc:/x/y/z" world_a). reflexivity.
Defined.

Ltac solve_wf :=
  repeat match goal with
         | |- _ /\ _ => split
         | |- True => exact I
         | |- _ = _ => reflexivity
         | |- NoDup _ => constructor
         | |- ~ In _ _ => simpl; intros H; repeat destruct H as [H|H]; discriminate || exact H
         | |- wf _ => cbn [wf names map fst]
         | |- clean _ => cbn [clean]
         end.

Lemma wf_tree_a : wf (Dir true tree_a).
Proof. unfold tree_a. solve_wf. Defined.

(** C6 on the specification's scenario: [a] holds 4 + 4096 bytes. *)
Lemma getTotalSize_spec_witness :
  wf (tree world_a) /\ size_at world_a "sdmc:/a" <= 10
  /\ (du_at world_a "sdmc:/a" <= LLONG_MAX)%Z
  /\ getTotalSize 10 "sdmc:/a" world_a = Some (du_at world_a "sdmc:/a")
  /\ du_at world_a "sdmc:/a" = 4100%Z.
Proof.
  assert (H1 : wf (tree world_a)) by exact wf_tree_a.
  assert (H2 : size_at world_a "sdmc:/a" <= 10) by (vm_compute; repeat constructor).
  assert (H3 : (du_at world_a "sdmc:/a" <= LLONG_MAX)%Z) by (vm_compute; discriminate).
  repeat (split; [assumption|]).
  split; [|vm_compute; reflexivity].
  exact (proj1 (getTotalSize_spec 10 "sdmc:/a" world_a H1 H2 H3)).
Defined.


(** The run itself: [x], then [v], [u] and [t], each enumerated once more
    and found empty before it is removed; ten turns suffice. *)
Example deleteFileOrDirectory_run :
  option_map (fun w' => (root w', rmdir_listings (trace w'), diagnostics (trace w')))
             (deleteFileOrDirectory volume parentDir 10 "sdmc:/t/" "" world_t)
  = Some ([("sdmc:", Dir true [])], [[]; []; []; []], []).
Proof. vm_compute. reflexivity. Qed.


Lemma undisturbed_world_chunked : undisturbed (world_chunked no_abort).
Proof. split; intros n; reflexivity. Defined.

(** The sample helper keeps a path under the directory it lies in. *)
Lemma upto_last_slash_stays (d : string) :
  forall t, Str.ends_with_slash d = true -> String.prefix d t = true ->
            exists r, upto_last_slash t = Some r /\ String.prefix d r = true.
Proof.
  induction d as [|c d IH]; intros t E P; [discriminate|].
  destruct t as [|c' t]; [discriminate|]. cbn [String.prefix] in P.
  destruct (ascii_dec c c') as [<-|]; [|discriminate].
  cbn [upto_last_slash]. destruct d as [|c2 d].
  - unfold Str.ends_with_slash in E. cbn [Str.back] in E.
    destruct (upto_last_slash t) as [r|].
    + exists (String c r). split; [reflexivity|]. cbn [String.prefix].
      destruct (ascii_dec c c); [now destruct r|congruence].
    + rewrite E. exists (String c ""). split; [reflexivity|]. cbn [String.prefix].
      destruct (ascii_dec c c); [reflexivity|congruence].
  - assert (E' : Str.ends_with_slash (String c2 d) = true) by exact E.
    destruct (IH t E' P) as (r & -> & Pr).
    exists (String c r). split; [reflexivity|]. cbn [String.prefix].
    destruct (ascii_dec c c); [exact Pr|congruence].
Qed.

Lemma parentDir_stays (d t : string) :
  Str.ends_with_slash d = true -> String.prefix d t = true ->
  String.prefix d (parentDir t) = true.
Proof.
  intros E P. unfold parentDir.
  now destruct (upto_last_slash_stays d t E P) as (r & -> & Pr).
Qed.


(** That batch ends at 100 by its last per-file store, the values stored
    being 0, 0, 25, 50, 75, 100 and 100. *)
Example copyFileOrDirectoryByPattern_run :
  option_map (fun w' => (copyPercentage w', stores (trace w'), diagnostics (trace w')))
             (copyFileOrDirectoryByPattern false volume parentDir nameOf glob_a
                20 "sdmc:/a/*" "sdmc:/z/" "" "" (world_chunked no_abort))
  = Some (100, [100; 100; 75; 50; 25; 0; 0], [])%Z.
Proof. vm_compute. reflexivity. Qed.

(** An unreadable directory and a link count for nothing: only [f] does. *)
Example getTotalSize_skips :
  getTotalSize 10 "sdmc:/u" world_u = Some 5%Z
  /\ getTotalSize 10 "sdmc:/u/locked" world_u = Some 0%Z
  /\ getTotalSize 10 "sdmc:/u/link" world_u = Some 0%Z
  /\ getTotalSize 10 "sdmc:/nowhere" world_u = Some 0%Z
  /\ getTotalSize 0 "sdmc:/u/locked/g" world_u = Some 7%Z.
Proof. repeat split; vm_compute; reflexivity. Qed.

(** Why the subtree has to be clean: a link is popped without being
    removed, its directory is enumerated again and again, and no amount of
    fuel tried lets the call return. *)
Example deleteFileOrDirectory_spins :
  deleteFileOrDirectory volume parentDir 200 "sdmc:/u/" "" world_u = None.
Proof. vm_compute. reflexivity. Qed.

(** With a match, on the other hand, the output directory and the flag
    file are made. *)
Example createFlagFiles_with_match :
  let w' := createFlagFiles volume nameOf glob_e "sdmc:/in/*" "sdmc:/flags" world_e in
  isDirectory "sdmc:/flags" world_e = false
  /\ isDirectory "sdmc:/flags" w' = true
  /\ isFile "sdmc:/flags/empty.txt" w' = true.
Proof. cbv zeta. repeat split; vm_compute; reflexivity. Qed.

(** * More concrete instances *)

Import Scenario.

(** X2 on the sample tree: two new levels below the volume. *)
Lemma createDirectory_creates_witness :
  Str.ends_with_slash volume = true
  /\ isFileOrDirectory volume world_a = true
  /\ String.prefix volume "sdmc:/z/y/" = true
  /\ isFileOrDirectory "sdmc:/z/y/" world_a = false
  /\ diagnostics (trace (createDirectory volume "sdmc:/z/y/" world_a))
     = diagnostics (trace world_a)
  /\ isDirectory "sdmc:/z/y/" (createDirectory volume "sdmc:/z/y/" world_a) = true.
Proof.
  assert (H1 : Str.ends_with_slash volume = true) by reflexivity.
  assert (H2 : isFileOrDirectory volume world_a = true) by reflexivity.
  assert (H3 : String.prefix volume "sdmc:/z/y/" = true) by reflexivity.
  assert (H4 : isFileOrDirectory "sdmc:/z/y/" world_a = false) by reflexivity.
  assert (H5 : diagnostics (trace (createDirectory volume "sdmc:/z/y/" world_a))
               = diagnostics (trace world_a)) by reflexivity.
  exact (conj H1 (conj H2 (conj H3 (conj H4 (conj H5 (
         createDirectory_creates volume "sdmc:/z/y/" world_a H1 H2 H3 H4 H5)))))).
Defined.

(** X3 on the sample tree, for the FILE* build and a text with a NUL in
    it: the new file, two levels down, holds what comes before the NUL. *)
Lemma createTextFile_round_trip_witness :
  let w' := createTextFile true volume parentDir "sdmc:/notes/n.txt" text_nul
                           world_a in
  Str.ends_with_slash "sdmc:/notes/n.txt" = false
  /\ diagnostics (trace w') = diagnostics (trace world_a)
  /\ data w' (Str.resolve "sdmc:/notes/n.txt") = list_byte_of_string "ab"
  /\ isFile "sdmc:/notes/n.txt" w' = true
  /\ data w' (Str.resolve "sdmc:/notes/n.txt")
     = kept (fclose_keep world_a (fcloses world_a))
            (list_byte_of_string (c_str text_nul))
  /\ forall s, Str.resolve s <> Str.resolve "sdmc:/notes/n.txt" ->
               isFileOrDirectory s world_a = true ->
               stat s w' = stat s world_a.
Proof.
  cbv zeta.
  assert (H1 : Str.ends_with_slash "sdmc:/notes/n.txt" = false) by reflexivity.
  assert (H2 : diagnostics (trace (createTextFile true volume parentDir
                                     "sdmc:/notes/n.txt" text_nul world_a))
               = diagnostics (trace world_a)) by reflexivity.
  assert (V : data (createTextFile true volume parentDir
                      "sdmc:/notes/n.txt" text_nul world_a)
                   (Str.resolve "sdmc:/notes/n.txt") = list_byte_of_string "ab")
    by (vm_compute; reflexivity).
  exact (conj H1 (conj H2 (conj V
          (createTextFile_round_trip true volume parentDir
             "sdmc:/notes/n.txt" text_nul world_a H1 H2)))).
Defined.


(** X5 on the sample tree: [b.txt] copied to [b.txt]. *)
Lemma copySingleFile_onto_itself_witness :
  let r := copySingleFile false volume parentDir
                          "sdmc:/a/b.txt" "sdmc:/a//b.txt" 0 4 "" "" world_a in
  Str.ends_with_slash "sdmc:/a/b.txt" = false
  /\ Str.ends_with_slash "sdmc:/a//b.txt" = false
  /\ Str.resolve "sdmc:/a/b.txt" = Str.resolve "sdmc:/a//b.txt"
  /\ 0 < COPY_BUFFER_SIZE world_a
  /\ fst (fst r) <> CopyOpenFailed
  /\ fst (fst r) = CopyDone
  /\ snd (fst r) = 0%Z
  /\ isFile "sdmc:/a//b.txt" (snd r) = true
  /\ data (snd r) (Str.resolve "sdmc:/a//b.txt") = [].
Proof.
  cbv zeta.
  assert (H0 : Str.ends_with_slash "sdmc:/a/b.txt" = false) by reflexivity.
  assert (H0' : Str.ends_with_slash "sdmc:/a//b.txt" = false) by reflexivity.
  assert (H1 : Str.resolve "sdmc:/a/b.txt" = Str.resolve "sdmc:/a//b.txt")
    by reflexivity.
  assert (Hb : 0 < COPY_BUFFER_SIZE world_a) by (vm_compute; lia).
  assert (H2 : fst (fst (copySingleFile false volume parentDir
                           "sdmc:/a/b.txt" "sdmc:/a//b.txt" 0 4 "" "" world_a))
               <> CopyOpenFailed) by (vm_compute; discriminate).
  exact (conj H0 (conj H0' (conj H1 (conj Hb (conj H2 (
         copySingleFile_onto_itself false volume parentDir
         "sdmc:/a/b.txt" "sdmc:/a//b.txt" 0 4 world_a H0 H0' H1 Hb H2)))))).
Defined.

(** X6 on the sample tree: a file that is not there copied over [b.txt]. *)
Lemma copySingleFile_source_missing_witness :
  let r := copySingleFile false volume parentDir
                          "sdmc:/a/missing.bin" "sdmc:/a/b.txt" 0 4 "" "" world_a in
  isFileOrDirectory "sdmc:/a/missing.bin"
                    (createDirectory volume (parentDir "sdmc:/a/b.txt") world_a)
  = false
  /\ Str.ends_with_slash "sdmc:/a/b.txt" = false
  /\ Str.resolve "sdmc:/a/missing.bin" <> Str.resolve "sdmc:/a/b.txt"
  /\ (isFile "sdmc:/a/b.txt" world_a = true
      /\ fopen_fault world_a (S (fopens world_a)) = false
      /\ data world_a (Str.resolve "sdmc:/a/b.txt") = bytes 4)
  /\ fst (fst r) = CopyOpenFailed
  /\ snd (fst r) = 0%Z
  /\ (isFile "sdmc:/a/b.txt" world_a = true ->
      fopen_fault world_a (S (fopens world_a)) = false ->
      isFile "sdmc:/a/b.txt" (snd r) = true
      /\ data (snd r) (Str.resolve "sdmc:/a/b.txt") = []).
Proof.
  cbv zeta.
  assert (H1 : isFileOrDirectory "sdmc:/a/missing.bin"
                 (createDirectory volume (parentDir "sdmc:/a/b.txt") world_a)
               = false) by reflexivity.
  assert (H2 : Str.ends_with_slash "sdmc:/a/b.txt" = false) by reflexivity.
  assert (H3 : Str.resolve "sdmc:/a/missing.bin" <> Str.resolve "sdmc:/a/b.txt")
    by (vm_compute; discriminate).
  assert (V : isFile "sdmc:/a/b.txt" world_a = true
              /\ fopen_fault world_a (S (fopens world_a)) = false
              /\ data world_a (Str.resolve "sdmc:/a/b.txt") = bytes 4)
    by (repeat split; reflexivity).
  exact (conj H1 (conj H2 (conj H3 (conj V (
         copySingleFile_source_missing false volume parentDir
         "sdmc:/a/missing.bin" "sdmc:/a/b.txt" 0 4 "" "" world_a H1 H2 H3))))).
Defined.

(** X7 on a medium that is full. *)
Lemma copySingleFile_write_failure_cleanup_witness :
  let r := copySingleFile false volume parentDir
                          "sdmc:/a/b.txt" "sdmc:/z/b.txt" 0 4 "" "" world_full in
  fst (fst r) = CopyWriteFailed
  /\ isFileOrDirectory "sdmc:/z/b.txt" (snd r) = false
  /\ copyPercentage (snd r) = (-1)%Z
  /\ exists tr,
      trace (snd r)
      = EvStore (-1) :: EvLog "Error writing to destination file." :: tr.
Proof.
  cbv zeta.
  assert (H : fst (fst (copySingleFile false volume parentDir
                          "sdmc:/a/b.txt" "sdmc:/z/b.txt" 0 4 "" "" world_full))
              = CopyWriteFailed) by (vm_compute; reflexivity).
  split; [exact H|].
  exact (copySingleFile_write_failure_cleanup false volume parentDir
           "sdmc:/a/b.txt" "sdmc:/z/b.txt" 0 4 "" "" world_full H).
Defined.

(** X8 on the sample tree: [a/] copied to [z/]. *)
Lemma copyFileOrDirectory_top_level_end_witness :
  let run := copyFileOrDirectory false volume parentDir nameOf
                                 20 "sdmc:/a/" "sdmc:/z/" None 4100 "" "" world_a in
  let w' := snd (outcome_of run) in
  Str.ends_with_slash "sdmc:/z/" = true
  /\ run = Some (fst (outcome_of run), w')
  /\ ((copyPercentage w' = 100%Z /\ hd_error (trace w') = Some (EvStore 100))
      \/ (copyPercentage w' = (-1)%Z /\ hd_error (trace w') = Some (EvStore (-1))))
  /\ ((forall n, abortFileOp world_a n = false) -> copyPercentage w' = 100%Z).
Proof.
  cbv zeta.
  assert (H1 : Str.ends_with_slash "sdmc:/z/" = true) by reflexivity.
  assert (H2 : copyFileOrDirectory false volume parentDir nameOf
                                   20 "sdmc:/a/" "sdmc:/z/" None 4100 "" "" world_a
               = Some (fst (outcome_of
                              (copyFileOrDirectory false volume parentDir nameOf
                                 20 "sdmc:/a/" "sdmc:/z/" None 4100 "" "" world_a)),
                       snd (outcome_of
                              (copyFileOrDirectory false volume parentDir nameOf
                                 20 "sdmc:/a/" "sdmc:/z/" None 4100 "" "" world_a))))
    by (vm_compute; reflexivity).
  exact (conj H1 (conj H2 (
         copyFileOrDirectory_top_level_end false volume parentDir nameOf
         20 "sdmc:/a/" "sdmc:/z/" 4100 "" "" world_a _ _ H1 H2))).
Defined.

(** X9 on the empty file of the other sample tree. *)
Lemma copyFileOrDirectory_file_path_empty_witness :
  let run := copyFileOrDirectory false volume parentDir nameOf
                                 20 "sdmc:/in/empty.txt" "sdmc:/out.txt" None 0
                                 "" "" world_e in
  let w' := snd (outcome_of run) in
  Str.ends_with_slash "sdmc:/out.txt" = false
  /\ data world_e (Str.resolve "sdmc:/in/empty.txt") = []
  /\ run = Some (fst (outcome_of run), w')
  /\ fst (outcome_of run) = 0%Z
  /\ copyPercentage w' = copyPercentage world_e
  /\ stores (trace w') = stores (trace world_e).
Proof.
  cbv zeta.
  assert (H1 : Str.ends_with_slash "sdmc:/out.txt" = false) by reflexivity.
  assert (H2 : data world_e (Str.resolve "sdmc:/in/empty.txt") = []) by reflexivity.
  assert (H3 : copyFileOrDirectory false volume parentDir nameOf
                                   20 "sdmc:/in/empty.txt" "sdmc:/out.txt" None 0
                                   "" "" world_e
               = Some (fst (outcome_of
                              (copyFileOrDirectory false volume parentDir nameOf
                                 20 "sdmc:/in/empty.txt" "sdmc:/out.txt" None 0
                                 "" "" world_e)),
                       snd (outcome_of
                              (copyFileOrDirectory false volume parentDir nameOf
                                 20 "sdmc:/in/empty.txt" "sdmc:/out.txt" None 0
                                 "" "" world_e))))
    by (vm_compute; reflexivity).
  exact (conj H1 (conj H2 (conj H3 (
         copyFileOrDirectory_file_path_empty false volume parentDir nameOf
         20 "sdmc:/in/empty.txt" "sdmc:/out.txt" 0 "" "" world_e _ _ H1 H2 H3)))).
Defined.

(** X10 on the sample tree: [b.txt] deleted. *)
Lemma deleteFileOrDirectory_removes_file_witness :
  Str.ends_with_slash "sdmc:/a/b.txt" = false
  /\ isFile "sdmc:/a/b.txt" world_a = true
  /\ exists w',
      deleteFileOrDirectory volume parentDir 0 "sdmc:/a/b.txt" "" world_a = Some w'
      /\ isFileOrDirectory "sdmc:/a/b.txt" w' = false
      /\ trace w' = trace world_a
      /\ forall s, Str.resolve s <> Str.resolve "sdmc:/a/b.txt" ->
                   stat s w' = stat s world_a.
Proof.
  assert (H1 : Str.ends_with_slash "sdmc:/a/b.txt" = false) by reflexivity.
  assert (H2 : isFile "sdmc:/a/b.txt" world_a = true) by reflexivity.
  exact (conj H1 (conj H2 (
         deleteFileOrDirectory_removes_file volume parentDir 0 "sdmc:/a/b.txt"
         world_a H1 H2))).
Defined.

Lemma clean_entries_a : clean (Dir true entries_a).
Proof. unfold entries_a. solve_wf. Defined.

Lemma wf_entries_a : wf (Dir true entries_a).
Proof. unfold entries_a. solve_wf. Defined.

(** X11 on three levels of directories: [t/] deleted with all it
    holds. *)
Lemma deleteFileOrDirectory_removes_subtree_witness :
  Str.ends_with_slash "sdmc:/t/" = true
  /\ Str.resolve "sdmc:/t/" <> []
  /\ node_at (tree world_t) "sdmc:/t/" = Some (Dir true entries_t)
  /\ directories_only (Dir true entries_t) /\ wf (Dir true entries_t)
  /\ exists k w',
      (forall fuel, k <= fuel ->
                    deleteFileOrDirectory volume parentDir fuel "sdmc:/t/" "" world_t
                    = Some w')
      /\ tree w' = set_at (Str.resolve "sdmc:/t/") None (tree world_t)
      /\ data w' = data world_t
      /\ forall s,
          if is_prefix (Str.resolve "sdmc:/t/") (Str.resolve s)
          then isFileOrDirectory s w' = false
          else stat s w' = stat s world_t.
Proof.
  assert (H1 : Str.ends_with_slash "sdmc:/t/" = true) by reflexivity.
  assert (H2 : Str.resolve "sdmc:/t/" <> []) by discriminate.
  assert (H3 : node_at (tree world_t) "sdmc:/t/" = Some (Dir true entries_t))
    by reflexivity.
  assert (H4 : directories_only (Dir true entries_t)) by (cbn; repeat split).
  assert (H5 : wf (Dir true entries_t)) by (unfold entries_t; solve_wf).
  exact (conj H1 (conj H2 (conj H3 (conj H4 (conj H5 (
         deleteFileOrDirectory_removes_subtree volume parentDir "sdmc:/t/" world_t
         (Dir true entries_t) H1 H2 H3 H4 H5)))))).
Defined.

(** X12 on the tree with a link: the link is the entry that stays. *)
Lemma deleteFileOrDirectory_never_returns_witness :
  let w0 := snd (open_log volume parentDir "" "Failed to open source log file: "
                          world_u) in
  Str.ends_with_slash "sdmc:/u/" = true
  /\ readdir_all "sdmc:/u/" w0 <> None
  /\ lookup (Str.resolve "sdmc:/u/" ++ "link" :: []) (tree w0) = Some Special
  /\ undeletable Special /\ is_dot "link" = false
  /\ forall fuel,
      deleteFileOrDirectory volume parentDir fuel "sdmc:/u/" "" world_u = None.
Proof.
  cbv zeta.
  assert (H1 : Str.ends_with_slash "sdmc:/u/" = true) by reflexivity.
  assert (H2 : readdir_all "sdmc:/u/"
                           (snd (open_log volume parentDir ""
                                          "Failed to open source log file: " world_u))
               <> None) by (vm_compute; discriminate).
  assert (H3 : lookup (Str.resolve "sdmc:/u/" ++ "link" :: [])
                      (tree (snd (open_log volume parentDir ""
                                           "Failed to open source log file: " world_u)))
               = Some Special) by reflexivity.
  assert (H4 : undeletable Special) by exact I.
  assert (H5 : is_dot "link" = false) by reflexivity.
  exact (conj H1 (conj H2 (conj H3 (conj H4 (conj H5 (
         deleteFileOrDirectory_never_returns volume parentDir "sdmc:/u/" ""
         "link" [] Special world_u H1 H2 H3 H4 H5)))))).
Defined.

(** X13 on the two files of the sample tree. *)
Lemma deleteFileOrDirectoryByPattern_files_witness :
  Forall (fun p => Str.ends_with_slash p = false) (list_a world_a "sdmc:/a/*.txt")
  /\ exists w',
      deleteFileOrDirectoryByPattern volume parentDir list_a 0 "sdmc:/a/*.txt" "" world_a
      = Some w'
      /\ Forall (fun p => isFile p w' = false) (list_a world_a "sdmc:/a/*.txt")
      /\ (forall s,
            (forall p, In p (list_a world_a "sdmc:/a/*.txt") ->
                       Str.resolve s <> Str.resolve p) ->
            stat s w' = stat s world_a).
Proof.
  assert (H : Forall (fun p => Str.ends_with_slash p = false)
                     (list_a world_a "sdmc:/a/*.txt")) by (repeat constructor).
  split; [exact H|].
  exact (deleteFileOrDirectoryByPattern_files volume parentDir list_a 0
           "sdmc:/a/*.txt" world_a H).
Defined.

(** X14 on the sample tree, with a mode the function does not know. *)
Lemma mirrorFiles_other_mode_witness :
  String.eqb "move" "copy" = false /\ String.eqb "move" "delete" = false
  /\ mirrorFiles false volume parentDir nameOf list_a 0 "sdmc:/a/" "sdmc:/b/" "move"
                 world_a
     = if forallb (fun p => Nat.leb (String.length "sdmc:/a/") (String.length p))
                  (list_a world_a "sdmc:/a/")
       then Returned (O, world_a) else OutOfRange.
Proof.
  assert (H1 : String.eqb "move" "copy" = false) by reflexivity.
  assert (H2 : String.eqb "move" "delete" = false) by reflexivity.
  exact (conj H1 (conj H2 (
         mirrorFiles_other_mode false volume parentDir nameOf list_a 0
         "sdmc:/a/" "sdmc:/b/" "move" world_a H1 H2))).
Defined.

(** X15 on the sample tree mirrored onto itself: both files go. *)
Lemma mirrorFiles_delete_witness :
  Forall (fun p => String.prefix "sdmc:/a/" p = true /\ p <> "sdmc:/a/"
                   /\ Str.ends_with_slash p = false)
         (list_a world_a "sdmc:/a/")
  /\ exists w',
      mirrorFiles false volume parentDir nameOf list_a 0 "sdmc:/a/" "sdmc:/a/" "delete"
                  world_a
      = Returned (O, w')
      /\ Forall (fun p => exists u, mirror_target "sdmc:/a/" "sdmc:/a/" p = Some u
                                    /\ isFile u w' = false)
                (list_a world_a "sdmc:/a/")
      /\ (forall s,
            (forall p u, In p (list_a world_a "sdmc:/a/") ->
                         mirror_target "sdmc:/a/" "sdmc:/a/" p = Some u ->
                         Str.resolve s <> Str.resolve u) ->
            stat s w' = stat s world_a).
Proof.
  assert (H : Forall (fun p => String.prefix "sdmc:/a/" p = true /\ p <> "sdmc:/a/"
                               /\ Str.ends_with_slash p = false)
                     (list_a world_a "sdmc:/a/")).
  { repeat constructor; discriminate. }
  split; [exact H|].
  exact (mirrorFiles_delete false volume parentDir nameOf list_a 0
           "sdmc:/a/" "sdmc:/a/" world_a H).
Defined.

(** X16 on the sample tree: the flag of [b.txt]. *)
Lemma createFlagFiles_creates_witness :
  let w1 := createDirectory volume "sdmc:/flags" world_a in
  let outFile := "sdmc:/flags/b.txt" in
  In "sdmc:/a/b.txt" (glob_a world_a "sdmc:/a/*")
  /\ Str.valid_name (nameOf "sdmc:/a/b.txt") = true
  /\ (forall n, fopen_fault world_a n = false)
  /\ isDirectory "sdmc:/flags" w1 = true
  /\ (stat outFile w1 = None \/ isFile outFile w1 = true)
  /\ isFile outFile (createFlagFiles volume nameOf glob_a "sdmc:/a/*" "sdmc:/flags"
                                     world_a) = true
  /\ data (createFlagFiles volume nameOf glob_a "sdmc:/a/*" "sdmc:/flags" world_a)
          (Str.resolve outFile) = [].
Proof.
  cbv zeta.
  assert (H1 : In "sdmc:/a/b.txt" (glob_a world_a "sdmc:/a/*")) by (now left).
  assert (H2 : Str.valid_name (nameOf "sdmc:/a/b.txt") = true) by reflexivity.
  assert (H3 : forall n, fopen_fault world_a n = false) by reflexivity.
  assert (H4 : isDirectory "sdmc:/flags"
                           (createDirectory volume "sdmc:/flags" world_a) = true)
    by reflexivity.
  assert (H5 : stat "sdmc:/flags/b.txt"
                    (createDirectory volume "sdmc:/flags" world_a) = None
               \/ isFile "sdmc:/flags/b.txt"
                         (createDirectory volume "sdmc:/flags" world_a) = true)
    by (now left).
  exact (conj H1 (conj H2 (conj H3 (conj H4 (conj H5 (
         createFlagFiles_creates volume nameOf glob_a "sdmc:/a/*" "sdmc:/flags"
         "sdmc:/a/b.txt" world_a H1 H2 H3 H4 H5)))))).
Defined.

(** X17 on the sample tree: [b.txt] moved into a new directory. *)
Lemma moveFile_moves_witness :
  let target := "sdmc:/z/b.txt" in
  let w' := moveFile volume parentDir nameOf false "sdmc:/a/b.txt" "sdmc:/z/" "" ""
                     world_a in
  isFile "sdmc:/a/b.txt" world_a = true
  /\ Str.resolve target <> Str.resolve "sdmc:/a/b.txt"
  /\ diagnostics (trace w') = diagnostics (trace world_a)
  /\ isFile target w' = true
  /\ data w' (Str.resolve target) = data world_a (Str.resolve "sdmc:/a/b.txt")
  /\ isFileOrDirectory "sdmc:/a/b.txt" w' = false
  /\ forall s, Str.resolve s <> Str.resolve "sdmc:/a/b.txt" ->
               Str.resolve s <> Str.resolve target ->
               isFileOrDirectory s world_a = true -> stat s w' = stat s world_a.
Proof.
  cbv zeta.
  assert (H1 : isFile "sdmc:/a/b.txt" world_a = true) by reflexivity.
  assert (H2 : Str.resolve "sdmc:/z/b.txt" <> Str.resolve "sdmc:/a/b.txt")
    by (vm_compute; discriminate).
  assert (H3 : diagnostics (trace (moveFile volume parentDir nameOf false
                                            "sdmc:/a/b.txt" "sdmc:/z/" "" "" world_a))
               = diagnostics (trace world_a)) by reflexivity.
  exact (conj H1 (conj H2 (conj H3 (
         moveFile_moves volume parentDir nameOf false "sdmc:/a/b.txt" "sdmc:/z/"
         world_a H1 H2 H3)))).
Defined.

(** X18 on the sample tree: [b.txt] moved to [b.txt]. *)
Lemma moveFile_onto_itself_witness :
  isFile "sdmc:/a/b.txt" world_a = true
  /\ Str.ends_with_slash "sdmc:/a//b.txt" = false
  /\ Str.resolve "sdmc:/a/b.txt" = Str.resolve "sdmc:/a//b.txt"
  /\ isFile "sdmc:/a/b.txt"
            (moveFile volume parentDir nameOf false "sdmc:/a/b.txt" "sdmc:/a//b.txt"
                      "" "" world_a) = false
  /\ isFile "sdmc:/a//b.txt"
            (moveFile volume parentDir nameOf false "sdmc:/a/b.txt" "sdmc:/a//b.txt"
                      "" "" world_a) = false.
Proof.
  assert (H1 : isFile "sdmc:/a/b.txt" world_a = true) by reflexivity.
  assert (H2 : Str.ends_with_slash "sdmc:/a//b.txt" = false) by reflexivity.
  assert (H3 : Str.resolve "sdmc:/a/b.txt" = Str.resolve "sdmc:/a//b.txt")
    by reflexivity.
  exact (conj H1 (conj H2 (conj H3 (
         moveFile_onto_itself volume parentDir nameOf false
         "sdmc:/a/b.txt" "sdmc:/a//b.txt" "" "" world_a H1 H2 H3)))).
Defined.

(** X19 on the sample tree: [a/] moved to [z/]. *)
Lemma moveDirectory_moves_witness :
  node_at (tree world_a) "sdmc:/a/" = Some (Dir true entries_a)
  /\ clean (Dir true entries_a) /\ wf (Dir true entries_a)
  /\ String.eqb "sdmc:/z/" "" = false
  /\ is_prefix (Str.resolve "sdmc:/a/") (Str.resolve "sdmc:/z/") = false
  /\ vacant "sdmc:/z/" world_a
  /\ exists k w',
      (forall fuel, k <= fuel ->
         moveDirectory volume parentDir false fuel "sdmc:/a/" "sdmc:/z/" "" "" world_a
         = Some w')
      /\ lookup (Str.resolve "sdmc:/z/") (tree w') = Some (Dir true entries_a)
      /\ (forall rel, lookup rel (Dir true entries_a) = Some File ->
            data w' (Str.resolve "sdmc:/z/" ++ rel)
            = data world_a (Str.resolve "sdmc:/a/" ++ rel))
      /\ isFileOrDirectory "sdmc:/a/" w' = false
      /\ trace w' = trace world_a
      /\ forall q, is_prefix (Str.resolve "sdmc:/a/") (Str.resolve q) = false ->
                   is_prefix (Str.resolve "sdmc:/z/") (Str.resolve q) = false ->
                   stat q w' = stat q world_a.
Proof.
  assert (H1 : node_at (tree world_a) "sdmc:/a/" = Some (Dir true entries_a))
    by reflexivity.
  assert (H2 : String.eqb "sdmc:/z/" "" = false) by reflexivity.
  assert (H3 : is_prefix (Str.resolve "sdmc:/a/") (Str.resolve "sdmc:/z/") = false)
    by reflexivity.
  assert (H4 : vacant "sdmc:/z/" world_a) by (left; split; reflexivity).
  exact (conj H1 (conj clean_entries_a (conj wf_entries_a (conj H2 (conj H3 (conj H4 (
         moveDirectory_moves volume parentDir false "sdmc:/a/" "sdmc:/z/" entries_a
         world_a H1 clean_entries_a wf_entries_a H2 H3 H4))))))).
Defined.

(** The run itself: two turns of the loop, and the tree is at [z]. *)
Example moveDirectory_run :
  option_map (fun w' => (root w', diagnostics (trace w')))
             (moveDirectory volume parentDir false 2 "sdmc:/a/" "sdmc:/z/" "" "" world_a)
  = Some ([("sdmc:", Dir true [("z", Dir true entries_a)])], []).
Proof. vm_compute. reflexivity. Qed.
